(* ===== verification/_CoqProject ===== *)
-Q . S2P
Prelude.v
Strings.v
Locks.v
Fifo.v
Bitops.v
Bitmap.v
Scratch.v
Heap.v
Pmp.v
Memregion.v
HartPmp.v
Domain.v
Hsm.v
Ipi.v
Tlb.v
Rfence.v
Wake.v
Trap.v
Resume.v
Insn.v
Ldst.v
Dlist.v
Sse.v
SseInv.v
SseCalls.v
SseNest.v
SseResume.v
Ecall.v
Ring.v
Bridge.v
SandboxMem.v
JitSandbox.v
