(* ===== verification/Prelude.v ===== *)
(** * Verification of the C side of riscv-emu-golang

    riscv-emu-golang emulates 64-bit RISC-V machines.  Its C code falls into two
    groups.  The firmware under src/xendor/opensbi runs in machine mode in the
    guest: it owns the physical memory protection (PMP), divides memory and
    harts (hardware threads) into domains, and starts and stops harts on behalf
    of the supervisor.  The host side (src/bridge, src/bridge2,
    src/jit_sandbox.c) connects the Go program to C threads and to native code
    made by the JIT compiler.  This library models both groups and proves what
    they rely on.  Paths below are relative to src/xendor/opensbi unless they
    start with src/.

    ** Files

    - Prelude: machine integers, the error codes of include/sbi/sbi_error.h,
      generic lemmas, the hint databases [sbi] and [wordz] and the tactics.
    - Strings: lib/sbi/sbi_string.c over a total byte memory.
    - Locks: lib/sbi/riscv_locks.c, the ticket lock as a 32-bit word, with a step
      relation for any number of harts.
    - Fifo: lib/sbi/sbi_fifo.c, over the byte array the FIFO owns.
    - Bitops, Bitmap: include/sbi/sbi_bitops.h, sbi_bitmap.h, sbi_hartmask.h and
      their C files, lib/sbi/sbi_math.c.
    - Scratch: lib/sbi/sbi_scratch.c, the per-hart memory and the tables between
      hart ids and hart indices.
    - Heap: lib/sbi/sbi_heap.c, the allocator with its node pool.
    - Pmp: lib/sbi/sbi_pmp.c, and the PMP unit of Spike
      (src/xendor/riscv-isa-sim/riscv/csrs.cc and mmu.cc) as the hardware.
    - Memregion, Domain: lib/sbi/sbi_domain.c.  Memregion has the regions, the
      address checks, sorting and merging; Domain has the table of domains, the
      root domain and the assignment of harts.
    - HartPmp: lib/sbi/sbi_hart_pmp.c and lib/sbi/sbi_hart_protection.c, which
      program the hardware of Pmp from the regions of Memregion.
    - Hsm: lib/sbi/sbi_hsm.c with the warm boot path of lib/sbi/sbi_init.c and
      sbi_domain_startup, which use Scratch and Domain.
    - Ipi: lib/sbi/sbi_ipi.c, the table of events, the choice of target harts
      and the bits that carry an event from one hart to another.
    - Tlb: lib/sbi/sbi_tlb.c, the remote fence requests: merging, the queues
      (the FIFO of Fifo), the loops that send, wait and serve as one program
      counter per hart.  Rfence has the step relation of all harts with its
      invariant, Wake the hand-over between the event bits of Ipi and the
      queues of Tlb.
    - Trap: sbi_trap_redirect of lib/sbi/sbi_trap.c with the trap entry and
      exit of firmware/fw_base.S, and the trap unit of Spike
      (src/xendor/riscv-isa-sim/riscv/processor.cc, csrs.cc, insns/mret.h) as
      the hardware.  Resume has the return to the code that trapped.
    - Insn: the decoding of loads and stores, include/sbi/riscv_encoding.h and
      lib/sbi/sbi_trap_ldst.c, and the instructions of Spike (riscv/decode.h,
      riscv/insns).
    - Ldst: the emulation of misaligned and faulting loads and stores,
      lib/sbi/sbi_trap_ldst.c and lib/sbi/sbi_unpriv.c, and the memory unit of
      Spike (riscv/mmu.cc).
    - Dlist: include/sbi/sbi_list.h, rings of nodes over a memory of pointers.
    - Sse: supervisor software events, lib/sbi/sbi_sse.c and
      lib/sbi/sbi_ecall_sse.c, over the lists of Dlist and the hart of Trap.
      SseInv has their invariant, SseCalls what each call does to it, SseNest all
      sequences of calls, starts and stops, SseResume what a handler and the code
      it interrupts see.
    - Ecall: lib/sbi/sbi_ecall.c and lib/sbi/sbi_ecall_base.c, the registry of
      extensions and the dispatcher, with the registration callbacks of
      lib/sbi/sbi_ecall_*.c.
    - Ring, SandboxMem: src/bridge2/sandbox.c and the Go producer of
      src/bridge2/sandbox.go.
    - Bridge: src/bridge/bridge.c and the Go producer of src/bridge/bridge.go.
    - JitSandbox: src/jit_sandbox.c and src/jit_sandbox_amd64.S.

    ** How code becomes definitions

    Definitions keep the names of the C functions.  A struct is a [Record], an
    operation a function from the old to the new state, and global variables of
    a C file form the record of its file ([scratch_state], [domain_state],
    [sbi_heap_control], [hart_pmp], [sse_state], [ecall_state]).  A w-bit integer is a [Z] with [wrap] after
    every operation that can leave its range, so overflow happens where it does
    in C.  Pointers that may be NULL are [option]s; error codes are the negative
    numbers of sbi_error.h.  Where a function would wait for ever on a lock its
    result is [None].  Code outside the repository (mmap, the platform's hart
    device, native code of the JIT) is an argument, with what its documentation
    promises as hypotheses ([MmapLaws], [jit_conforms], the [answers] of the
    platform), and every theorem with hypotheses has an instance that meets
    them.

    Concurrent code is cut at its accesses to shared memory: a function gives
    the next access of each thread, a step relation picks any thread, and the
    theorems hold in every state reachable through it.  Accesses are taken in
    program order; the fences and acquire/release orders that make this hold on
    weaker machines are not modelled themselves.  The exception is Bridge, whose
    threads have the store buffers of the x86: its code relies on an order of a
    store and a load that nothing in it enforces.
    The functions of Sse hold a lock around what they change and run in one piece
    each; what they ask of other parts is recorded in order, and the rules a
    supervisor has to keep are [allowed] and [env_ok].

    ** What the theorems show

    - Isolation: whatever is added to the root domain, supervisor and user mode
      cannot reach the firmware (Domain); both ways to program the PMP enforce
      what the domain says on the hardware of Spike (HartPmp); a PMP entry
      matches exactly its region, and a locked one cannot be changed (Pmp).
    - Domains: the range check agrees with checking each address (an equivalence
      with its naive definition); after sorting and merging the most specific of the
      regions given decides each access, and merging keeps what regions mean;
      each hart is in exactly one domain, an invariant of registration.
    - Harts: a started hart enters with the parameters of the call that started
      it, in every interleaving; suspend and resume give the hart its state
      back; a start has a contract between the caller and the hart started (Hsm).
    - Remote fences: when the call returns, every hart it names has performed
      the fences asked for, in every interleaving and whatever was merged
      (Rfence); a queued request is never left without an event that wakes its
      hart (Wake); the queue of requests is the FIFO of Fifo on the bytes of
      the records (Tlb); an event goes to the harts of the mask that can take
      it and to no other (Ipi).
    - Traps: a trap the firmware redirects leaves the hart exactly as if the
      hardware had delegated it (Trap); the firmware decodes loads and stores as
      the hardware does (Insn), and an emulated access leaves registers and memory
      as the access itself would, faults in the middle of it included; with the
      floating point unit off there is nothing to emulate (Ldst).
    - Software events: in every reachable state all calls return and the running
      handlers of each hart are a stack; the lists of enabled events are exact and
      the attributes typed; harts can stop and start (SseNest).  A handler starts
      with what it needs, and the interrupted code goes on with all it can see as
      it was (SseResume).
    - Environment calls: at boot exactly the available extensions are registered;
      a call reaches the extension that has its number and the probe function
      tells the truth; the list of extensions is a partial map from numbers to
      extensions (Ecall).
    - Building blocks: the heap never hands out overlapping memory, the FIFO is
      a bounded queue, the ticket lock excludes and is fair, hart masks are
      finite sets, scratch blocks are disjoint, bit searches return the least
      bit, memmove copies whatever the overlap.
    - Host side: the work ring delivers in order and answers synchronous
      callers; the sandbox memory is guarded and never writable and executable
      at once; a call into native code gives the caller its registers and results
      and the bytes it borrows back, and touches no other memory; a value pushed
      in time wakes the worker of the bridge.
    - What does not hold is proved as well, each as a theorem with a concrete
      instance: lost wake-ups and misdelivered results of the ring, a lost wake-up
      of the bridge and its stall, the redirected hart, regions at the top of memory, write-only
      regions with Smepmp, sandwiched regions, wrapped sizes in the heap, a
      flush of all addresses lost in a merge, a landing pad state that outlives
      a redirection, a hypervisor resumed as a guest, a list of events that never
      ends once an event left in it by a stopped hart is enabled again, attributes that are read twice.

    ** Bounds and fuel

    Loops over lists are structural.  Loops with another measure take fuel: the
    range check [range_fuel], one round per region and boundary, proved
    sufficient in [check_addr_range_exact] for regions below the top of memory
    and insufficient for any amount otherwise ([check_addr_range_can_loop]); the
    merge loop of the root domain one round per region, proved to reach a fixed
    point in [root_add_memregion_correct]; the hart mask iterator 129 rounds for
    128 bits; region orders 64 rounds.  Emulated accesses have one round per byte
    or piece.  A walk over a list has one round per node that exists; that is
    enough for every well-formed list ([for_each_spec] in Dlist), and no amount is
    enough for a node linked to itself ([for_each_loops]).  Machine words are 64 bits wide, hart
    masks have 128 bits, the PMP 64 entries, as in the configuration built
    here.

    ** Not modelled

    - Firmware: counters, message proxy, debug triggers, firmware features, the
      choice of a trap handler by cause, the emulation of vector accesses, atomics
      and CSR instructions, timer, interrupt controllers, domain contexts and
      system reset.  The handlers of the environment calls into those parts are
      an argument of the dispatcher.  The cold boot sequence is a list of calls to
      those parts.
    - Console output has no effect on the state modelled and is left out of the
      definitions.  Hart feature detection, floating point and vector contexts
      and the atomic primitives are single machine instructions.
    - Device drivers and device tree parsing read hardware registers.
    - The emulator and the JIT are Go code; the other directories of
      src/xendor (Spike outside its PMP, trap and load/store units, libriscv,
      LuaJIT, SoftFloat, TestFloat, CoreMark, Dhrystone) are third-party programs
      used as guests or as oracles in tests. *)

From stdpp Require Export base tactics option list list_numbers numbers relations.
From Stdlib Require Export ZArith Lia ZifyBool.

(** Notations of the development live in a scope of their own. *)
Declare Scope sbi_scope.
Delimit Scope sbi_scope with sbi.

Create HintDb sbi.
Create Rewrite HintDb wordz.

Local Open Scope Z_scope.

(** ** Machine integers

    A [w]-bit unsigned C integer is a [Z] in [0, 2^w); every C operation that
    can leave the range is followed by [wrap]. *)

Definition wrap (w z : Z) : Z := z mod 2 ^ w.

Abbreviation u8 := (wrap 8).
Abbreviation u16 := (wrap 16).
Abbreviation u32 := (wrap 32).
Abbreviation u64 := (wrap 64).

Definition in_range (w z : Z) : Prop := 0 <= z < 2 ^ w.

(** [~z] on a [w]-bit operand. *)
Definition not_w (w z : Z) : Z := wrap w (Z.lnot z).

(** [z << n] and [z >> n] on a 64-bit operand; [-1UL] is [ULONG_MAX]. *)
Definition shl64 (z n : Z) : Z := u64 (Z.shiftl z n).
Definition ULONG_MAX : Z := 2 ^ 64 - 1.

(** C truth value of an integer expression. *)
Definition truthy (z : Z) : bool := negb (z =? 0).

(** Some power-of-two facts [lia] cannot see through a variable exponent. *)
Lemma pow2_pos k : 0 <= k -> 0 < 2 ^ k.
Proof. intros. apply Z.pow_pos_nonneg; lia. Qed.

Lemma pow2_le j k : j <= k -> 2 ^ j <= 2 ^ k.
Proof. intros. apply Z.pow_le_mono_r; lia. Qed.

Lemma pow2_lt j k : 0 <= k -> j < k -> 2 ^ j < 2 ^ k.
Proof. intros. apply Z.pow_lt_mono_r; lia. Qed.

Lemma pow2_split j k : 0 <= j <= k -> 2 ^ k = 2 ^ (k - j) * 2 ^ j.
Proof. intros. rewrite <- Z.pow_add_r by lia. f_equal. lia. Qed.

Lemma wrap_range w z : 0 <= w -> 0 <= wrap w z < 2 ^ w.
Proof. intros. apply Z.mod_pos_bound. by apply pow2_pos. Qed.

Lemma wrap_id w z : 0 <= z < 2 ^ w -> wrap w z = z.
Proof. apply Z.mod_small. Qed.

Lemma wrap_wrap w z : wrap w (wrap w z) = wrap w z.
Proof. apply Zmod_mod. Qed.

Lemma wrap_add_l w a b : wrap w (wrap w a + b) = wrap w (a + b).
Proof. apply Zplus_mod_idemp_l. Qed.

Lemma wrap_add_r w a b : wrap w (a + wrap w b) = wrap w (a + b).
Proof. apply Zplus_mod_idemp_r. Qed.

Lemma wrap_sub_l w a b : wrap w (wrap w a - b) = wrap w (a - b).
Proof. apply Zminus_mod_idemp_l. Qed.

Lemma wrap_sub_r w a b : wrap w (a - wrap w b) = wrap w (a - b).
Proof. apply Zminus_mod_idemp_r. Qed.

Lemma wrap_0 w : wrap w 0 = 0.
Proof. apply Zmod_0_l. Qed.

#[export] Hint Rewrite wrap_wrap wrap_add_l wrap_add_r wrap_sub_l wrap_sub_r wrap_0
  : wordz.
#[export] Hint Resolve pow2_pos wrap_range : sbi.
#[export] Hint Extern 5 (_ <= _)%Z => lia : sbi.

(** Splits every [wrap] into quotient and remainder and calls [lia]; for
    literal widths. *)
Ltac wrap_lia := unfold wrap, in_range, ULONG_MAX in *; Z.div_mod_to_equations; lia.

(** Case analysis on a boolean test of the goal or of a hypothesis. *)
Ltac case_bool :=
  match goal with
  | |- context [if ?b then _ else _] => let E := fresh "E" in destruct b eqn:E
  | H : context [if ?b then _ else _] |- _ => let E := fresh "E" in destruct b eqn:E
  end.

(** Turns boolean tests on integers into the propositions they decide. *)
Ltac bool_to_prop :=
  repeat match goal with
  | H : andb _ _ = true |- _ => apply andb_true_iff in H; destruct H
  | H : andb _ _ = false |- _ => apply andb_false_iff in H
  | H : orb _ _ = true |- _ => apply orb_true_iff in H
  | H : orb _ _ = false |- _ => apply orb_false_iff in H; destruct H
  | H : negb _ = true |- _ => apply negb_true_iff in H
  | H : negb _ = false |- _ => apply negb_false_iff in H
  | H : (_ =? _) = true |- _ => apply Z.eqb_eq in H
  | H : (_ =? _) = false |- _ => apply Z.eqb_neq in H
  | H : (_ <? _) = true |- _ => apply Z.ltb_lt in H
  | H : (_ <? _) = false |- _ => apply Z.ltb_ge in H
  | H : (_ <=? _) = true |- _ => apply Z.leb_le in H
  | H : (_ <=? _) = false |- _ => apply Z.leb_gt in H
  end.

(** ** Bit masks as arithmetic *)

Lemma land_ones_mod a k : 0 <= k -> Z.land a (2 ^ k - 1) = a mod 2 ^ k.
Proof. intros. rewrite <- Z.land_ones by lia. by rewrite Z.ones_equiv, Z.sub_1_r. Qed.

Lemma land_not_w w a b :
  0 <= w -> in_range w a -> Z.land a (not_w w b) = Z.land a (Z.lnot b).
Proof.
  intros Hw Ha. unfold not_w, wrap. rewrite <- Z.land_ones by lia.
  rewrite (Z.land_comm (Z.lnot b)), Z.land_assoc. f_equal.
  rewrite Z.land_ones by lia. by apply Z.mod_small.
Qed.

Lemma land_lnot_pow2 a k : 0 <= k -> Z.land a (Z.lnot (2 ^ k - 1)) = a - a mod 2 ^ k.
Proof.
  intros Hk. rewrite Z.sub_1_r, <- Z.ones_equiv.
  rewrite <- Z.ldiff_land, Z.ldiff_ones_r by lia.
  rewrite Z.shiftl_mul_pow2, Z.shiftr_div_pow2 by lia.
  pose proof (Z.div_mod a (2 ^ k)). pose proof (pow2_pos k Hk). lia.
Qed.

(** Clearing the low [k] bits of a [w]-bit word rounds it down. *)
Lemma land_not_mask w a k :
  0 <= k -> 0 <= w -> in_range w a ->
  Z.land a (not_w w (2 ^ k - 1)) = a - a mod 2 ^ k.
Proof. intros. rewrite land_not_w by done. by apply land_lnot_pow2. Qed.

Lemma shl64_1 n : 0 <= n < 64 -> shl64 1 n = 2 ^ n.
Proof.
  intros. unfold shl64. rewrite Z.shiftl_1_l. apply wrap_id. split.
  - apply Z.lt_le_incl, pow2_pos. lia.
  - apply pow2_lt; lia.
Qed.

Lemma truthy_bit x k : 0 <= k -> truthy (Z.land x (2 ^ k)) = Z.testbit x k.
Proof.
  intros Hk. unfold truthy. rewrite (Z.land_comm x). rewrite <- Z.shiftl_1_l.
  destruct (Z.testbit x k) eqn:E.
  - apply negb_true_iff, Z.eqb_neq. intros H0. assert (Z.testbit (Z.land (Z.shiftl 1 k) x) k = true) as Ht.
    { rewrite Z.land_spec, E, Z.shiftl_spec, Z.sub_diag by lia. done. }
    by rewrite H0, Z.testbit_0_l in Ht.
  - apply negb_false_iff, Z.eqb_eq. apply Z.bits_inj'. intros j Hj.
    rewrite Z.land_spec, Z.testbit_0_l, Z.shiftl_1_l, Z.pow2_bits_eqb by lia.
    destruct (Z.eqb_spec k j) as [<-|]; [by rewrite E|done].
Qed.

(** ** Byte arrays

    An object in memory owned by one component is a list of bytes.  [slice]
    reads a window, [splice] overwrites one. *)

Definition slice {A} (off n : nat) (l : list A) : list A := take n (drop off l).

Definition splice {A} (off : nat) (d l : list A) : list A :=
  take off l ++ d ++ drop (off + length d) l.

Section Slices.
Context {A : Type}.
Implicit Types l d : list A.

Lemma length_splice off d l :
  (off + length d <= length l)%nat -> length (splice off d l) = length l.
Proof.
  intros. unfold splice. rewrite !length_app, length_take, length_drop. lia.
Qed.

Lemma length_slice off n l :
  (off + n <= length l)%nat -> length (slice off n l) = n.
Proof. intros. unfold slice. rewrite length_take, length_drop. lia. Qed.

Lemma slice_splice_eq off d l n :
  (off + length d <= length l)%nat -> n = length d ->
  slice off n (splice off d l) = d.
Proof.
  intros Hl ->. unfold slice, splice.
  rewrite drop_app_length' by (rewrite length_take; lia).
  by rewrite take_app_length.
Qed.

Lemma slice_splice_before off d l off' n :
  (off' + n <= off)%nat -> (off <= length l)%nat ->
  slice off' n (splice off d l) = slice off' n l.
Proof.
  intros. unfold slice, splice.
  rewrite drop_app_le by (rewrite length_take; lia).
  rewrite take_app_le by (rewrite length_drop, length_take; lia).
  rewrite skipn_firstn_comm, take_take. f_equal. lia.
Qed.

Lemma slice_splice_after off d l off' n :
  (off + length d <= off')%nat -> (off + length d <= length l)%nat ->
  slice off' n (splice off d l) = slice off' n l.
Proof.
  intros. unfold slice, splice. f_equal.
  rewrite drop_app_ge by (rewrite length_take; lia).
  rewrite length_take, drop_app_ge by lia.
  rewrite drop_drop. f_equal. lia.
Qed.

Lemma splice_nil off l : splice off [] l = l.
Proof. unfold splice. simpl. rewrite Nat.add_0_r. apply take_drop. Qed.
End Slices.

(** The [n] bytes of an integer, least first, and the integer they hold. *)
Fixpoint le_bytes (n : nat) (z : Z) : list Z :=
  match n with O => [] | S n => z mod 256 :: le_bytes n (z / 256) end.
Fixpoint le_value (l : list Z) : Z := match l with [] => 0 | b :: l => b + 256 * le_value l end.

Lemma le_bytes_length n z : length (le_bytes n z) = n.
Proof. revert z. induction n as [|n IH]; intros z; [done|]. cbn. by rewrite IH. Qed.

Lemma le_roundtrip n z : 0 <= z < 256 ^ Z.of_nat n -> le_value (le_bytes n z) = z.
Proof.
  revert z. induction n as [|n IH]; intros z Hz; [cbn in *; lia|]. cbn [le_bytes le_value].
  rewrite Nat2Z.inj_succ, Z.pow_succ_r in Hz by lia.
  rewrite IH; [Z.div_mod_to_equations; lia|]. Z.div_mod_to_equations; lia.
Qed.

(** ** Reachability and invariants of a step relation *)

Section Invariants.
Context {S : Type} (init : S -> Prop) (step : S -> S -> Prop).

Definition reachable (s : S) : Prop := exists s0, init s0 /\ rtc step s0 s.

Lemma invariant_reachable (I : S -> Prop) :
  (forall s, init s -> I s) ->
  (forall s s', I s -> step s s' -> I s') ->
  forall s, reachable s -> I s.
Proof.
  intros Hi Hs s (s0 & H0 & Hr). apply Hi in H0.
  induction Hr; eauto.
Qed.
End Invariants.

(** ** Error codes (include/sbi/sbi_error.h, sbi_ecall_interface.h) *)

Definition SBI_OK : Z := 0.
Definition SBI_EFAIL : Z := -1.
Definition SBI_ENOTSUPP : Z := -2.
Definition SBI_EINVAL : Z := -3.
Definition SBI_EINVALID_ADDR : Z := -5.
Definition SBI_EALREADY : Z := -6.
Definition SBI_ENOSPC : Z := -1003.
Definition SBI_ENOMEM : Z := -1004.
Definition SBI_ENOENT : Z := -1006.
