(* ===== verification/Strings.v ===== *)
(** * Byte and string routines (xendor/opensbi/lib/sbi/sbi_string.c)

    Memory is a total map from addresses to bytes and a pointer is an address.
    [char] is unsigned on RISC-V, so a byte is a [Z] in [0, 256).  A loop that
    counts [count] down recurses on it; the loops that run to a terminating
    NUL take fuel and answer [None] when it runs out. *)

From S2P Require Import Prelude.

Local Open Scope Z_scope.

Definition mem : Type := Z -> Z.

Definition upd (m : mem) (a v : Z) : mem := fun x => if x =? a then v else m x.

Lemma upd_eq m a v x : x = a -> upd m a v x = v.
Proof. intros ->. unfold upd. by rewrite Z.eqb_refl. Qed.

Lemma upd_ne m a v x : x <> a -> upd m a v x = m x.
Proof. intros. unfold upd. by rewrite (proj2 (Z.eqb_neq x a)). Qed.

Fixpoint sbi_strcmp (fuel : nat) (m : mem) (a b : Z) : option Z :=
  match fuel with
  | O => None
  | S fuel =>
      if (m a =? m b) && negb (m a =? 0) then sbi_strcmp fuel m (a + 1) (b + 1)
      else Some (m a - m b)
  end.

Fixpoint sbi_strncmp (m : mem) (a b : Z) (count : nat) : Z :=
  match count with
  | O => 0
  | S count' =>
      if (m a =? m b) && negb (m a =? 0)
      then sbi_strncmp m (a + 1) (b + 1) count'
      else m a - m b
  end.

Fixpoint sbi_strlen (fuel : nat) (m : mem) (str : Z) : option Z :=
  match fuel with
  | O => None
  | S fuel =>
      if negb (m str =? 0)
      then (n ← sbi_strlen fuel m (str + 1); Some (n + 1))
      else Some 0
  end.

Fixpoint sbi_strnlen (m : mem) (str : Z) (count : nat) : Z :=
  match count with
  | O => 0
  | S count' =>
      if negb (m str =? 0) then 1 + sbi_strnlen m (str + 1) count' else 0
  end.

Fixpoint sbi_strcpy (fuel : nat) (m : mem) (dest src : Z) : option mem :=
  match fuel with
  | O => None
  | S fuel =>
      let c := m src in
      let m' := upd m dest c in
      if negb (c =? 0) then sbi_strcpy fuel m' (dest + 1) (src + 1) else Some m'
  end.

Fixpoint sbi_strncpy (m : mem) (tmp src : Z) (count : nat) : mem :=
  match count with
  | O => m
  | S count' =>
      let c := m src in
      let m' := upd m tmp c in
      sbi_strncpy m' (tmp + 1) (if negb (c =? 0) then src + 1 else src) count'
  end.

(** [None] is running out of fuel, [Some None] the NULL pointer. *)
Fixpoint sbi_strchr (fuel : nat) (m : mem) (s c : Z) : option (option Z) :=
  match fuel with
  | O => None
  | S fuel =>
      if m s =? u8 c then Some (Some s)
      else if negb (m s =? 0) then sbi_strchr fuel m (s + 1) c
      else Some None
  end.

(** The backward scan of sbi_strrchr, [n] bytes above [s]. *)
Fixpoint strrchr_back (m : mem) (s c : Z) (n : nat) : Z :=
  match n with
  | O => s
  | S n' =>
      if negb (m (s + Z.of_nat n) =? u8 c) then strrchr_back m s c n'
      else s + Z.of_nat n
  end.

Definition sbi_strrchr (fuel : nat) (m : mem) (s c : Z) : option (option Z) :=
  len ← sbi_strlen fuel m s;
  let last := strrchr_back m s c (Z.to_nat len) in
  Some (if negb (m last =? u8 c) then None else Some last).

Fixpoint sbi_memset (m : mem) (temp c : Z) (count : nat) : mem :=
  match count with
  | O => m
  | S count' => sbi_memset (upd m temp (u8 c)) (temp + 1) c count'
  end.

Fixpoint sbi_memcpy (m : mem) (temp1 temp2 : Z) (count : nat) : mem :=
  match count with
  | O => m
  | S count' => sbi_memcpy (upd m temp1 (m temp2)) (temp1 + 1) (temp2 + 1) count'
  end.

(** The descending loop of sbi_memmove. *)
Fixpoint memmove_down (m : mem) (temp1 temp2 : Z) (count : nat) : mem :=
  match count with
  | O => m
  | S count' => memmove_down (upd m temp1 (m temp2)) (temp1 - 1) (temp2 - 1) count'
  end.

Definition sbi_memmove (m : mem) (dest src : Z) (count : nat) : mem :=
  if src =? dest then m
  else if dest <? src then sbi_memcpy m dest src count
  else memmove_down m (dest + Z.of_nat count - 1) (src + Z.of_nat count - 1) count.

Fixpoint sbi_memcmp (m : mem) (temp1 temp2 : Z) (count : nat) : Z :=
  match count with
  | O => 0
  | S count' =>
      if m temp1 =? m temp2 then sbi_memcmp m (temp1 + 1) (temp2 + 1) count'
      else m temp1 - m temp2
  end.

Fixpoint sbi_memchr (m : mem) (s c : Z) (count : nat) : option Z :=
  match count with
  | O => None
  | S count' => if u8 c =? m s then Some s else sbi_memchr m (s + 1) c count'
  end.

(** ** Lemmas *)

(** A block copy from [src] to [dest]: what both copy loops should compute. *)
Definition copied (m : mem) (dest src : Z) (n : nat) : mem :=
  fun a => if (dest <=? a) && (a <? dest + Z.of_nat n) then m (src + (a - dest)) else m a.

Lemma memset_spec n : forall m t c a,
  sbi_memset m t c n a = if (t <=? a) && (a <? t + Z.of_nat n) then u8 c else m a.
Proof.
  induction n as [|n IH]; intros m t c a; simpl.
  - case_bool; bool_to_prop; [lia | done].
  - rewrite IH. unfold upd. repeat case_bool; bool_to_prop; try done; lia.
Qed.

(** The ascending loop is a block copy unless the destination starts inside
    the source. *)
Lemma memcpy_spec n : forall m d s a,
  (d <= s \/ s + Z.of_nat n <= d) ->
  sbi_memcpy m d s n a = copied m d s n a.
Proof.
  induction n as [|n IH]; intros m d s a H; simpl.
  - unfold copied. case_bool; bool_to_prop; [lia | done].
  - rewrite IH by lia. unfold copied, upd.
    repeat case_bool; bool_to_prop; try lia; try (f_equal; lia); try done.
Qed.

(** The bytes of an object, and [sbi_memcpy] into the middle of one from a
    block outside it: the list of the object is spliced. *)
Definition read_bytes (m : mem) (a : Z) (n : nat) : list Z :=
  (fun k => m (a + Z.of_nat k)) <$> seq 0 n.

Lemma read_bytes_lookup m a n k :
  (k < n)%nat -> read_bytes m a n !! k = Some (m (a + Z.of_nat k)).
Proof. intros. unfold read_bytes. rewrite list_lookup_fmap, lookup_seq_lt by done. done. Qed.

Lemma read_bytes_length m a n : length (read_bytes m a n) = n.
Proof. unfold read_bytes. by rewrite length_fmap, length_seq. Qed.

Lemma memcpy_read_bytes m b off src n len :
  (off + n <= len)%nat ->
  (b + Z.of_nat len <= src \/ src + Z.of_nat n <= b) ->
  read_bytes (sbi_memcpy m (b + Z.of_nat off) src n) b len =
  splice off (read_bytes m src n) (read_bytes m b len).
Proof.
  intros Hn Hsep. apply list_eq_same_length with (n := len); [|apply read_bytes_length|].
  { rewrite length_splice; rewrite !read_bytes_length; lia. }
  intros k x y Hk. rewrite read_bytes_lookup by done. rewrite memcpy_spec by lia.
  unfold copied, splice. rewrite read_bytes_length. intros Hx Hy. simplify_eq.
  destruct (decide (k < off)%nat) as [H1|H1]; [|destruct (decide (k < off + n)%nat) as [H2|H2]].
  - rewrite lookup_app_l, lookup_take_lt, read_bytes_lookup in Hy
      by (rewrite ?length_take, ?read_bytes_length; lia).
    simplify_eq. case_bool; [lia|done].
  - rewrite lookup_app_r in Hy by (rewrite length_take, read_bytes_length; lia).
    rewrite length_take, read_bytes_length, lookup_app_l, read_bytes_lookup in Hy
      by (rewrite ?read_bytes_length; lia).
    simplify_eq. case_bool; [f_equal; lia|lia].
  - rewrite lookup_app_r in Hy by (rewrite length_take, read_bytes_length; lia).
    rewrite length_take, read_bytes_length, lookup_app_r in Hy
      by (rewrite ?read_bytes_length; lia).
    rewrite read_bytes_length, lookup_drop, read_bytes_lookup in Hy by lia.
    simplify_eq. case_bool; [lia|]. do 2 f_equal. lia.
Qed.

Lemma memmove_down_spec n : forall m d s a,
  s <= d ->
  memmove_down m (d + Z.of_nat n - 1) (s + Z.of_nat n - 1) n a = copied m d s n a.
Proof.
  induction n as [|n IH]; intros m d s a H.
  - unfold copied. simpl. case_bool; bool_to_prop; [lia | done].
  - cbn [memmove_down].
    replace (d + Z.of_nat (S n) - 1 - 1) with (d + Z.of_nat n - 1) by lia.
    replace (s + Z.of_nat (S n) - 1 - 1) with (s + Z.of_nat n - 1) by lia.
    rewrite IH by lia. unfold copied, upd.
    repeat case_bool; bool_to_prop; try lia; try (f_equal; lia); try done.
Qed.

Lemma memmove_spec m dest src n a :
  sbi_memmove m dest src n a = copied m dest src n a.
Proof.
  unfold sbi_memmove. repeat case_bool; bool_to_prop.
  - subst. unfold copied. case_bool; [f_equal; lia | done].
  - apply memcpy_spec. lia.
  - apply memmove_down_spec. lia.
Qed.

Lemma strlen_found fuel : forall m s n,
  (n < fuel)%nat -> m (s + Z.of_nat n) = 0 ->
  (forall k, (k < n)%nat -> m (s + Z.of_nat k) <> 0) ->
  sbi_strlen fuel m s = Some (Z.of_nat n).
Proof.
  induction fuel as [|fuel IH]; intros m s n Hf H0 Hk; [lia|]. simpl.
  destruct n as [|n].
  - rewrite Z.add_0_r in H0. by rewrite H0.
  - pose proof (Hk O ltac:(lia)) as Hs. rewrite Z.add_0_r in Hs.
    rewrite (proj2 (Z.eqb_neq _ _) Hs). simpl.
    rewrite (IH m (s + 1) n); [simpl; f_equal; lia | lia | by rewrite <- H0; f_equal; lia |].
    intros k Hkn. specialize (Hk (S k) ltac:(lia)).
    by replace (s + 1 + Z.of_nat k) with (s + Z.of_nat (S k)) by lia.
Qed.

(** ** Properties *)

(** [sbi_memmove] copies [count] bytes from [src] to [dest] and
    touches nothing else, whether or not the two blocks overlap. *)
Theorem memmove_correct m dest src n a :
  sbi_memmove m dest src n a =
    if (dest <=? a) && (a <? dest + Z.of_nat n) then m (src + (a - dest)) else m a.
Proof. apply memmove_spec. Qed.

(** [sbi_memcmp] is a lexicographic comparison: a zero result means
    the two blocks agree byte for byte, a nonzero one is the difference of the
    first pair of bytes that disagree. *)
Theorem memcmp_correct n : forall m p q,
  (sbi_memcmp m p q n = 0 /\
   forall k, 0 <= k < Z.of_nat n -> m (p + k) = m (q + k)) \/
  (exists k, 0 <= k < Z.of_nat n /\ m (p + k) <> m (q + k) /\
     (forall j, 0 <= j < k -> m (p + j) = m (q + j)) /\
     sbi_memcmp m p q n = m (p + k) - m (q + k)).
Proof.
  induction n as [|n IH]; intros m p q; simpl; [left; split; [done|lia]|].
  case_bool; bool_to_prop.
  - assert (forall j, 0 <= j -> (j = 0 \/ m (p + 1 + (j - 1)) = m (q + 1 + (j - 1))) ->
      m (p + j) = m (q + j)) as Hshift.
    { intros j Hj [->|Hj']; [by rewrite !Z.add_0_r|].
      by replace (p + j) with (p + 1 + (j - 1)) by lia;
        replace (q + j) with (q + 1 + (j - 1)) by lia. }
    destruct (IH m (p + 1) (q + 1)) as [[H0 Hk]|(k & Hk & Hne & Hj & Hr)].
    + left. split; [done|]. intros k Hkn. apply Hshift; [lia|].
      destruct (Z.eq_dec k 0); [by left|right]. apply Hk. lia.
    + right. exists (k + 1).
      replace (p + (k + 1)) with (p + 1 + k) by lia.
      replace (q + (k + 1)) with (q + 1 + k) by lia.
      split_and!; [lia|lia|done| |done].
      intros j Hjk. apply Hshift; [lia|].
      destruct (Z.eq_dec j 0); [by left|right]. apply Hj. lia.
  - right. exists 0. rewrite !Z.add_0_r. split_and!; done || lia.
Qed.
