(* ===== verification/Locks.v ===== *)
(** * Ticket spin lock (xendor/opensbi/lib/sbi/riscv_locks.c, riscv_locks.h)

    The lock is a 32-bit word: [owner] in the low and [next] in the high half.
    The assembly is modelled register by register on 64-bit values; one
    lr.w/sc.w pair or one amoadd.w is one atomic step.  [spin_lock] for a single
    hart answers [None] when it would spin for ever; [lstep] interleaves any
    number of harts. *)

From S2P Require Import Prelude.

Local Open Scope Z_scope.

Abbreviation TICKET_SHIFT := 16.

Record spinlock_t := mkLock { owner : Z; next : Z }.

#[export] Instance spinlock_eq_dec : EqDecision spinlock_t.
Proof. solve_decision. Defined.

Definition SPIN_LOCK_UNLOCKED : spinlock_t := mkLock 0 0.

(** The word as memory holds it (little endian) and its fields. *)
Definition lock_word (l : spinlock_t) : Z := owner l + next l * 2 ^ 16.
Definition word_lock (w : Z) : spinlock_t := mkLock (u16 w) (u16 (Z.shiftr w 16)).

(** lr.w, lw and amoadd.w sign-extend the loaded word to 64 bits. *)
Definition sext32 (w : Z) : Z := if w <? 2 ^ 31 then w else w + (2 ^ 64 - 2 ^ 32).

Definition spin_lock_unlocked (l : spinlock_t) : bool := owner l =? next l.

Definition spin_lock_check (l : spinlock_t) : bool := negb (spin_lock_unlocked l).

(** A failing sc.w re-runs the lr.w, so lr.w..sc.w is one atomic update. *)
Definition spin_trylock (l : spinlock_t) : bool * spinlock_t :=
  let inc := 2 ^ TICKET_SHIFT in
  let mask := 65535 * 2 ^ TICKET_SHIFT in
  let l0 := sext32 (lock_word l) in
  let tmp2 := Z.land (shl64 l0 TICKET_SHIFT) mask in
  let tmp1 := Z.land l0 mask in
  if negb (tmp1 =? tmp2) then (u32 l0 =? 0, l)
  else (u32 0 =? 0, word_lock (u32 (l0 + inc))).

(** The amoadd.w of spin_lock: the ticket drawn and the new lock word. *)
Definition spin_lock_ticket (l : spinlock_t) : Z * spinlock_t :=
  let inc := 2 ^ TICKET_SHIFT in
  let l0 := sext32 (lock_word l) in
  (Z.land (Z.shiftr l0 TICKET_SHIFT) 65535, word_lock (u32 (l0 + inc))).

(** One turn of the spin loop: does the owner field equal the ticket? *)
Definition spin_lock_poll (l : spinlock_t) (ticket : Z) : bool :=
  ticket =? Z.land (sext32 (lock_word l)) 65535.

Definition spin_lock (l : spinlock_t) : option spinlock_t :=
  let '(ticket, l') := spin_lock_ticket l in
  if spin_lock_poll l' ticket then Some l' else None.

Definition spin_unlock (l : spinlock_t) : spinlock_t :=
  mkLock (u16 (owner l + 1)) (next l).

(** ** The field view of the word operations *)

Definition lock_wf (l : spinlock_t) : Prop := in_range 16 (owner l) /\ in_range 16 (next l).

Lemma sext32_low w k : 0 <= k <= 32 -> 0 <= w < 2 ^ 32 -> sext32 w mod 2 ^ k = w mod 2 ^ k.
Proof.
  intros Hk Hw. unfold sext32. case_bool; [done|].
  replace (2 ^ 64 - 2 ^ 32) with (((2 ^ 32 - 1) * 2 ^ (32 - k)) * 2 ^ k).
  - apply Z_mod_plus_full.
  - rewrite <- Z.mul_assoc, <- Z.pow_add_r by lia.
    replace (32 - k + k) with 32 by lia. lia.
Qed.

Lemma lock_word_range l : lock_wf l -> 0 <= lock_word l < 2 ^ 32.
Proof. intros [? ?]. unfold lock_word. wrap_lia. Qed.

Lemma word_lock_incr l :
  lock_wf l ->
  word_lock (u32 (sext32 (lock_word l) + 2 ^ TICKET_SHIFT)) =
    mkLock (owner l) (u16 (next l + 1)).
Proof.
  intros Hl. pose proof (lock_word_range l Hl) as Hw. destruct Hl as [Ho Hn].
  assert (u32 (sext32 (lock_word l) + 2 ^ TICKET_SHIFT) =
          owner l + u16 (next l + 1) * 2 ^ 16) as ->.
  { unfold wrap. rewrite <- Zplus_mod_idemp_l, (sext32_low _ 32), Zplus_mod_idemp_l by lia.
    unfold lock_word, in_range in *.
    destruct (decide (next l = 2 ^ 16 - 1)) as [->|].
    - replace ((2 ^ 16 - 1 + 1) mod 2 ^ 16) with 0 by reflexivity. wrap_lia.
    - rewrite (Z.mod_small (next l + 1)) by lia. rewrite Z.mod_small by lia. lia. }
  unfold word_lock. rewrite Z.shiftr_div_pow2 by lia. unfold in_range in *. f_equal.
  - unfold wrap. rewrite Z_mod_plus_full. by apply Z.mod_small.
  - unfold wrap. rewrite Z.div_add by lia. rewrite (Z.div_small (owner l)) by lia.
    rewrite Z.add_0_l. by rewrite Zmod_mod.
Qed.

Lemma spin_lock_ticket_spec l :
  lock_wf l -> spin_lock_ticket l = (next l, mkLock (owner l) (u16 (next l + 1))).
Proof.
  intros Hl. unfold spin_lock_ticket. rewrite word_lock_incr by done. f_equal.
  pose proof (lock_word_range l Hl) as Hw. destruct Hl as [Ho Hn].
  change 65535 with (2 ^ 16 - 1). rewrite land_ones_mod by lia.
  rewrite Z.shiftr_div_pow2 by lia.
  unfold sext32, lock_word, in_range in *.
  case_bool; Z.div_mod_to_equations; lia.
Qed.

Lemma spin_lock_poll_spec l t : lock_wf l -> spin_lock_poll l t = (t =? owner l).
Proof.
  intros Hl. unfold spin_lock_poll. change 65535 with (2 ^ 16 - 1).
  rewrite land_ones_mod by lia. rewrite sext32_low; [|lia|by apply lock_word_range].
  unfold lock_word. rewrite Z_mod_plus_full. by rewrite Z.mod_small by apply Hl.
Qed.

Lemma spin_trylock_spec l :
  lock_wf l ->
  spin_trylock l =
    if spin_lock_unlocked l then (true, mkLock (owner l) (u16 (next l + 1)))
    else (false, l).
Proof.
  intros Hl. unfold spin_trylock. rewrite word_lock_incr by done.
  pose proof (lock_word_range l Hl) as Hw. destruct Hl as [Ho Hn].
  assert (forall x, Z.land x (65535 * 2 ^ TICKET_SHIFT) = (x / 2 ^ 16) mod 2 ^ 16 * 2 ^ 16) as Hm.
  { intros x. change (65535 * 2 ^ 16) with (Z.shiftl (Z.ones 16) 16).
    apply Z.bits_inj'. intros n Hn'. rewrite Z.land_spec, Z.shiftl_spec by lia.
    rewrite <- Z.shiftl_mul_pow2, Z.shiftl_spec by lia.
    destruct (decide (n < 16)).
    - rewrite !(Z.testbit_neg_r _ (n - 16)) by lia. by rewrite andb_false_r.
    - destruct (decide (n - 16 < 16)).
      + rewrite Z.ones_spec_low, Z.mod_pow2_bits_low by lia.
        rewrite Z.div_pow2_bits by lia. rewrite andb_true_r. f_equal. lia.
      + rewrite Z.ones_spec_high, Z.mod_pow2_bits_high by lia. by rewrite andb_false_r. }
  rewrite !Hm. unfold shl64. rewrite Z.shiftl_mul_pow2 by lia.
  assert (u64 (sext32 (lock_word l) * 2 ^ 16) / 2 ^ 16 mod 2 ^ 16 = owner l) as ->.
  { unfold sext32, lock_word, in_range, wrap in *.
    case_bool; Z.div_mod_to_equations; lia. }
  assert (sext32 (lock_word l) / 2 ^ 16 mod 2 ^ 16 = next l) as ->.
  { unfold sext32, lock_word, in_range in *. case_bool; Z.div_mod_to_equations; lia. }
  assert (u32 (sext32 (lock_word l)) = lock_word l) as ->.
  { unfold wrap. rewrite sext32_low by lia. by apply Z.mod_small. }
  unfold spin_lock_unlocked, lock_word, in_range in *.
  destruct (Z.eqb_spec (owner l) (next l)) as [->|Hne].
  - by rewrite Z.eqb_refl.
  - rewrite (proj2 (Z.eqb_neq _ _)) by lia. simpl. f_equal. apply Z.eqb_neq. lia.
Qed.

(** A free lock, and the held lock it turns into. *)
Definition lock_free (l : spinlock_t) : Prop := lock_wf l /\ owner l = next l.
Definition lock_taken (l : spinlock_t) : spinlock_t := mkLock (owner l) (u16 (next l + 1)).

Lemma lock_free_init : lock_free SPIN_LOCK_UNLOCKED.
Proof. split; [split; split; simpl; lia | done]. Qed.

Lemma lock_taken_wf l : lock_wf l -> lock_wf (lock_taken l).
Proof. intros [Ho _]. split; [done | simpl; apply wrap_range; lia]. Qed.

Lemma spin_lock_free l : lock_free l -> spin_lock l = Some (lock_taken l).
Proof.
  intros [Hl Ho]. unfold spin_lock. rewrite spin_lock_ticket_spec by done.
  rewrite spin_lock_poll_spec by (by apply lock_taken_wf). simpl.
  by rewrite (proj2 (Z.eqb_eq _ _)).
Qed.

Lemma spin_unlock_taken l : lock_free l -> lock_free (spin_unlock (lock_taken l)).
Proof.
  intros [[? ?] Ho]. split; [split; simpl; apply wrap_range; lia |]. simpl. by rewrite Ho.
Qed.

(** Taking a lock this hart already holds spins for ever. *)
Lemma spin_lock_taken l : lock_free l -> spin_lock (lock_taken l) = None.
Proof.
  intros [Hl Ho]. unfold spin_lock. rewrite spin_lock_ticket_spec by (by apply lock_taken_wf).
  rewrite spin_lock_poll_spec by (by apply lock_taken_wf, lock_taken_wf). simpl.
  destruct Hl as [Ho' Hn]. unfold in_range in *.
  rewrite (proj2 (Z.eqb_neq _ _)); [done|]. rewrite Ho. wrap_lia.
Qed.

#[export] Hint Resolve lock_free_init spin_unlock_taken lock_taken_wf : sbi.

(** ** Interleaved harts *)

Inductive hart_lock : Type :=
| Idle
| Spinning (ticket : Z)
| Holding (ticket : Z).

#[export] Instance hart_lock_eq_dec : EqDecision hart_lock.
Proof. solve_decision. Defined.

Definition ticket_of (h : hart_lock) : option Z :=
  match h with Idle => None | Spinning t | Holding t => Some t end.

Record lstate := mkLstate { lk : spinlock_t; harts : list hart_lock }.

(** One atomic action of one hart. *)
Inductive lstep : lstate -> lstate -> Prop :=
| step_ticket i l hs t l' :
    hs !! i = Some Idle -> spin_lock_ticket l = (t, l') ->
    lstep (mkLstate l hs) (mkLstate l' (<[i := Spinning t]> hs))
| step_enter i l hs t :
    hs !! i = Some (Spinning t) -> spin_lock_poll l t = true ->
    lstep (mkLstate l hs) (mkLstate l (<[i := Holding t]> hs))
| step_try i l hs l' :
    hs !! i = Some Idle -> spin_trylock l = (true, l') ->
    lstep (mkLstate l hs) (mkLstate l' (<[i := Holding (next l)]> hs))
| step_leave i l hs t :
    hs !! i = Some (Holding t) ->
    lstep (mkLstate l hs) (mkLstate (spin_unlock l) (<[i := Idle]> hs)).

(** [n] harts, none of them near the lock. *)
Definition linit (n : nat) (s : lstate) : Prop :=
  lock_free (lk s) /\ harts s = replicate n Idle.

(** Distance of a ticket from the owner: the number of unlocks still ahead. *)
Definition queue_pos (l : spinlock_t) (t : Z) : Z := u16 (t - owner l).

Definition waiting (hs : list hart_lock) : nat := length (omap ticket_of hs).

Record linv (n : nat) (s : lstate) : Prop := {
  li_wf : lock_wf (lk s);
  li_len : length (harts s) = n;
  li_next : next (lk s) = u16 (owner (lk s) + Z.of_nat (waiting (harts s)));
  li_range : forall i h t, harts s !! i = Some h -> ticket_of h = Some t ->
    in_range 16 t /\ queue_pos (lk s) t < Z.of_nat (waiting (harts s));
  li_inj : forall i j h h' t, harts s !! i = Some h -> harts s !! j = Some h' ->
    ticket_of h = Some t -> ticket_of h' = Some t -> i = j;
  li_surj : forall p, 0 <= p < Z.of_nat (waiting (harts s)) ->
    exists i h t, harts s !! i = Some h /\ ticket_of h = Some t /\ queue_pos (lk s) t = p;
  li_hold : forall i t, harts s !! i = Some (Holding t) -> t = owner (lk s)
}.

Lemma waiting_insert hs i h h' :
  hs !! i = Some h ->
  (waiting (<[i := h']> hs) + length (option_list (ticket_of h)) =
   waiting hs + length (option_list (ticket_of h')))%nat.
Proof.
  intros Hi. unfold waiting. pose proof (lookup_lt_Some _ _ _ Hi).
  rewrite insert_take_drop by done. rewrite <- (take_drop_middle _ _ _ Hi) at 3.
  rewrite !omap_app, !length_app. simpl.
  destruct (ticket_of h), (ticket_of h'); simpl; lia.
Qed.

Lemma waiting_le hs : (waiting hs <= length hs)%nat.
Proof.
  unfold waiting. induction hs as [|h hs IH]; csimpl; [lia|].
  destruct (ticket_of h); csimpl; lia.
Qed.

(** An idle hart leaves room in the queue. *)
Lemma waiting_idle hs i : hs !! i = Some Idle -> (waiting hs < length hs)%nat.
Proof.
  intros Hi. pose proof (waiting_insert hs i Idle (Holding 0) Hi) as H. simpl in H.
  pose proof (waiting_le (<[i := Holding 0]> hs)) as H'. rewrite length_insert in H'. lia.
Qed.

Lemma queue_pos_next l k :
  0 <= k < 2 ^ 16 -> next l = u16 (owner l + k) -> queue_pos l (next l) = k.
Proof.
  intros Hk ->. unfold queue_pos. autorewrite with wordz.
  replace (owner l + k - owner l) with k by lia. by apply wrap_id.
Qed.

(** Unlocking moves every other ticket one place forward. *)
Lemma queue_pos_unlock l t :
  in_range 16 t -> lock_wf l -> t <> owner l ->
  queue_pos (spin_unlock l) t = queue_pos l t - 1.
Proof.
  intros Ht [Ho _] Hne. unfold queue_pos. simpl. unfold in_range in *. wrap_lia.
Qed.

Lemma queue_pos_0 l t : in_range 16 t -> lock_wf l -> queue_pos l t = 0 -> t = owner l.
Proof. intros Ht [Ho _]. unfold queue_pos, in_range in *. wrap_lia. Qed.

Lemma lookup_insert_cases {A} (l : list A) i j x y :
  <[i := x]> l !! j = Some y -> (j = i /\ y = x) \/ (j <> i /\ l !! j = Some y).
Proof.
  intros H. apply list_lookup_insert_Some in H as [(-> & -> & _)|[Hne H]]; auto.
Qed.

(** Drawing the next ticket, by amoadd.w or by a successful trylock. *)
Lemma linv_draw n l hs i h :
  Z.of_nat n < 2 ^ 16 -> linv n (mkLstate l hs) -> hs !! i = Some Idle ->
  ticket_of h = Some (next l) -> (forall t, h = Holding t -> next l = owner l) ->
  linv n (mkLstate (lock_taken l) (<[i := h]> hs)).
Proof.
  intros Hn [Hwf Hlen Hnext Hrange Hinj Hsurj Hhold] Hi Ht Hh; simpl in *.
  pose proof (waiting_insert hs i Idle h Hi) as Hw. rewrite Ht in Hw. simpl in Hw.
  pose proof (waiting_idle hs i Hi) as Hlt. rewrite Hlen in Hlt.
  assert (queue_pos l (next l) = Z.of_nat (waiting hs)) as Hpos
    by (apply queue_pos_next; [lia|done]).
  assert (forall j h' t, hs !! j = Some h' -> ticket_of h' = Some t -> t <> next l) as Hfresh.
  { intros j h' t Hj Htj ->. destruct (Hrange _ _ _ Hj Htj). lia. }
  assert (forall t, queue_pos (lock_taken l) t = queue_pos l t) as Hq by done.
  pose proof (lookup_lt_Some _ _ _ Hi) as Hilt.
  split; simpl.
  - by apply lock_taken_wf.
  - by rewrite length_insert.
  - rewrite Hnext. autorewrite with wordz. f_equal. lia.
  - intros j h' t Hj Htj. rewrite Hq.
    destruct (lookup_insert_cases _ _ _ _ _ Hj) as [[-> ->]|[Hne Hj']].
    + assert (t = next l) as -> by congruence. split; [apply Hwf|lia].
    + destruct (Hrange _ _ _ Hj' Htj). split; [done|lia].
  - intros j j' h1 h2 t Hj Hj' H1 H2.
    destruct (lookup_insert_cases _ _ _ _ _ Hj) as [[-> ->]|[Hne Hj1]],
      (lookup_insert_cases _ _ _ _ _ Hj') as [[-> ->]|[Hne' Hj2]]; [done| | |by eauto].
    + destruct (Hfresh _ _ _ Hj2 H2). congruence.
    + destruct (Hfresh _ _ _ Hj1 H1). congruence.
  - intros p Hp. destruct (decide (p = Z.of_nat (waiting hs))) as [->|].
    + exists i, h, (next l). by rewrite list_lookup_insert_eq.
    + destruct (Hsurj p ltac:(lia)) as (j & h' & t & Hj & Htj & <-).
      exists j, h', t. rewrite list_lookup_insert_ne; [done|]. intros ->. by simplify_eq/=.
  - intros j t Hj. destruct (lookup_insert_cases _ _ _ _ _ Hj) as [[-> <-]|[Hne Hj']].
    + simpl in Ht. rewrite <- (Hh t eq_refl). congruence.
    + by apply (Hhold j).
Qed.

Lemma linv_enter n l hs i t :
  linv n (mkLstate l hs) -> hs !! i = Some (Spinning t) -> t = owner l ->
  linv n (mkLstate l (<[i := Holding t]> hs)).
Proof.
  intros [Hwf Hlen Hnext Hrange Hinj Hsurj Hhold] Hi Ht; simpl in *.
  pose proof (waiting_insert hs i _ (Holding t) Hi) as Hw. simpl in Hw.
  assert (waiting (<[i:=Holding t]> hs) = waiting hs) as Hw' by lia. clear Hw.
  assert (forall j h, <[i := Holding t]> hs !! j = Some h ->
    exists h', hs !! j = Some h' /\ ticket_of h' = ticket_of h) as Hback.
  { intros j h Hj. destruct (lookup_insert_cases _ _ _ _ _ Hj) as [[-> ->]|[_ Hj']]; eauto. }
  pose proof (lookup_lt_Some _ _ _ Hi) as Hilt.
  split; simpl; rewrite ?Hw', ?length_insert; try done.
  - intros j h t' Hj Htj. destruct (Hback _ _ Hj) as (h' & Hj' & E).
    apply (Hrange j h'); congruence.
  - intros j j' h h' t' Hj Hj' E E'.
    destruct (Hback _ _ Hj) as (? & ? & ?), (Hback _ _ Hj') as (? & ? & ?).
    eapply (Hinj _ _ _ _ t'); [done|done|congruence|congruence].
  - intros p Hp. destruct (Hsurj p Hp) as (j & h & t' & Hj & Htj & E).
    destruct (decide (j = i)) as [->|Hne].
    + exists i, (Holding t), t. rewrite list_lookup_insert_eq by done.
      assert (h = Spinning t) as -> by congruence. simpl in Htj. naive_solver.
    + exists j, h, t'. by rewrite list_lookup_insert_ne by done.
  - intros j t' Hj. destruct (lookup_insert_cases _ _ _ _ _ Hj) as [[-> E]|[_ Hj']].
    + congruence.
    + by apply (Hhold j).
Qed.

Lemma linv_leave n l hs i t :
  linv n (mkLstate l hs) -> hs !! i = Some (Holding t) ->
  linv n (mkLstate (spin_unlock l) (<[i := Idle]> hs)).
Proof.
  intros [Hwf Hlen Hnext Hrange Hinj Hsurj Hhold] Hi; simpl in *.
  pose proof (waiting_insert hs i _ Idle Hi) as Hw. simpl in Hw.
  pose proof (Hhold i t Hi) as ->.
  pose proof (lookup_lt_Some _ _ _ Hi) as Hilt.
  assert (forall j h t, j <> i -> hs !! j = Some h -> ticket_of h = Some t -> t <> owner l)
    as Hother.
  { intros j h t Hne Hj Ht ->. apply Hne. by eapply Hinj. }
  assert (forall j h t, <[i := Idle]> hs !! j = Some h -> ticket_of h = Some t ->
    j <> i /\ hs !! j = Some h /\ t <> owner l) as Hback.
  { intros j h t Hj Ht. destruct (lookup_insert_cases _ _ _ _ _ Hj) as [[-> ->]|[Hne Hj']];
      [done|]. eauto. }
  split; simpl; rewrite ?length_insert; try done.
  - split; [simpl; apply wrap_range; lia | apply Hwf].
  - rewrite Hnext. autorewrite with wordz. f_equal. lia.
  - intros j h t Hj Ht. destruct (Hback _ _ _ Hj Ht) as (Hne & Hj' & Hto).
    destruct (Hrange _ _ _ Hj' Ht). split; [done|].
    rewrite queue_pos_unlock by done. lia.
  - intros j j' h h' t Hj Hj' E E'.
    destruct (Hback _ _ _ Hj E) as (? & ? & ?), (Hback _ _ _ Hj' E') as (? & ? & ?).
    by eapply Hinj.
  - intros p Hp. destruct (Hsurj (p + 1) ltac:(lia)) as (j & h & t & Hj & Ht & E).
    assert (j <> i) as Hne.
    { intros ->. simplify_eq. simpl in Ht. simplify_eq. unfold queue_pos in E.
      rewrite Z.sub_diag, wrap_0 in E. lia. }
    exists j, h, t. rewrite list_lookup_insert_ne by done. split_and!; [done|done|].
    destruct (Hrange _ _ _ Hj Ht). rewrite queue_pos_unlock; [lia|done|done|by eapply Hother].
  - intros j t Hj. destruct (Hback _ _ t Hj eq_refl) as (? & Hj' & Hto).
    by destruct (Hto (Hhold _ _ Hj')).
Qed.

Lemma linv_step n s s' : Z.of_nat n < 2 ^ 16 -> linv n s -> lstep s s' -> linv n s'.
Proof.
  intros Hn Hinv Hs. pose proof (li_wf _ _ Hinv) as Hwf. destruct Hs; simpl in *.
  - rewrite spin_lock_ticket_spec in * by done. simplify_eq. by apply linv_draw.
  - rewrite spin_lock_poll_spec in * by done. apply linv_enter; [done|done|lia].
  - rewrite spin_trylock_spec in * by done. unfold spin_lock_unlocked in *.
    case_bool; simplify_eq. apply linv_draw; auto. intros. lia.
  - by eapply linv_leave.
Qed.

Lemma linv_init n s : linit n s -> linv n s.
Proof.
  destruct s as [l hs]. intros [[Hwf Ho] Hh]. simpl in *. subst hs.
  assert (waiting (replicate n Idle) = O) as Hw.
  { unfold waiting. clear. induction n; csimpl; done. }
  assert (forall i h t, replicate n Idle !! i = Some h -> ticket_of h <> Some t) as Hi.
  { intros i h t Hl. apply lookup_replicate in Hl as [-> _]. done. }
  split; simpl; rewrite ?Hw; try done.
  - apply length_replicate.
  - rewrite Z.add_0_r, wrap_id by apply Hwf. done.
  - intros. by destruct (Hi i h t).
  - intros. by destruct (Hi i h t).
  - lia.
  - intros i t Hl. by destruct (Hi i _ t Hl).
Qed.

Lemma linv_reachable n s :
  Z.of_nat n < 2 ^ 16 -> reachable (linit n) lstep s -> linv n s.
Proof.
  intros Hn. apply invariant_reachable; [apply linv_init|].
  intros ? ? ? ?. by eapply linv_step.
Qed.

(** ** Properties *)

(** C20: with fewer than 2^16 harts no two of them ever hold the lock at the
    same time, for every interleaving of lock, trylock and unlock and across
    wrap-around of the ticket counters. *)
Theorem ticket_lock_mutual_exclusion n s i j ti tj :
  Z.of_nat n < 2 ^ 16 -> reachable (linit n) lstep s ->
  harts s !! i = Some (Holding ti) -> harts s !! j = Some (Holding tj) -> i = j.
Proof.
  intros Hn Hr Hi Hj. apply linv_reachable in Hr; [|done].
  pose proof (li_hold _ _ Hr _ _ Hi) as ->. pose proof (li_hold _ _ Hr _ _ Hj) as ->.
  by eapply (li_inj _ _ Hr).
Qed.

(** The lock never gets stuck and cannot be overtaken: whenever
    harts spin and nobody holds the lock, exactly the hart whose ticket is
    served next can enter, and each unlock brings every spinning hart one
    place closer to its turn. *)
Theorem ticket_lock_fair n s :
  Z.of_nat n < 2 ^ 16 -> reachable (linit n) lstep s ->
  (waiting (harts s) <> O -> (forall i t, harts s !! i <> Some (Holding t)) ->
     exists i t, harts s !! i = Some (Spinning t) /\ spin_lock_poll (lk s) t = true) /\
  (forall i t j t', harts s !! i = Some (Holding t) -> harts s !! j = Some (Spinning t') ->
     queue_pos (spin_unlock (lk s)) t' = queue_pos (lk s) t' - 1).
Proof.
  intros Hn Hr. apply linv_reachable in Hr; [|done]. pose proof (li_wf _ _ Hr) as Hwf. split.
  - intros Hw Hnone. destruct (li_surj _ _ Hr 0 ltac:(lia)) as (i & h & t & Hi & Ht & Hp).
    destruct (li_range _ _ Hr _ _ _ Hi Ht) as [Hrt _].
    exists i, t. destruct h; simplify_eq/=; [|by destruct (Hnone i t)].
    split; [done|]. rewrite spin_lock_poll_spec by done. apply Z.eqb_eq. by apply queue_pos_0.
  - intros i t j t' Hi Hj. destruct (li_range _ _ Hr _ _ t' Hj eq_refl) as [Hrt _].
    apply queue_pos_unlock; [done|done|]. pose proof (li_hold _ _ Hr _ _ Hi) as ->.
    intros ->. assert (i = j) as -> by (by eapply (li_inj _ _ Hr)). congruence.
Qed.

(** Two harts, the first one inside and the second one spinning. *)
Definition lock_run_example : lstate := mkLstate (mkLock 0 2) [Holding 0; Spinning 1].

Lemma lock_run_example_reachable : reachable (linit 2) lstep lock_run_example.
Proof.
  exists (mkLstate SPIN_LOCK_UNLOCKED [Idle; Idle]).
  split; [split; [apply lock_free_init|done]|].
  eapply rtc_l; [by apply (step_ticket 0)|].
  eapply rtc_l; [by apply (step_enter 0 _ _ 0)|].
  eapply rtc_l; [by apply (step_ticket 1)|]. apply rtc_refl.
Qed.

Lemma ticket_lock_mutual_exclusion_witness :
  harts lock_run_example !! 0%nat = Some (Holding 0) /\ 0%nat = 0%nat.
Proof.
  split; [done|].
  apply (ticket_lock_mutual_exclusion 2 lock_run_example 0 0 0 0);
    [lia|apply lock_run_example_reachable|done|done].
Defined.

Lemma ticket_lock_fair_witness :
  queue_pos (spin_unlock (lk lock_run_example)) 1 = queue_pos (lk lock_run_example) 1 - 1.
Proof.
  apply (ticket_lock_fair 2 lock_run_example) with (i := 0%nat) (t := 0) (j := 1%nat);
    [lia|apply lock_run_example_reachable|done|done].
Defined.
