(* ===== verification/Fifo.v ===== *)
(** * Bounded FIFO (xendor/opensbi/lib/sbi/sbi_fifo.c, include/sbi/sbi_fifo.h)

    [queue] is the byte array the FIFO owns: [num_entries] records of
    [entry_size] bytes.  A pointer argument the code tests against NULL is an
    [option].  The outer [option] of a result is the spin lock: [None] is a
    hart that spins for ever on [qlock].  The specification at the end is an
    ordinary list with a capacity; [fifo_refines_queue] relates the two. *)

From S2P Require Import Prelude Strings Locks.

Local Open Scope Z_scope.

Record sbi_fifo := mkFifo {
  queue : list Z;
  qlock : spinlock_t;
  entry_size : Z;
  num_entries : Z;
  avail : Z;
  tail : Z
}.

(** enum sbi_fifo_inplace_update_types *)
Abbreviation SBI_FIFO_SKIP := 0.
Abbreviation SBI_FIFO_UPDATED := 1.
Abbreviation SBI_FIFO_UNCHANGED := 2.

Definition set_qlock (l : spinlock_t) (f : sbi_fifo) : sbi_fifo :=
  mkFifo (queue f) l (entry_size f) (num_entries f) (avail f) (tail f).

(** [n] bytes of [src] stored at [dst + off]; for the C library call this is
    [sbi_memcpy] between distinct objects ([memcpy_read_bytes]). *)
Definition bytes_copy (dst : list Z) (off : Z) (src : list Z) (n : Z) : list Z :=
  splice (Z.to_nat off) (take (Z.to_nat n) src) dst.

Definition sbi_fifo_init (queue_mem : list Z) (entries esize : Z) : sbi_fifo :=
  mkFifo (splice 0 (replicate (Z.to_nat (u64 (entries * esize))) 0) queue_mem)
    SPIN_LOCK_UNLOCKED esize entries 0 0.

Definition __sbi_fifo_is_full (f : sbi_fifo) : bool := avail f =? num_entries f.

Definition __sbi_fifo_is_empty (f : sbi_fifo) : bool := avail f =? 0.

(** Runs [body] between spin_lock and spin_unlock of [qlock]. *)
Definition with_qlock {R} (f : sbi_fifo) (body : sbi_fifo -> R * sbi_fifo) :
    option (R * sbi_fifo) :=
  l ← spin_lock (qlock f);
  let '(r, f') := body (set_qlock l f) in
  Some (r, set_qlock (spin_unlock (qlock f')) f').

Definition sbi_fifo_avail (fifo : option sbi_fifo) : option (Z * option sbi_fifo) :=
  match fifo with
  | None => Some (0, None)
  | Some f => '(r, f') ← with_qlock f (fun f => (avail f, f)); Some (r, Some f')
  end.

Definition sbi_fifo_is_full (fifo : option sbi_fifo) : option (Z * option sbi_fifo) :=
  match fifo with
  | None => Some (SBI_EINVAL, None)
  | Some f =>
      '(r, f') ← with_qlock f (fun f => (Z.b2z (__sbi_fifo_is_full f), f)); Some (r, Some f')
  end.

Definition sbi_fifo_is_empty (fifo : option sbi_fifo) : option (Z * option sbi_fifo) :=
  match fifo with
  | None => Some (SBI_EINVAL, None)
  | Some f =>
      '(r, f') ← with_qlock f (fun f => (Z.b2z (__sbi_fifo_is_empty f), f)); Some (r, Some f')
  end.

(** The copy of one record into the ring, by entry size. *)
Definition store_entry (f : sbi_fifo) (head : Z) (data : list Z) : list Z :=
  let es := entry_size f in
  let off := u32 (head * es) in
  if es =? 1 then bytes_copy (queue f) off data 1
  else if es =? 2 then bytes_copy (queue f) off data 2
  else if es =? 4 then bytes_copy (queue f) off data 4
  else if es =? 8 then bytes_copy (queue f) off data 8
  else bytes_copy (queue f) off data es.

Definition __sbi_fifo_enqueue (f : sbi_fifo) (data : list Z) : sbi_fifo :=
  let head := u32 (tail f + avail f) in
  let head := if num_entries f <=? head then u32 (head - num_entries f) else head in
  mkFifo (store_entry f head data) (qlock f) (entry_size f) (num_entries f)
    (u16 (avail f + 1)) (tail f).

(** The copy of the record at [tail] out of the ring, by entry size. *)
Definition load_entry (f : sbi_fifo) (data : list Z) : list Z :=
  let es := entry_size f in
  let off := Z.to_nat (u32 (tail f * es)) in
  if es =? 1 then bytes_copy data 0 (slice off 1 (queue f)) 1
  else if es =? 2 then bytes_copy data 0 (slice off 2 (queue f)) 2
  else if es =? 4 then bytes_copy data 0 (slice off 4 (queue f)) 4
  else if es =? 8 then bytes_copy data 0 (slice off 8 (queue f)) 8
  else bytes_copy data 0 (slice off (Z.to_nat es) (queue f)) es.

(** [data = None] is the NULL pointer of the forced drop. *)
Definition __sbi_fifo_dequeue (f : sbi_fifo) (data : option (list Z)) :
    option (list Z) * sbi_fifo :=
  let data' := load_entry f <$> data in
  let t := u16 (tail f + 1) in
  let t := if num_entries f <=? t then 0 else t in
  (data', mkFifo (queue f) (qlock f) (entry_size f) (num_entries f) (u16 (avail f - 1)) t).

Definition __sbi_fifo_reset (f : sbi_fifo) : sbi_fifo :=
  let size := u64 (num_entries f * entry_size f) in
  mkFifo (splice 0 (replicate (Z.to_nat size) 0) (queue f)) (qlock f)
    (entry_size f) (num_entries f) 0 0.

Definition sbi_fifo_reset (fifo : option sbi_fifo) : option (bool * option sbi_fifo) :=
  match fifo with
  | None => Some (false, None)
  | Some f => '(r, f') ← with_qlock f (fun f => (true, __sbi_fifo_reset f)); Some (r, Some f')
  end.

(** The scan of sbi_fifo_inplace_update: [n] iterations left, [i] done, [ret]
    the callback's last answer. *)
Fixpoint inplace_loop (fptr : list Z -> list Z -> Z * list Z) (inp : list Z)
    (f : sbi_fifo) (q : list Z) (i : Z) (n : nat) (ret : Z) : Z * list Z :=
  match n with
  | O => (ret, q)
  | S n' =>
      let index := tail f + i in
      let index := if num_entries f <=? index then index - num_entries f else index in
      let off := Z.to_nat (u32 (index * entry_size f)) in
      let '(ret, entry) := fptr inp (slice off (Z.to_nat (entry_size f)) q) in
      let q := splice off entry q in
      if (ret =? SBI_FIFO_SKIP) || (ret =? SBI_FIFO_UPDATED) then (ret, q)
      else inplace_loop fptr inp f q (i + 1) n' ret
  end.

Definition sbi_fifo_inplace_update (fifo : option sbi_fifo) (inp : option (list Z))
    (fptr : list Z -> list Z -> Z * list Z) : option (Z * option sbi_fifo) :=
  match fifo, inp with
  | Some f, Some d =>
      '(r, f') ← with_qlock f (fun f =>
        if __sbi_fifo_is_empty f then (SBI_FIFO_UNCHANGED, f)
        else
          let '(r, q) :=
            inplace_loop fptr d f (queue f) 0 (Z.to_nat (avail f)) SBI_FIFO_UNCHANGED in
          (r, mkFifo q (qlock f) (entry_size f) (num_entries f) (avail f) (tail f)));
      Some (r, Some f')
  | _, _ => Some (SBI_FIFO_UNCHANGED, fifo)
  end.

Definition sbi_fifo_enqueue (fifo : option sbi_fifo) (data : option (list Z))
    (force : bool) : option (Z * option sbi_fifo) :=
  match fifo, data with
  | Some f, Some d =>
      '(r, f') ← with_qlock f (fun f =>
        if __sbi_fifo_is_full f then
          if negb force then (SBI_ENOSPC, f)
          else let '(_, f1) := __sbi_fifo_dequeue f None in (0, __sbi_fifo_enqueue f1 d)
        else (0, __sbi_fifo_enqueue f d));
      Some (r, Some f')
  | _, _ => Some (SBI_EINVAL, fifo)
  end.

Definition sbi_fifo_dequeue (fifo : option sbi_fifo) (data : option (list Z)) :
    option (Z * option (list Z) * option sbi_fifo) :=
  match fifo, data with
  | Some f, Some d =>
      '(r, f') ← with_qlock f (fun f =>
        if __sbi_fifo_is_empty f then ((SBI_ENOENT, Some d), f)
        else let '(d', f1) := __sbi_fifo_dequeue f (Some d) in ((0, d'), f1));
      Some (r.1, r.2, Some f')
  | _, _ => Some (SBI_EINVAL, data, fifo)
  end.

(** ** Well-formedness and the records held *)

Record fifo_wf (f : sbi_fifo) : Prop := {
  fw_es : 0 < entry_size f < 2 ^ 16;
  fw_num : 0 < num_entries f < 2 ^ 16;
  fw_avail : 0 <= avail f <= num_entries f;
  fw_tail : 0 <= tail f < num_entries f;
  fw_queue : Z.of_nat (length (queue f)) = num_entries f * entry_size f
}.

(** Slot of the [k]-th oldest record, and its bytes. *)
Definition slot (f : sbi_fifo) (k : Z) : Z :=
  if num_entries f <=? tail f + k then tail f + k - num_entries f else tail f + k.

Definition entry_at (es : Z) (q : list Z) (s : Z) : list Z :=
  slice (Z.to_nat (s * es)) (Z.to_nat es) q.

(** The contents, oldest record first. *)
Definition fifo_abs (f : sbi_fifo) : list (list Z) :=
  (fun k => entry_at (entry_size f) (queue f) (slot f (Z.of_nat k)))
    <$> seq 0 (Z.to_nat (avail f)).

Lemma slot_range f k :
  fifo_wf f -> 0 <= k <= num_entries f -> 0 <= slot f k < num_entries f.
Proof. intros [] Hk. unfold slot. case_bool; lia. Qed.

Lemma slot_inj f j k :
  fifo_wf f -> 0 <= j < num_entries f -> 0 <= k < num_entries f ->
  slot f j = slot f k -> j = k.
Proof. intros [] Hj Hk. unfold slot. repeat case_bool; lia. Qed.

Lemma entry_in_queue f s :
  fifo_wf f -> 0 <= s < num_entries f ->
  0 <= s * entry_size f /\
  (Z.to_nat (s * entry_size f) + Z.to_nat (entry_size f) <= length (queue f))%nat /\
  u32 (s * entry_size f) = s * entry_size f.
Proof.
  intros [Hes Hnum _ _ Hq] Hs.
  assert (0 <= s * entry_size f) by nia.
  assert ((s + 1) * entry_size f <= num_entries f * entry_size f) by nia.
  split_and!; [done|lia|]. apply wrap_id. nia.
Qed.

(** Writing one slot leaves the records of the others alone. *)
Lemma entry_at_splice es q s s' d :
  0 < es -> 0 <= s -> 0 <= s' -> length d = Z.to_nat es ->
  (Z.to_nat (s' * es) + Z.to_nat es <= length q)%nat ->
  entry_at es (splice (Z.to_nat (s' * es)) d q) s = if s =? s' then d else entry_at es q s.
Proof.
  intros Hes Hs Hs' Hd Hq. unfold entry_at. case_bool.
  - assert (s = s') as -> by lia. apply slice_splice_eq; lia.
  - destruct (decide (s < s')).
    + apply slice_splice_before; nia.
    + apply slice_splice_after; nia.
Qed.

Lemma store_entry_eq f s d :
  length d = Z.to_nat (entry_size f) ->
  store_entry f s d = splice (Z.to_nat (u32 (s * entry_size f))) d (queue f).
Proof.
  intros Hd. unfold store_entry, bytes_copy.
  repeat case_bool; (rewrite take_ge; [done|]); lia.
Qed.

Lemma load_entry_eq f d :
  fifo_wf f -> length d = Z.to_nat (entry_size f) ->
  load_entry f d = entry_at (entry_size f) (queue f) (tail f).
Proof.
  intros Hf Hd. destruct (entry_in_queue f (tail f) Hf (fw_tail f Hf)) as (H0 & Hq & Hu).
  assert (length (slice (Z.to_nat (tail f * entry_size f)) (Z.to_nat (entry_size f))
    (queue f)) = Z.to_nat (entry_size f)) as Hl by (by apply length_slice).
  set (off := Z.to_nat (tail f * entry_size f)) in *.
  assert (forall n k, n = Z.to_nat (entry_size f) -> k = n ->
    splice (Z.to_nat 0) (take k (slice off n (queue f))) d =
    slice off (Z.to_nat (entry_size f)) (queue f)) as Hcase.
  { intros n k -> ->. rewrite take_ge by lia. unfold splice. simpl.
    rewrite drop_ge by lia. apply app_nil_r. }
  unfold load_entry, bytes_copy, entry_at. rewrite Hu. fold off.
  repeat case_bool; apply Hcase; lia.
Qed.

Lemma fifo_enqueue_spec f d :
  fifo_wf f -> avail f < num_entries f -> length d = Z.to_nat (entry_size f) ->
  let f' := __sbi_fifo_enqueue f d in
  fifo_wf f' /\ fifo_abs f' = fifo_abs f ++ [d] /\ qlock f' = qlock f /\
  entry_size f' = entry_size f /\ num_entries f' = num_entries f.
Proof.
  intros Hf Hlt Hd. pose proof Hf as [Hes Hnum Hav Htl Hq].
  assert ((if num_entries f <=? u32 (tail f + avail f)
           then u32 (u32 (tail f + avail f) - num_entries f)
           else u32 (tail f + avail f)) = slot f (avail f)) as Hhead.
  { rewrite (wrap_id 32 (tail f + avail f)) by lia. unfold slot.
    case_bool; [apply wrap_id; lia|done]. }
  pose proof (slot_range f (avail f) Hf ltac:(lia)) as Hs.
  destruct (entry_in_queue f _ Hf Hs) as (H0 & Hin & Hu).
  assert (u16 (avail f + 1) = avail f + 1) as Hav' by (apply wrap_id; lia).
  cbv zeta. unfold __sbi_fifo_enqueue. rewrite Hhead, store_entry_eq, Hu, Hav' by done.
  split_and!; try done.
  - split; simpl; try lia. rewrite length_splice by lia. done.
  - unfold fifo_abs. simpl. rewrite Z2Nat.inj_add, Nat.add_1_r by lia.
    rewrite seq_S, fmap_app. simpl. f_equal.
    + apply list_fmap_ext. intros i k Hk. apply lookup_seq in Hk as [-> Hk].
      change (slot _ (Z.of_nat (0 + i))) with (slot f (Z.of_nat (0 + i))).
      pose proof (slot_range f (Z.of_nat (0 + i)) Hf ltac:(lia)).
      rewrite entry_at_splice by lia. case_bool; [|done]. bool_to_prop.
      apply slot_inj in E; [lia|done|lia|lia].
    + rewrite Z2Nat.id by lia.
      change (slot _ (avail f)) with (slot f (avail f)).
      rewrite entry_at_splice by lia. by rewrite Z.eqb_refl.
Qed.

Lemma fifo_dequeue_spec f d :
  fifo_wf f -> 0 < avail f -> length d = Z.to_nat (entry_size f) ->
  exists e es, fifo_abs f = e :: es /\
  (forall od, od = Some d \/ od = None ->
   let '(od', f') := __sbi_fifo_dequeue f od in
   od' = (od ≫= fun _ => Some e) /\ fifo_wf f' /\ fifo_abs f' = es /\ qlock f' = qlock f /\
   entry_size f' = entry_size f /\ num_entries f' = num_entries f /\
   avail f' = avail f - 1).
Proof.
  intros Hf Hav0 Hd. pose proof Hf as [Hes Hnum Hav Htl Hq].
  exists (entry_at (entry_size f) (queue f) (tail f)).
  exists ((fun k => entry_at (entry_size f) (queue f) (slot f (Z.of_nat k)))
    <$> seq 1 (Z.to_nat (avail f - 1))).
  split.
  { unfold fifo_abs. replace (Z.to_nat (avail f)) with (S (Z.to_nat (avail f - 1))) by lia.
    simpl. f_equal. f_equal. unfold slot. case_bool; lia. }
  intros od Hod. unfold __sbi_fifo_dequeue.
  rewrite (wrap_id 16 (tail f + 1)) by lia. rewrite (wrap_id 16 (avail f - 1)) by lia.
  split_and!; try done.
  - destruct Hod as [-> | ->]; [|done]. simpl. by rewrite load_entry_eq.
  - split; simpl; try lia. case_bool; lia.
  - unfold fifo_abs. simpl. rewrite <- (fmap_S_seq 0), <- list_fmap_compose.
    apply list_fmap_ext. intros i k Hk. apply lookup_seq in Hk as [-> Hk]. simpl.
    f_equal. unfold slot. simpl. repeat case_bool; lia.
Qed.

Lemma fifo_abs_length f : length (fifo_abs f) = Z.to_nat (avail f).
Proof. unfold fifo_abs. by rewrite length_fmap, length_seq. Qed.

Arguments __sbi_fifo_enqueue : simpl never.
Arguments __sbi_fifo_dequeue : simpl never.
Arguments with_qlock : simpl never.

(** ** Specification: a list of records with a capacity *)

Inductive fifo_op : Type :=
| OpEnqueue (data : list Z) (force : bool)
| OpDequeue (buf : list Z)
| OpAvail
| OpIsFull
| OpIsEmpty
| OpReset
| OpUpdate (inp : list Z) (fptr : list Z -> list Z -> Z * list Z).

(** First record the callback claims, in queue order. *)
Fixpoint update_list (fptr : list Z -> list Z -> Z * list Z) (inp : list Z)
    (ret : Z) (l : list (list Z)) : Z * list (list Z) :=
  match l with
  | [] => (ret, [])
  | e :: l' =>
      let '(ret, e') := fptr inp e in
      if (ret =? SBI_FIFO_SKIP) || (ret =? SBI_FIFO_UPDATED) then (ret, e' :: l')
      else let '(ret', l'') := update_list fptr inp ret l' in (ret', e' :: l'')
  end.

Definition queue_step (cap : Z) (op : fifo_op) (q : list (list Z)) :
    (Z * option (list Z)) * list (list Z) :=
  match op with
  | OpEnqueue d force =>
      if Z.of_nat (length q) =? cap
      then if force then ((0, None), drop 1 q ++ [d]) else ((SBI_ENOSPC, None), q)
      else ((0, None), q ++ [d])
  | OpDequeue buf =>
      match q with
      | [] => ((SBI_ENOENT, Some buf), q)
      | e :: q' => ((0, Some e), q')
      end
  | OpAvail => ((Z.of_nat (length q), None), q)
  | OpIsFull => ((Z.b2z (Z.of_nat (length q) =? cap), None), q)
  | OpIsEmpty => ((Z.b2z (Z.of_nat (length q) =? 0), None), q)
  | OpReset => ((1, None), [])
  | OpUpdate inp fptr =>
      let '(r, q') := update_list fptr inp SBI_FIFO_UNCHANGED q in ((r, None), q')
  end.

Definition fifo_step (op : fifo_op) (f : sbi_fifo) :
    option ((Z * option (list Z)) * option sbi_fifo) :=
  match op with
  | OpEnqueue d force => '(r, f') ← sbi_fifo_enqueue (Some f) (Some d) force; Some ((r, None), f')
  | OpDequeue buf => '(r, f') ← sbi_fifo_dequeue (Some f) (Some buf); Some (r, f')
  | OpAvail => '(r, f') ← sbi_fifo_avail (Some f); Some ((r, None), f')
  | OpIsFull => '(r, f') ← sbi_fifo_is_full (Some f); Some ((r, None), f')
  | OpIsEmpty => '(r, f') ← sbi_fifo_is_empty (Some f); Some ((r, None), f')
  | OpReset => '(r, f') ← sbi_fifo_reset (Some f); Some ((Z.b2z r, None), f')
  | OpUpdate inp fptr =>
      '(r, f') ← sbi_fifo_inplace_update (Some f) (Some inp) fptr; Some ((r, None), f')
  end.

(** Callers pass buffers of one record and callbacks keep the record size. *)
Definition op_ok (es : Z) (op : fifo_op) : Prop :=
  match op with
  | OpEnqueue d _ | OpDequeue d => length d = Z.to_nat es
  | OpUpdate inp fptr =>
      forall e, length e = Z.to_nat es -> length (fptr inp e).2 = Z.to_nat es
  | _ => True
  end.

Record fifo_rel (cap es : Z) (f : sbi_fifo) (q : list (list Z)) : Prop := {
  fr_wf : fifo_wf f;
  fr_lock : lock_free (qlock f);
  fr_cap : num_entries f = cap;
  fr_es : entry_size f = es;
  fr_abs : fifo_abs f = q
}.

(** What a critical section does to the contents, whatever the lock word. *)
Definition section_spec {R} (cap es : Z) (body : sbi_fifo -> R * sbi_fifo)
    (q : list (list Z)) (r : R) (q' : list (list Z)) : Prop :=
  forall g, fifo_wf g -> num_entries g = cap -> entry_size g = es -> fifo_abs g = q ->
  exists g', body g = (r, g') /\ fifo_wf g' /\ num_entries g' = cap /\
    entry_size g' = es /\ fifo_abs g' = q' /\ qlock g' = qlock g.

(** A section that keeps its hands off the lock refines its specification and
    leaves the lock free. *)
Lemma with_qlock_rel {R} cap es f q (body : sbi_fifo -> R * sbi_fifo) r q' :
  fifo_rel cap es f q -> section_spec cap es body q r q' ->
  exists f', with_qlock f body = Some (r, f') /\ fifo_rel cap es f' q'.
Proof.
  intros [Hwf Hl Hc He Ha] Hb. unfold with_qlock. rewrite spin_lock_free by done.
  destruct (Hb (set_qlock (lock_taken (qlock f)) f)) as (g & Eg & Hg & Hgc & Hge & Hga & Hgl);
    [by destruct Hwf|done..|].
  simpl. rewrite Eg. eexists. split; [done|]. split; try done; [by destruct Hg|].
  rewrite Hgl. by apply spin_unlock_taken.
Qed.

Lemma fifo_reset_spec f :
  fifo_wf f -> fifo_wf (__sbi_fifo_reset f) /\ fifo_abs (__sbi_fifo_reset f) = [].
Proof.
  intros [Hes Hnum Hav Htl Hq]. split; [|done]. split; simpl; try lia.
  rewrite length_splice; [done|]. rewrite length_replicate, wrap_id by nia. lia.
Qed.

(** The scan of the ring is [update_list] on the records still ahead. *)
Lemma inplace_loop_spec f fptr inp :
  fifo_wf f ->
  (forall e, length e = Z.to_nat (entry_size f) ->
     length (fptr inp e).2 = Z.to_nat (entry_size f)) ->
  forall n i q ret r q',
  Z.of_nat (i + n) <= avail f -> Z.of_nat (length q) = num_entries f * entry_size f ->
  inplace_loop fptr inp f q (Z.of_nat i) n ret = (r, q') ->
  let ents q i n :=
    (fun k => entry_at (entry_size f) q (slot f (Z.of_nat k))) <$> seq i n in
  length q' = length q /\
  update_list fptr inp ret (ents q i n) = (r, ents q' i n) /\
  forall k, 0 <= k < num_entries f -> ~ (Z.of_nat i <= k < Z.of_nat (i + n)) ->
    entry_at (entry_size f) q' (slot f k) = entry_at (entry_size f) q (slot f k).
Proof.
  intros Hf Hfp. pose proof Hf as [Hes Hnum Hav Htl Hq]. set (es := entry_size f) in *.
  induction n as [|n IH]; intros i q ret r q' Hin Hlq Hloop; cbn zeta.
  { simpl in Hloop. by simplify_eq. }
  pose proof (slot_range f (Z.of_nat i) Hf ltac:(lia)) as Hs.
  assert (0 <= slot f (Z.of_nat i) * es /\
    (Z.to_nat (slot f (Z.of_nat i) * es) + Z.to_nat es <= length q)%nat /\
    u32 (slot f (Z.of_nat i) * es) = slot f (Z.of_nat i) * es) as (H0 & Hsq & Hu).
  { assert ((slot f (Z.of_nat i) + 1) * es <= num_entries f * es) by nia.
    split_and!; [nia|nia|]. apply wrap_id. nia. }
  cbn [inplace_loop] in Hloop. fold (slot f (Z.of_nat i)) es in Hloop.
  rewrite Hu in Hloop. cbn [seq fmap list_fmap update_list].
  fold (entry_at es q (slot f (Z.of_nat i))) in Hloop.
  assert (length (entry_at es q (slot f (Z.of_nat i))) = Z.to_nat es) as Hle
    by (by apply length_slice).
  specialize (Hfp _ Hle).
  destruct (fptr inp (entry_at es q (slot f (Z.of_nat i)))) as [ret' e'] eqn:Ef.
  simpl in Hfp. set (q1 := splice (Z.to_nat (slot f (Z.of_nat i) * es)) e' q) in *.
  assert (length q1 = length q) as Hlq1 by (apply length_splice; lia).
  assert (forall k, 0 <= k < num_entries f -> entry_at es q1 (slot f k) =
    if k =? Z.of_nat i then e' else entry_at es q (slot f k)) as Hq1.
  { intros k Hk. pose proof (slot_range f k Hf ltac:(lia)).
    unfold q1. rewrite entry_at_splice by lia.
    destruct (Z.eqb_spec k (Z.of_nat i)) as [->|Hne]; [by rewrite Z.eqb_refl|].
    rewrite (proj2 (Z.eqb_neq _ _)); [done|]. intros E.
    apply slot_inj in E; [lia|done|lia|lia]. }
  assert (forall m, (Z.of_nat (S i + m) <= avail f) ->
    (fun k => entry_at es q1 (slot f (Z.of_nat k))) <$> seq (S i) m =
    (fun k => entry_at es q (slot f (Z.of_nat k))) <$> seq (S i) m) as Hrest.
  { intros m Hm. apply list_fmap_ext. intros j k Hk. apply lookup_seq in Hk as [-> Hk].
    rewrite Hq1 by lia. case_bool; [lia|done]. }
  destruct ((ret' =? SBI_FIFO_SKIP) || (ret' =? SBI_FIFO_UPDATED)) eqn:Er.
  - simplify_eq. split_and!; [done| |].
    + rewrite Hrest by lia. rewrite Hq1 by lia. by rewrite Z.eqb_refl.
    + intros k Hk Hki. rewrite Hq1 by lia. case_bool; [lia|done].
  - replace (Z.of_nat i + 1) with (Z.of_nat (S i)) in Hloop by lia.
    specialize (IH (S i) q1 ret' r q' ltac:(lia) ltac:(lia) Hloop) as (Hl' & Hu' & Ho).
    cbn zeta in Hu'. rewrite Hrest in Hu' by lia. rewrite Hu'. split_and!; [lia| |].
    + rewrite Ho by lia. rewrite Hq1 by lia. by rewrite Z.eqb_refl.
    + intros k Hk Hki. rewrite Ho by lia. rewrite Hq1 by lia. case_bool; [lia|done].
Qed.

Lemma section_read {R} cap es q (g : sbi_fifo -> R) r :
  (forall f, fifo_wf f -> num_entries f = cap -> fifo_abs f = q -> g f = r) ->
  section_spec cap es (fun f => (g f, f)) q r q.
Proof. intros Hg f Hf Hc He Ha. exists f. by rewrite (Hg f). Qed.

Lemma enqueue_section cap es d force q :
  length d = Z.to_nat es ->
  section_spec cap es
    (fun f => if __sbi_fifo_is_full f then
        if negb force then (SBI_ENOSPC, f)
        else let '(_, f1) := __sbi_fifo_dequeue f None in (0, __sbi_fifo_enqueue f1 d)
      else (0, __sbi_fifo_enqueue f d)) q
    (queue_step cap (OpEnqueue d force) q).1.1 (queue_step cap (OpEnqueue d force) q).2.
Proof.
  intros Hd f Hf <- <- <-. cbv beta. pose proof (fw_avail f Hf). pose proof (fw_num f Hf).
  unfold queue_step, __sbi_fifo_is_full. rewrite fifo_abs_length, Z2Nat.id by lia.
  destruct (avail f =? num_entries f) eqn:Efull; [destruct force|]; cbn [negb fst snd].
  - destruct (fifo_dequeue_spec f d Hf ltac:(lia) Hd) as (e & l & -> & Hdq).
    specialize (Hdq None (or_intror eq_refl)).
    destruct (__sbi_fifo_dequeue f None) as [od f2].
    destruct Hdq as (_ & Hwf2 & <- & <- & He2 & Hn2 & Hav2).
    destruct (fifo_enqueue_spec f2 d Hwf2 ltac:(lia) ltac:(by rewrite He2))
      as (? & ? & ? & ? & ?). rewrite <- He2, <- Hn2. by (eexists; split_and!).
  - by (eexists; split_and!).
  - destruct (fifo_enqueue_spec f d Hf ltac:(lia) Hd) as (? & ? & ? & ? & ?). by (eexists; split_and!).
Qed.

Lemma dequeue_section cap es d q :
  length d = Z.to_nat es ->
  section_spec cap es
    (fun f => if __sbi_fifo_is_empty f then ((SBI_ENOENT, Some d), f)
      else let '(d', f1) := __sbi_fifo_dequeue f (Some d) in ((0, d'), f1)) q
    (queue_step cap (OpDequeue d) q).1 (queue_step cap (OpDequeue d) q).2.
Proof.
  intros Hd f Hf <- <- <-. cbv beta. pose proof (fw_avail f Hf). pose proof (fifo_abs_length f).
  unfold __sbi_fifo_is_empty. case_bool; bool_to_prop.
  - destruct (fifo_abs f) eqn:Ea; simpl in *; [|lia]. by (eexists; split_and!).
  - destruct (fifo_dequeue_spec f d Hf ltac:(lia) Hd) as (e & l & -> & Hdq).
    specialize (Hdq (Some d) (or_introl eq_refl)).
    destruct (__sbi_fifo_dequeue f (Some d)) as [od f2].
    destruct Hdq as (-> & ? & <- & <- & <- & <- & ?). by (eexists; split_and!).
Qed.

Lemma update_section cap es inp fptr q :
  op_ok es (OpUpdate inp fptr) ->
  section_spec cap es
    (fun f => if __sbi_fifo_is_empty f then (SBI_FIFO_UNCHANGED, f)
      else
        let '(r, q) :=
          inplace_loop fptr inp f (queue f) 0 (Z.to_nat (avail f)) SBI_FIFO_UNCHANGED in
        (r, mkFifo q (qlock f) (entry_size f) (num_entries f) (avail f) (tail f))) q
    (queue_step cap (OpUpdate inp fptr) q).1.1 (queue_step cap (OpUpdate inp fptr) q).2.
Proof.
  intros Hfp f Hf <- <- <-. cbv beta. pose proof Hf as [Hes Hnum Hav Htl Hq]. unfold queue_step.
  unfold __sbi_fifo_is_empty. case_bool; bool_to_prop.
  - assert (fifo_abs f = []) as -> by (apply nil_length_inv; rewrite fifo_abs_length; lia).
    simpl. exists f. split_and!; try done.
    apply nil_length_inv. rewrite fifo_abs_length. lia.
  - destruct (inplace_loop fptr inp f (queue f) 0 (Z.to_nat (avail f)) SBI_FIFO_UNCHANGED)
      as [r q'] eqn:El.
    destruct (inplace_loop_spec f fptr inp Hf Hfp (Z.to_nat (avail f)) 0%nat _ _ _ _ ltac:(lia) Hq El)
      as (Hlen & Hu & _). cbn zeta in Hu. fold (fifo_abs f) in Hu. rewrite Hu.
    eexists. split; [done|]. split_and!; try done. split; simpl; lia.
Qed.

Lemma reset_section cap es q :
  section_spec cap es (fun f => (true, __sbi_fifo_reset f)) q true [].
Proof.
  intros f Hf <- <- _. destruct (fifo_reset_spec f Hf). by (eexists; split_and!).
Qed.

Lemma avail_abs q g : fifo_wf g -> fifo_abs g = q -> avail g = Z.of_nat (length q).
Proof. intros Hg <-. rewrite fifo_abs_length. pose proof (fw_avail g Hg). lia. Qed.

Lemma is_full_section cap es q :
  section_spec cap es (fun f => (Z.b2z (__sbi_fifo_is_full f), f)) q
    (Z.b2z (Z.of_nat (length q) =? cap)) q.
Proof.
  apply section_read. intros g Hg <- Ha. unfold __sbi_fifo_is_full. by rewrite (avail_abs q g).
Qed.

Lemma is_empty_section cap es q :
  section_spec cap es (fun f => (Z.b2z (__sbi_fifo_is_empty f), f)) q
    (Z.b2z (Z.of_nat (length q) =? 0)) q.
Proof.
  apply section_read. intros g Hg _ Ha. unfold __sbi_fifo_is_empty. by rewrite (avail_abs q g).
Qed.

(** One call on the ring is one step of the list. *)
Lemma fifo_step_rel cap es f q op :
  fifo_rel cap es f q -> op_ok es op ->
  exists f', fifo_step op f = Some ((queue_step cap op q).1, Some f') /\
    fifo_rel cap es f' (queue_step cap op q).2.
Proof.
  intros Hr Hok.
  pose proof (avail_abs q) as Hav.
  destruct op as [d force|buf| | | | |inp fptr].
  - destruct (with_qlock_rel _ _ _ _ _ _ _ Hr (enqueue_section cap es d force q Hok))
      as (f' & Hw & Hr').
    exists f'. unfold fifo_step, sbi_fifo_enqueue. rewrite Hw. split; [|done]. simpl.
    repeat case_bool; done.
  - destruct (with_qlock_rel _ _ _ _ _ _ _ Hr (dequeue_section cap es buf q Hok))
      as (f' & Hw & Hr').
    exists f'. unfold fifo_step, sbi_fifo_dequeue. rewrite Hw. split; [|done].
    simpl. by destruct q.
  - destruct (with_qlock_rel _ _ _ _ _ _ _ Hr (section_read cap es q avail
      (Z.of_nat (length q)) (fun g Hg _ Ha => Hav g Hg Ha))) as (f' & Hw & Hr').
    exists f'. unfold fifo_step, sbi_fifo_avail. by rewrite Hw.
  - destruct (with_qlock_rel _ _ _ _ _ _ _ Hr (is_full_section cap es q)) as (f' & Hw & Hr').
    exists f'. unfold fifo_step, sbi_fifo_is_full. by rewrite Hw.
  - destruct (with_qlock_rel _ _ _ _ _ _ _ Hr (is_empty_section cap es q)) as (f' & Hw & Hr').
    exists f'. unfold fifo_step, sbi_fifo_is_empty. by rewrite Hw.
  - destruct (with_qlock_rel _ _ _ _ _ _ _ Hr (reset_section cap es q)) as (f' & Hw & Hr').
    exists f'. unfold fifo_step, sbi_fifo_reset. by rewrite Hw.
  - destruct (with_qlock_rel _ _ _ _ _ _ _ Hr (update_section cap es inp fptr q Hok))
      as (f' & Hw & Hr').
    exists f'. unfold fifo_step, sbi_fifo_inplace_update. rewrite Hw. split; [|done].
    simpl. by destruct (update_list fptr inp SBI_FIFO_UNCHANGED q).
Qed.

(** Whole call sequences. *)
Fixpoint fifo_run (ops : list fifo_op) (f : sbi_fifo) :
    option (list (Z * option (list Z)) * sbi_fifo) :=
  match ops with
  | [] => Some ([], f)
  | op :: ops' =>
      '(o, f1) ← fifo_step op f; f1 ← f1; '(os, f2) ← fifo_run ops' f1; Some (o :: os, f2)
  end.

Fixpoint queue_run (cap : Z) (ops : list fifo_op) (q : list (list Z)) :
    list (Z * option (list Z)) * list (list Z) :=
  match ops with
  | [] => ([], q)
  | op :: ops' =>
      let '(o, q1) := queue_step cap op q in
      let '(os, q2) := queue_run cap ops' q1 in (o :: os, q2)
  end.

Lemma fifo_run_rel cap es ops : forall f q,
  fifo_rel cap es f q -> Forall (op_ok es) ops ->
  exists f', fifo_run ops f = Some ((queue_run cap ops q).1, f') /\
    fifo_rel cap es f' (queue_run cap ops q).2.
Proof.
  induction ops as [|op ops IH]; intros f q Hr Hok; [by exists f|].
  apply Forall_cons in Hok as [Hop Hok].
  destruct (fifo_step_rel cap es f q op Hr Hop) as (f1 & E1 & Hr1).
  destruct (IH f1 _ Hr1 Hok) as (f2 & E2 & Hr2).
  exists f2. cbn [fifo_run queue_run]. rewrite E1. simpl. rewrite E2. simpl.
  destruct (queue_step cap op q) as [o q1]. simpl in *.
  by destruct (queue_run cap ops q1).
Qed.

Lemma fifo_init_rel mem0 entries es :
  0 < es < 2 ^ 16 -> 0 < entries < 2 ^ 16 ->
  Z.of_nat (length mem0) = entries * es ->
  fifo_rel entries es (sbi_fifo_init mem0 entries es) [].
Proof.
  intros Hes Hn Hm. split; [|by apply lock_free_init|done|done|done].
  split; simpl; try lia. rewrite length_splice; [done|].
  rewrite length_replicate, wrap_id by nia. lia.
Qed.

(** ** Properties *)

(** C18: every sequence of enqueue (plain or forced), dequeue, in-place
    update, reset and query calls on a freshly initialised FIFO returns exactly
    what a list with the same capacity returns, ends with the same contents,
    never blocks and leaves the lock free. *)
Theorem fifo_refines_queue mem0 entries es ops :
  0 < es < 2 ^ 16 -> 0 < entries < 2 ^ 16 ->
  Z.of_nat (length mem0) = entries * es -> Forall (op_ok es) ops ->
  exists f', fifo_run ops (sbi_fifo_init mem0 entries es) =
      Some ((queue_run entries ops []).1, f') /\
    fifo_abs f' = (queue_run entries ops []).2 /\ lock_free (qlock f').
Proof.
  intros Hes Hn Hm Hok.
  destruct (fifo_run_rel entries es ops _ _ (fifo_init_rel _ _ _ Hes Hn Hm) Hok)
    as (f' & E & [? ? ? ? ?]). by exists f'.
Qed.

Lemma fifo_refines_queue_witness :
  exists f', fifo_run [OpEnqueue [1; 2; 3] false; OpEnqueue [4; 5; 6] false;
      OpEnqueue [7; 8; 9] true; OpDequeue [0; 0; 0]] (sbi_fifo_init (replicate 6 0) 2 3) =
      Some ([(0, None); (0, None); (0, None); (0, Some [4; 5; 6])], f') /\
    fifo_abs f' = [[7; 8; 9]] /\ lock_free (qlock f').
Proof.
  apply (fifo_refines_queue (replicate 6 0) 2 3
    [OpEnqueue [1; 2; 3] false; OpEnqueue [4; 5; 6] false;
     OpEnqueue [7; 8; 9] true; OpDequeue [0; 0; 0]]); [lia|lia|done|].
  repeat constructor.
Defined.

(** Calling back into the FIFO from an in-place update callback, as
    the comment above sbi_fifo_inplace_update forbids, spins for ever: with the
    lock held every locking entry point blocks. *)
Theorem fifo_reentry_deadlocks f l d force :
  lock_free l ->
  sbi_fifo_enqueue (Some (set_qlock (lock_taken l) f)) (Some d) force = None /\
  sbi_fifo_dequeue (Some (set_qlock (lock_taken l) f)) (Some d) = None /\
  sbi_fifo_is_empty (Some (set_qlock (lock_taken l) f)) = None.
Proof.
  intros Hl. unfold sbi_fifo_enqueue, sbi_fifo_dequeue, sbi_fifo_is_empty, with_qlock.
  cbn [set_qlock qlock]. by rewrite spin_lock_taken.
Qed.

Lemma fifo_reentry_deadlocks_witness :
  sbi_fifo_enqueue (Some (set_qlock (lock_taken SPIN_LOCK_UNLOCKED)
    (sbi_fifo_init [0; 0] 2 1))) (Some [7]) false = None.
Proof.
  apply (fifo_reentry_deadlocks (sbi_fifo_init [0; 0] 2 1) SPIN_LOCK_UNLOCKED [7] false).
  apply lock_free_init.
Defined.
