(* ===== verification/Bitops.v ===== *)
(** * Bit operations and searches

    include/sbi/sbi_bitops.h, lib/sbi/sbi_bitops.c and lib/sbi/sbi_math.c of
    xendor/opensbi, for RV64 (BITS_PER_LONG = 64).

    A bitmap is the list of its 64-bit words, a bit number is non-negative.
    [rd] reads a word; reading or writing outside the array is undefined in C
    and reads 0 or has no effect here.  The specification of a bitmap is the
    predicate [bm_test]. *)

From S2P Require Import Prelude.

Local Open Scope Z_scope.

Abbreviation BITS_PER_LONG := 64.

Definition EXTRACT_FIELD (val which : Z) : Z :=
  Z.land val which / Z.land which (not_w 64 (which - 1)).

Definition INSERT_FIELD (val which fieldval : Z) : Z :=
  Z.lor (Z.land val (not_w 64 which))
    (u64 (fieldval * Z.land which (not_w 64 (which - 1)))).

Definition BITS_TO_LONGS (nbits : Z) : Z := (nbits + BITS_PER_LONG - 1) / BITS_PER_LONG.

Definition BIT (nr : Z) : Z := shl64 1 nr.
Definition BIT_MASK (nr : Z) : Z := shl64 1 (nr mod BITS_PER_LONG).
Definition BIT_WORD (bit : Z) : Z := bit / BITS_PER_LONG.
Definition BIT_WORD_OFFSET (bit : Z) : Z := Z.land bit (BITS_PER_LONG - 1).
Definition BIT_ALIGN (bit align : Z) : Z :=
  Z.land (u64 (bit + (align - 1))) (not_w 64 (align - 1)).

Definition GENMASK (h l : Z) : Z :=
  Z.land (u64 (ULONG_MAX - shl64 1 l + 1)) (Z.shiftr ULONG_MAX (BITS_PER_LONG - 1 - h)).

Definition sbi_ffs (word : Z) : Z :=
  let num := 0 in
  let '(num, word) :=
    if Z.land word 0xffffffff =? 0 then (num + 32, Z.shiftr word 32) else (num, word) in
  let '(num, word) :=
    if Z.land word 0xffff =? 0 then (num + 16, Z.shiftr word 16) else (num, word) in
  let '(num, word) :=
    if Z.land word 0xff =? 0 then (num + 8, Z.shiftr word 8) else (num, word) in
  let '(num, word) :=
    if Z.land word 0xf =? 0 then (num + 4, Z.shiftr word 4) else (num, word) in
  let '(num, word) :=
    if Z.land word 0x3 =? 0 then (num + 2, Z.shiftr word 2) else (num, word) in
  if Z.land word 0x1 =? 0 then num + 1 else num.

Definition sbi_ffz (x : Z) : Z := sbi_ffs (not_w 64 x).

Definition sbi_fls (word : Z) : Z :=
  let num := BITS_PER_LONG - 1 in
  let '(num, word) :=
    if Z.land word (shl64 ULONG_MAX 32) =? 0 then (num - 32, shl64 word 32) else (num, word) in
  let '(num, word) :=
    if Z.land word (shl64 ULONG_MAX (BITS_PER_LONG - 16)) =? 0
    then (num - 16, shl64 word 16) else (num, word) in
  let '(num, word) :=
    if Z.land word (shl64 ULONG_MAX (BITS_PER_LONG - 8)) =? 0
    then (num - 8, shl64 word 8) else (num, word) in
  let '(num, word) :=
    if Z.land word (shl64 ULONG_MAX (BITS_PER_LONG - 4)) =? 0
    then (num - 4, shl64 word 4) else (num, word) in
  let '(num, word) :=
    if Z.land word (shl64 ULONG_MAX (BITS_PER_LONG - 2)) =? 0
    then (num - 2, shl64 word 2) else (num, word) in
  if Z.land word (shl64 ULONG_MAX (BITS_PER_LONG - 1)) =? 0 then num - 1 else num.

Definition sbi_popcount (word : Z) : Z :=
  let count := u64 (word - Z.land (Z.shiftr word 1) 0x5555555555555555) in
  let count := u64 (Z.land count 0x3333333333333333
                    + Z.land (Z.shiftr count 2) 0x3333333333333333) in
  let count := Z.land (u64 (count + Z.shiftr count 4)) 0x0F0F0F0F0F0F0F0F in
  let count := u64 (count + Z.shiftr count 8) in
  let count := u64 (count + Z.shiftr count 16) in
  Z.land (u64 (count + Z.shiftr count 32)) 0x00000000000000FF.

Definition rd (addr : list Z) (k : Z) : Z := default 0 (addr !! Z.to_nat k).
Definition wr (addr : list Z) (k v : Z) : list Z := <[Z.to_nat k := v]> addr.

(** The word loops of the four searches: [hit] is the test on the word just
    read, [result] and [size] are the code's variables, [p] the word index. *)
Inductive scan : Type :=
| Found (tmp result : Z)
| Rest (p result size : Z).

Fixpoint skip_words (hit : Z -> bool) (addr : list Z) (fuel : nat) (p result size : Z) : scan :=
  match fuel with
  | O => Rest p result size
  | S fuel =>
      if truthy (Z.land size (not_w 64 (BITS_PER_LONG - 1))) then
        let tmp := rd addr p in
        if hit tmp then Found tmp result
        else skip_words hit addr fuel (p + 1) (u64 (result + BITS_PER_LONG))
               (u64 (size - BITS_PER_LONG))
      else Rest p result size
  end.

(** Every iteration but the last takes a whole word off [size]. *)
Definition scan_fuel (size : Z) : nat := S (Z.to_nat (size / BITS_PER_LONG)).

Definition nonzero (tmp : Z) : bool := truthy tmp.
Definition nonfull (tmp : Z) : bool := truthy (not_w 64 tmp).

(** The tails of the searches, from the labels found_first and found_middle. *)
Definition tail_set (tmp result size : Z) : Z :=
  let tmp := Z.land tmp (Z.shiftr ULONG_MAX (BITS_PER_LONG - size)) in
  if tmp =? 0 then u64 (result + size) else u64 (result + sbi_ffs tmp).

Definition tail_clear (tmp result size : Z) : Z :=
  let tmp := Z.lor tmp (shl64 ULONG_MAX size) in
  if tmp =? ULONG_MAX then u64 (result + size) else u64 (result + sbi_ffz tmp).

Definition find_first_bit (addr : list Z) (size : Z) : Z :=
  match skip_words nonzero addr (scan_fuel size) 0 0 size with
  | Found tmp result => u64 (result + sbi_ffs tmp)
  | Rest p result size => if size =? 0 then result else tail_set (rd addr p) result size
  end.

Definition find_first_zero_bit (addr : list Z) (size : Z) : Z :=
  match skip_words nonfull addr (scan_fuel size) 0 0 size with
  | Found tmp result => u64 (result + sbi_ffz tmp)
  | Rest p result size => if size =? 0 then result else tail_clear (rd addr p) result size
  end.

(** The downward loop of find_last_bit. *)
Fixpoint last_words (addr : list Z) (words : nat) (size : Z) : Z :=
  match words with
  | O => size
  | S words' =>
      let tmp := rd addr (Z.of_nat words') in
      if truthy tmp then u64 (Z.of_nat words' * BITS_PER_LONG + sbi_fls tmp)
      else last_words addr words' size
  end.

Definition find_last_bit (addr : list Z) (size : Z) : Z :=
  let words := size / BITS_PER_LONG in
  let rest := Z.land size (BITS_PER_LONG - 1) in
  let tmp := Z.land (rd addr words) (Z.shiftr ULONG_MAX (BITS_PER_LONG - rest)) in
  if truthy rest && truthy tmp then u64 (words * BITS_PER_LONG + sbi_fls tmp)
  else last_words addr (Z.to_nat words) size.

Definition find_next_bit (addr : list Z) (size offset : Z) : Z :=
  let p := offset / BITS_PER_LONG in
  let result := Z.land offset (not_w 64 (BITS_PER_LONG - 1)) in
  if size <=? offset then size
  else
    let rest := fun p result size =>
      match skip_words nonzero addr (scan_fuel size) p result size with
      | Found tmp result => u64 (result + sbi_ffs tmp)
      | Rest p result size => if size =? 0 then result else tail_set (rd addr p) result size
      end in
    let size := u64 (size - result) in
    let offset := offset mod BITS_PER_LONG in
    if truthy offset then
      let tmp := Z.land (rd addr p) (shl64 ULONG_MAX offset) in
      if size <? BITS_PER_LONG then tail_set tmp result size
      else if truthy tmp then u64 (result + sbi_ffs tmp)
      else rest (p + 1) (u64 (result + BITS_PER_LONG)) (u64 (size - BITS_PER_LONG))
    else rest p result size.

Definition find_next_zero_bit (addr : list Z) (size offset : Z) : Z :=
  let p := offset / BITS_PER_LONG in
  let result := Z.land offset (not_w 64 (BITS_PER_LONG - 1)) in
  if size <=? offset then size
  else
    let rest := fun p result size =>
      match skip_words nonfull addr (scan_fuel size) p result size with
      | Found tmp result => u64 (result + sbi_ffz tmp)
      | Rest p result size => if size =? 0 then result else tail_clear (rd addr p) result size
      end in
    let size := u64 (size - result) in
    let offset := offset mod BITS_PER_LONG in
    if truthy offset then
      let tmp := Z.lor (rd addr p) (Z.shiftr ULONG_MAX (BITS_PER_LONG - offset)) in
      if size <? BITS_PER_LONG then tail_clear tmp result size
      else if truthy (not_w 64 tmp) then u64 (result + sbi_ffz tmp)
      else rest (p + 1) (u64 (result + BITS_PER_LONG)) (u64 (size - BITS_PER_LONG))
    else rest p result size.

Definition __set_bit (nr : Z) (addr : list Z) : list Z :=
  wr addr (BIT_WORD nr) (Z.lor (rd addr (BIT_WORD nr)) (BIT_MASK nr)).

Definition __clear_bit (nr : Z) (addr : list Z) : list Z :=
  wr addr (BIT_WORD nr) (Z.land (rd addr (BIT_WORD nr)) (not_w 64 (BIT_MASK nr))).

Definition __change_bit (nr : Z) (addr : list Z) : list Z :=
  wr addr (BIT_WORD nr) (Z.lxor (rd addr (BIT_WORD nr)) (BIT_MASK nr)).

Definition __test_and_set_bit (nr : Z) (addr : list Z) : bool * list Z :=
  let old := rd addr (BIT_WORD nr) in
  (truthy (Z.land old (BIT_MASK nr)), wr addr (BIT_WORD nr) (Z.lor old (BIT_MASK nr))).

Definition __test_and_clear_bit (nr : Z) (addr : list Z) : bool * list Z :=
  let old := rd addr (BIT_WORD nr) in
  (truthy (Z.land old (BIT_MASK nr)),
   wr addr (BIT_WORD nr) (Z.land old (not_w 64 (BIT_MASK nr)))).

Definition __test_bit (nr : Z) (addr : list Z) : Z :=
  Z.land 1 (Z.shiftr (rd addr (BIT_WORD nr)) (Z.land nr (BITS_PER_LONG - 1))).

(** ** sbi_math.c *)

Fixpoint log2roundup_loop (fuel : nat) (x ret : Z) : Z :=
  match fuel with
  | O => ret
  | S fuel => if x <=? shl64 1 ret then ret else log2roundup_loop fuel x (ret + 1)
  end.

(** The loop runs while [ret < 64], starting from 0: 64 iterations. *)
Definition log2roundup (x : Z) : Z := log2roundup_loop 64 x 0.

(** ** Single words *)

Lemma ffs_step k n w :
  0 < k -> w mod 2 ^ (2 * k) <> 0 ->
  exists d w', (if Z.land w (2 ^ k - 1) =? 0 then (n + k, Z.shiftr w k) else (n, w)) = (n + d, w') /\
    0 <= d /\ w = w' * 2 ^ d /\ w' mod 2 ^ k <> 0.
Proof.
  intros Hk Hw. rewrite land_ones_mod by lia.
  pose proof (pow2_pos k ltac:(lia)) as Hp. case_bool; bool_to_prop.
  - exists k, (Z.shiftr w k). rewrite Z.shiftr_div_pow2 by lia.
    pose proof (Z.div_mod w (2 ^ k) ltac:(lia)) as Hdm.
    split_and!; [done|lia|lia|]. intros H0. apply Hw.
    replace (2 * k) with (k + k) by lia. rewrite Z.pow_add_r by lia.
    rewrite Z.rem_mul_r by lia. rewrite E, H0. lia.
  - exists 0, w. rewrite Z.add_0_r, Z.pow_0_r. split_and!; [done|lia|lia|done].
Qed.

Lemma testbit_mul_pow2_odd m r :
  0 <= r -> m mod 2 <> 0 ->
  Z.testbit (m * 2 ^ r) r = true /\ forall k, 0 <= k < r -> Z.testbit (m * 2 ^ r) k = false.
Proof.
  intros Hr Hm. split.
  - rewrite Z.mul_pow2_bits by lia. rewrite Z.sub_diag, Z.bit0_odd.
    pose proof (Zmod_odd m). destruct (Z.odd m); [done|lia].
  - intros k Hk. by rewrite Z.mul_pow2_bits_low by lia.
Qed.

(** [r] is the least member of [P] in [lo, hi), or [hi] when there is none. *)
Definition is_least (P : Z -> bool) (lo hi r : Z) : Prop :=
  (forall k, lo <= k < r -> P k = false) /\ lo <= r <= hi /\ (r < hi -> P r = true).

(** [r] is the greatest member of [P] in [0, hi), or [hi] when there is none. *)
Definition is_greatest (P : Z -> bool) (hi r : Z) : Prop :=
  (0 <= r < hi /\ P r = true /\ forall k, r < k < hi -> P k = false) \/
  (r = hi /\ forall k, 0 <= k < hi -> P k = false).

Lemma ffs_spec w :
  0 < w < 2 ^ 64 -> 0 <= sbi_ffs w < 64 /\ is_least (Z.testbit w) 0 64 (sbi_ffs w).
Proof.
  intros Hw. unfold sbi_ffs.
  change 0xffffffff with (2 ^ 32 - 1). change 0xffff with (2 ^ 16 - 1).
  change 0xff with (2 ^ 8 - 1). change 0xf with (2 ^ 4 - 1). change 0x3 with (2 ^ 2 - 1).
  cbv zeta.
  destruct (ffs_step 32 0 w ltac:(lia)) as (d5 & w5 & -> & H5 & E5 & M5).
  { rewrite Z.mod_small; lia. }
  destruct (ffs_step 16 (0 + d5) w5 ltac:(lia) M5) as (d4 & w4 & -> & H4 & E4 & M4).
  destruct (ffs_step 8 (0 + d5 + d4) w4 ltac:(lia) M4) as (d3 & w3 & -> & H3 & E3 & M3).
  destruct (ffs_step 4 (0 + d5 + d4 + d3) w3 ltac:(lia) M3) as (d2 & w2 & -> & H2 & E2 & M2).
  destruct (ffs_step 2 (0 + d5 + d4 + d3 + d2) w2 ltac:(lia) M2) as (d1 & w1 & -> & H1 & E1 & M1).
  destruct (ffs_step 1 (0 + d5 + d4 + d3 + d2 + d1) w1 ltac:(lia) M1) as (d0 & w0 & S0 & H0 & E0 & M0).
  set (n := 0 + d5 + d4 + d3 + d2 + d1) in *.
  assert ((if Z.land w1 1 =? 0 then n + 1 else n) = n + d0) as ->.
  { change (2 ^ 1 - 1) with 1 in S0. destruct (Z.land w1 1 =? 0); congruence. }
  set (r := n + d0).
  assert (w = w0 * 2 ^ r) as Ew.
  { rewrite E5, E4, E3, E2, E1, E0. rewrite <- !Z.mul_assoc, <- !Z.pow_add_r by lia.
    f_equal. f_equal. unfold r, n. lia. }
  assert (0 <= r) by lia. change (2 ^ 1) with 2 in M0.
  destruct (testbit_mul_pow2_odd w0 r ltac:(lia) M0) as [Ht Hz]. rewrite <- Ew in Ht, Hz.
  assert (r < 64).
  { destruct (decide (r < 64)); [done|]. pose proof (pow2_le 64 r ltac:(lia)).
    pose proof (pow2_pos r ltac:(lia)). assert (0 < w0) by nia. nia. }
  split; [lia|]. split_and!; [done|lia|lia|done].
Qed.

Lemma land_high w k :
  0 <= k < 64 -> in_range 64 w -> Z.land w (shl64 ULONG_MAX (64 - k)) = w - w mod 2 ^ (64 - k).
Proof.
  intros Hk Hw. destruct (decide (k = 0)) as [->|].
  { change (shl64 ULONG_MAX (64 - 0)) with 0. rewrite Z.land_0_r.
    unfold in_range in Hw. rewrite Z.mod_small by (simpl; lia). lia. }
  rewrite <- land_lnot_pow2, <- (land_not_w 64) by (lia || done). f_equal.
  unfold shl64, not_w, ULONG_MAX. rewrite Z.shiftl_mul_pow2 by lia.
  unfold Z.lnot, wrap.
  replace (Z.pred (- (2 ^ (64 - k) - 1))) with (- 2 ^ (64 - k)) by lia.
  rewrite Z.mul_sub_distr_r.
  replace (2 ^ 64 * 2 ^ (64 - k) - 1 * 2 ^ (64 - k))
    with (- 2 ^ (64 - k) + 2 ^ (64 - k) * 2 ^ 64) by lia.
  by rewrite Z_mod_plus_full.
Qed.

Lemma fls_step k n w :
  0 < k -> 2 * k <= 64 -> 2 ^ (64 - 2 * k) <= w < 2 ^ 64 ->
  exists d w', (if Z.land w (shl64 ULONG_MAX (64 - k)) =? 0 then (n - k, shl64 w k) else (n, w))
      = (n - d, w') /\
    0 <= d /\ w' = w * 2 ^ d /\ 2 ^ (64 - k) <= w' < 2 ^ 64.
Proof.
  intros Hk Hk2 Hw. pose proof (pow2_pos (64 - 2 * k) ltac:(lia)).
  rewrite land_high by (unfold in_range; lia).
  pose proof (pow2_pos k ltac:(lia)) as Hp. pose proof (pow2_pos (64 - k) ltac:(lia)) as Hp'.
  pose proof (Z.mod_pos_bound w (2 ^ (64 - k)) Hp') as Hm.
  assert (2 ^ 64 = 2 ^ (64 - k) * 2 ^ k) as H64 by (apply pow2_split; lia).
  assert (2 ^ (64 - k) = 2 ^ (64 - 2 * k) * 2 ^ k) as Hkk.
  { rewrite (pow2_split k (64 - k)) by lia. by replace (64 - k - k) with (64 - 2 * k) by lia. }
  case_bool; bool_to_prop.
  - exists k, (w * 2 ^ k). assert (w * 2 ^ k < 2 ^ 64) by nia.
    unfold shl64. rewrite Z.shiftl_mul_pow2 by lia. rewrite wrap_id by nia.
    split_and!; [done|lia|done|nia|done].
  - exists 0, w. rewrite Z.sub_0_r, Z.pow_0_r. split_and!; [done|lia|lia| |lia].
    destruct (decide (2 ^ (64 - k) <= w)); [done|]. rewrite Z.mod_small in E by lia. lia.
Qed.

Lemma fls_spec w : 0 < w < 2 ^ 64 -> sbi_fls w = Z.log2 w.
Proof.
  intros Hw. unfold sbi_fls. cbv zeta.
  change (shl64 ULONG_MAX 32) with (shl64 ULONG_MAX (64 - 32)).
  destruct (fls_step 32 (64 - 1) w ltac:(lia) ltac:(lia)) as (d5 & w5 & -> & H5 & E5 & M5).
  { change (2 ^ (64 - 2 * 32)) with 1. lia. }
  destruct (fls_step 16 (64 - 1 - d5) w5 ltac:(lia) ltac:(lia) M5)
    as (d4 & w4 & -> & H4 & E4 & M4).
  destruct (fls_step 8 (64 - 1 - d5 - d4) w4 ltac:(lia) ltac:(lia) M4)
    as (d3 & w3 & -> & H3 & E3 & M3).
  destruct (fls_step 4 (64 - 1 - d5 - d4 - d3) w3 ltac:(lia) ltac:(lia) M3)
    as (d2 & w2 & -> & H2 & E2 & M2).
  destruct (fls_step 2 (64 - 1 - d5 - d4 - d3 - d2) w2 ltac:(lia) ltac:(lia) M2)
    as (d1 & w1 & -> & H1 & E1 & M1).
  set (n := 64 - 1 - d5 - d4 - d3 - d2 - d1).
  destruct (fls_step 1 n w1 ltac:(lia) ltac:(lia) M1) as (d0 & w0 & S0 & H0 & E0 & M0).
  assert ((if Z.land w1 (shl64 ULONG_MAX (64 - 1)) =? 0 then n - 1 else n) = n - d0) as ->.
  { destruct (Z.land w1 _ =? 0); congruence. }
  assert (w0 = w * 2 ^ (63 - (n - d0))) as Ew.
  { rewrite E0, E1, E2, E3, E4, E5. rewrite <- !Z.mul_assoc, <- !Z.pow_add_r by lia.
    f_equal. f_equal. unfold n. lia. }
  assert (Z.log2 w0 = 63) as Hl by (apply Z.log2_unique; [lia|exact M0]).
  rewrite Ew, Z.log2_mul_pow2 in Hl by lia. lia.
Qed.

(** ** Bitmaps as predicates on bit numbers *)

Definition words_ok (addr : list Z) : Prop := Forall (in_range 64) addr.

Definition bm_test (addr : list Z) (k : Z) : bool := Z.testbit (rd addr (k / 64)) (k mod 64).

Lemma rd_range addr k : words_ok addr -> in_range 64 (rd addr k).
Proof.
  intros Ha. unfold rd. destruct (addr !! Z.to_nat k) eqn:E; simpl; [|unfold in_range; lia].
  by eapply Forall_lookup_1.
Qed.

Lemma land_not_63 size : in_range 64 size ->
  Z.land size (not_w 64 (BITS_PER_LONG - 1)) = size - size mod 64.
Proof. intros. change (BITS_PER_LONG - 1) with (2 ^ 6 - 1). apply land_not_mask; lia || done. Qed.

Lemma truthy_full_words size : in_range 64 size ->
  truthy (Z.land size (not_w 64 (BITS_PER_LONG - 1))) = (64 <=? size).
Proof.
  intros Hs. rewrite land_not_63 by done. unfold truthy, in_range in *.
  Z.div_mod_to_equations. lia.
Qed.

Lemma is_least_shift P Q lo hi r m b :
  (forall k, 0 <= k < m -> P (r + k) = Q k) -> is_least Q 0 m b ->
  (forall k, lo <= k < r -> P k = false) -> lo <= r -> r + m <= hi ->
  (b < m \/ r + m = hi) -> is_least P lo hi (r + b).
Proof.
  intros HPQ (Hb & Hr & Ht) Hlo Hlr Hm Hc. split_and!; [|lia|lia|].
  - intros k Hk. destruct (decide (k < r)); [apply Hlo; lia|].
    replace k with (r + (k - r)) by lia. rewrite HPQ by lia. apply Hb. lia.
  - intros. rewrite HPQ by lia. apply Ht. lia.
Qed.

(** The arithmetic find_next_bit and find_next_zero_bit start with. *)
Lemma next_offset size offset : in_range 64 size -> 0 <= offset < size ->
  let q := offset / 64 in
  Z.land offset (not_w 64 (BITS_PER_LONG - 1)) = 64 * q /\ 0 <= q /\
  u64 (size - 64 * q) = size - 64 * q /\ offset = 64 * q + offset mod 64 /\
  0 <= offset mod 64 < 64 /\
  (64 <= size - 64 * q -> u64 (64 * q + 64) = 64 * q + 64 /\
     u64 (size - 64 * q - 64) = size - 64 * q - 64).
Proof.
  intros Hs Ho. cbn zeta. unfold in_range in *. rewrite land_not_63 by (unfold in_range; lia).
  pose proof (Z.div_mod offset 64 ltac:(lia)). pose proof (Z.mod_pos_bound offset 64 ltac:(lia)).
  pose proof (Z.div_pos offset 64 ltac:(lia) ltac:(lia)).
  split_and!; try lia; [apply wrap_id; lia|]. intros. split; apply wrap_id; lia.
Qed.

(** The part the four searches share: [bitP] is the property of a bit looked
    for, [hit] the test that a word has such a bit, [ff] the position of its
    first one and [tail] the code from found_first on. *)
Section Search.
Context (bitP : Z -> Z -> bool) (hit : Z -> bool) (ff : Z -> Z) (tail : Z -> Z -> Z -> Z).
Hypothesis hit_false : forall w b,
  in_range 64 w -> hit w = false -> 0 <= b < 64 -> bitP w b = false.
Hypothesis hit_true : forall w, in_range 64 w -> hit w = true ->
  0 <= ff w < 64 /\ is_least (bitP w) 0 64 (ff w).
Hypothesis tail_spec : forall w result size, in_range 64 w -> 0 < size < 64 ->
  0 <= result -> result + size < 2 ^ 64 ->
  exists b, tail w result size = result + b /\ is_least (bitP w) 0 size b.
Context (addr : list Z) (Haddr : words_ok addr).

Let P (k : Z) : bool := bitP (rd addr (k / 64)) (k mod 64).

Lemma word_bit p b : 0 <= b < 64 -> P (64 * p + b) = bitP (rd addr p) b.
Proof.
  intros Hb. unfold P. replace (64 * p + b) with (b + p * 64) by lia.
  rewrite Z.div_add, Z.mod_add by lia. by rewrite Z.div_small, Z.mod_small by lia.
Qed.

Lemma skip_words_spec fuel : forall p size,
  (Z.to_nat (size / 64) < fuel)%nat -> 0 <= p -> 0 <= size -> 64 * p + size < 2 ^ 64 ->
  let total := 64 * p + size in
  match skip_words hit addr fuel p (64 * p) size with
  | Found tmp r => exists q, r = 64 * q /\ p <= q /\ r + 64 <= total /\
      tmp = rd addr q /\ hit tmp = true /\ forall k, 64 * p <= k < r -> P k = false
  | Rest q r s => r = 64 * q /\ p <= q /\ r + s = total /\ 0 <= s < 64 /\
      forall k, 64 * p <= k < r -> P k = false
  end.
Proof.
  induction fuel as [|fuel IH]; intros p size Hf Hp Hs Ht; [lia|]. cbn [skip_words].
  rewrite truthy_full_words by (unfold in_range; lia). case_bool; bool_to_prop.
  - destruct (hit (rd addr p)) eqn:Eh.
    + exists p. split_and!; auto with lia.
    + rewrite !wrap_id by lia.
      specialize (IH (p + 1) (size - 64)). replace (64 * (p + 1)) with (64 * p + 64) in IH by lia.
      assert (forall k, 64 * p <= k < 64 * p + 64 -> P k = false) as Hp0.
      { intros k Hk. replace k with (64 * p + (k - 64 * p)) by lia.
        rewrite word_bit by lia. apply hit_false; [by apply rd_range|done|lia]. }
      assert (size / 64 = (size - 64) / 64 + 1) as Hd by (Z.div_mod_to_equations; lia).
      pose proof (Z.div_pos (size - 64) 64 ltac:(lia) ltac:(lia)).
      specialize (IH ltac:(lia) ltac:(lia) ltac:(lia) ltac:(lia)). cbn zeta in IH.
      destruct (skip_words hit addr fuel (p + 1) (64 * p + 64) (size - 64)).
      * destruct IH as (q & ? & ? & ? & ? & ? & Hk). exists q. split_and!; try done; try lia.
        intros k ?. destruct (decide (k < 64 * p + 64)); [apply Hp0; lia|apply Hk; lia].
      * destruct IH as (? & ? & ? & ? & Hk). split_and!; try done; try lia.
        intros k ?. destruct (decide (k < 64 * p + 64)); [apply Hp0; lia|apply Hk; lia].
  - split_and!; auto with lia.
Qed.

(** From a word boundary on. *)
Lemma search_rest p size :
  0 <= p -> 0 <= size -> 64 * p + size < 2 ^ 64 ->
  is_least P (64 * p) (64 * p + size)
    (match skip_words hit addr (scan_fuel size) p (64 * p) size with
     | Found tmp result => u64 (result + ff tmp)
     | Rest p result size => if size =? 0 then result else tail (rd addr p) result size
     end).
Proof.
  intros Hp Hs Ht. pose proof (skip_words_spec (scan_fuel size) p size) as H.
  unfold scan_fuel in *. specialize (H ltac:(lia) Hp Hs Ht). cbn zeta in H.
  destruct (skip_words hit addr _ p (64 * p) size) as [tmp r|q r s].
  - destruct H as (q & -> & Hq & Hr & -> & Hh & Hk).
    destruct (hit_true _ (rd_range addr q Haddr) Hh) as [Hff Hl]. rewrite wrap_id by lia.
    apply (is_least_shift _ (bitP (rd addr q)) _ _ _ 64); [by intros; apply word_bit|done|done|lia|lia|lia].
  - destruct H as (-> & Hq & Hr & Hs' & Hk). case_bool; bool_to_prop.
    + split_and!; [done|lia|lia|lia].
    + destruct (tail_spec (rd addr q) (64 * q) s) as (b & -> & Hb);
        [by apply rd_range|lia|lia|lia|].
      apply (is_least_shift _ (bitP (rd addr q)) _ _ _ s); [intros; apply word_bit; lia|done|done|lia|lia|lia].
Qed.

(** From inside a word: [w] is that word with the bits below [off] masked. *)
Lemma search_first p off size w :
  0 <= p -> 0 < off < 64 -> off < size -> 64 * p + size < 2 ^ 64 -> in_range 64 w ->
  (forall b, 0 <= b < 64 -> bitP w b = (off <=? b) && bitP (rd addr p) b) ->
  is_least P (64 * p + off) (64 * p + size)
    (if size <? 64 then tail w (64 * p) size
     else if hit w then u64 (64 * p + ff w)
     else match skip_words hit addr (scan_fuel (size - 64)) (p + 1) (64 * p + 64) (size - 64) with
          | Found tmp result => u64 (result + ff tmp)
          | Rest p result size => if size =? 0 then result else tail (rd addr p) result size
          end).
Proof.
  intros Hp Ho Hs Ht Hw Hm.
  assert (forall b, 0 <= b < off -> bitP w b = false) as Hlow.
  { intros b Hb. rewrite Hm by lia. by rewrite (proj2 (Z.leb_gt off b)) by lia. }
  assert (forall m b, m <= 64 -> is_least (bitP w) 0 m b -> off <= m -> b < m \/ m = size ->
    m <= size -> is_least P (64 * p + off) (64 * p + size) (64 * p + b)) as Hgen.
  { intros m b Hm64 (Hb & Hbr & Hbt) Hom Hc Hms.
    assert (off <= b).
    { destruct (decide (off <= b)); [done|]. rewrite Hlow in Hbt by lia. lia. }
    assert (forall k, off <= k < 64 -> P (64 * p + k) = bitP w k) as Hk.
    { intros k ?. rewrite word_bit, Hm by lia. by rewrite (proj2 (Z.leb_le off k)) by lia. }
    split_and!; [|lia|lia|].
    - intros k ?. replace k with (64 * p + (k - 64 * p)) by lia. rewrite Hk by lia.
      apply Hb. lia.
    - intros. rewrite Hk by lia. apply Hbt. lia. }
  case_bool; bool_to_prop; [|destruct (hit w) eqn:Eh].
  - destruct (tail_spec w (64 * p) size) as (b & -> & Hb); [done|lia|lia|lia|].
    apply (Hgen size); try done; lia.
  - destruct (hit_true w Hw Eh) as [Hff Hl]. rewrite wrap_id by lia.
    apply (Hgen 64); try done; lia.
  - pose proof (search_rest (p + 1) (size - 64) ltac:(lia) ltac:(lia) ltac:(lia)) as H.
    replace (64 * (p + 1)) with (64 * p + 64) in H by lia.
    replace (64 * p + 64 + (size - 64)) with (64 * p + size) in H by lia.
    destruct H as (Hb & Hr & Htt). split_and!; [|lia|lia|done].
    intros k Hk. destruct (decide (k < 64 * p + 64)); [|apply Hb; lia].
    replace k with (64 * p + (k - 64 * p)) by lia. rewrite word_bit by lia.
    pose proof (Hm (k - 64 * p) ltac:(lia)) as Eb.
    rewrite (proj2 (Z.leb_le off (k - 64 * p))) in Eb by lia. simpl in Eb. rewrite <- Eb.
    apply hit_false; [done|done|lia].
Qed.

(** From any offset below [size]. *)
Lemma search_next (mask : Z -> Z -> Z) size offset :
  (forall w off, in_range 64 w -> 0 < off < 64 -> in_range 64 (mask w off) /\
     forall b, 0 <= b < 64 -> bitP (mask w off) b = (off <=? b) && bitP w b) ->
  in_range 64 size -> 0 <= offset < size ->
  let rest := fun p result size =>
    match skip_words hit addr (scan_fuel size) p result size with
    | Found tmp result => u64 (result + ff tmp)
    | Rest p result size => if size =? 0 then result else tail (rd addr p) result size
    end in
  let p := offset / 64 in
  let result := Z.land offset (not_w 64 (BITS_PER_LONG - 1)) in
  let sz := u64 (size - result) in
  let off := offset mod 64 in
  is_least P offset size
    (if truthy off then
       let tmp := mask (rd addr p) off in
       if sz <? 64 then tail tmp result sz
       else if hit tmp then u64 (result + ff tmp)
       else rest (p + 1) (u64 (result + 64)) (u64 (sz - 64))
     else rest p result sz).
Proof.
  intros Hmask Hs Ho. cbv zeta.
  destruct (next_offset size offset Hs Ho) as (Hr & Hq & Hsz & Hoff & Hm & Hov).
  unfold in_range in Hs. rewrite Hr. set (q := offset / 64) in *. rewrite Hsz.
  unfold truthy. case_bool; bool_to_prop.
  - destruct (Hmask (rd addr q) (offset mod 64) (rd_range addr q Haddr) ltac:(lia)) as [Hw Hb].
    rewrite Hoff at 1. replace size with (64 * q + (size - 64 * q)) at 1 by lia.
    pose proof (search_first q (offset mod 64) (size - 64 * q) _ Hq ltac:(lia) ltac:(lia)
      ltac:(lia) Hw Hb) as H.
    destruct (size - 64 * q <? 64) eqn:E64; [done|].
    destruct Hov as [-> ->]; [lia|]. done.
  - pose proof (search_rest q (size - 64 * q) ltac:(lia) ltac:(lia) ltac:(lia)) as H.
    replace (64 * q + (size - 64 * q)) with size in H by lia.
    by replace (64 * q) with offset in H at 1 by lia.
Qed.
End Search.

(** *** Bits of masks *)

Lemma testbit_wrap w z b : 0 <= b < w -> Z.testbit (wrap w z) b = Z.testbit z b.
Proof. intros. apply Z.mod_pow2_bits_low. lia. Qed.

Lemma testbit_not_w w x b : 0 <= b < w -> Z.testbit (not_w w x) b = negb (Z.testbit x b).
Proof. intros. unfold not_w. rewrite testbit_wrap by lia. apply Z.lnot_spec. lia. Qed.

Lemma testbit_range w z b : 0 <= w -> in_range w z -> w <= b -> Z.testbit z b = false.
Proof.
  intros Hw Hz Hb. rewrite <- (wrap_id w z) by done. apply Z.mod_pow2_bits_high. lia.
Qed.

Lemma testbit_max b : 0 <= b -> Z.testbit ULONG_MAX b = (b <? 64).
Proof.
  intros. change ULONG_MAX with (Z.ones 64). rewrite Z.testbit_ones by lia. lia.
Qed.

Lemma testbit_shl_max n b : 0 <= n -> 0 <= b < 64 -> Z.testbit (shl64 ULONG_MAX n) b = (n <=? b).
Proof.
  intros Hn Hb. unfold shl64. rewrite testbit_wrap by lia. rewrite Z.shiftl_spec by lia.
  destruct (decide (n <= b)); [rewrite testbit_max by lia; lia|].
  rewrite Z.testbit_neg_r by lia. lia.
Qed.

Lemma testbit_shr_max n b :
  0 <= n <= 64 -> 0 <= b -> Z.testbit (Z.shiftr ULONG_MAX (64 - n)) b = (b <? n).
Proof. intros Hn Hb. rewrite Z.shiftr_spec by lia. rewrite testbit_max by lia. lia. Qed.

Lemma word_eq_bits w a b :
  0 <= w -> in_range w a -> in_range w b ->
  (forall k, 0 <= k < w -> Z.testbit a k = Z.testbit b k) -> a = b.
Proof.
  intros Hw Ha Hb H. apply Z.bits_inj'. intros k Hk.
  destruct (decide (k < w)); [by apply H|].
  by rewrite !(testbit_range w) by (done || lia).
Qed.

Lemma land_range w a b : 0 <= w -> in_range w a -> in_range w (Z.land a b).
Proof.
  intros Hw Ha. unfold in_range in *. pose proof (pow2_pos w Hw).
  assert (Z.land a b = wrap w (Z.land a b)) as ->; [|by apply wrap_range].
  unfold wrap. rewrite <- Z.land_ones by lia. rewrite <- Z.land_assoc, (Z.land_comm b), Z.land_assoc.
  rewrite Z.land_ones by lia. by rewrite Z.mod_small.
Qed.

Lemma lor_range w a b : 0 <= w -> in_range w a -> in_range w b -> in_range w (Z.lor a b).
Proof.
  intros Hw Ha Hb. unfold in_range in *. pose proof (pow2_pos w Hw).
  assert (Z.lor a b = wrap w (Z.lor a b)) as ->; [|by apply wrap_range].
  apply Z.bits_inj'. intros k Hk. destruct (decide (k < w)); [by rewrite testbit_wrap|].
  unfold wrap. rewrite Z.mod_pow2_bits_high by lia.
  by rewrite Z.lor_spec, !(testbit_range w) by (done || lia).
Qed.

Lemma lxor_range w a b : 0 <= w -> in_range w a -> in_range w b -> in_range w (Z.lxor a b).
Proof.
  intros Hw Ha Hb. unfold in_range in *. pose proof (pow2_pos w Hw).
  assert (Z.lxor a b = wrap w (Z.lxor a b)) as ->; [|by apply wrap_range].
  apply Z.bits_inj'. intros k Hk. destruct (decide (k < w)); [by rewrite testbit_wrap|].
  unfold wrap. rewrite Z.mod_pow2_bits_high by lia.
  by rewrite Z.lxor_spec, !(testbit_range w) by (done || lia).
Qed.

Lemma not_w_range w x : 0 <= w -> in_range w (not_w w x).
Proof. intros. by apply wrap_range. Qed.

Lemma shl64_range z n : in_range 64 (shl64 z n).
Proof. by apply wrap_range. Qed.

#[export] Hint Resolve land_range lor_range lxor_range not_w_range shl64_range rd_range : sbi.

(** *** The four instances *)

Lemma nonzero_false w b : in_range 64 w -> nonzero w = false -> 0 <= b < 64 -> Z.testbit w b = false.
Proof.
  unfold nonzero, truthy. intros _ H _. assert (w = 0) as -> by lia. apply Z.testbit_0_l.
Qed.

Lemma nonzero_true w : in_range 64 w -> nonzero w = true ->
  0 <= sbi_ffs w < 64 /\ is_least (Z.testbit w) 0 64 (sbi_ffs w).
Proof. unfold nonzero, truthy, in_range. intros. apply ffs_spec. lia. Qed.

Lemma tail_set_spec w result size : in_range 64 w -> 0 < size < 64 ->
  0 <= result -> result + size < 2 ^ 64 ->
  exists b, tail_set w result size = result + b /\ is_least (Z.testbit w) 0 size b.
Proof.
  intros Hw Hs Hr Ht. unfold tail_set.
  set (tmp := Z.land w _).
  assert (forall b, 0 <= b -> Z.testbit tmp b = Z.testbit w b && (b <? size)) as Htmp.
  { intros b Hb. unfold tmp. rewrite Z.land_spec. by rewrite testbit_shr_max by lia. }
  assert (in_range 64 tmp) as Hrng by (by apply land_range).
  case_bool; bool_to_prop.
  - exists size. rewrite wrap_id by lia. split; [done|]. split_and!; [|lia|lia|lia].
    intros k Hk. specialize (Htmp k ltac:(lia)). rewrite E, Z.testbit_0_l in Htmp.
    destruct (Z.testbit w k); [lia|done].
  - destruct (ffs_spec tmp) as [Hf (Hl & _ & Htr)]; [unfold in_range in *; lia|].
    specialize (Htr ltac:(lia)). rewrite Htmp in Htr by lia.
    exists (sbi_ffs tmp). rewrite wrap_id by lia. split; [done|]. split_and!; [|lia|lia|].
    + intros k Hk. specialize (Hl k Hk). rewrite Htmp in Hl by lia.
      destruct (Z.testbit w k); lia.
    + destruct (Z.testbit w (sbi_ffs tmp)); lia.
Qed.

Definition clearbit (w b : Z) : bool := negb (Z.testbit w b).

Lemma ffz_spec w : in_range 64 w -> w <> ULONG_MAX ->
  0 <= sbi_ffz w < 64 /\ is_least (clearbit w) 0 64 (sbi_ffz w).
Proof.
  intros Hw Hne. unfold sbi_ffz.
  pose proof (not_w_range 64 w ltac:(lia)) as Hr.
  assert (not_w 64 w <> 0) as Hn0.
  { intros H0. apply Hne. apply (word_eq_bits 64); [lia|done|unfold in_range, ULONG_MAX; lia|].
    intros k Hk. rewrite testbit_max by lia. pose proof (testbit_not_w 64 w k Hk) as Hb.
    rewrite H0, Z.testbit_0_l in Hb. destruct (Z.testbit w k); [lia|done]. }
  destruct (ffs_spec (not_w 64 w)) as [Hf (Hl & ? & Htr)]; [unfold in_range in *; lia|].
  split; [done|]. unfold clearbit. split_and!; [|lia|lia|].
  - intros k Hk. rewrite <- (testbit_not_w 64) by lia. by apply Hl.
  - intros. rewrite <- (testbit_not_w 64) by lia. by apply Htr.
Qed.

Lemma nonfull_false w b : in_range 64 w -> nonfull w = false -> 0 <= b < 64 -> clearbit w b = false.
Proof.
  unfold nonfull, truthy, clearbit. intros Hw H Hb.
  rewrite <- (testbit_not_w 64) by lia. assert (not_w 64 w = 0) as -> by lia. apply Z.testbit_0_l.
Qed.

Lemma nonfull_true w : in_range 64 w -> nonfull w = true ->
  0 <= sbi_ffz w < 64 /\ is_least (clearbit w) 0 64 (sbi_ffz w).
Proof.
  unfold nonfull, truthy. intros Hw H. apply ffz_spec; [done|]. intros ->. by vm_compute in H.
Qed.

Lemma tail_clear_spec w result size : in_range 64 w -> 0 < size < 64 ->
  0 <= result -> result + size < 2 ^ 64 ->
  exists b, tail_clear w result size = result + b /\ is_least (clearbit w) 0 size b.
Proof.
  intros Hw Hs Hr Ht. unfold tail_clear.
  set (tmp := Z.lor w _).
  assert (forall b, 0 <= b < 64 -> clearbit tmp b = clearbit w b && (b <? size)) as Htmp.
  { intros b Hb. unfold tmp, clearbit. rewrite Z.lor_spec. rewrite testbit_shl_max by lia.
    destruct (Z.testbit w b); simpl; lia. }
  assert (in_range 64 tmp) as Hrng by (unfold tmp; auto with sbi).
  case_bool; bool_to_prop.
  - exists size. rewrite wrap_id by lia. split; [done|]. split_and!; [|lia|lia|lia].
    intros k Hk. specialize (Htmp k ltac:(lia)). rewrite E in Htmp. unfold clearbit at 1 in Htmp.
    rewrite testbit_max in Htmp by lia. destruct (clearbit w k); [lia|done].
  - destruct (ffz_spec tmp) as [Hf (Hl & _ & Htr)]; [done|done|].
    specialize (Htr ltac:(lia)). rewrite Htmp in Htr by lia.
    exists (sbi_ffz tmp). rewrite wrap_id by lia. split; [done|]. split_and!; [|lia|lia|].
    + intros k Hk. specialize (Hl k Hk). rewrite Htmp in Hl by lia.
      destruct (clearbit w k); lia.
    + destruct (clearbit w (sbi_ffz tmp)); lia.
Qed.

Lemma find_first_bit_least addr size :
  words_ok addr -> in_range 64 size -> is_least (bm_test addr) 0 size (find_first_bit addr size).
Proof.
  intros Ha Hs. unfold in_range in Hs.
  apply (search_rest Z.testbit nonzero sbi_ffs tail_set nonzero_false nonzero_true tail_set_spec
    addr Ha 0 size); lia.
Qed.

Lemma find_first_zero_bit_least addr size :
  words_ok addr -> in_range 64 size ->
  is_least (fun k => negb (bm_test addr k)) 0 size (find_first_zero_bit addr size).
Proof.
  intros Ha Hs. unfold in_range in Hs.
  apply (search_rest clearbit nonfull sbi_ffz tail_clear nonfull_false nonfull_true
    tail_clear_spec addr Ha 0 size); lia.
Qed.

Lemma find_next_bit_least addr size offset :
  words_ok addr -> in_range 64 size -> 0 <= offset <= size ->
  is_least (bm_test addr) offset size (find_next_bit addr size offset).
Proof.
  intros Ha Hs Ho. unfold find_next_bit. case_bool; bool_to_prop; [split_and!; lia|].
  apply (search_next Z.testbit nonzero sbi_ffs tail_set nonzero_false nonzero_true tail_set_spec
    addr Ha (fun w off => Z.land w (shl64 ULONG_MAX off))); [|done|lia].
  intros w off Hw Hoff. split; [auto with sbi|]. intros b Hb.
  rewrite Z.land_spec, testbit_shl_max by lia. apply andb_comm.
Qed.

Lemma find_next_zero_bit_least addr size offset :
  words_ok addr -> in_range 64 size -> 0 <= offset <= size ->
  is_least (fun k => negb (bm_test addr k)) offset size (find_next_zero_bit addr size offset).
Proof.
  intros Ha Hs Ho. unfold find_next_zero_bit. case_bool; bool_to_prop; [split_and!; lia|].
  apply (search_next clearbit nonfull sbi_ffz tail_clear nonfull_false nonfull_true
    tail_clear_spec addr Ha (fun w off => Z.lor w (Z.shiftr ULONG_MAX (64 - off)))); [|done|lia].
  intros w off Hw Hoff. split.
  - apply lor_range; [lia|done|]. unfold in_range. rewrite Z.shiftr_div_pow2 by lia.
    split; [apply Z.div_pos; [done|apply pow2_pos; lia]|].
    apply Z.div_lt_upper_bound; [apply pow2_pos; lia|].
    pose proof (pow2_pos (64 - off) ltac:(lia)). unfold ULONG_MAX. nia.
  - intros b Hb. unfold clearbit. rewrite Z.lor_spec, testbit_shr_max by lia.
    destruct (Z.testbit w b); simpl; lia.
Qed.

(** find_last_bit: the words above [words] hold nothing. *)
Lemma fls_greatest w b : 0 < w < 2 ^ 64 ->
  0 <= sbi_fls w < 64 /\ Z.testbit w (sbi_fls w) = true /\
  (sbi_fls w < b -> Z.testbit w b = false).
Proof.
  intros Hw. rewrite fls_spec by done. split_and!.
  - apply Z.log2_nonneg.
  - apply Z.log2_lt_pow2; lia.
  - apply Z.bit_log2. lia.
  - intros. apply Z.bits_above_log2; lia.
Qed.

Lemma bm_test_word addr p b : 0 <= b < 64 -> bm_test addr (64 * p + b) = Z.testbit (rd addr p) b.
Proof. apply (word_bit Z.testbit). Qed.

Lemma greatest_in_word addr p w hi :
  0 < w < 2 ^ 64 -> 0 <= p -> 64 * p <= hi -> hi < 2 ^ 64 ->
  (forall b, 0 <= b < 64 -> Z.testbit w b = (64 * p + b <? hi) && Z.testbit (rd addr p) b) ->
  (forall k, 64 * p + 64 <= k < hi -> bm_test addr k = false) ->
  is_greatest (bm_test addr) hi (u64 (p * 64 + sbi_fls w)).
Proof.
  intros Hw Hp Hhi Hlt Hb Hab. destruct (fls_greatest w 0 Hw) as (Hr & Ht & _).
  rewrite Hb in Ht by lia. apply andb_true_iff in Ht as [Hlt' Ht].
  rewrite wrap_id by lia. left. replace (p * 64) with (64 * p) by lia.
  split_and!; [lia|lia|by rewrite bm_test_word|].
  intros k Hk. destruct (decide (k < 64 * p + 64)); [|apply Hab; lia].
  replace k with (64 * p + (k - 64 * p)) by lia. rewrite bm_test_word by lia.
  destruct (fls_greatest w (k - 64 * p) Hw) as (_ & _ & Hz).
  specialize (Hz ltac:(lia)). rewrite Hb in Hz by lia.
  rewrite (proj2 (Z.ltb_lt _ _)) in Hz by lia. done.
Qed.

Lemma last_words_greatest addr words size :
  words_ok addr -> 0 <= size < 2 ^ 64 -> 64 * Z.of_nat words <= size ->
  (forall k, 64 * Z.of_nat words <= k < size -> bm_test addr k = false) ->
  is_greatest (bm_test addr) size (last_words addr words size).
Proof.
  intros Ha Hs. induction words as [|words IH]; intros Hw Hk; cbn [last_words].
  { right. split; [done|]. intros k Hk'. apply Hk. lia. }
  pose proof (rd_range addr (Z.of_nat words) Ha) as Hr. unfold in_range in Hr.
  unfold truthy. case_bool; bool_to_prop.
  - apply greatest_in_word; try lia. intros k ?. apply Hk. lia.
  - apply IH; [lia|]. intros k ?. destruct (decide (64 * Z.of_nat (S words) <= k)); [apply Hk; lia|].
    replace k with (64 * Z.of_nat words + (k - 64 * Z.of_nat words)) by lia.
    rewrite bm_test_word by lia. replace (rd addr (Z.of_nat words)) with 0 by lia.
    apply Z.testbit_0_l.
Qed.

Lemma find_last_bit_greatest addr size :
  words_ok addr -> in_range 64 size ->
  is_greatest (bm_test addr) size (find_last_bit addr size).
Proof.
  intros Ha Hs. unfold find_last_bit, in_range in *.
  change (64 - 1) with (2 ^ 6 - 1). rewrite land_ones_mod by lia. change (2 ^ 6) with 64.
  pose proof (Z.div_mod size 64 ltac:(lia)) as Hdm.
  pose proof (Z.mod_pos_bound size 64 ltac:(lia)) as Hm.
  pose proof (Z.div_pos size 64 ltac:(lia) ltac:(lia)) as Hd.
  set (p := size / 64) in *. set (r := size mod 64) in *.
  set (w := Z.land (rd addr p) (Z.shiftr ULONG_MAX (64 - r))).
  assert (forall b, 0 <= b -> Z.testbit w b = (64 * p + b <? size) && Z.testbit (rd addr p) b) as Hw.
  { intros b Hb. unfold w. rewrite Z.land_spec, testbit_shr_max, andb_comm by lia. f_equal. lia. }
  assert (in_range 64 w) as Hwr by (by apply land_range, rd_range). unfold in_range in Hwr.
  destruct (truthy r && truthy w) eqn:E; unfold truthy in E.
  - apply greatest_in_word; try lia. intros b Hb. apply Hw. lia.
  - apply last_words_greatest; [done|done|lia|]. intros k Hk.
    replace k with (64 * p + (k - 64 * p)) by lia. rewrite bm_test_word by lia.
    assert (w = 0) as H0 by lia. specialize (Hw (k - 64 * p) ltac:(lia)).
    rewrite H0, Z.testbit_0_l in Hw.
    destruct (Z.testbit (rd addr p) (k - 64 * p)); [lia|done].
Qed.

(** ** sbi_popcount: sums in parallel fields

    [digits w l] is the number whose base-[2^w] digits are [l]; each step of
    sbi_popcount adds neighbouring fields and doubles their width. *)

Fixpoint digits (w : Z) (l : list Z) : Z :=
  match l with
  | [] => 0
  | d :: l' => d + 2 ^ w * digits w l'
  end.

Fixpoint pairsum (l : list Z) : list Z :=
  match l with
  | a :: b :: l' => (a + b) :: pairsum l'
  | _ => []
  end.

Fixpoint alt (w : Z) (n : nat) : list Z :=
  match n with
  | O => []
  | S n' => (2 ^ w - 1) :: 0 :: alt w n'
  end.

Definition bits (n : nat) (w : Z) : list Z :=
  (fun k => Z.b2z (Z.testbit w (Z.of_nat k))) <$> seq 0 n.

Definition sum_digits (l : list Z) : Z := foldr Z.add 0 l.

Lemma digits_cons w d l : digits w (d :: l) = d + 2 ^ w * digits w l.
Proof. done. Qed.

Lemma land_split w a r b s :
  0 <= w -> 0 <= a < 2 ^ w -> 0 <= b < 2 ^ w ->
  Z.land (a + 2 ^ w * r) (b + 2 ^ w * s) = Z.land a b + 2 ^ w * Z.land r s.
Proof.
  intros Hw Ha Hb.
  assert (forall x t k, 0 <= x < 2 ^ w -> 0 <= k ->
    Z.testbit (x + 2 ^ w * t) k = if k <? w then Z.testbit x k else Z.testbit t (k - w)) as Hbit.
  { intros x t k Hx Hk. case_bool; bool_to_prop.
    - rewrite <- (testbit_wrap w) by lia. unfold wrap.
      replace (x + 2 ^ w * t) with (x + t * 2 ^ w) by lia.
      rewrite Z_mod_plus_full. by rewrite Z.mod_small.
    - replace k with (k - w + w) at 1 by lia. rewrite <- Z.shiftr_spec by lia.
      rewrite Z.shiftr_div_pow2 by lia. f_equal.
      replace (x + 2 ^ w * t) with (x + t * 2 ^ w) by lia.
      pose proof (pow2_pos w Hw). rewrite Z.div_add by lia. rewrite Z.div_small; lia. }
  apply Z.bits_inj'. intros k Hk. rewrite Z.land_spec, !Hbit by done.
  pose proof (land_range w a b Hw Ha). rewrite Hbit by done.
  case_bool; by rewrite Z.land_spec.
Qed.

Lemma shiftr_split w a r : 0 <= w -> 0 <= a < 2 ^ w -> Z.shiftr (a + 2 ^ w * r) w = r.
Proof.
  intros Hw Ha. rewrite Z.shiftr_div_pow2 by lia. replace (a + 2 ^ w * r) with (a + r * 2 ^ w) by lia.
  pose proof (pow2_pos w Hw). rewrite Z.div_add by lia. rewrite Z.div_small; lia.
Qed.

Lemma land_mul_pow2 w d a : 0 <= w -> Z.land d (0 + 2 ^ w * a) = 2 ^ w * Z.land (Z.shiftr d w) a.
Proof.
  intros Hw. pose proof (pow2_pos w Hw). pose proof (Z.div_mod d (2 ^ w) ltac:(lia)) as E.
  pose proof (Z.mod_pos_bound d (2 ^ w) ltac:(lia)).
  rewrite E at 1. rewrite Z.add_comm, land_split by lia.
  rewrite Z.land_0_r, Z.shiftr_div_pow2 by lia. lia.
Qed.

Lemma land_wrap w x m : 0 <= w /\ in_range w m -> Z.land (wrap w x) m = Z.land x m.
Proof.
  intros [Hw Hm]. unfold wrap. rewrite <- Z.land_ones by lia.
  rewrite <- Z.land_assoc, (Z.land_comm (Z.ones w)), Z.land_ones by lia. f_equal.
  by apply Z.mod_small.
Qed.

Lemma land_all w a : 0 <= w -> 0 <= a < 2 ^ w -> Z.land a (2 ^ w - 1) = a.
Proof. intros. rewrite land_ones_mod by lia. by apply Z.mod_small. Qed.

Lemma land_even_fields w a d n :
  0 < w -> 0 <= a < 2 ^ w ->
  Z.land (a + 2 ^ w * d) (digits w (alt w (S n))) =
  a + 2 ^ w * 2 ^ w * Z.land (Z.shiftr d w) (digits w (alt w n)).
Proof.
  intros Hw Ha. pose proof (pow2_pos w ltac:(lia)). cbn [alt digits].
  rewrite land_split by lia. rewrite land_all, land_mul_pow2 by lia. lia.
Qed.

(** Masking both halves and adding. *)
Lemma fields_add w n : forall l,
  0 < w -> length l = (2 * n)%nat -> Forall (fun d => 0 <= d < 2 ^ w) l ->
  Z.land (digits w l) (digits w (alt w n)) +
    Z.land (Z.shiftr (digits w l) w) (digits w (alt w n)) = digits (2 * w) (pairsum l).
Proof.
  induction n as [|n IH]; intros l Hw Hl Hd.
  { destruct l; [cbn [digits alt]; by rewrite !Z.land_0_r|simpl in *; lia]. }
  destruct l as [|a [|b l]]; [simpl in *; lia|simpl in *; lia|].
  apply Forall_cons in Hd as [Ha Hd]. apply Forall_cons in Hd as [Hb Hd].
  cbn [pairsum]. rewrite !digits_cons. rewrite shiftr_split by (lia || done).
  rewrite !land_even_fields by (lia || done). rewrite shiftr_split by (lia || done).
  simpl in Hl. rewrite <- (IH l Hw ltac:(lia) Hd).
  replace (2 * w) with (w + w) by lia. rewrite Z.pow_add_r by lia. lia.
Qed.

(** Adding first and masking afterwards, when no field overflows. *)
Lemma fields_add_mask w n : forall l,
  0 < w -> length l = (2 * n)%nat -> Forall (fun d => 0 <= d < 2 ^ (w - 1)) l ->
  Z.land (digits w l + Z.shiftr (digits w l) w) (digits w (alt w n)) = digits (2 * w) (pairsum l).
Proof.
  induction n as [|n IH]; intros l Hw Hl Hd.
  { destruct l; [cbn [digits alt]; by rewrite !Z.land_0_r|simpl in *; lia]. }
  destruct l as [|a [|b l]]; [simpl in *; lia|simpl in *; lia|].
  apply Forall_cons in Hd as [Ha Hd]. apply Forall_cons in Hd as [Hb Hd].
  assert (2 ^ w = 2 ^ (w - 1) + 2 ^ (w - 1)) as Hp.
  { rewrite (pow2_split 1 w) by lia. lia. }
  cbn [pairsum digits]. rewrite shiftr_split by (lia || done).
  replace (a + 2 ^ w * (b + 2 ^ w * digits w l) + (b + 2 ^ w * digits w l)) with
    ((a + b) + 2 ^ w * ((b + digits w l) + 2 ^ w * digits w l)) by lia.
  rewrite land_even_fields by lia. simpl in Hl. rewrite <- (IH l Hw ltac:(lia) Hd).
  replace (2 * w) with (w + w) by lia. rewrite Z.pow_add_r by lia. do 3 f_equal.
  destruct l as [|c l]; cbn [digits].
  - rewrite !Z.mul_0_r, !Z.add_0_r. rewrite Z.shiftr_0_l.
    rewrite Z.shiftr_div_pow2 by lia. by rewrite Z.div_small by lia.
  - apply Forall_cons in Hd as [Hc Hd]. rewrite (shiftr_split w c) by lia.
    replace (b + (c + 2 ^ w * digits w l) + 2 ^ w * (c + 2 ^ w * digits w l)) with
      ((b + c) + 2 ^ w * (digits w l + (c + 2 ^ w * digits w l))) by lia.
    rewrite shiftr_split by lia. lia.
Qed.

(** Splitting a number into its even and odd fields. *)
Lemma fields_split w n : forall l,
  0 < w -> length l = (2 * n)%nat -> Forall (fun d => 0 <= d < 2 ^ w) l ->
  Z.land (digits w l) (digits w (alt w n)) +
    2 ^ w * Z.land (Z.shiftr (digits w l) w) (digits w (alt w n)) = digits w l.
Proof.
  induction n as [|n IH]; intros l Hw Hl Hd.
  { destruct l; [cbn [digits alt]; rewrite !Z.land_0_r; lia|simpl in *; lia]. }
  destruct l as [|a [|b l]]; [simpl in *; lia|simpl in *; lia|].
  apply Forall_cons in Hd as [Ha Hd]. apply Forall_cons in Hd as [Hb Hd].
  rewrite !digits_cons. rewrite shiftr_split by (lia || done).
  rewrite !land_even_fields by (lia || done). rewrite shiftr_split by (lia || done).
  simpl in Hl. rewrite <- (IH l Hw ltac:(lia) Hd) at 3. lia.
Qed.

Lemma pairsum_bounds n : forall l m,
  length l = (2 * n)%nat -> Forall (fun d => 0 <= d <= m) l ->
  length (pairsum l) = n /\ Forall (fun d => 0 <= d <= 2 * m) (pairsum l) /\
  sum_digits (pairsum l) = sum_digits l.
Proof.
  induction n as [|n IH]; intros l m Hl Hd.
  { destruct l; [done|simpl in *; lia]. }
  destruct l as [|a [|b l]]; [simpl in *; lia|simpl in *; lia|].
  apply Forall_cons in Hd as [Ha Hd]. apply Forall_cons in Hd as [Hb Hd].
  simpl in Hl. destruct (IH l m ltac:(lia) Hd) as (H1 & H2 & H3).
  unfold sum_digits in *. cbn [pairsum length foldr]. split_and!; [lia| |lia].
  constructor; [lia|done].
Qed.

Lemma bits_S n w : bits (S n) w = Z.b2z (Z.testbit w 0) :: bits n (Z.shiftr w 1).
Proof.
  unfold bits. simpl. f_equal. rewrite <- fmap_S_seq, <- list_fmap_compose.
  apply list_fmap_ext. intros i k _. unfold compose. rewrite Z.shiftr_spec by lia.
  do 2 f_equal. lia.
Qed.

Lemma digits_bits n : forall w, in_range (Z.of_nat n) w -> digits 1 (bits n w) = w.
Proof.
  induction n as [|n IH]; intros w Hw; [unfold in_range in Hw; simpl in *; lia|].
  rewrite bits_S, digits_cons. unfold in_range in *.
  rewrite Nat2Z.inj_succ, Z.pow_succ_r in Hw by lia.
  rewrite IH; rewrite Z.shiftr_div_pow2 by lia; change (2 ^ 1) with 2.
  - rewrite Z.bit0_mod. pose proof (Z.div_mod w 2 ltac:(lia)). lia.
  - split; [apply Z.div_pos; lia|]. apply Z.div_lt_upper_bound; lia.
Qed.

Lemma sum_bits n w :
  sum_digits (bits n w) =
  Z.of_nat (length (filter (fun k => Z.testbit w (Z.of_nat k) = true) (seq 0 n))).
Proof.
  unfold bits, sum_digits. generalize (seq 0 n) as l. induction l as [|k l IH]; [done|].
  cbn [fmap list_fmap foldr]. rewrite IH, filter_cons.
  destruct (Z.testbit w (Z.of_nat k)); simpl; lia.
Qed.

Lemma digits_range w l : 0 <= w -> Forall (fun d => 0 <= d < 2 ^ w) l ->
  0 <= digits w l < 2 ^ (w * Z.of_nat (length l)).
Proof.
  intros Hw. induction 1 as [|d l Hd Hl IH]; [rewrite Z.mul_0_r; simpl; lia|].
  rewrite digits_cons. cbn [length]. rewrite Nat2Z.inj_succ.
  replace (w * Z.succ (Z.of_nat (length l))) with (w + w * Z.of_nat (length l)) by lia.
  rewrite Z.pow_add_r by lia. nia.
Qed.

(** The three last steps fold eight byte counts into the low byte. *)
Lemma fold_bytes l :
  length l = 8%nat -> Forall (fun d => 0 <= d <= 8) l ->
  let count := digits 8 l in
  let count := u64 (count + Z.shiftr count 8) in
  let count := u64 (count + Z.shiftr count 16) in
  Z.land (u64 (count + Z.shiftr count 32)) 0xFF = sum_digits l.
Proof.
  intros Hl Hd. do 8 (destruct l as [|? l]; [done|]). destruct l; [|done].
  rewrite !Forall_cons in Hd. destruct Hd as (H0 & H1 & H2 & H3 & H4 & H5 & H6 & H7 & _).
  cbv zeta. change 0xFF with (2 ^ 8 - 1). rewrite land_ones_mod by lia.
  rewrite !Z.shiftr_div_pow2 by lia. unfold sum_digits. cbn [digits foldr].
  set (x := z + _).
  assert (0 <= x < 2 ^ 60) as Hx by (unfold x; lia).
  assert (x / 2 ^ 8 = z0 + 2 ^ 8 * (z1 + 2 ^ 8 * (z2 + 2 ^ 8 * (z3 + 2 ^ 8 * (z4 + 2 ^ 8 * (z5 + 2 ^ 8 * z6)))))) as E8
    by (unfold x; Z.div_mod_to_equations; lia).
  rewrite E8, (wrap_id 64 (x + _)) by lia. set (y := x + _).
  assert (y / 2 ^ 16 = (z1 + z2) + 2 ^ 8 * ((z2 + z3) + 2 ^ 8 * ((z3 + z4) + 2 ^ 8 * ((z4 + z5) + 2 ^ 8 * ((z5 + z6) + 2 ^ 8 * z6))))) as E16
    by (unfold y, x; Z.div_mod_to_equations; lia).
  rewrite E16, (wrap_id 64 (y + _)) by (unfold y, x; lia). set (t := y + _).
  assert (t / 2 ^ 32 = (z3 + z4 + z5 + z6) + 2 ^ 8 * ((z4 + z5 + z6) + 2 ^ 8 * ((z5 + z6) + 2 ^ 8 * z6))) as E32
    by (unfold t, y, x; Z.div_mod_to_equations; lia).
  rewrite E32, wrap_id by (unfold t, y, x; lia). unfold t, y, x.
  Z.div_mod_to_equations. lia.
Qed.

Lemma popcount_spec w : in_range 64 w -> sbi_popcount w = sum_digits (bits 64 w).
Proof.
  intros Hw. set (l := bits 64 w).
  assert (length l = 64%nat) as Hl by (unfold l, bits; by rewrite length_fmap, length_seq).
  assert (digits 1 l = w) as El by (by apply digits_bits).
  assert (Forall (fun d => 0 <= d <= 1) l) as Hd.
  { unfold l, bits. apply Forall_fmap, Forall_true. intros k. simpl.
    destruct (Z.testbit w _); simpl; lia. }
  assert (forall m w', m < 2 ^ w' -> forall l, Forall (fun d => 0 <= d <= m) l ->
    Forall (fun d => 0 <= d < 2 ^ w') l) as Hlt.
  { intros m w' Hm l' H'. eapply Forall_impl; [done|]. simpl. lia. }
  destruct (pairsum_bounds 32 l 1 Hl Hd) as (L1 & B1 & S1).
  destruct (pairsum_bounds 16 _ _ L1 B1) as (L2 & B2 & S2).
  destruct (pairsum_bounds 8 _ _ L2 B2) as (L3 & B3 & S3).
  unfold sbi_popcount.
  change 0x5555555555555555 with (digits 1 (alt 1 32)).
  change 0x3333333333333333 with (digits 2 (alt 2 16)).
  change 0x0F0F0F0F0F0F0F0F with (digits 4 (alt 4 8)).
  assert (w - Z.land (Z.shiftr w 1) (digits 1 (alt 1 32)) = digits 2 (pairsum l)) as ->.
  { pose proof (fields_split 1 32 l ltac:(lia) Hl (Hlt 1 1 ltac:(lia) _ Hd)) as F1.
    pose proof (fields_add 1 32 l ltac:(lia) Hl (Hlt 1 1 ltac:(lia) _ Hd)) as F2.
    rewrite El in F1, F2. change (2 * 1) with 2 in F2. lia. }
  pose proof (digits_range 2 (pairsum l) ltac:(lia) (Hlt (2 * 1) 2 ltac:(lia) _ B1)) as R1. 
  rewrite L1 in R1. change (2 * Z.of_nat 32) with 64 in R1.
  rewrite (wrap_id 64 (digits 2 _)) by exact R1.
  rewrite (fields_add 2 16 _ ltac:(lia) L1 (Hlt (2 * 1) 2 ltac:(lia) _ B1)).
  change (2 * 2) with 4. set (l2 := pairsum (pairsum l)) in *.
  pose proof (digits_range 4 l2 ltac:(lia) (Hlt (2 * (2 * 1)) 4 ltac:(lia) _ B2)) as R2. 
  rewrite L2 in R2. change (4 * Z.of_nat 16) with 64 in R2.
  rewrite (wrap_id 64 (digits 4 _)) by exact R2.
  rewrite (land_wrap 64 _ (digits 4 (alt 4 8))) by (vm_compute; intuition congruence).
  rewrite (fields_add_mask 4 8 _ ltac:(lia) L2 (Hlt (2 * (2 * 1)) (4 - 1) ltac:(lia) _ B2)).
  rewrite <- S1, <- S2, <- S3. apply (fold_bytes (pairsum l2) L3 B3).
Qed.

(** ** Single-bit updates *)

Lemma rd_wr addr k v j :
  0 <= k < Z.of_nat (length addr) -> 0 <= j ->
  rd (wr addr k v) j = if j =? k then v else rd addr j.
Proof.
  intros Hk Hj. unfold rd, wr. case_bool; bool_to_prop.
  - subst. by rewrite list_lookup_insert_eq by lia.
  - by rewrite list_lookup_insert_ne by lia.
Qed.

Lemma BIT_MASK_pow2 nr : BIT_MASK nr = 2 ^ (nr mod 64).
Proof. apply shl64_1, Z.mod_pos_bound. lia. Qed.

Lemma testbit_BIT_MASK nr b : 0 <= b -> Z.testbit (BIT_MASK nr) b = (b =? nr mod 64).
Proof.
  intros Hb. rewrite BIT_MASK_pow2. pose proof (Z.mod_pos_bound nr 64 ltac:(lia)).
  rewrite Z.pow2_bits_eqb by lia. lia.
Qed.

Lemma BIT_MASK_range nr : in_range 64 (BIT_MASK nr).
Proof. apply shl64_range. Qed.

Lemma wr_words_ok addr k v : words_ok addr -> in_range 64 v -> words_ok (wr addr k v).
Proof. intros Ha Hv. by apply Forall_insert. Qed.

#[export] Hint Resolve wr_words_ok BIT_MASK_range : sbi.

(** A bit number splits into word and offset. *)
Lemma bm_test_wr addr nr v k :
  0 <= nr < 64 * Z.of_nat (length addr) -> 0 <= k ->
  bm_test (wr addr (BIT_WORD nr) v) k =
  if k / 64 =? nr / 64 then Z.testbit v (k mod 64) else bm_test addr k.
Proof.
  intros Hn Hk. unfold bm_test, BIT_WORD.
  rewrite rd_wr by (Z.div_mod_to_equations; lia). by case_bool.
Qed.

Lemma same_bit k nr : (k =? nr) = (k / 64 =? nr / 64) && (k mod 64 =? nr mod 64).
Proof. Z.div_mod_to_equations. lia. Qed.

Lemma bm_update addr nr v k (P : bool -> bool) :
  0 <= nr < 64 * Z.of_nat (length addr) -> 0 <= k ->
  (forall b, 0 <= b < 64 -> Z.testbit v b =
     if b =? nr mod 64 then P (Z.testbit (rd addr (BIT_WORD nr)) b)
     else Z.testbit (rd addr (BIT_WORD nr)) b) ->
  bm_test (wr addr (BIT_WORD nr) v) k = if k =? nr then P (bm_test addr k) else bm_test addr k.
Proof.
  intros Hn Hk Hv. rewrite bm_test_wr by done. rewrite (same_bit k nr).
  destruct (k / 64 =? nr / 64) eqn:E; [|done]. simpl. bool_to_prop.
  rewrite Hv by (apply Z.mod_pos_bound; lia). unfold bm_test, BIT_WORD.
  rewrite E. done.
Qed.

Lemma set_bit_test addr nr k :
  0 <= nr < 64 * Z.of_nat (length addr) -> 0 <= k ->
  bm_test (__set_bit nr addr) k = (k =? nr) || bm_test addr k.
Proof.
  intros Hn Hk. unfold __set_bit. rewrite (bm_update _ _ _ _ (fun _ => true)); [by case_bool|done|done|].
  intros b Hb. rewrite Z.lor_spec, testbit_BIT_MASK by lia. case_bool; [by rewrite orb_true_r|].
  apply orb_false_r.
Qed.

Lemma clear_bit_test addr nr k :
  0 <= nr < 64 * Z.of_nat (length addr) -> 0 <= k ->
  bm_test (__clear_bit nr addr) k = negb (k =? nr) && bm_test addr k.
Proof.
  intros Hn Hk. unfold __clear_bit. rewrite (bm_update _ _ _ _ (fun _ => false)); [by case_bool|done|done|].
  intros b Hb. rewrite Z.land_spec, testbit_not_w, testbit_BIT_MASK by lia.
  case_bool; [apply andb_false_r|apply andb_true_r].
Qed.

Lemma change_bit_test addr nr k :
  0 <= nr < 64 * Z.of_nat (length addr) -> 0 <= k ->
  bm_test (__change_bit nr addr) k = xorb (k =? nr) (bm_test addr k).
Proof.
  intros Hn Hk. unfold __change_bit. rewrite (bm_update _ _ _ _ negb); [by case_bool; destruct (bm_test addr k)|done|done|].
  intros b Hb. rewrite Z.lxor_spec, testbit_BIT_MASK by lia.
  case_bool; [apply xorb_true_r|apply xorb_false_r].
Qed.

Lemma test_bit_spec addr nr : __test_bit nr addr = Z.b2z (bm_test addr nr).
Proof.
  unfold __test_bit, bm_test, BIT_WORD. change (64 - 1) with (2 ^ 6 - 1).
  rewrite land_ones_mod by lia. change (2 ^ 6) with 64. rewrite Z.land_comm.
  change 1 with (2 ^ 1 - 1). rewrite land_ones_mod by lia. change (2 ^ 1) with 2.
  rewrite Zmod_odd, <- Z.bit0_odd. pose proof (Z.mod_pos_bound nr 64 ltac:(lia)).
  rewrite Z.shiftr_spec by lia. rewrite Z.add_0_l. by destruct (Z.testbit _ _).
Qed.

(** The value __test_and_set_bit and __test_and_clear_bit return. *)
Lemma truthy_land_mask w nr : truthy (Z.land w (BIT_MASK nr)) = Z.testbit w (nr mod 64).
Proof.
  pose proof (Z.mod_pos_bound nr 64 ltac:(lia)) as Hm. unfold truthy.
  destruct (Z.testbit w (nr mod 64)) eqn:E.
  - assert (Z.land w (BIT_MASK nr) <> 0) as H; [|lia]. intros H0.
    pose proof (Z.land_spec w (BIT_MASK nr) (nr mod 64)) as Hb.
    rewrite H0, Z.testbit_0_l, E, testbit_BIT_MASK, Z.eqb_refl in Hb by lia. done.
  - assert (Z.land w (BIT_MASK nr) = 0) as ->; [|done].
    apply Z.bits_inj'. intros k Hk. rewrite Z.land_spec, testbit_BIT_MASK, Z.testbit_0_l by done.
    destruct (Z.eqb_spec k (nr mod 64)) as [->|]; [by rewrite E|apply andb_false_r].
Qed.

(** ** log2roundup *)

Lemma log2roundup_loop_spec fuel : forall x ret,
  0 <= ret -> ret + Z.of_nat fuel = 64 -> (forall k, 0 <= k < ret -> 2 ^ k < x) ->
  let r := log2roundup_loop fuel x ret in
  ret <= r <= 64 /\ (forall k, 0 <= k < r -> 2 ^ k < x) /\ (r < 64 -> x <= 2 ^ r).
Proof.
  induction fuel as [|fuel IH]; intros x ret Hr Hf Hk; cbn [log2roundup_loop].
  { cbv zeta. split_and!; [lia|lia|done|lia]. }
  rewrite shl64_1 by lia. case_bool; bool_to_prop.
  - cbv zeta. split_and!; [lia|lia|done|done].
  - destruct (IH x (ret + 1) ltac:(lia) ltac:(lia)) as (? & ? & ?).
    { intros k Hk'. destruct (decide (k = ret)) as [->|]; [lia|apply Hk; lia]. }
    cbv zeta. split_and!; [lia|lia|done|done].
Qed.

(** ** Bit fields *)

Lemma land_opp_odd t : Z.land (2 * t + 1) (2 * Z.lnot t + 1) = 1.
Proof.
  apply Z.bits_inj'. intros k Hk. destruct (decide (k = 0)) as [->|].
  - by rewrite Z.land_spec, !Z.testbit_odd_0.
  - replace k with (Z.succ (Z.pred k)) by lia.
    rewrite Z.land_spec, !Z.testbit_odd_succ by lia. rewrite Z.lnot_spec by lia.
    change 1 with (2 * 0 + 1) at 1. rewrite Z.testbit_odd_succ, Z.testbit_0_l by lia.
    by destruct (Z.testbit t (Z.pred k)).
Qed.

(** The lowest set bit of a mask [(2^n - 1) << l]. *)
Lemma lowest_bit n l : 0 < n -> 0 <= l -> n + l <= 64 ->
  let m := (2 ^ n - 1) * 2 ^ l in Z.land m (not_w 64 (m - 1)) = 2 ^ l.
Proof.
  intros Hn Hl Hnl m. pose proof (pow2_pos l Hl). pose proof (pow2_pos n ltac:(lia)).
  assert (in_range 64 m) as Hm.
  { pose proof (pow2_le (n + l) 64 Hnl) as Hp. rewrite Z.pow_add_r in Hp by lia.
    unfold in_range, m. nia. }
  rewrite land_not_w by (lia || done). unfold m.
  set (t := 2 ^ (n - 1) - 1).
  assert (2 ^ n - 1 = 2 * t + 1) as E.
  { unfold t. rewrite (pow2_split 1 n) by lia. lia. }
  rewrite E. replace (Z.lnot ((2 * t + 1) * 2 ^ l - 1)) with ((2 * Z.lnot t + 1) * 2 ^ l)
    by (unfold Z.lnot; lia).
  rewrite <- !Z.shiftl_mul_pow2 by lia. rewrite <- Z.shiftl_land, land_opp_odd.
  apply Z.shiftl_1_l.
Qed.

Lemma GENMASK_eq h l : 0 <= l <= h -> h < 64 -> GENMASK h l = (2 ^ (h - l + 1) - 1) * 2 ^ l.
Proof.
  intros Hl Hh. unfold GENMASK. rewrite shl64_1 by lia.
  pose proof (pow2_pos l ltac:(lia)). pose proof (pow2_lt l 64 ltac:(lia) ltac:(lia)).
  pose proof (pow2_pos (h - l + 1) ltac:(lia)).
  rewrite (wrap_id 64) by (unfold ULONG_MAX; lia).
  assert (ULONG_MAX - 2 ^ l + 1 = shl64 ULONG_MAX l) as ->.
  { unfold shl64, wrap, ULONG_MAX. rewrite Z.shiftl_mul_pow2 by lia.
    replace ((2 ^ 64 - 1) * 2 ^ l) with ((2 ^ 64 - 1 - 2 ^ l + 1) + (2 ^ l - 1) * 2 ^ 64) by lia.
    rewrite Z_mod_plus_full. rewrite Z.mod_small; lia. }
  replace (64 - 1 - h) with (64 - (h + 1)) by lia.
  assert (in_range 64 ((2 ^ (h - l + 1) - 1) * 2 ^ l)) as Hr.
  { pose proof (pow2_le (h + 1) 64 ltac:(lia)) as Hp.
    rewrite (pow2_split l (h + 1)) in Hp by lia.
    replace (h + 1 - l) with (h - l + 1) in Hp by lia. unfold in_range. nia. }
  apply (word_eq_bits 64); [lia|apply land_range; [lia|apply shl64_range]|done|].
  intros k Hk. rewrite Z.land_spec, testbit_shl_max, testbit_shr_max by lia.
  rewrite Z.mul_pow2_bits by lia. replace (2 ^ (h - l + 1) - 1) with (Z.ones (h - l + 1))
    by (rewrite Z.ones_equiv; lia).
  destruct (decide (l <= k)); [rewrite Z.testbit_ones by lia; lia|].
  rewrite Z.testbit_neg_r by lia. lia.
Qed.

Lemma GENMASK_range h l : in_range 64 (GENMASK h l).
Proof. apply land_range; [lia|]. apply wrap_range. lia. Qed.

Lemma testbit_GENMASK h l k : 0 <= l <= h -> h < 64 -> 0 <= k ->
  Z.testbit (GENMASK h l) k = (l <=? k) && (k <=? h).
Proof.
  intros Hl Hh Hk. rewrite GENMASK_eq by lia. rewrite Z.mul_pow2_bits by lia.
  replace (2 ^ (h - l + 1) - 1) with (Z.ones (h - l + 1)) by (rewrite Z.ones_equiv; lia).
  destruct (decide (l <= k)); [rewrite Z.testbit_ones by lia; lia|].
  rewrite Z.testbit_neg_r by lia. lia.
Qed.

Lemma field_unit h l : 0 <= l <= h -> h < 64 ->
  Z.land (GENMASK h l) (not_w 64 (GENMASK h l - 1)) = 2 ^ l.
Proof. intros. rewrite GENMASK_eq by lia. apply lowest_bit; lia. Qed.

Lemma EXTRACT_FIELD_bit v h l k : 0 <= l <= h -> h < 64 -> 0 <= k ->
  Z.testbit (EXTRACT_FIELD v (GENMASK h l)) k = (k <=? h - l) && Z.testbit v (k + l).
Proof.
  intros Hl Hh Hk. unfold EXTRACT_FIELD. rewrite field_unit by lia.
  rewrite <- Z.shiftr_div_pow2, Z.shiftr_spec, Z.land_spec, testbit_GENMASK by lia.
  destruct (Z.testbit v (k + l)); simpl; lia.
Qed.

Lemma INSERT_FIELD_bit v h l f k :
  0 <= l <= h -> h < 64 -> 0 <= k < 64 -> 0 <= f < 2 ^ (h - l + 1) ->
  Z.testbit (INSERT_FIELD v (GENMASK h l) f) k =
  if (l <=? k) && (k <=? h) then Z.testbit f (k - l) else Z.testbit v k.
Proof.
  intros Hl Hh Hk Hf. unfold INSERT_FIELD. rewrite field_unit by lia.
  rewrite Z.lor_spec, Z.land_spec, testbit_not_w, testbit_GENMASK, testbit_wrap by lia.
  rewrite Z.mul_pow2_bits by lia. case_bool; simpl; [by rewrite andb_false_r|].
  rewrite andb_true_r. destruct (decide (k < l)).
  - rewrite (Z.testbit_neg_r f) by lia. apply orb_false_r.
  - rewrite (testbit_range (h - l + 1) f) by (done || lia). apply orb_false_r.
Qed.

Lemma EXTRACT_FIELD_range v h l : 0 <= l <= h -> h < 64 ->
  0 <= EXTRACT_FIELD v (GENMASK h l) < 2 ^ (h - l + 1).
Proof.
  intros Hl Hh. unfold EXTRACT_FIELD. rewrite field_unit by lia.
  pose proof (pow2_pos l ltac:(lia)).
  assert (Z.land v (GENMASK h l) = Z.land (Z.land v (GENMASK h l)) (Z.ones (h + 1))) as ->.
  { apply Z.bits_inj'. intros k Hk. rewrite !Z.land_spec, testbit_GENMASK by lia.
    rewrite Z.testbit_ones by lia. destruct (Z.testbit v k); simpl; lia. }
  rewrite Z.land_ones by lia. pose proof (pow2_pos (h + 1) ltac:(lia)).
  pose proof (Z.mod_pos_bound (Z.land v (GENMASK h l)) (2 ^ (h + 1)) ltac:(lia)).
  split; [apply Z.div_pos; lia|]. apply Z.div_lt_upper_bound; [lia|].
  rewrite <- Z.pow_add_r by lia. replace (l + (h - l + 1)) with (h + 1) by lia. lia.
Qed.

Lemma INSERT_FIELD_range v w f : in_range 64 v -> in_range 64 (INSERT_FIELD v w f).
Proof.
  intros. unfold INSERT_FIELD. apply lor_range; [lia|by apply land_range|apply wrap_range; lia].
Qed.

(** ** Properties *)

(** C37: every bitmap search returns the first (or last) bit it is asked
    for and [size] when there is none: [find_first_bit], [find_next_bit] and
    their zero-bit versions the least matching bit number from the given
    offset, [find_last_bit] the greatest. *)
Theorem bitmap_searches_correct addr size offset :
  words_ok addr -> in_range 64 size -> 0 <= offset <= size ->
  is_least (bm_test addr) 0 size (find_first_bit addr size) /\
  is_least (fun k => negb (bm_test addr k)) 0 size (find_first_zero_bit addr size) /\
  is_least (bm_test addr) offset size (find_next_bit addr size offset) /\
  is_least (fun k => negb (bm_test addr k)) offset size (find_next_zero_bit addr size offset) /\
  is_greatest (bm_test addr) size (find_last_bit addr size).
Proof.
  intros. split_and!; [by apply find_first_bit_least|by apply find_first_zero_bit_least|
    by apply find_next_bit_least|by apply find_next_zero_bit_least|
    by apply find_last_bit_greatest].
Qed.

Lemma bitmap_searches_correct_witness :
  is_least (bm_test [0; 0x8010]) 69 128 79 /\ is_greatest (bm_test [0; 0x8010]) 128 79.
Proof.
  destruct (bitmap_searches_correct [0; 0x8010] 128 69) as (_ & _ & H1 & _ & H2).
  - repeat constructor; unfold in_range; lia.
  - unfold in_range; lia.
  - lia.
  - split; [exact H1|exact H2].
Defined.

(** On a nonzero 64-bit word [sbi_ffs] is the least and [sbi_fls] the
    greatest set bit, and on any word [sbi_popcount] is the number of set
    bits. *)
Theorem word_scans_correct w :
  in_range 64 w ->
  (w <> 0 -> is_least (Z.testbit w) 0 64 (sbi_ffs w) /\ sbi_fls w = Z.log2 w) /\
  sbi_popcount w =
    Z.of_nat (length (filter (fun k => Z.testbit w (Z.of_nat k) = true) (seq 0 64))).
Proof.
  intros Hw. split.
  - intros Hn. assert (0 < w < 2 ^ 64) as Hr by (unfold in_range in Hw; lia).
    split; [by apply ffs_spec|by apply fls_spec].
  - rewrite popcount_spec by done. apply sum_bits.
Qed.

Lemma word_scans_correct_witness : sbi_fls 0xf0 = 7 /\ sbi_popcount 0xf0 = 4.
Proof.
  destruct (word_scans_correct 0xf0) as [H1 H2]; [unfold in_range; lia|].
  split; [apply H1; lia|exact H2].
Defined.

(** [log2roundup x] is the least [r] with [x <= 2^r], capped at 64. *)
Theorem log2roundup_correct x :
  0 <= log2roundup x <= 64 /\ (forall k, 0 <= k < log2roundup x -> 2 ^ k < x) /\
  (log2roundup x < 64 -> x <= 2 ^ log2roundup x).
Proof. apply log2roundup_loop_spec; lia. Qed.

(** Writing a field of a register and reading it back gives the
    value, leaves every other bit alone, and writing back what was read
    changes nothing. *)
Theorem field_roundtrip v h l f :
  in_range 64 v -> 0 <= l <= h -> h < 64 -> 0 <= f < 2 ^ (h - l + 1) ->
  EXTRACT_FIELD (INSERT_FIELD v (GENMASK h l) f) (GENMASK h l) = f /\
  (forall k, 0 <= k < 64 -> ~ (l <= k <= h) ->
     Z.testbit (INSERT_FIELD v (GENMASK h l) f) k = Z.testbit v k) /\
  INSERT_FIELD v (GENMASK h l) (EXTRACT_FIELD v (GENMASK h l)) = v.
Proof.
  intros Hv Hl Hh Hf. split_and!.
  - apply (word_eq_bits (h - l + 1)); [lia|by apply EXTRACT_FIELD_range|done|].
    intros k Hk. rewrite EXTRACT_FIELD_bit, INSERT_FIELD_bit by (done || lia).
    rewrite (proj2 (Z.leb_le k (h - l))), (proj2 (Z.leb_le l (k + l))),
      (proj2 (Z.leb_le (k + l) h)) by lia. simpl. f_equal. lia.
  - intros k Hk Hne. rewrite INSERT_FIELD_bit by (done || lia). case_bool; [lia|done].
  - apply (word_eq_bits 64); [lia|by apply INSERT_FIELD_range|done|].
    intros k Hk. rewrite INSERT_FIELD_bit by (try apply EXTRACT_FIELD_range; lia).
    case_bool; [|done]. rewrite EXTRACT_FIELD_bit by lia.
    rewrite (proj2 (Z.leb_le _ _)) by lia. simpl. f_equal. lia.
Qed.

Lemma field_roundtrip_witness :
  EXTRACT_FIELD (INSERT_FIELD 0xffff (GENMASK 12 11) 1) (GENMASK 12 11) = 1.
Proof. apply (field_roundtrip 0xffff 12 11 1); unfold in_range; lia. Defined.
