(* ===== verification/Bitmap.v ===== *)
(** * Bitmaps and hart masks (include/sbi/sbi_bitmap.h, lib/sbi/sbi_bitmap.c,
    include/sbi/sbi_hartmask.h of xendor/opensbi)

    [const_p] stands for __builtin_constant_p of the size argument.  The word
    loops store word [k] from words [k] only, so a destination may alias a
    source.  A hart mask denotes the set of the hart indices in it
    ([hartmask_set]). *)

From stdpp Require Import gmap.
From S2P Require Import Prelude Bitops.

Local Open Scope Z_scope.

Definition BITMAP_FIRST_WORD_MASK (start : Z) : Z := shl64 ULONG_MAX (start mod BITS_PER_LONG).

Definition BITMAP_LAST_WORD_MASK (nbits : Z) : Z :=
  if truthy (nbits mod BITS_PER_LONG) then shl64 1 (nbits mod BITS_PER_LONG) - 1
  else ULONG_MAX.

Definition small_const_nbits (const_p : bool) (nbits : Z) : bool :=
  const_p && (nbits <=? BITS_PER_LONG).

Definition bitmap_estimate_size (nbits : Z) : Z := BITS_TO_LONGS nbits * 8.

(** [for (k = 0; k < n; k++) dst[k] = f(k)] *)
Definition store_words (n : Z) (f : Z -> Z) (dst : list Z) : list Z :=
  foldl (fun d k => wr d k (f k)) dst (seqZ 0 n).

Definition __bitmap_and (dst bitmap1 bitmap2 : list Z) (bits : Z) : list Z :=
  store_words (BITS_TO_LONGS bits) (fun k => Z.land (rd bitmap1 k) (rd bitmap2 k)) dst.

Definition __bitmap_or (dst bitmap1 bitmap2 : list Z) (bits : Z) : list Z :=
  store_words (BITS_TO_LONGS bits) (fun k => Z.lor (rd bitmap1 k) (rd bitmap2 k)) dst.

Definition __bitmap_xor (dst bitmap1 bitmap2 : list Z) (bits : Z) : list Z :=
  store_words (BITS_TO_LONGS bits) (fun k => Z.lxor (rd bitmap1 k) (rd bitmap2 k)) dst.

Definition bitmap_set (bmap : list Z) (start len : Z) : list Z :=
  foldl (fun m bit => wr m (BIT_WORD bit)
      (Z.lor (rd m (BIT_WORD bit)) (shl64 1 (BIT_WORD_OFFSET bit))))
    bmap (seqZ start len).

Definition bitmap_clear (bmap : list Z) (start len : Z) : list Z :=
  foldl (fun m bit => wr m (BIT_WORD bit)
      (Z.land (rd m (BIT_WORD bit)) (not_w 64 (shl64 1 (BIT_WORD_OFFSET bit)))))
    bmap (seqZ start len).

Definition bitmap_zero (const_p : bool) (dst : list Z) (nbits : Z) : list Z :=
  if small_const_nbits const_p nbits then wr dst 0 0
  else store_words (BITS_TO_LONGS nbits) (fun _ => 0) dst.

Definition bitmap_test (bmap : list Z) (bit : Z) : Z := __test_bit bit bmap.

Definition bitmap_zero_except (const_p : bool) (dst : list Z) (exception nbits : Z) : list Z :=
  let dst :=
    if small_const_nbits const_p nbits then wr dst 0 0
    else store_words (BITS_TO_LONGS nbits) (fun _ => 0) dst in
  if exception <? nbits then __set_bit exception dst else dst.

Definition bitmap_fill (const_p : bool) (dst : list Z) (nbits : Z) : list Z :=
  let nlongs := BITS_TO_LONGS nbits in
  let dst :=
    if negb (small_const_nbits const_p nbits)
    then store_words (nlongs - 1) (fun _ => ULONG_MAX) dst else dst in
  wr dst (nlongs - 1) (BITMAP_LAST_WORD_MASK nbits).

Definition bitmap_copy (const_p : bool) (dst src : list Z) (nbits : Z) : list Z :=
  if small_const_nbits const_p nbits then wr dst 0 (rd src 0)
  else store_words (BITS_TO_LONGS nbits) (rd src) dst.

Definition bitmap_and (const_p : bool) (dst src1 src2 : list Z) (nbits : Z) : list Z :=
  if small_const_nbits const_p nbits then wr dst 0 (Z.land (rd src1 0) (rd src2 0))
  else __bitmap_and dst src1 src2 nbits.

Definition bitmap_or (const_p : bool) (dst src1 src2 : list Z) (nbits : Z) : list Z :=
  if small_const_nbits const_p nbits then wr dst 0 (Z.lor (rd src1 0) (rd src2 0))
  else __bitmap_or dst src1 src2 nbits.

Definition bitmap_xor (const_p : bool) (dst src1 src2 : list Z) (nbits : Z) : list Z :=
  if small_const_nbits const_p nbits then wr dst 0 (Z.lxor (rd src1 0) (rd src2 0))
  else __bitmap_xor dst src1 src2 nbits.

Definition bitmap_weight (src : list Z) (nbits : Z) : Z :=
  let n := nbits / BITS_PER_LONG in
  let res := foldl (fun res i => res + sbi_popcount (rd src i)) 0 (seqZ 0 n) in
  if truthy (nbits mod BITS_PER_LONG)
  then res + sbi_popcount (Z.land (rd src n) (BITMAP_LAST_WORD_MASK nbits))
  else res.

Definition bitmap_empty (const_p : bool) (src : list Z) (nbits : Z) : bool :=
  if nbits =? 0 then true
  else if small_const_nbits const_p nbits
  then negb (truthy (Z.land (rd src 0) (BITMAP_LAST_WORD_MASK nbits)))
  else
    let len := BITS_TO_LONGS nbits in
    if existsb (fun i => truthy (rd src i)) (seqZ 0 (len - 1)) then false
    else negb (truthy (Z.land (rd src (len - 1)) (BITMAP_LAST_WORD_MASK nbits))).

(** ** Hart masks *)

Definition SBI_HARTMASK_MAX_BITS : Z := 128.

Record sbi_hartmask := mkHartmask { hm_bits : list Z }.

Definition SBI_HARTMASK_INIT (m : sbi_hartmask) : sbi_hartmask :=
  mkHartmask (bitmap_zero true (hm_bits m) SBI_HARTMASK_MAX_BITS).

Definition sbi_hartmask_set_hartindex (i : Z) (m : sbi_hartmask) : sbi_hartmask :=
  if i <? SBI_HARTMASK_MAX_BITS then mkHartmask (__set_bit i (hm_bits m)) else m.

Definition sbi_hartmask_clear_hartindex (i : Z) (m : sbi_hartmask) : sbi_hartmask :=
  if i <? SBI_HARTMASK_MAX_BITS then mkHartmask (__clear_bit i (hm_bits m)) else m.

Definition sbi_hartmask_test_hartindex (i : Z) (m : sbi_hartmask) : Z :=
  if i <? SBI_HARTMASK_MAX_BITS then __test_bit i (hm_bits m) else 0.

Definition sbi_hartmask_set_all (dstp : sbi_hartmask) : sbi_hartmask :=
  mkHartmask (bitmap_fill true (hm_bits dstp) SBI_HARTMASK_MAX_BITS).

Definition sbi_hartmask_clear_all (dstp : sbi_hartmask) : sbi_hartmask :=
  mkHartmask (bitmap_zero true (hm_bits dstp) SBI_HARTMASK_MAX_BITS).

Definition sbi_hartmask_copy (dstp srcp : sbi_hartmask) : sbi_hartmask :=
  mkHartmask (bitmap_copy true (hm_bits dstp) (hm_bits srcp) SBI_HARTMASK_MAX_BITS).

Definition sbi_hartmask_and (dstp src1p src2p : sbi_hartmask) : sbi_hartmask :=
  mkHartmask (bitmap_and true (hm_bits dstp) (hm_bits src1p) (hm_bits src2p) SBI_HARTMASK_MAX_BITS).

Definition sbi_hartmask_or (dstp src1p src2p : sbi_hartmask) : sbi_hartmask :=
  mkHartmask (bitmap_or true (hm_bits dstp) (hm_bits src1p) (hm_bits src2p) SBI_HARTMASK_MAX_BITS).

Definition sbi_hartmask_xor (dstp src1p src2p : sbi_hartmask) : sbi_hartmask :=
  mkHartmask (bitmap_xor true (hm_bits dstp) (hm_bits src1p) (hm_bits src2p) SBI_HARTMASK_MAX_BITS).

Definition sbi_hartmask_weight (srcp : sbi_hartmask) : Z :=
  bitmap_weight (hm_bits srcp) SBI_HARTMASK_MAX_BITS.

(** The indices sbi_hartmask_for_each_hartindex visits, in order: the loop
    starts at find_first_bit and steps with find_next_bit. *)
Fixpoint for_each_from (fuel : nat) (m : sbi_hartmask) (i : Z) : list Z :=
  match fuel with
  | O => []
  | S fuel =>
      if i <? SBI_HARTMASK_MAX_BITS
      then i :: for_each_from fuel m (find_next_bit (hm_bits m) SBI_HARTMASK_MAX_BITS (i + 1))
      else []
  end.

(** The index grows with every iteration: 128 of them and the exit test. *)
Definition hartmask_indices (m : sbi_hartmask) : list Z :=
  for_each_from 129 m (find_first_bit (hm_bits m) SBI_HARTMASK_MAX_BITS).

(** ** Loops over words *)

Lemma wr_length d k v : length (wr d k v) = length d.
Proof. apply length_insert. Qed.

Lemma store_words_S n f dst :
  store_words (Z.of_nat (S n)) f dst = wr (store_words (Z.of_nat n) f dst) (Z.of_nat n) (f (Z.of_nat n)).
Proof.
  unfold store_words. rewrite seqZ_S, foldl_app. simpl.
  by rewrite Z.add_0_l.
Qed.

Lemma store_words_spec n f dst :
  0 <= n <= Z.of_nat (length dst) ->
  length (store_words n f dst) = length dst /\
  forall k, 0 <= k -> rd (store_words n f dst) k = if k <? n then f k else rd dst k.
Proof.
  intros Hn. rewrite <- (Z2Nat.id n) in * by lia. induction (Z.to_nat n) as [|m IH].
  - split; [done|]. intros k Hk. case_bool; [lia|done].
  - destruct IH as [IHl IHr]; [lia|]. rewrite store_words_S. split; [by rewrite wr_length|].
    intros k Hk. rewrite rd_wr by lia. rewrite IHr by lia.
    destruct (Z.eqb_spec k (Z.of_nat m)) as [->|]; [case_bool; [done|lia]|].
    repeat case_bool; lia || done.
Qed.

Lemma store_words_ok n f dst :
  words_ok dst -> (forall k, in_range 64 (f k)) -> words_ok (store_words n f dst).
Proof.
  intros Hd Hf. unfold store_words. revert dst Hd. generalize (seqZ 0 n) as l.
  induction l as [|k l IH]; intros dst Hd; simpl; [done|]. apply IH. by apply wr_words_ok.
Qed.

(** ** Hart masks as sets *)

Record hm_wf (m : sbi_hartmask) : Prop := {
  hm_len : length (hm_bits m) = 2%nat;
  hm_ok : words_ok (hm_bits m)
}.

Definition hm_mem (m : sbi_hartmask) (i : Z) : bool := bm_test (hm_bits m) i.

Definition hartmask_set (m : sbi_hartmask) : gset Z := list_to_set (hartmask_indices m).

(** A word loop over the whole mask, seen bit by bit. *)
Lemma store_words_mask f dst (P : Z -> bool) :
  length dst = 2%nat -> words_ok dst -> (forall k, in_range 64 (f k)) ->
  (forall k, 0 <= k < 128 -> Z.testbit (f (k / 64)) (k mod 64) = P k) ->
  let m := mkHartmask (store_words 2 f dst) in
  hm_wf m /\ forall k, 0 <= k < 128 -> hm_mem m k = P k.
Proof.
  intros Hl Hd Hf HP. destruct (store_words_spec 2 f dst ltac:(lia)) as [Hsl Hsr].
  split; [split; simpl; [lia|by apply store_words_ok]|].
  intros k Hk. unfold hm_mem, bm_test. simpl. pose proof (Z.div_pos k 64 ltac:(lia) ltac:(lia)).
  rewrite Hsr by lia. rewrite (proj2 (Z.ltb_lt _ _)) by (apply Z.div_lt_upper_bound; lia).
  by apply HP.
Qed.

Lemma hm_and_spec d a b :
  hm_wf d -> hm_wf a -> hm_wf b ->
  let m := sbi_hartmask_and d a b in
  hm_wf m /\ forall k, 0 <= k < 128 -> hm_mem m k = hm_mem a k && hm_mem b k.
Proof.
  intros [] [] []. apply store_words_mask; auto with sbi. intros. apply Z.land_spec.
Qed.

Lemma hm_or_spec d a b :
  hm_wf d -> hm_wf a -> hm_wf b ->
  let m := sbi_hartmask_or d a b in
  hm_wf m /\ forall k, 0 <= k < 128 -> hm_mem m k = hm_mem a k || hm_mem b k.
Proof.
  intros [] [] []. apply store_words_mask; auto with sbi. intros. apply Z.lor_spec.
Qed.

Lemma hm_xor_spec d a b :
  hm_wf d -> hm_wf a -> hm_wf b ->
  let m := sbi_hartmask_xor d a b in
  hm_wf m /\ forall k, 0 <= k < 128 -> hm_mem m k = xorb (hm_mem a k) (hm_mem b k).
Proof.
  intros [] [] []. apply store_words_mask; auto with sbi. intros. apply Z.lxor_spec.
Qed.

Lemma hm_copy_spec d a :
  hm_wf d -> hm_wf a ->
  let m := sbi_hartmask_copy d a in
  hm_wf m /\ forall k, 0 <= k < 128 -> hm_mem m k = hm_mem a k.
Proof. intros [] []. apply store_words_mask; auto with sbi. Qed.

Lemma hm_clear_all_spec d :
  hm_wf d ->
  let m := sbi_hartmask_clear_all d in
  hm_wf m /\ forall k, 0 <= k < 128 -> hm_mem m k = false.
Proof.
  intros []. apply store_words_mask; auto with sbi.
  - unfold in_range. lia.
  - intros. apply Z.testbit_0_l.
Qed.

Lemma hm_set_all_spec d :
  hm_wf d ->
  let m := sbi_hartmask_set_all d in
  hm_wf m /\ forall k, 0 <= k < 128 -> hm_mem m k = true.
Proof.
  intros [Hl Hd]. assert (sbi_hartmask_set_all d = mkHartmask (store_words 2 (fun _ => ULONG_MAX) (hm_bits d))) as -> by done.
  apply store_words_mask; auto with sbi.
  - unfold in_range, ULONG_MAX. lia.
  - intros k Hk. pose proof (Z.mod_pos_bound k 64 ltac:(lia)). rewrite testbit_max by lia. lia.
Qed.

Lemma hm_set_spec i m :
  hm_wf m -> 0 <= i ->
  let m' := sbi_hartmask_set_hartindex i m in
  hm_wf m' /\ forall k, 0 <= k < 128 -> hm_mem m' k = (k =? i) || hm_mem m k.
Proof.
  intros [Hl Hd] Hi. unfold sbi_hartmask_set_hartindex, SBI_HARTMASK_MAX_BITS.
  case_bool; bool_to_prop.
  - split; [split; simpl; [by unfold __set_bit; rewrite wr_length|unfold __set_bit; auto with sbi]|].
    intros k Hk. apply set_bit_test; lia.
  - split; [done|]. intros k Hk. rewrite (proj2 (Z.eqb_neq k i)) by lia. done.
Qed.

Lemma hm_clear_spec i m :
  hm_wf m -> 0 <= i ->
  let m' := sbi_hartmask_clear_hartindex i m in
  hm_wf m' /\ forall k, 0 <= k < 128 -> hm_mem m' k = negb (k =? i) && hm_mem m k.
Proof.
  intros [Hl Hd] Hi. unfold sbi_hartmask_clear_hartindex, SBI_HARTMASK_MAX_BITS.
  case_bool; bool_to_prop.
  - split; [split; simpl; [by unfold __clear_bit; rewrite wr_length|unfold __clear_bit; auto with sbi]|].
    intros k Hk. apply clear_bit_test; lia.
  - split; [done|]. intros k Hk. rewrite (proj2 (Z.eqb_neq k i)) by lia. done.
Qed.

(** The visiting order of the iterator. *)
Lemma filter_least (P : Z -> bool) lo hi r :
  is_least P lo hi r -> lo <= hi ->
  filter (fun k => P k = true) (seqZ lo (hi - lo)) =
  if r <? hi then r :: filter (fun k => P k = true) (seqZ (r + 1) (hi - (r + 1))) else [].
Proof.
  intros (Hlow & Hr & Ht) Hlo.
  assert (seqZ lo (hi - lo) = seqZ lo (r - lo) ++ seqZ r (hi - r)) as ->.
  { replace (hi - lo) with ((r - lo) + (hi - r)) by lia. rewrite seqZ_app by lia.
    by replace (lo + (r - lo)) with r by lia. }
  rewrite filter_app.
  assert (filter (fun k => P k = true) (seqZ lo (r - lo)) = []) as ->.
  { apply elem_of_nil_inv. intros k [Hp Hk]%list_elem_of_filter. apply elem_of_seqZ in Hk.
    rewrite Hlow in Hp by lia. done. }
  simpl. case_bool; bool_to_prop.
  - rewrite (seqZ_cons r) by lia. rewrite filter_cons_True by auto.
    by replace (Z.succ r) with (r + 1) by lia; replace (Z.pred (hi - r)) with (hi - (r + 1)) by lia.
  - by rewrite (seqZ_nil r) by lia.
Qed.

Lemma for_each_from_spec m fuel : forall lo i,
  hm_wf m -> 0 <= lo <= 128 -> is_least (hm_mem m) lo 128 i -> 128 - lo < Z.of_nat fuel ->
  for_each_from fuel m i = filter (fun k => hm_mem m k = true) (seqZ lo (128 - lo)).
Proof.
  induction fuel as [|fuel IH]; intros lo i Hm Hlo Hi Hf; [lia|].
  rewrite (filter_least _ lo 128 i) by (done || lia). cbn [for_each_from].
  unfold SBI_HARTMASK_MAX_BITS in *. case_bool; [|done]. f_equal. bool_to_prop.
  destruct Hi as (_ & Hr & _). apply IH; [done|lia| |lia].
  apply find_next_bit_least; [apply Hm|unfold in_range; lia|lia].
Qed.

Lemma hartmask_indices_spec m :
  hm_wf m -> hartmask_indices m = filter (fun k => hm_mem m k = true) (seqZ 0 128).
Proof.
  intros Hm. apply (for_each_from_spec m 129 0); [done|lia| |lia].
  apply find_first_bit_least; [apply Hm|unfold in_range, SBI_HARTMASK_MAX_BITS; lia].
Qed.

Lemma elem_of_indices m i : hm_wf m -> i ∈ hartmask_indices m <-> 0 <= i < 128 /\ hm_mem m i = true.
Proof.
  intros Hm. rewrite hartmask_indices_spec by done. rewrite list_elem_of_filter, elem_of_seqZ.
  split; intros [? ?]; split; done || lia.
Qed.

Lemma elem_of_hartmask_set m i :
  hm_wf m -> i ∈ hartmask_set m <-> 0 <= i < 128 /\ hm_mem m i = true.
Proof. intros. unfold hartmask_set. rewrite elem_of_list_to_set. by apply elem_of_indices. Qed.

Lemma hartmask_test_mem m i : 0 <= i < 128 -> sbi_hartmask_test_hartindex i m = Z.b2z (hm_mem m i).
Proof.
  intros Hi. unfold sbi_hartmask_test_hartindex, SBI_HARTMASK_MAX_BITS.
  rewrite (proj2 (Z.ltb_lt _ _)) by lia. apply test_bit_spec.
Qed.

(** ** Weight *)

Definition bm_count (addr : list Z) (lo n : Z) : Z :=
  Z.of_nat (length (filter (fun k => bm_test addr k = true) (seqZ lo n))).

Lemma bm_count_app addr lo m n : 0 <= m -> 0 <= n ->
  bm_count addr lo (m + n) = bm_count addr lo m + bm_count addr (lo + m) n.
Proof.
  intros. unfold bm_count. rewrite seqZ_app, filter_app, length_app by lia. lia.
Qed.

Lemma length_filter_fmap {A B} (f : A -> B) (p : A -> bool) (q : B -> bool) l :
  (forall x, x ∈ l -> p x = q (f x)) ->
  length (filter (fun x => p x = true) l) = length (filter (fun y => q y = true) (f <$> l)).
Proof.
  induction l as [|x l IH]; intros H; [done|]. cbn [fmap list_fmap]. rewrite !filter_cons.
  rewrite (H x) by left. specialize (IH ltac:(intros; apply H; by right)).
  destruct (q (f x)); simpl; auto.
Qed.

(** The bits of one word, as counted by sbi_popcount. *)
Lemma popcount_word addr p n w :
  0 <= n <= 64 -> in_range 64 w ->
  (forall b, 0 <= b < 64 -> Z.testbit w b = (b <? n) && Z.testbit (rd addr p) b) ->
  sbi_popcount w = bm_count addr (64 * p) n.
Proof.
  intros Hn Hw Hb. rewrite popcount_spec, sum_bits by done. unfold bm_count. f_equal.
  assert (seq 0 64 = seq 0 (Z.to_nat n) ++ seq (Z.to_nat n) (64 - Z.to_nat n)) as ->.
  { rewrite <- seq_app. f_equal. lia. }
  rewrite filter_app, length_app.
  assert (filter (fun k => Z.testbit w (Z.of_nat k) = true) (seq (Z.to_nat n) (64 - Z.to_nat n)) = []) as ->.
  { apply elem_of_nil_inv. intros k [Ht Hk]%list_elem_of_filter. apply elem_of_seq in Hk.
    rewrite Hb in Ht by lia. rewrite (proj2 (Z.ltb_ge _ _)) in Ht by lia. done. }
  simpl. rewrite Nat.add_0_r. apply length_filter_fmap. intros k Hk%elem_of_seq.
  rewrite Z.add_comm, bm_test_word, Hb by lia. by rewrite (proj2 (Z.ltb_lt _ _)) by lia.
Qed.

Lemma weight_words addr n :
  words_ok addr ->
  foldl (fun res i => res + sbi_popcount (rd addr i)) 0 (seqZ 0 (Z.of_nat n)) =
  bm_count addr 0 (64 * Z.of_nat n).
Proof.
  intros Ha. induction n as [|n IH]; [done|].
  rewrite seqZ_S, foldl_app, IH. simpl.
  replace (64 * Z.of_nat (S n)) with (64 * Z.of_nat n + 64) by lia.
  rewrite bm_count_app by lia. f_equal. rewrite Z.add_0_l.
  apply popcount_word; [lia|by apply rd_range|]. intros b Hb.
  by rewrite (proj2 (Z.ltb_lt _ _)) by lia.
Qed.

Lemma bitmap_weight_spec src nbits :
  words_ok src -> 0 <= nbits -> bitmap_weight src nbits = bm_count src 0 nbits.
Proof.
  intros Hs Hn. unfold bitmap_weight.
  pose proof (Z.div_pos nbits 64 ltac:(lia) ltac:(lia)) as Hq.
  pose proof (Z.mod_pos_bound nbits 64 ltac:(lia)) as Hr.
  pose proof (Z.div_mod nbits 64 ltac:(lia)) as Hdm.
  pose proof (weight_words src (Z.to_nat (nbits / 64)) Hs) as Hw.
  rewrite Z2Nat.id in Hw by lia. rewrite Hw. unfold truthy. case_bool; bool_to_prop.
  - transitivity (bm_count src 0 (64 * (nbits / 64) + nbits mod 64)); [|f_equal; lia].
    rewrite bm_count_app by lia. f_equal. rewrite Z.add_0_l.
    apply popcount_word; [lia|by apply land_range, rd_range|].
    intros b Hb. rewrite Z.land_spec, andb_comm. f_equal.
    unfold BITMAP_LAST_WORD_MASK, truthy.
    rewrite (proj2 (Z.eqb_neq _ _)) by done. cbn [negb]. rewrite shl64_1 by lia.
    rewrite Z.sub_1_r, <- Z.ones_equiv, Z.testbit_ones by lia. lia.
  - f_equal. lia.
Qed.

(** Membership goals about two masks and one index, given the bitwise
    equation [E] of the operation. *)
Ltac hm_solve E k a b i :=
  let Hk := fresh "Hk" in
  destruct (decide (0 <= k < 128)) as [Hk|Hk]; [|naive_solver lia];
  rewrite (E k Hk); destruct (hm_mem a k), (hm_mem b k), (Z.eqb_spec k i);
  naive_solver lia.

Lemma size_hartmask_set m : hm_wf m -> Z.of_nat (size (hartmask_set m)) = bm_count (hm_bits m) 0 128.
Proof.
  intros Hm. unfold hartmask_set. rewrite size_list_to_set.
  - by rewrite hartmask_indices_spec.
  - rewrite hartmask_indices_spec by done. apply NoDup_filter, NoDup_seqZ.
Qed.

(** ** Properties *)

(** Hart masks are finite sets of hart indices and the mask
    operations are the set operations: insertion, deletion, intersection,
    union, symmetric difference, copy, empty and full mask, membership and
    cardinality. *)
Theorem hartmask_set_algebra d a b i :
  hm_wf d -> hm_wf a -> hm_wf b -> 0 <= i < 128 ->
  hartmask_set (sbi_hartmask_set_hartindex i a) = {[ i ]} ∪ hartmask_set a /\
  hartmask_set (sbi_hartmask_clear_hartindex i a) = hartmask_set a ∖ {[ i ]} /\
  hartmask_set (sbi_hartmask_and d a b) = hartmask_set a ∩ hartmask_set b /\
  hartmask_set (sbi_hartmask_or d a b) = hartmask_set a ∪ hartmask_set b /\
  hartmask_set (sbi_hartmask_xor d a b) =
    (hartmask_set a ∖ hartmask_set b) ∪ (hartmask_set b ∖ hartmask_set a) /\
  hartmask_set (sbi_hartmask_copy d a) = hartmask_set a /\
  hartmask_set (sbi_hartmask_clear_all d) = ∅ /\
  (forall k, k ∈ hartmask_set (sbi_hartmask_set_all d) <-> 0 <= k < 128) /\
  (sbi_hartmask_test_hartindex i a = 1 <-> i ∈ hartmask_set a) /\
  sbi_hartmask_weight a = Z.of_nat (size (hartmask_set a)).
Proof.
  intros Hd Ha Hb Hi.
  destruct (hm_set_spec i a Ha ltac:(lia)) as [W1 E1].
  destruct (hm_clear_spec i a Ha ltac:(lia)) as [W2 E2].
  destruct (hm_and_spec d a b Hd Ha Hb) as [W3 E3].
  destruct (hm_or_spec d a b Hd Ha Hb) as [W4 E4].
  destruct (hm_xor_spec d a b Hd Ha Hb) as [W5 E5].
  destruct (hm_copy_spec d a Hd Ha) as [W6 E6].
  destruct (hm_clear_all_spec d Hd) as [W7 E7].
  destruct (hm_set_all_spec d Hd) as [W8 E8].
  split_and!.
  1-7: apply set_eq; intros k;
    rewrite ?elem_of_union, ?elem_of_intersection, ?elem_of_difference, ?elem_of_singleton,
      ?elem_of_empty, ?elem_of_hartmask_set by done.
  - hm_solve E1 k a b i.
  - hm_solve E2 k a b i.
  - hm_solve E3 k a b i.
  - hm_solve E4 k a b i.
  - rewrite ?elem_of_difference, ?elem_of_hartmask_set by done. hm_solve E5 k a b i.
  - hm_solve E6 k a b i.
  - hm_solve E7 k a b i.
  - intros k. rewrite elem_of_hartmask_set by done. naive_solver.
  - rewrite hartmask_test_mem, elem_of_hartmask_set by done.
    destruct (hm_mem a i); simpl; naive_solver.
  - rewrite size_hartmask_set by done. apply bitmap_weight_spec; [apply Ha|done].
Qed.

Lemma hartmask_set_algebra_witness :
  hartmask_set (sbi_hartmask_or (mkHartmask [0; 0]) (mkHartmask [5; 0]) (mkHartmask [0; 8])) =
    hartmask_set (mkHartmask [5; 0]) ∪ hartmask_set (mkHartmask [0; 8]).
Proof.
  apply (hartmask_set_algebra (mkHartmask [0; 0]) (mkHartmask [5; 0]) (mkHartmask [0; 8]) 0);
    [split; [done|repeat constructor; unfold in_range; lia]..|lia].
Defined.

(** Iterating over a hart mask terminates and visits exactly its
    members, each once, in increasing order. *)
Theorem hartmask_iteration_complete m :
  hm_wf m ->
  hartmask_indices m = filter (fun k => sbi_hartmask_test_hartindex k m = 1) (seqZ 0 128).
Proof.
  intros Hm. rewrite hartmask_indices_spec by done.
  assert (forall l : list Z, (forall k, k ∈ l -> 0 <= k < 128) ->
    filter (fun k => hm_mem m k = true) l = filter (fun k => sbi_hartmask_test_hartindex k m = 1) l)
    as Hl.
  { induction l as [|k l IH]; intros Hl; [done|]. rewrite !filter_cons, IH by set_solver.
    assert (sbi_hartmask_test_hartindex k m = Z.b2z (hm_mem m k)) as ->
      by (apply hartmask_test_mem, Hl; left).
    by destruct (hm_mem m k). }
  apply Hl. intros k Hk%elem_of_seqZ. lia.
Qed.

Lemma hartmask_iteration_complete_witness :
  hartmask_indices (mkHartmask [0x11; 2]) =
    filter (fun k => sbi_hartmask_test_hartindex k (mkHartmask [0x11; 2]) = 1) (seqZ 0 128) /\
  hartmask_indices (mkHartmask [0x11; 2]) = [0; 4; 65].
Proof.
  split; [|vm_compute; reflexivity].
  apply (hartmask_iteration_complete (mkHartmask [0x11; 2])).
  split; [done|repeat constructor; unfold in_range; lia].
Defined.
