(* ===== verification/Scratch.v ===== *)
(** * Per-hart scratch space and the hart tables (lib/sbi/sbi_scratch.c,
    include/sbi/sbi_scratch.h of xendor/opensbi)

    The file-scope variables of sbi_scratch.c are the record [scratch_state];
    a scratch pointer that may be NULL is an [option] of its address.  The
    platform descriptor is a parameter: its hart count, its optional
    index-to-id table, its CBOM block size and the platform's
    hartid_to_scratch function. *)

From S2P Require Import Prelude Strings Locks Bitops Bitmap.

Local Open Scope Z_scope.

Abbreviation SBI_SCRATCH_EXTRA_SPACE_OFFSET := (16 * 8).
Abbreviation SBI_SCRATCH_SIZE := 0x1000.
Abbreviation DEFAULT_SCRATCH_ALLOC_ALIGN := 8.
Definition INVALID_INDEX : Z := 2 ^ 32 - 1.

(** struct sbi_scratch, the members the library reads. *)
Record sbi_scratch := mkScratch {
  fw_start : Z;
  fw_size : Z;
  fw_rw_offset : Z;
  fw_heap_offset : Z;
  fw_heap_size : Z;
  next_arg1 : Z;
  next_addr : Z;
  next_mode : Z;
  warmboot_addr : Z;
  platform_addr : Z;
  trap_context : Z;
  tmp0 : Z;
  tmp1 : Z;
  options : Z;
  scratch_hartindex : Z
}.

(** The platform descriptor, as far as sbi_scratch.c reads it. *)
Record platform_harts := mkPlatformHarts {
  plat_hart_count : Z;
  hart_index2id : option (list Z);
  cbom_block_size : Z;
  hartid_to_scratch : Z -> Z -> option Z
}.

Record scratch_state := mkScratchState {
  sbi_scratch_hart_count : Z;
  hartindex_to_hartid_table : list Z;
  hartindex_to_scratch_table : list (option Z);
  extra_lock : spinlock_t;
  extra_offset : Z
}.

(** The initial values of the file-scope variables. *)
Definition scratch_boot : scratch_state :=
  mkScratchState 0 (replicate 128 INVALID_INDEX) (replicate 128 None)
    SPIN_LOCK_UNLOCKED SBI_SCRATCH_EXTRA_SPACE_OFFSET.

Definition set_extra (s : scratch_state) (l : spinlock_t) (off : Z) : scratch_state :=
  mkScratchState (sbi_scratch_hart_count s) (hartindex_to_hartid_table s)
    (hartindex_to_scratch_table s) l off.

(** The indices sbi_for_each_hartindex visits. *)
Definition for_each_hartindex (s : scratch_state) : list Z :=
  seqZ 0 (sbi_scratch_hart_count s).

Definition sbi_get_scratch_alloc_align (plat : option platform_harts) : Z :=
  match plat with
  | None => DEFAULT_SCRATCH_ALLOC_ALIGN
  | Some p => if cbom_block_size p =? 0 then DEFAULT_SCRATCH_ALLOC_ALIGN else cbom_block_size p
  end.

Definition sbi_hartindex_valid (s : scratch_state) (i : Z) : bool := i <? sbi_scratch_hart_count s.

Definition sbi_hartindex_to_hartid (s : scratch_state) (i : Z) : Z :=
  if i <? SBI_HARTMASK_MAX_BITS
  then default INVALID_INDEX (hartindex_to_hartid_table s !! Z.to_nat i) else INVALID_INDEX.

Definition sbi_hartindex_to_scratch (s : scratch_state) (i : Z) : option Z :=
  if i <? SBI_HARTMASK_MAX_BITS
  then default None (hartindex_to_scratch_table s !! Z.to_nat i) else None.

(** The linear search of sbi_hartid_to_hartindex. *)
Fixpoint search_hartid (table : list Z) (hartid : Z) (idx : list Z) : Z :=
  match idx with
  | [] => INVALID_INDEX
  | i :: idx' =>
      if default INVALID_INDEX (table !! Z.to_nat i) =? hartid then i
      else search_hartid table hartid idx'
  end.

Definition sbi_hartid_to_hartindex (s : scratch_state) (hartid : Z) : Z :=
  search_hartid (hartindex_to_hartid_table s) hartid (for_each_hartindex s).

Definition sbi_hartid_to_scratch (s : scratch_state) (hartid : Z) : option Z :=
  sbi_hartindex_to_scratch s (sbi_hartid_to_hartindex s hartid).

Definition sbi_hartid_valid (s : scratch_state) (hartid : Z) : bool :=
  sbi_hartindex_valid s (sbi_hartid_to_hartindex s hartid).

(** The body of its loop over the harts. *)
Definition init_hart (plat : platform_harts) (s : scratch_state) (i : Z) : scratch_state :=
  let h := match hart_index2id plat with Some t => default 0 (t !! Z.to_nat i) | None => i end in
  mkScratchState (sbi_scratch_hart_count s)
    (<[Z.to_nat i := h]> (hartindex_to_hartid_table s))
    (<[Z.to_nat i := hartid_to_scratch plat h i]> (hartindex_to_scratch_table s))
    (extra_lock s) (extra_offset s).

Definition sbi_scratch_init (plat : platform_harts) (s : scratch_state) : scratch_state :=
  let hart_count :=
    if SBI_HARTMASK_MAX_BITS <? plat_hart_count plat then SBI_HARTMASK_MAX_BITS
    else plat_hart_count plat in
  let s := mkScratchState hart_count (hartindex_to_hartid_table s)
             (hartindex_to_scratch_table s) (extra_lock s) (extra_offset s) in
  foldl (init_hart plat) s (for_each_hartindex s).

(** The zeroing loop of sbi_scratch_alloc_offset over the harts' scratch areas. *)
Definition zero_scratch (s : scratch_state) (off size : Z) (m : mem) : mem :=
  foldl (fun m i =>
    match sbi_hartindex_to_scratch s i with
    | None => m
    | Some rscratch => sbi_memset m (rscratch + off) 0 (Z.to_nat size)
    end) m (for_each_hartindex s).

Definition sbi_scratch_alloc_offset (plat : option platform_harts) (size : Z)
    (s : scratch_state) (m : mem) : option (Z * scratch_state * mem) :=
  if size =? 0 then Some (0, s, m)
  else
    let align := sbi_get_scratch_alloc_align plat in
    let size := u64 (size + (align - 1)) in
    let size := Z.land size (not_w 64 (align - 1)) in
    l ← spin_lock (extra_lock s);
    let '(ret, off) :=
      if SBI_SCRATCH_SIZE <? u64 (extra_offset s + size) then (0, extra_offset s)
      else (extra_offset s, u64 (extra_offset s + size)) in
    let s := set_extra s (spin_unlock l) off in
    Some (ret, s, if truthy ret then zero_scratch s ret size m else m).

(** Freed space is not reclaimed. *)
Definition sbi_scratch_free_offset (offset : Z) (s : scratch_state) : scratch_state :=
  if (offset <? SBI_SCRATCH_EXTRA_SPACE_OFFSET) || (SBI_SCRATCH_SIZE <=? offset) then s else s.

Definition sbi_scratch_used_space (s : scratch_state) : option (Z * scratch_state) :=
  l ← spin_lock (extra_lock s);
  Some (extra_offset s, set_extra s (spin_unlock l) (extra_offset s)).

(** ** Hart masks addressed by hart id (include/sbi/sbi_hartmask.h) *)

Definition sbi_hartmask_set_hartid (s : scratch_state) (h : Z) (m : sbi_hartmask) : sbi_hartmask :=
  sbi_hartmask_set_hartindex (sbi_hartid_to_hartindex s h) m.

Definition sbi_hartmask_clear_hartid (s : scratch_state) (h : Z) (m : sbi_hartmask) : sbi_hartmask :=
  sbi_hartmask_clear_hartindex (sbi_hartid_to_hartindex s h) m.

Definition sbi_hartmask_test_hartid (s : scratch_state) (h : Z) (m : sbi_hartmask) : Z :=
  sbi_hartmask_test_hartindex (sbi_hartid_to_hartindex s h) m.

(** ** Hart tables *)

Definition hart_id_at (plat : platform_harts) (i : Z) : Z :=
  match hart_index2id plat with Some t => default 0 (t !! Z.to_nat i) | None => i end.

Definition init_count (plat : platform_harts) : Z :=
  Z.min SBI_HARTMASK_MAX_BITS (plat_hart_count plat).

Record tables_ok (plat : platform_harts) (s : scratch_state) : Prop := {
  to_count : sbi_scratch_hart_count s = init_count plat;
  to_id : forall i, 0 <= i < init_count plat -> sbi_hartindex_to_hartid s i = hart_id_at plat i;
  to_scratch : forall i, 0 <= i < init_count plat ->
    sbi_hartindex_to_scratch s i = hartid_to_scratch plat (hart_id_at plat i) i
}.

Lemma init_loop plat cnt n : forall t1 t2 l o,
  length t1 = 128%nat -> length t2 = 128%nat -> (n <= 128)%nat ->
  exists t1' t2', foldl (init_hart plat) (mkScratchState cnt t1 t2 l o) (seqZ 0 (Z.of_nat n))
    = mkScratchState cnt t1' t2' l o /\ length t1' = 128%nat /\ length t2' = 128%nat /\
  forall k, (k < n)%nat -> t1' !! k = Some (hart_id_at plat (Z.of_nat k)) /\
    t2' !! k = Some (hartid_to_scratch plat (hart_id_at plat (Z.of_nat k)) (Z.of_nat k)).
Proof.
  intros t1 t2 l o H1 H2. induction n as [|n IH]; intros Hn.
  { exists t1, t2. split_and!; [done|done|done|lia]. }
  destruct IH as (u1 & u2 & E & L1 & L2 & Hk); [lia|].
  rewrite seqZ_S, foldl_app, E. cbn [foldl]. unfold init_hart.
  cbn [sbi_scratch_hart_count hartindex_to_hartid_table hartindex_to_scratch_table
    extra_lock extra_offset]. rewrite Z.add_0_l, Nat2Z.id.
  do 2 eexists. split; [reflexivity|]. rewrite !length_insert. split_and!; [done|done|].
  intros k Hkn. destruct (decide (k = n)) as [->|].
  - rewrite !list_lookup_insert_eq by lia. unfold hart_id_at. by rewrite Nat2Z.id.
  - rewrite !list_lookup_insert_ne by done. apply Hk. lia.
Qed.

Lemma scratch_init_tables plat :
  0 <= plat_hart_count plat -> tables_ok plat (sbi_scratch_init plat scratch_boot).
Proof.
  intros Hc. unfold sbi_scratch_init.
  assert ((if SBI_HARTMASK_MAX_BITS <? plat_hart_count plat then SBI_HARTMASK_MAX_BITS
    else plat_hart_count plat) = init_count plat) as ->
    by (unfold init_count; case_bool; lia).
  assert (0 <= init_count plat <= 128) as Hn
    by (unfold init_count, SBI_HARTMASK_MAX_BITS; lia).
  cbn [scratch_boot hartindex_to_hartid_table hartindex_to_scratch_table extra_lock extra_offset].
  unfold for_each_hartindex. cbn [sbi_scratch_hart_count].
  destruct (init_loop plat (init_count plat) (Z.to_nat (init_count plat))
    (replicate 128 INVALID_INDEX) (replicate 128 None) SPIN_LOCK_UNLOCKED
    SBI_SCRATCH_EXTRA_SPACE_OFFSET) as (t1 & t2 & E & _ & _ & Hk); [done|done|lia|].
  rewrite Z2Nat.id in E by lia. rewrite E.
  assert (forall i, 0 <= i < init_count plat -> (i <? SBI_HARTMASK_MAX_BITS) = true) as Hlt
    by (unfold SBI_HARTMASK_MAX_BITS; lia).
  split; [done|..]; intros i Hi; destruct (Hk (Z.to_nat i) ltac:(lia)) as [Ht1 Ht2];
    rewrite Z2Nat.id in Ht1, Ht2 by lia.
  - unfold sbi_hartindex_to_hartid. rewrite Hlt by done. simpl. by rewrite Ht1.
  - unfold sbi_hartindex_to_scratch. rewrite Hlt by done. simpl. by rewrite Ht2.
Qed.

Lemma search_hartid_spec table h n : forall lo,
  let f i := default INVALID_INDEX (table !! Z.to_nat i) in
  let r := search_hartid table h (seqZ lo (Z.of_nat n)) in
  (lo <= r < lo + Z.of_nat n /\ f r = h /\ forall k, lo <= k < r -> f k <> h) \/
  (r = INVALID_INDEX /\ forall k, lo <= k < lo + Z.of_nat n -> f k <> h).
Proof.
  induction n as [|n IH]; intros lo; cbn zeta; [right; split; [done|lia]|].
  rewrite seqZ_cons by lia. replace (Z.pred (Z.of_nat (S n))) with (Z.of_nat n) by lia.
  cbn [search_hartid]. case_bool; bool_to_prop.
  - left. split_and!; [lia|lia|done|lia].
  - destruct (IH (Z.succ lo)) as [(Hr & Hf & Hk)|(Hr & Hk)]; [left|right].
    + split_and!; [lia|lia|done|]. intros k ?. destruct (decide (k = lo)) as [->|]; [done|].
      apply Hk. lia.
    + split; [done|]. intros k ?. destruct (decide (k = lo)) as [->|]; [done|]. apply Hk. lia.
Qed.

Lemma hartid_to_hartindex_spec plat s h :
  tables_ok plat s -> 0 <= plat_hart_count plat ->
  let r := sbi_hartid_to_hartindex s h in
  (0 <= r < init_count plat /\ hart_id_at plat r = h /\
     forall k, 0 <= k < r -> hart_id_at plat k <> h) \/
  (r = INVALID_INDEX /\ forall k, 0 <= k < init_count plat -> hart_id_at plat k <> h).
Proof.
  intros [Hc Hid _] Hp. cbv zeta. unfold sbi_hartid_to_hartindex, for_each_hartindex. rewrite Hc.
  assert (0 <= init_count plat <= 128) as Hn
    by (unfold init_count, SBI_HARTMASK_MAX_BITS; lia).
  assert (forall i, 0 <= i < init_count plat ->
    default INVALID_INDEX (hartindex_to_hartid_table s !! Z.to_nat i) = hart_id_at plat i) as Hf.
  { intros i Hi. rewrite <- Hid by done. unfold sbi_hartindex_to_hartid.
    by rewrite (proj2 (Z.ltb_lt _ _)) by (unfold SBI_HARTMASK_MAX_BITS; lia). }
  pose proof (search_hartid_spec (hartindex_to_hartid_table s) h
    (Z.to_nat (init_count plat)) 0) as H. cbn zeta in H. rewrite Z2Nat.id in H by lia.
  destruct H as [(Hr & E & Hk)|(Hr & Hk)]; [left|right].
  - split_and!; [lia|lia|by rewrite <- Hf by lia|]. intros k ?. rewrite <- Hf by lia. by apply Hk.
  - split; [done|]. intros k ?. rewrite <- Hf by lia. by apply Hk.
Qed.

(** ** The scratch allocator *)

Definition align_up (a x : Z) : Z := (x + (a - 1)) / a * a.

Lemma round_mask k x : 0 <= k < 64 -> 0 <= x -> x + (2 ^ k - 1) < 2 ^ 64 ->
  Z.land (u64 (x + (2 ^ k - 1))) (not_w 64 (2 ^ k - 1)) = align_up (2 ^ k) x.
Proof.
  intros Hk Hx Hb. pose proof (pow2_pos k ltac:(lia)). rewrite wrap_id by lia.
  rewrite land_not_mask by (unfold in_range; lia). unfold align_up.
  pose proof (Z.div_mod (x + (2 ^ k - 1)) (2 ^ k) ltac:(lia)). lia.
Qed.

Lemma align_up_bounds a x : 0 < a -> x <= align_up a x < x + a /\ align_up a x mod a = 0.
Proof.
  intros Ha. unfold align_up. split; [|by apply Z.mod_mul; lia].
  pose proof (Z.div_mod (x + (a - 1)) a ltac:(lia)).
  pose proof (Z.mod_pos_bound (x + (a - 1)) a ltac:(lia)). lia.
Qed.

Record scratch_wf (s : scratch_state) : Prop := {
  sw_lock : lock_free (extra_lock s);
  sw_off : SBI_SCRATCH_EXTRA_SPACE_OFFSET <= extra_offset s <= SBI_SCRATCH_SIZE
}.

(** The memory the zeroing loop writes. *)
Definition in_scratch_block (s : scratch_state) (off size a : Z) : Prop :=
  exists i p, i ∈ for_each_hartindex s /\ sbi_hartindex_to_scratch s i = Some p /\
    p + off <= a < p + off + size.

Lemma zero_scratch_spec s off size m a :
  0 <= size ->
  (in_scratch_block s off size a -> zero_scratch s off size m a = 0) /\
  (~ in_scratch_block s off size a -> zero_scratch s off size m a = m a).
Proof.
  intros Hs. unfold zero_scratch, in_scratch_block.
  induction (for_each_hartindex s) as [|i l IH] using rev_ind.
  { split; [intros (? & ? & []%elem_of_nil & _)|done]. }
  rewrite foldl_app. cbn [foldl]. destruct IH as [IH1 IH2].
  destruct (sbi_hartindex_to_scratch s i) as [p|] eqn:Ep; [rewrite memset_spec|].
  - destruct (decide (p + off <= a < p + off + size)) as [Hin|Hout].
    + rewrite (proj2 (andb_true_iff _ _)) by lia. split; [done|]. intros []. exists i, p.
      split_and!; [apply elem_of_app; right; by apply list_elem_of_singleton|done|lia|lia].
    + rewrite (proj2 (andb_false_iff _ _)) by lia. split.
      * intros (j & q & [Hj|Hj]%elem_of_app & Eq & Ha); [apply IH1; eauto|].
        apply list_elem_of_singleton in Hj as ->. simplify_eq. lia.
      * intros Hn. apply IH2. intros (j & q & Hj & ?). apply Hn. exists j, q.
        split; [apply elem_of_app; by left|done].
  - split.
    + intros (j & q & [Hj|Hj]%elem_of_app & Eq & Ha); [apply IH1; eauto|].
      apply list_elem_of_singleton in Hj as ->. simplify_eq.
    + intros Hn. apply IH2. intros (j & q & Hj & ?). apply Hn. exists j, q.
      split; [apply elem_of_app; by left|done].
Qed.

(** What one allocation does, for a CBOM block size that is a power of two. *)
Lemma scratch_alloc_spec plat k size s m :
  sbi_get_scratch_alloc_align plat = 2 ^ k -> 0 <= k <= 12 -> 0 < size < 2 ^ 32 -> scratch_wf s ->
  let sz := align_up (2 ^ k) size in
  exists ret s' m', sbi_scratch_alloc_offset plat size s m = Some (ret, s', m') /\ scratch_wf s' /\
    sbi_scratch_hart_count s' = sbi_scratch_hart_count s /\
    hartindex_to_scratch_table s' = hartindex_to_scratch_table s /\
    ((ret = 0 /\ extra_offset s' = extra_offset s /\ m' = m /\
        SBI_SCRATCH_SIZE < extra_offset s + sz) \/
     (ret = extra_offset s /\ extra_offset s' = extra_offset s + sz /\
        extra_offset s + sz <= SBI_SCRATCH_SIZE /\ m' = zero_scratch s' ret sz m)).
Proof.
  intros Hal Hk Hsz [Hl Ho] sz.
  pose proof (pow2_pos k ltac:(lia)). pose proof (pow2_le k 12 ltac:(lia)).
  destruct (align_up_bounds (2 ^ k) size ltac:(lia)) as [Hb _]. fold sz in Hb.
  unfold sbi_scratch_alloc_offset. rewrite (proj2 (Z.eqb_neq _ _)) by lia.
  rewrite Hal. rewrite round_mask by lia. fold sz. rewrite spin_lock_free by done.
  simpl. rewrite wrap_id by lia. case_bool; bool_to_prop.
  - do 3 eexists. split; [reflexivity|]. split; [split; simpl; [by apply spin_unlock_taken|done]|].
    split_and!; [done|done|]. left. split_and!; done || lia.
  - do 3 eexists. split; [reflexivity|].
    split; [split; simpl;
      [by apply spin_unlock_taken|lia]|].
    split_and!; [done|done|]. right. split_and!; [done|done|lia|].
    unfold truthy. by rewrite (proj2 (Z.eqb_neq (extra_offset s) 0)) by lia.
Qed.

(** A sequence of allocations, with the block each successful one returns. *)
Fixpoint scratch_alloc_run (plat : option platform_harts) (sizes : list Z)
    (s : scratch_state) (m : mem) : option (list (Z * Z) * scratch_state * mem) :=
  match sizes with
  | [] => Some ([], s, m)
  | size :: sizes' =>
      '(ret, s, m) ← sbi_scratch_alloc_offset plat size s m;
      '(bs, s, m) ← scratch_alloc_run plat sizes' s m;
      Some (if truthy ret then (ret, size) :: bs else bs, s, m)
  end.

Lemma scratch_alloc_run_spec plat k sizes : forall s m,
  sbi_get_scratch_alloc_align plat = 2 ^ k -> 0 <= k <= 12 ->
  Forall (fun z => 0 < z < 2 ^ 32) sizes -> scratch_wf s ->
  exists bs s' m', scratch_alloc_run plat sizes s m = Some (bs, s', m') /\ scratch_wf s' /\
    Forall (fun b => extra_offset s <= b.1 /\ b.1 + b.2 <= extra_offset s') bs /\
    extra_offset s <= extra_offset s' /\
    forall i j b c, (i < j)%nat -> bs !! i = Some b -> bs !! j = Some c -> b.1 + b.2 <= c.1.
Proof.
  induction sizes as [|size sizes IH]; intros s m Hal Hk Hsz Hs.
  { exists [], s, m. split_and!; [done|done|constructor|lia|done]. }
  apply Forall_cons in Hsz as [Hz Hsz].
  destruct (scratch_alloc_spec plat k size s m Hal Hk Hz Hs) as
    (ret & s1 & m1 & E & Hs1 & _ & _ & Hc). pose proof (sw_off s Hs) as Hoff.
  destruct (IH s1 m1 Hal Hk Hsz Hs1) as (bs & s2 & m2 & E2 & Hs2 & Hbs & Hmono & Hdis).
  cbn [scratch_alloc_run]. rewrite E. cbn [mbind option_bind]. rewrite E2. cbn [mbind option_bind].
  destruct (align_up_bounds (2 ^ k) size (pow2_pos k ltac:(lia))) as [Hb _].
  destruct Hc as [(-> & Eo & _ & _)|(-> & Eo & Hfit & _)].
  - exists bs, s2, m2. rewrite Eo in *. split_and!; done.
  - exists ((extra_offset s, size) :: bs), s2, m2.
    unfold truthy.
    rewrite (proj2 (Z.eqb_neq (extra_offset s) 0)) by lia. split_and!; [done|done| |lia|].
    + constructor; [simpl; lia|]. eapply Forall_impl; [exact Hbs|]. simpl. lia.
    + intros i j b c Hij Hi Hj. destruct j as [|j]; [lia|]. destruct i as [|i].
      * simpl in *. simplify_eq. apply (Forall_lookup_1 _ _ _ _ Hbs) in Hj. simpl. lia.
      * simpl in *. apply (Hdis i j); [lia|done|done].
Qed.

(** ** Properties *)

(** Whatever sizes are asked for, in whatever order, the scratch
    blocks handed out lie inside the extra space of the 4 KiB scratch area and
    never overlap, and no call blocks. *)
Theorem scratch_blocks_disjoint plat k sizes m :
  sbi_get_scratch_alloc_align plat = 2 ^ k -> 0 <= k <= 12 ->
  Forall (fun z => 0 < z < 2 ^ 32) sizes ->
  exists bs s' m', scratch_alloc_run plat sizes scratch_boot m = Some (bs, s', m') /\
    Forall (fun b => SBI_SCRATCH_EXTRA_SPACE_OFFSET <= b.1 /\ b.1 + b.2 <= SBI_SCRATCH_SIZE) bs /\
    forall i j b c, (i < j)%nat -> bs !! i = Some b -> bs !! j = Some c -> b.1 + b.2 <= c.1.
Proof.
  intros Hal Hk Hsz.
  destruct (scratch_alloc_run_spec plat k sizes scratch_boot m Hal Hk Hsz) as
    (bs & s' & m' & E & Hs' & Hbs & _ & Hd).
  { split; [apply lock_free_init|]. done. }
  exists bs, s', m'. split_and!; [done| |done].
  eapply Forall_impl; [exact Hbs|]. intros b [Hb1 Hb2]. pose proof (sw_off s' Hs').
  change (extra_offset scratch_boot) with SBI_SCRATCH_EXTRA_SPACE_OFFSET in Hb1. lia.
Qed.

Lemma scratch_blocks_disjoint_witness :
  exists bs s' m',
    scratch_alloc_run None [24; 100; 5000; 8] scratch_boot (fun _ => 7) = Some (bs, s', m') /\
    Forall (fun b => SBI_SCRATCH_EXTRA_SPACE_OFFSET <= b.1 /\ b.1 + b.2 <= SBI_SCRATCH_SIZE) bs.
Proof.
  destruct (scratch_blocks_disjoint None 3 [24; 100; 5000; 8] (fun _ => 7)) as
    (bs & s' & m' & E & H & _); [done|lia|repeat constructor; lia|].
  exists bs, s', m'. split; [exact E|exact H].
Defined.

(** After boot the hart tables are inverse to each other: an index
    maps to the platform's hart id and back (when the ids are distinct), and an
    id the platform does not have maps to the all-ones index, which is no valid
    index. *)
Theorem hart_tables_inverse plat h i :
  0 <= plat_hart_count plat ->
  (forall j k, 0 <= j < init_count plat -> 0 <= k < init_count plat ->
     hart_id_at plat j = hart_id_at plat k -> j = k) ->
  let s := sbi_scratch_init plat scratch_boot in
  (0 <= i < init_count plat ->
     sbi_hartindex_to_hartid s i = hart_id_at plat i /\
     sbi_hartid_to_hartindex s (sbi_hartindex_to_hartid s i) = i /\
     sbi_hartid_to_scratch s (sbi_hartindex_to_hartid s i) =
       hartid_to_scratch plat (hart_id_at plat i) i) /\
  ((forall k, 0 <= k < init_count plat -> hart_id_at plat k <> h) ->
     sbi_hartid_to_hartindex s h = INVALID_INDEX /\ sbi_hartid_valid s h = false).
Proof.
  intros Hc Hinj s. pose proof (scratch_init_tables plat Hc) as Ht. fold s in Ht. split.
  - intros Hi. pose proof (to_id plat s Ht i Hi) as Ei.
    assert (sbi_hartid_to_hartindex s (sbi_hartindex_to_hartid s i) = i) as Er.
    { destruct (hartid_to_hartindex_spec plat s (sbi_hartindex_to_hartid s i) Ht Hc)
        as [(Hr & Eh & _)|(_ & Hno)].
      - rewrite Ei in *. by apply Hinj.
      - by destruct (Hno i Hi). }
    split_and!; [done|done|]. unfold sbi_hartid_to_scratch. rewrite Er. by apply (to_scratch _ _ Ht).
  - intros Hno. destruct (hartid_to_hartindex_spec plat s h Ht Hc) as [(Hr & Eh & _)|(Er & _)].
    { by destruct (Hno _ Hr). }
    split; [done|]. unfold sbi_hartid_valid, sbi_hartindex_valid. rewrite Er, (to_count _ _ Ht).
    unfold init_count, SBI_HARTMASK_MAX_BITS, INVALID_INDEX. lia.
Qed.

(** Three harts with ids 4, 2 and 7. *)
Definition plat_example : platform_harts :=
  mkPlatformHarts 3 (Some [4; 2; 7]) 0 (fun _ i => Some (0x80040000 - 0x1000 * i)).

Lemma hart_tables_inverse_witness :
  let s := sbi_scratch_init plat_example scratch_boot in
  sbi_hartid_to_hartindex s 7 = 2 /\ sbi_hartid_to_hartindex s 3 = INVALID_INDEX.
Proof.
  assert (forall j k, 0 <= j < init_count plat_example -> 0 <= k < init_count plat_example ->
     hart_id_at plat_example j = hart_id_at plat_example k -> j = k) as Hinj.
  { intros j k Hj Hk. change (init_count plat_example) with 3 in *.
    assert (j = 0 \/ j = 1 \/ j = 2) as [-> | [-> | ->]] by lia;
    assert (k = 0 \/ k = 1 \/ k = 2) as [-> | [-> | ->]] by lia; done. }
  split.
  - apply (hart_tables_inverse plat_example 3 2 ltac:(done) Hinj). done.
  - apply (hart_tables_inverse plat_example 3 2 ltac:(done) Hinj).
    intros k Hk. change (init_count plat_example) with 3 in *.
    assert (k = 0 \/ k = 1 \/ k = 2) as [-> | [-> | ->]] by lia; done.
Defined.
