(* ===== verification/Heap.v ===== *)
(** * Heap allocator (lib/sbi/sbi_heap.c, include/sbi/sbi_heap.h of
    xendor/opensbi)

    A doubly linked list of the code is the list of its nodes in order.  A
    [heap_node] carries its own address [nid] because nodes are themselves
    carved out of the heap: [free_node_list] is the list of the addresses of
    the unused ones.  [init_node] is the address of init_free_space_node, which
    lies in the control structure and not in the heap. *)

From S2P Require Import Prelude Strings Locks Bitops Scratch.

Local Open Scope Z_scope.

Abbreviation HEAP_ALLOC_ALIGN := 64.
Definition HEAP_NODE_BATCH_SIZE : nat := 8.
Abbreviation HEAP_BASE_ALIGN := 1024.
Definition sizeof_heap_node : Z := 32.

Record heap_node := mkNode { nid : Z; naddr : Z; nsize : Z }.

Record sbi_heap_control := mkHeap {
  hlock : spinlock_t;
  hbase : Z;
  hsize : Z;
  resv : Z;
  free_node_list : list Z;
  free_space_list : list heap_node;
  used_space_list : list heap_node;
  init_node : Z
}.

Definition set_lists (h : sbi_heap_control) (fn : list Z) (fs us : list heap_node) :
    sbi_heap_control :=
  mkHeap (hlock h) (hbase h) (hsize h) (resv h) fn fs us (init_node h).

Definition set_hlock (l : spinlock_t) (h : sbi_heap_control) : sbi_heap_control :=
  mkHeap l (hbase h) (hsize h) (resv h) (free_node_list h) (free_space_list h)
    (used_space_list h) (init_node h).

(** ROUNDUP of sbi_types.h. *)
Definition ROUNDUP (a b : Z) : Z := u64 ((u64 (a - 1) / b + 1) * b).

(** The backward search of alloc_nodes, on the reversed free space list: the
    new list, the node that became empty and the address of the batch. *)
Fixpoint carve_batch (size : Z) (rl : list heap_node) : option (list heap_node * list Z * Z) :=
  match rl with
  | [] => None
  | n :: rl' =>
      if size <=? nsize n then
        let s := u64 (nsize n - size) in
        let new := u64 (naddr n + s) in
        if s =? 0 then Some (rl', [nid n], new)
        else Some (mkNode (nid n) (naddr n) s :: rl', [], new)
      else '(rl'', fn, new) ← carve_batch size rl'; Some (n :: rl'', fn, new)
  end.

Definition batch_nodes (new : Z) : list Z :=
  (fun i => new + sizeof_heap_node * Z.of_nat i) <$> seq 0 HEAP_NODE_BATCH_SIZE.

Definition alloc_nodes (h : sbi_heap_control) : bool * sbi_heap_control :=
  let size := Z.of_nat HEAP_NODE_BATCH_SIZE * sizeof_heap_node in
  match free_node_list h with
  | _ :: _ :: _ => (true, h)
  | _ =>
      match carve_batch size (rev (free_space_list h)) with
      | None => (false, h)
      | Some (rl, fn, new) =>
          let h1 := set_lists h (free_node_list h ++ fn) (rev rl) (used_space_list h) in
          if new =? 0 then (false, h1)
          else
            (true, mkHeap (hlock h1) (hbase h1) (hsize h1) (u64 (resv h1 + size))
              (free_node_list h1 ++ batch_nodes new) (free_space_list h1)
              (used_space_list h1) (init_node h1))
      end
  end.

(** First free node the request fits in: the nodes before it, the node, its
    padding and the nodes after it. *)
Fixpoint first_fit (align size : Z) (l : list heap_node) :
    option (list heap_node * heap_node * Z * list heap_node) :=
  match l with
  | [] => None
  | n :: l' =>
      let pad := u64 (ROUNDUP (naddr n) align - naddr n) in
      if u64 (size + pad) <=? nsize n then Some ([], n, pad, l')
      else '(pre, np, pad, post) ← first_fit align size l'; Some (n :: pre, np, pad, post)
  end.

(** sbi_list_first_entry and sbi_list_del on the unused nodes; the list is
    never empty here ([alloc_nodes] has just seen to that). *)
Definition take_node (fn : list Z) : Z * list Z :=
  match fn with [] => (0, []) | n :: fn' => (n, fn') end.

(** Lines 105-132: the padding and the rest of [np] become free blocks of
    their own, before and after it; [np] moves to the used list. *)
Definition place_block (h : sbi_heap_control) (size : Z) (pre : list heap_node)
    (np : heap_node) (pad : Z) (post : list heap_node) : Z * sbi_heap_control :=
  let fn := free_node_list h in
  let '(front, np, fn) :=
    if truthy pad then
      let '(n, fn) := take_node fn in
      ([mkNode n (naddr np) pad],
       mkNode (nid np) (u64 (naddr np + pad)) (u64 (nsize np - pad)), fn)
    else ([], np, fn) in
  let '(back, np, fn) :=
    if size <? nsize np then
      let '(n, fn) := take_node fn in
      ([mkNode n (u64 (naddr np + size)) (u64 (nsize np - size))],
       mkNode (nid np) (naddr np) size, fn)
    else ([], np, fn) in
  (naddr np, set_lists h fn (pre ++ front ++ back ++ post) (used_space_list h ++ [np])).

Definition alloc_with_align (h : sbi_heap_control) (align size : Z) :
    option (Z * sbi_heap_control) :=
  if size =? 0 then Some (0, h)
  else
    let size := u64 (size + (align - 1)) in
    let size := Z.land size (not_w 64 (align - 1)) in
    l ← spin_lock (hlock h);
    let h := set_hlock l h in
    let '(ret, h) :=
      let '(ok, h) := alloc_nodes h in
      if negb ok then (0, h)
      else
        match first_fit align size (free_space_list h) with
        | None => (0, h)
        | Some (pre, np, pad, post) => place_block h size pre np pad post
        end in
    Some (ret, set_hlock (spin_unlock (hlock h)) h).

Definition sbi_malloc_from (h : sbi_heap_control) (size : Z) : option (Z * sbi_heap_control) :=
  alloc_with_align h HEAP_ALLOC_ALIGN size.

Definition sbi_aligned_alloc_from (h : sbi_heap_control) (alignment size : Z) :
    option (Z * sbi_heap_control) :=
  let alignment := if alignment <? HEAP_ALLOC_ALIGN then HEAP_ALLOC_ALIGN else alignment in
  if truthy (Z.land alignment (alignment - 1)) then Some (0, h)
  else if truthy (size mod alignment) then Some (0, h)
  else alloc_with_align h alignment size.

Definition sbi_zalloc_from (h : sbi_heap_control) (size : Z) (m : mem) :
    option (Z * sbi_heap_control * mem) :=
  '(ret, h) ← sbi_malloc_from h size;
  Some (ret, h, if truthy ret then sbi_memset m ret 0 (Z.to_nat size) else m).

Definition sbi_calloc_from (h : sbi_heap_control) (nitems size : Z) (m : mem) :
    option (Z * sbi_heap_control * mem) :=
  sbi_zalloc_from h (u64 (nitems * size)) m.

(** The used block that holds [ptr], and the others. *)
Fixpoint find_used (ptr : Z) (l : list heap_node) : option (heap_node * list heap_node) :=
  match l with
  | [] => None
  | n :: l' =>
      if (naddr n <=? ptr) && (ptr <? u64 (naddr n + nsize n)) then Some (n, l')
      else '(np, l'') ← find_used ptr l'; Some (np, n :: l'')
  end.

(** The insertion loop of sbi_free_from; the second component is the node
    that went back to the unused ones.  [None] means the loop ran to the end. *)
Fixpoint insert_free (np : heap_node) (l : list heap_node) : option (list heap_node * list Z) :=
  match l with
  | [] => None
  | n :: l' =>
      if u64 (naddr np + nsize np) =? naddr n then
        Some (mkNode (nid n) (naddr np) (u64 (nsize n + nsize np)) :: l', [nid np])
      else if naddr np =? u64 (naddr n + nsize n) then
        Some (mkNode (nid n) (naddr n) (u64 (nsize n + nsize np)) :: l', [nid np])
      else if u64 (naddr n + nsize n) <? naddr np then Some (n :: np :: l', [])
      else '(l'', fn) ← insert_free np l'; Some (n :: l'', fn)
  end.

Definition sbi_free_from (h : sbi_heap_control) (ptr : Z) : option sbi_heap_control :=
  if ptr =? 0 then Some h
  else
    l ← spin_lock (hlock h);
    let h := set_hlock l h in
    let h :=
      match find_used ptr (used_space_list h) with
      | None => h
      | Some (np, us) =>
          match insert_free np (free_space_list h) with
          | Some (fs, fn) => set_lists h (free_node_list h ++ fn) fs us
          | None => set_lists h (free_node_list h) (free_space_list h ++ [np]) us
          end
      end in
    Some (set_hlock (spin_unlock (hlock h)) h).

Definition sum_sizes (l : list heap_node) : Z := foldl (fun ret n => u64 (ret + nsize n)) 0 l.

Definition sbi_heap_free_space_from (h : sbi_heap_control) : option (Z * sbi_heap_control) :=
  l ← spin_lock (hlock h);
  Some (sum_sizes (free_space_list h), set_hlock (spin_unlock l) h).

(** The code subtracts the free space of the global heap, whatever [h] is. *)
Definition sbi_heap_used_space_from (global h : sbi_heap_control) : option Z :=
  '(free, _) ← sbi_heap_free_space_from global;
  Some (u64 (hsize h - resv h - free)).

Definition sbi_heap_reserved_space_from (h : sbi_heap_control) : Z := resv h.

Definition sbi_heap_init_new (init base size : Z) : sbi_heap_control :=
  mkHeap SPIN_LOCK_UNLOCKED base size 0 [] [mkNode init base size] [] init.

Definition sbi_heap_init (init : Z) (scratch : sbi_scratch) (global : sbi_heap_control) :
    Z * sbi_heap_control :=
  if (fw_heap_size scratch =? 0) ||
     truthy (Z.land (fw_heap_size scratch) (HEAP_BASE_ALIGN - 1)) ||
     (fw_heap_offset scratch <? fw_rw_offset scratch) ||
     (fw_size scratch <? u64 (fw_heap_offset scratch + fw_heap_size scratch)) ||
     truthy (Z.land (fw_heap_offset scratch) (HEAP_BASE_ALIGN - 1))
  then (SBI_EINVAL, global)
  else (0, sbi_heap_init_new init (u64 (fw_start scratch + fw_heap_offset scratch))
             (fw_heap_size scratch)).

(** ** Measures

    [f a n] is any additive measure of the [n] bytes at [a].  Every operation
    moves bytes between free blocks, used blocks and node storage, so it keeps
    the sum of the measure over the three; with the measure "is [x] in the
    block" this says that the blocks tile the heap. *)

Definition additive (f : Z -> Z -> Z) : Prop :=
  forall a p q, 0 <= p -> 0 <= q -> f a (p + q) = f a p + f (a + p) q.

Section Measure.
Context (f : Z -> Z -> Z) (init : Z).

Definition store_m (n : Z) : Z := if n =? init then 0 else f n sizeof_heap_node.

Fixpoint stores_m (l : list Z) : Z :=
  match l with [] => 0 | n :: l' => store_m n + stores_m l' end.

(** A node measures its block and its own storage. *)
Fixpoint nodes_m (l : list heap_node) : Z :=
  match l with
  | [] => 0
  | n :: l' => f (naddr n) (nsize n) + store_m (nid n) + nodes_m l'
  end.

Lemma stores_m_app l1 l2 : stores_m (l1 ++ l2) = stores_m l1 + stores_m l2.
Proof. induction l1; simpl; lia. Qed.

Lemma nodes_m_app l1 l2 : nodes_m (l1 ++ l2) = nodes_m l1 + nodes_m l2.
Proof. induction l1; simpl; lia. Qed.

Lemma nodes_m_rev l : nodes_m (rev l) = nodes_m l.
Proof. induction l; simpl; [done|]. rewrite nodes_m_app. simpl. lia. Qed.
End Measure.

Definition heap_m (f : Z -> Z -> Z) (h : sbi_heap_control) : Z :=
  stores_m f (init_node h) (free_node_list h) + nodes_m f (init_node h) (free_space_list h) +
  nodes_m f (init_node h) (used_space_list h).

(** Is [x] in the block; the size of the block. *)
Definition covers (x a n : Z) : Z := Z.b2z ((a <=? x) && (x <? a + n)).
Definition bytes (a n : Z) : Z := n.

Lemma covers_additive x : additive (covers x).
Proof. intros a p q Hp Hq. unfold covers, Z.b2z. repeat case_bool; lia. Qed.

Lemma bytes_additive : additive bytes.
Proof. intros a p q Hp Hq. unfold bytes. lia. Qed.

#[export] Hint Resolve covers_additive bytes_additive : sbi.

Lemma additive_0 f a : additive f -> f a 0 = 0.
Proof. intros Hf. pose proof (Hf a 0 0 ltac:(lia) ltac:(lia)) as H. rewrite !Z.add_0_r in H. lia. Qed.

(** Multiples of 64. *)
Abbreviation al64 z := (z mod 64 = 0).

Record node_in (base size : Z) (n : heap_node) : Prop := {
  no_lo : base <= naddr n;
  no_hi : naddr n + nsize n <= base + size;
  no_pos : 0 < nsize n;
  no_addr : al64 (naddr n);
  no_size : al64 (nsize n)
}.

Definition node_ok (h : sbi_heap_control) : heap_node -> Prop := node_in (hbase h) (hsize h).

(** The storage of all nodes together. *)
Definition all_nids (h : sbi_heap_control) : list Z :=
  free_node_list h ++ (nid <$> free_space_list h) ++ (nid <$> used_space_list h).

Record heap_inv (h : sbi_heap_control) : Prop := {
  hv_base : 0 < hbase h;
  hv_size : 0 <= hsize h;
  hv_top : hbase h + hsize h < 2 ^ 64;
  hv_init : ~ (hbase h <= init_node h < hbase h + hsize h);
  hv_free : Forall (node_ok h) (free_space_list h);
  hv_used : Forall (node_ok h) (used_space_list h);
  hv_cover : forall x, heap_m (covers x) h = covers x (hbase h) (hsize h);
  hv_total : heap_m bytes h = hsize h;
  hv_resv : resv h = stores_m bytes (init_node h) (all_nids h)
}.

(** What an operation keeps: the frame, and every additive measure. *)
Record heap_same (h h' : sbi_heap_control) : Prop := {
  hs_base : hbase h' = hbase h;
  hs_size : hsize h' = hsize h;
  hs_init : init_node h' = init_node h;
  hs_m : forall f, additive f -> heap_m f h' = heap_m f h
}.

Lemma node_ok_same h h' n : heap_same h h' -> node_ok h n -> node_ok h' n.
Proof. intros [Hb Hs _ _]. unfold node_ok. by rewrite Hb, Hs. Qed.

Lemma heap_same_refl h : heap_same h h.
Proof. by split. Qed.

Lemma heap_same_trans h1 h2 h3 : heap_same h1 h2 -> heap_same h2 h3 -> heap_same h1 h3.
Proof.
  intros [A1 A2 A3 A4] [B1 B2 B3 B4]. split; [congruence..|].
  intros f Hf. rewrite B4, A4; done.
Qed.

Lemma nodes_m_split f init l :
  nodes_m f init l = foldr (fun n acc => f (naddr n) (nsize n) + acc) 0 l
    + stores_m f init (nid <$> l).
Proof.
  induction l as [|n l IH]; [done|]. cbn [nodes_m foldr fmap list_fmap stores_m]. lia.
Qed.

(** The invariant is re-established from a step that keeps the measures. *)
Lemma heap_inv_step h h' :
  heap_inv h -> heap_same h h' ->
  Forall (node_ok h) (free_space_list h') -> Forall (node_ok h) (used_space_list h') ->
  resv h' - resv h = stores_m bytes (init_node h) (all_nids h') -
                     stores_m bytes (init_node h) (all_nids h) ->
  heap_inv h'.
Proof.
  intros [] Hs Hf Hu Hr. pose proof Hs as [Hb Hsz Hi Hm].
  split; rewrite ?Hb, ?Hsz, ?Hi; try done.
  - eapply Forall_impl; [exact Hf|]. intros n. by apply node_ok_same.
  - eapply Forall_impl; [exact Hu|]. intros n. by apply node_ok_same.
  - intros x. rewrite Hm by auto with sbi. done.
  - rewrite Hm by auto with sbi. done.
  - lia.
Qed.

(** ** The node pool *)

Lemma batch_measure f init new :
  additive f -> (forall i, 0 <= i < 256 -> new + i <> init) ->
  stores_m f init (batch_nodes new) = f new 256.
Proof.
  intros Hf Hi. unfold batch_nodes, HEAP_NODE_BATCH_SIZE.
  assert (forall n, (n <= 8)%nat ->
    stores_m f init ((fun i => new + sizeof_heap_node * Z.of_nat i) <$> seq 0 n) =
    f new (32 * Z.of_nat n)) as H; [|by apply (H 8%nat)].
  induction n as [|n IH]; intros Hn; [symmetry; by apply additive_0|].
  rewrite seq_S, fmap_app, stores_m_app, IH by lia. cbn [fmap list_fmap stores_m].
  unfold store_m, sizeof_heap_node. rewrite (proj2 (Z.eqb_neq _ _)) by (apply Hi; lia).
  rewrite Z.add_0_r, <- Hf by lia. f_equal. lia.
Qed.

Lemma batch_length new : length (batch_nodes new) = 8%nat.
Proof. done. Qed.

(** The batch comes out of one free block. *)
Lemma carve_batch_spec h l rl fn new :
  heap_inv h -> Forall (node_ok h) l -> carve_batch 256 l = Some (rl, fn, new) ->
  Forall (node_ok h) rl /\ hbase h <= new /\ new + 256 <= hbase h + hsize h /\
  stores_m bytes (init_node h) (fn ++ (nid <$> rl)) = stores_m bytes (init_node h) (nid <$> l) /\
  forall f, additive f ->
    stores_m f (init_node h) fn + nodes_m f (init_node h) rl + f new 256 =
    nodes_m f (init_node h) l.
Proof.
  intros Hh. revert rl fn new. induction l as [|n l IH]; intros rl fn new Hl Hc; [done|].
  apply Forall_cons in Hl as [Hn Hl]. pose proof Hn as [Hlo Hhi Hpos Ha Hs].
  pose proof (hv_base h Hh). pose proof (hv_top h Hh). cbn [carve_batch] in Hc.
  destruct (256 <=? nsize n) eqn:E.
  - bool_to_prop. rewrite (wrap_id 64 (nsize n - 256)) in Hc by lia. rewrite wrap_id in Hc by lia.
    assert (forall f, additive f -> f (naddr n) (nsize n) =
      f (naddr n) (nsize n - 256) + f (naddr n + (nsize n - 256)) 256) as Hsplit.
    { intros f Hf. rewrite <- Hf by lia. f_equal. lia. }
    destruct (nsize n - 256 =? 0) eqn:E0; simplify_eq; bool_to_prop.
    + split_and!; [done|lia|lia|done|]. intros f Hf. cbn [stores_m nodes_m].
      rewrite (Hsplit f Hf), E0, (additive_0 f _ Hf). lia.
    + split_and!; [|lia|lia|done|].
      * constructor; [|done]. split; simpl; try lia. by rewrite Zminus_mod, Hs.
      * intros f Hf. cbn [stores_m nodes_m naddr nsize nid]. rewrite (Hsplit f Hf). lia.
  - destruct (carve_batch 256 l) as [[[rl' fn'] new']|] eqn:Ec; [|done]. simpl in Hc. simplify_eq.
    destruct (IH _ _ _ Hl eq_refl) as (H1 & H2 & H3 & H4 & H5).
    split_and!; [by constructor|done|done| |].
    + rewrite stores_m_app in *. cbn [fmap list_fmap stores_m]. lia.
    + intros f Hf. cbn [nodes_m]. specialize (H5 f Hf). lia.
Qed.

Record pool_ok (h h' : sbi_heap_control) : Prop := {
  po_same : heap_same h h';
  po_inv : heap_inv h -> heap_inv h';
  po_used : used_space_list h' = used_space_list h;
  po_lock : hlock h' = hlock h
}.

Lemma pool_ok_refl h : pool_ok h h.
Proof. split; [apply heap_same_refl|done..]. Qed.

Lemma stores_bytes_nonneg init l : 0 <= stores_m bytes init l.
Proof.
  induction l as [|n l IH]; [done|]. cbn [stores_m]. unfold store_m, bytes, sizeof_heap_node in *.
  case_bool; lia.
Qed.

(** The bytes of the blocks of a list of nodes. *)
Definition block_bytes (l : list heap_node) : Z := foldr (fun n acc => nsize n + acc) 0 l.

Lemma nodes_bytes init l :
  nodes_m bytes init l = block_bytes l + stores_m bytes init (nid <$> l).
Proof. apply nodes_m_split. Qed.

Lemma block_bytes_nonneg h l : Forall (node_ok h) l -> 0 <= block_bytes l.
Proof.
  induction 1 as [|n l [_ _ Hp _ _] Hl IH]; [done|]. unfold block_bytes in *. simpl. lia.
Qed.

Lemma block_bytes_app l1 l2 : block_bytes (l1 ++ l2) = block_bytes l1 + block_bytes l2.
Proof. unfold block_bytes. induction l1; simpl; lia. Qed.

(** Free, used and reserved bytes make up the heap. *)
Lemma heap_accounting h :
  heap_inv h ->
  block_bytes (free_space_list h) + block_bytes (used_space_list h) + resv h = hsize h /\
  0 <= block_bytes (free_space_list h) /\ 0 <= block_bytes (used_space_list h) /\ 0 <= resv h.
Proof.
  intros Hh. split_and!.
  - rewrite <- (hv_total h Hh), (hv_resv h Hh). unfold heap_m, all_nids.
    rewrite !nodes_bytes, !stores_m_app. lia.
  - eapply block_bytes_nonneg, (hv_free h Hh).
  - eapply block_bytes_nonneg, (hv_used h Hh).
  - rewrite (hv_resv h Hh). apply stores_bytes_nonneg.
Qed.

Lemma stores_m_rev f init (l : list heap_node) :
  stores_m f init (nid <$> rev l) = stores_m f init (nid <$> l).
Proof.
  induction l as [|n l IH]; [done|]. simpl rev. rewrite fmap_app, stores_m_app, IH.
  cbn [fmap list_fmap stores_m]. lia.
Qed.

Lemma carve_batch_none size l :
  carve_batch size l = None -> Forall (fun n => nsize n < size) l.
Proof.
  induction l as [|n l IH]; cbn [carve_batch]; intros Hc; [constructor|].
  destruct (size <=? nsize n) eqn:E; [by destruct (u64 (nsize n - size) =? 0)|].
  constructor; [lia|]. apply IH. by destruct (carve_batch size l) as [[[]]|].
Qed.

(** The heap after a batch of nodes was carved out. *)
Definition with_batch (h : sbi_heap_control) (rl : list heap_node) (fn : list Z) (new : Z) :=
  mkHeap (hlock h) (hbase h) (hsize h) (u64 (resv h + 256))
    ((free_node_list h ++ fn) ++ batch_nodes new) (rev rl) (used_space_list h) (init_node h).

Lemma with_batch_ok h rl fn new :
  heap_inv h -> carve_batch 256 (rev (free_space_list h)) = Some (rl, fn, new) ->
  0 < new /\ pool_ok h (with_batch h rl fn new).
Proof.
  intros Hh Hc. destruct (carve_batch_spec h (rev (free_space_list h)) rl fn new Hh)
    as (H1 & H2 & H3 & H4 & H5); [apply Forall_rev, (hv_free h Hh)|done|].
  pose proof (hv_base h Hh). pose proof (hv_init h Hh). split; [lia|].
  assert (forall f, additive f -> stores_m f (init_node h) (batch_nodes new) = f new 256) as Hb.
  { intros f Hf. apply batch_measure; [done|]. intros i Hi. lia. }
  assert (heap_same h (with_batch h rl fn new)) as Hs.
  { split; try done. intros f Hf. unfold heap_m, with_batch. simpl.
    rewrite !stores_m_app, nodes_m_rev, Hb by done. specialize (H5 f Hf).
    rewrite nodes_m_rev in H5. lia. }
  split; [done| |done|done]. intros _.
  assert (0 <= resv h /\ resv h + 256 <= hsize h) as Hr.
  { destruct (heap_accounting h Hh) as (Hacc & Hf & Hu & Hr). split; [done|].
    specialize (H5 bytes bytes_additive). rewrite nodes_m_rev, !nodes_bytes in H5.
    rewrite stores_m_app, stores_m_rev in H4. pose proof (block_bytes_nonneg h rl H1).
    unfold bytes in *. lia. }
  apply (heap_inv_step h); try done.
  - unfold with_batch. simpl. by apply Forall_rev.
  - apply (hv_used h Hh).
  - unfold with_batch, all_nids. simpl. pose proof (hv_top h Hh). rewrite wrap_id by lia.
    rewrite !stores_m_app, Hb by auto with sbi. rewrite stores_m_rev.
    rewrite stores_m_app, stores_m_rev in H4. unfold bytes in *. lia.
Qed.

Lemma alloc_nodes_spec h :
  heap_inv h ->
  let '(ok, h') := alloc_nodes h in
  pool_ok h h' /\ (ok = true -> (2 <= length (free_node_list h'))%nat) /\
  (ok = false -> Forall (fun n => nsize n < 256) (free_space_list h)).
Proof.
  intros Hh. unfold alloc_nodes.
  change (Z.of_nat HEAP_NODE_BATCH_SIZE * sizeof_heap_node) with 256.
  assert (match carve_batch 256 (rev (free_space_list h)) with
    | None => (false, h)
    | Some (rl, fn, new) =>
        let h1 := set_lists h (free_node_list h ++ fn) (rev rl) (used_space_list h) in
        if new =? 0 then (false, h1)
        else (true, with_batch h rl fn new)
    end = (if decide (carve_batch 256 (rev (free_space_list h)) = None) then (false, h)
           else match carve_batch 256 (rev (free_space_list h)) with
                | None => (false, h)
                | Some (rl, fn, new) => (true, with_batch h rl fn new) end)) as Hcase.
  { destruct (carve_batch 256 (rev (free_space_list h))) as [[[rl fn] new]|] eqn:Ec; [|done].
    destruct (with_batch_ok h rl fn new Hh Ec) as [Hpos _]. simpl.
    by rewrite (proj2 (Z.eqb_neq new 0)) by lia. }
  assert (forall x, x = (if decide (carve_batch 256 (rev (free_space_list h)) = None)
      then (false, h)
      else match carve_batch 256 (rev (free_space_list h)) with
           | None => (false, h)
           | Some (rl, fn, new) => (true, with_batch h rl fn new) end) ->
    let '(ok, h') := x in pool_ok h h' /\ (ok = true -> (2 <= length (free_node_list h'))%nat) /\
    (ok = false -> Forall (fun n => nsize n < 256) (free_space_list h))) as Hres.
  { intros x ->. destruct (carve_batch 256 (rev (free_space_list h))) as [[[rl fn] new]|] eqn:Ec.
    - simpl. split_and!; [by apply with_batch_ok| |done].
      intros _. rewrite length_app, batch_length. lia.
    - simpl. split_and!; [apply pool_ok_refl|done|]. intros _.
      apply carve_batch_none, Forall_rev in Ec. by rewrite rev_involutive in Ec. }
  destruct (free_node_list h) as [|n1 [|n2 fn2]] eqn:Efn.
  - apply Hres. rewrite <- Hcase. by rewrite <- Efn.
  - apply Hres. rewrite <- Hcase. by rewrite <- Efn.
  - split_and!; [apply pool_ok_refl| |done]. intros _. rewrite Efn. simpl. lia.
Qed.

(** ** Placing a block *)

Lemma al64_add a b : al64 a -> al64 b -> al64 (a + b).
Proof. intros Ha Hb. rewrite Z.add_mod, Ha, Hb by lia. done. Qed.

Lemma al64_sub a b : al64 a -> al64 b -> al64 (a - b).
Proof. intros Ha Hb. rewrite Zminus_mod, Ha, Hb. done. Qed.

#[local] Hint Resolve al64_add al64_sub : sbi.

Lemma pow2_al64 k z : 6 <= k -> z mod 2 ^ k = 0 -> al64 z.
Proof.
  intros Hk Hz. change 64 with (2 ^ 6). rewrite (pow2_split 6 k) in Hz by lia.
  pose proof (pow2_pos (k - 6) ltac:(lia)).
  rewrite Z.mul_comm in Hz. rewrite Z.rem_mul_r in Hz by lia.
  pose proof (Z.mod_pos_bound z (2 ^ 6) ltac:(lia)).
  pose proof (Z.mod_pos_bound (z / 2 ^ 6) (2 ^ (k - 6)) ltac:(lia)). lia.
Qed.

(** The padding in front of an aligned block. *)
Lemma pad_spec k a : 0 <= k < 64 -> 0 < a < 2 ^ 64 ->
  let pad := u64 (ROUNDUP a (2 ^ k) - a) in
  0 <= pad < 2 ^ k /\ (a + pad) mod 2 ^ k = 0.
Proof.
  intros Hk Ha. unfold ROUNDUP. autorewrite with wordz. rewrite (wrap_id 64 (a - 1)) by lia.
  pose proof (pow2_pos k ltac:(lia)). pose proof (pow2_lt k 64 ltac:(lia) ltac:(lia)).
  pose proof (Z.div_mod (a - 1) (2 ^ k) ltac:(lia)).
  pose proof (Z.mod_pos_bound (a - 1) (2 ^ k) ltac:(lia)).
  cbv zeta. rewrite wrap_id by lia. split; [lia|].
  replace (a + (((a - 1) / 2 ^ k + 1) * 2 ^ k - a)) with (((a - 1) / 2 ^ k + 1) * 2 ^ k) by lia.
  apply Z.mod_mul. lia.
Qed.

Lemma first_fit_spec align size l pre np pad post :
  first_fit align size l = Some (pre, np, pad, post) ->
  l = pre ++ np :: post /\ pad = u64 (ROUNDUP (naddr np) align - naddr np) /\
  u64 (size + pad) <= nsize np.
Proof.
  revert pre. induction l as [|n l IH]; intros pre H; [done|]. cbn [first_fit] in H.
  destruct (u64 (size + _) <=? nsize n) eqn:E.
  - simplify_eq. split_and!; [done|done|lia].
  - destruct (first_fit align size l) as [[[[pre' np'] pad'] post']|] eqn:Ef; [|done].
    simpl in H. simplify_eq. destruct (IH pre' eq_refl) as (-> & -> & ?). done.
Qed.

Lemma first_fit_none align size l :
  first_fit align size l = None ->
  Forall (fun n => nsize n < u64 (size + u64 (ROUNDUP (naddr n) align - naddr n))) l.
Proof.
  induction l as [|n l IH]; intros H; [constructor|]. cbn [first_fit] in H.
  destruct (u64 (size + _) <=? nsize n) eqn:E; [done|]. constructor; [lia|].
  apply IH. by destruct (first_fit align size l) as [[[[]]]|].
Qed.

(** What placing a block achieves. *)
Record placed (h : sbi_heap_control) (a size : Z) (h' : sbi_heap_control) : Prop := {
  pl_same : heap_same h h';
  pl_inv : heap_inv h';
  pl_lock : hlock h' = hlock h;
  pl_used : exists np, used_space_list h' = used_space_list h ++ [np] /\
    naddr np = a /\ nsize np = size
}.

Lemma placed_intro h fn pre mid post np np' :
  heap_inv h -> free_space_list h = pre ++ np :: post ->
  (forall f, additive f ->
     stores_m f (init_node h) fn + nodes_m f (init_node h) (mid ++ [np']) =
     stores_m f (init_node h) (free_node_list h) + nodes_m f (init_node h) [np]) ->
  stores_m bytes (init_node h) (fn ++ (nid <$> (mid ++ [np']))) =
    stores_m bytes (init_node h) (free_node_list h ++ [nid np]) ->
  Forall (node_ok h) (mid ++ [np']) ->
  placed h (naddr np') (nsize np')
    (set_lists h fn (pre ++ mid ++ post) (used_space_list h ++ [np'])).
Proof.
  intros Hh Hfs Hm Hn Hok. pose proof (hv_free h Hh) as Hfree. rewrite Hfs in Hfree.
  apply Forall_app in Hfree as [Hpre Hfree]. apply Forall_cons in Hfree as [Hnp Hpost].
  apply Forall_app in Hok as [Hmid Hnp'].
  assert (heap_same h (set_lists h fn (pre ++ mid ++ post) (used_space_list h ++ [np']))) as Hs.
  { split; try done. intros f Hf. unfold heap_m. simpl. rewrite Hfs. specialize (Hm f Hf).
    rewrite !nodes_m_app in *. cbn [nodes_m] in *. lia. }
  split; [done| |done|by exists np'].
  apply (heap_inv_step h); try done.
  - simpl. by rewrite !Forall_app.
  - simpl. apply Forall_app. split; [apply (hv_used h Hh)|done].
  - unfold all_nids. simpl. rewrite Hfs. rewrite Z.sub_diag.
    rewrite !fmap_app, !stores_m_app in *. cbn [fmap list_fmap stores_m] in *. lia.
Qed.

Lemma place_block_spec h size pre np pad post :
  heap_inv h -> (2 <= length (free_node_list h))%nat ->
  free_space_list h = pre ++ np :: post -> 0 <= pad -> 0 < size -> pad + size <= nsize np ->
  al64 pad -> al64 size ->
  let '(ret, h') := place_block h size pre np pad post in
  ret = naddr np + pad /\ placed h (naddr np + pad) size h'.
Proof.
  intros Hh Hfn Hfs Hpad Hsz Hfit Hap Has.
  destruct (free_node_list h) as [|n1 [|n2 fn]] eqn:Efn; [simpl in *; lia..|].
  assert (node_ok h np) as Hnp.
  { pose proof (hv_free h Hh) as Hfree. rewrite Hfs in Hfree.
    by apply Forall_app in Hfree as [_ [Hnp _]%Forall_cons]. }
  pose proof Hnp as [Hlo Hhi Hpos Hna Hns]. pose proof (hv_base h Hh). pose proof (hv_top h Hh).
  assert (forall f a p q, additive f -> 0 <= p -> 0 <= q -> f a (p + q) = f a p + f (a + p) q) as Hadd
    by (intros f ? ? ? Hf; apply Hf).
  assert (forall f, additive f -> f (naddr np) (nsize np) =
    f (naddr np) pad + f (naddr np + pad) size +
    f (naddr np + pad + size) (nsize np - pad - size)) as Hsplit.
  { intros f Hf. replace (nsize np) with (pad + (size + (nsize np - pad - size))) at 1 by lia.
    rewrite !Hadd by (done || lia). lia. }
  unfold place_block. rewrite Efn. unfold truthy.
  destruct (negb (pad =? 0)) eqn:Ep; cbn [take_node nsize naddr nid];
    rewrite ?(wrap_id 64 (naddr np + pad)), ?(wrap_id 64 (nsize np - pad)) by lia.
  - destruct (size <? nsize np - pad) eqn:Es; cbn [take_node nsize naddr nid];
      (split; [done|]).
    + rewrite (wrap_id 64 (naddr np + pad + size)), (wrap_id 64 (nsize np - pad - size)) by lia.
      apply (placed_intro h fn pre [mkNode n1 (naddr np) pad;
        mkNode n2 (naddr np + pad + size) (nsize np - pad - size)] post np
        (mkNode (nid np) (naddr np + pad) size)); try done; rewrite ?Efn.
      * intros f Hf. cbn [stores_m nodes_m app naddr nsize nid]. rewrite (Hsplit f Hf). lia.
      * cbn [stores_m fmap list_fmap app nid]. rewrite !stores_m_app. cbn [stores_m]. lia.
      * repeat constructor; simpl; auto with sbi lia.
    + replace size with (nsize np - pad) by lia.
      apply (placed_intro h (n2 :: fn) pre [mkNode n1 (naddr np) pad] post np
        (mkNode (nid np) (naddr np + pad) (nsize np - pad))); try done; rewrite ?Efn.
      * intros f Hf. cbn [stores_m nodes_m app naddr nsize nid]. rewrite (Hsplit f Hf).
        replace (nsize np - pad - size) with 0 by lia. rewrite (additive_0 f _ Hf).
        replace (nsize np - pad) with size by lia. lia.
      * cbn [stores_m fmap list_fmap app nid]. rewrite !stores_m_app. cbn [stores_m]. lia.
      * repeat constructor; simpl; auto with sbi lia.
  - assert (pad = 0) as -> by lia. rewrite !Z.add_0_r in *. rewrite Z.sub_0_r in *.
    destruct (size <? nsize np) eqn:Es; cbn [take_node nsize naddr nid]; (split; [done|]).
    + rewrite (wrap_id 64 (naddr np + size)), (wrap_id 64 (nsize np - size)) by lia.
      apply (placed_intro h (n2 :: fn) pre [mkNode n1 (naddr np + size) (nsize np - size)] post np
        (mkNode (nid np) (naddr np) size)); try done; rewrite ?Efn.
      * intros f Hf. cbn [stores_m nodes_m app naddr nsize nid]. rewrite (Hsplit f Hf).
        rewrite (additive_0 f _ Hf). lia.
      * cbn [stores_m fmap list_fmap app nid]. rewrite !stores_m_app. cbn [stores_m]. lia.
      * repeat constructor; simpl; auto with sbi lia.
    + replace size with (nsize np) by lia.
      apply (placed_intro h (n1 :: n2 :: fn) pre [] post np np); rewrite ?Efn; try done.
      by apply Forall_singleton.
Qed.

(** ** Allocation and release *)

(** A free block of [h] that holds [a .. a+n). *)
Definition was_free (h : sbi_heap_control) (a n : Z) : Prop :=
  exists b, b ∈ free_space_list h /\ naddr b <= a /\ a + n <= naddr b + nsize b.

Record alloc_ok (h : sbi_heap_control) (align size ret : Z) (h' : sbi_heap_control) : Prop := {
  ao_nonzero : ret <> 0;
  ao_align : ret mod align = 0;
  ao_used : exists np, used_space_list h' = used_space_list h ++ [np] /\
    naddr np = ret /\ nsize np = align_up align size;
  ao_frame : hbase h' = hbase h /\ hsize h' = hsize h /\ init_node h' = init_node h
}.

Lemma set_hlock_inv h l : heap_inv h -> heap_inv (set_hlock l h).
Proof.
  intros Hh. apply (heap_inv_step h); try done.
  - apply (hv_free h Hh).
  - apply (hv_used h Hh).
  - unfold all_nids. simpl. lia.
Qed.

Lemma align_up_top k size : 0 <= k <= 64 -> 0 <= size -> size + (2 ^ k - 1) < 2 ^ 64 ->
  align_up (2 ^ k) size + 2 ^ k <= 2 ^ 64.
Proof.
  intros Hk Hs Hov. pose proof (pow2_pos k ltac:(lia)). unfold align_up.
  assert ((size + (2 ^ k - 1)) / 2 ^ k < 2 ^ (64 - k)) as Hd.
  { apply Z.div_lt_upper_bound; [lia|]. rewrite Z.mul_comm, <- pow2_split by lia. done. }
  rewrite (pow2_split k 64) by lia. nia.
Qed.

(** The bytes a block loses to alignment. *)
Definition padding (align : Z) (n : heap_node) : Z := u64 (ROUNDUP (naddr n) align - naddr n).

(** A request is served from the first free block it fits in, or refused
    because there is none (or no room for bookkeeping nodes). *)
Lemma alloc_with_align_spec h k size :
  heap_inv h -> lock_free (hlock h) -> 6 <= k < 64 -> 0 < size ->
  size + (2 ^ k - 1) < 2 ^ 64 ->
  exists ret h', alloc_with_align h (2 ^ k) size = Some (ret, h') /\
    heap_inv h' /\ lock_free (hlock h') /\
    (alloc_ok h (2 ^ k) size ret h' \/
     (ret = 0 /\ used_space_list h' = used_space_list h /\
      (Forall (fun n => nsize n < 256) (free_space_list h) \/
       Forall (fun n => nsize n < align_up (2 ^ k) size + padding (2 ^ k) n)
         (free_space_list h')))).
Proof.
  intros Hh Hl Hk Hsz Hov. pose proof (pow2_pos k ltac:(lia)) as Hp.
  unfold alloc_with_align. rewrite (proj2 (Z.eqb_neq size 0)) by lia.
  rewrite round_mask by lia. set (sz := align_up (2 ^ k) size).
  destruct (align_up_bounds (2 ^ k) size Hp) as [Hb Hm]. fold sz in Hb, Hm.
  rewrite spin_lock_free by done. cbn [mbind option_bind].
  set (h0 := set_hlock (lock_taken (hlock h)) h).
  pose proof (alloc_nodes_spec h0 (set_hlock_inv _ _ Hh)) as Hpool.
  destruct (alloc_nodes h0) as [ok h1]. destruct Hpool as ([Hsame Hinv Hused Hlock] & Htwo & Hno).
  specialize (Hinv (set_hlock_inv _ _ Hh)).
  assert (forall h2, hlock h2 = lock_taken (hlock h) -> lock_free (spin_unlock (hlock h2))) as Hun.
  { intros h2 ->. by apply spin_unlock_taken. }
  destruct ok; cbn [negb]; [|].
  2:{ do 2 eexists. split; [reflexivity|]. split_and!; [by apply set_hlock_inv|by apply Hun|].
      right. split_and!; [done|exact Hused|left; by apply Hno]. }
  destruct (first_fit (2 ^ k) sz (free_space_list h1)) as [[[[pre np] pad] post]|] eqn:Ef.
  2:{ do 2 eexists. split; [reflexivity|]. split_and!; [by apply set_hlock_inv|by apply Hun|].
      right. split_and!; [done|exact Hused|right]. simpl.
      apply first_fit_none in Ef. eapply Forall_impl; [exact Ef|]. intros n Hn. simpl in Hn.
      fold (padding (2 ^ k) n) in Hn. unfold padding in *. pose proof (wrap_range 64
        (ROUNDUP (naddr n) (2 ^ k) - naddr n) ltac:(lia)).
      eapply Z.lt_le_trans; [exact Hn|]. apply Z.mod_le; lia. }
  apply first_fit_spec in Ef as (Efs & Epad & Hfit).
  assert (node_ok h1 np) as Hnp.
  { pose proof (hv_free h1 Hinv) as Hfree. rewrite Efs in Hfree.
    by apply Forall_app in Hfree as [_ [Hnp _]%Forall_cons]. }
  pose proof Hnp as [Hlo Hhi Hpos Hna Hns]. pose proof (hv_base h1 Hinv). pose proof (hv_top h1 Hinv).
  destruct (pad_spec k (naddr np) ltac:(lia) ltac:(lia)) as [Hpad Hpal]. rewrite <- Epad in Hpad, Hpal.
  pose proof (align_up_top k size ltac:(lia) ltac:(lia) Hov) as Htop. fold sz in Htop.
  rewrite wrap_id in Hfit by lia.
  pose proof (place_block_spec h1 sz pre np pad post Hinv (Htwo eq_refl) Efs ltac:(lia) ltac:(lia)
    ltac:(lia)) as Hpl.
  destruct (place_block h1 sz pre np pad post) as [ret h2].
  destruct Hpl as [-> Hplaced].
  { replace pad with ((naddr np + pad) - naddr np) by lia.
    apply al64_sub; [by apply (pow2_al64 k); [lia|]|done]. }
  { by apply (pow2_al64 k); [lia|]. }
  pose proof (pl_lock _ _ _ _ Hplaced) as Hl2. rewrite Hlock in Hl2.
  do 2 eexists. split; [reflexivity|].
  split_and!; [apply set_hlock_inv, (pl_inv _ _ _ _ Hplaced)|by apply Hun|].
  left. destruct Hplaced as [[Eb Es Ei _] _ _ (n & Hn & ? & ?)]. destruct Hsame as [Eb0 Es0 Ei0 _].
  unfold h0 in *. simpl in *. split; [lia|done| |split_and!; simpl; congruence].
  exists n. split_and!; [|done|done]. simpl. rewrite Hn. by rewrite Hused.
Qed.

Lemma find_used_spec h ptr l np us :
  heap_inv h -> Forall (node_ok h) l -> find_used ptr l = Some (np, us) ->
  naddr np <= ptr < naddr np + nsize np /\
  exists l1 l2, l = l1 ++ np :: l2 /\ us = l1 ++ l2.
Proof.
  intros Hh. pose proof (hv_base h Hh). pose proof (hv_top h Hh).
  revert us. induction l as [|n l IH]; intros us Hl Hf; [done|].
  apply Forall_cons in Hl as [[Hlo Hhi Hpos _ _] Hl]. cbn [find_used] in Hf.
  rewrite wrap_id in Hf by lia. destruct ((naddr n <=? ptr) && _) eqn:E.
  - simplify_eq. split; [lia|]. by exists [], us.
  - destruct (find_used ptr l) as [[np' us']|] eqn:Ef; [|done]. simpl in Hf. simplify_eq.
    destruct (IH us' Hl eq_refl) as (Hr & l1 & l2 & -> & ->). split; [done|].
    by exists (n :: l1), l2.
Qed.

Lemma find_used_none h ptr l :
  heap_inv h -> Forall (node_ok h) l -> find_used ptr l = None ->
  Forall (fun n => ~ (naddr n <= ptr < naddr n + nsize n)) l.
Proof.
  intros Hh. pose proof (hv_base h Hh). pose proof (hv_top h Hh).
  induction l as [|n l IH]; intros Hl Hf; [constructor|].
  apply Forall_cons in Hl as [[Hlo Hhi Hpos _ _] Hl]. cbn [find_used] in Hf.
  rewrite wrap_id in Hf by lia. destruct ((naddr n <=? ptr) && _) eqn:E; [done|].
  constructor; [lia|]. apply IH; [done|]. by destruct (find_used ptr l) as [[]|].
Qed.

Lemma node_ok_merge h a b n :
  node_ok h a -> node_ok h b -> naddr a + nsize a = naddr b ->
  node_ok h (mkNode n (naddr a) (nsize a + nsize b)).
Proof. intros [] [] E. split; simpl; auto with sbi lia. Qed.

Lemma insert_free_spec h np l l' fn :
  heap_inv h -> node_ok h np -> Forall (node_ok h) l -> insert_free np l = Some (l', fn) ->
  Forall (node_ok h) l' /\
  stores_m bytes (init_node h) (fn ++ (nid <$> l')) =
    stores_m bytes (init_node h) (nid <$> (np :: l)) /\
  forall f, additive f ->
    stores_m f (init_node h) fn + nodes_m f (init_node h) l' =
    nodes_m f (init_node h) (np :: l).
Proof.
  intros Hh Hnp. pose proof (hv_base h Hh). pose proof (hv_top h Hh).
  pose proof Hnp as [Nlo Nhi Npos _ _].
  revert l' fn. induction l as [|n l IH]; intros l' fn Hl Hi; [done|].
  apply Forall_cons in Hl as [Hn Hl]. pose proof Hn as [Hlo Hhi Hpos _ _].
  cbn [insert_free] in Hi. rewrite (wrap_id 64 (naddr np + nsize np)) in Hi by lia.
  rewrite (wrap_id 64 (naddr n + nsize n)) in Hi by lia.
  destruct (naddr np + nsize np =? naddr n) eqn:E1;
    [|destruct (naddr np =? naddr n + nsize n) eqn:E2;
      [|destruct (naddr n + nsize n <? naddr np) eqn:E3]]; bool_to_prop.
  - rewrite (wrap_id 64 (nsize n + nsize np)) in Hi by lia. simplify_eq. split_and!.
    + constructor; [|done]. rewrite Z.add_comm. by apply node_ok_merge.
    + cbn [fmap list_fmap app stores_m nid]. lia.
    + intros f Hf. cbn [nodes_m stores_m naddr nsize nid].
      rewrite (Z.add_comm (nsize n)), Hf, E1 by lia. lia.
  - rewrite (wrap_id 64 (nsize n + nsize np)) in Hi by lia. simplify_eq. split_and!.
    + constructor; [|done]. by apply node_ok_merge.
    + cbn [fmap list_fmap app stores_m nid]. lia.
    + intros f Hf. cbn [nodes_m stores_m naddr nsize nid]. rewrite Hf, E2 by lia. lia.
  - simplify_eq. split_and!; [by rewrite !Forall_cons| |].
    + cbn [fmap list_fmap app stores_m nid]. lia.
    + intros f Hf. cbn [nodes_m stores_m]. lia.
  - destruct (insert_free np l) as [[l'' fn']|] eqn:Ei; [|done]. simpl in Hi. simplify_eq.
    destruct (IH _ _ Hl eq_refl) as (H1 & H2 & H3). split_and!; [by constructor| |].
    + rewrite !stores_m_app in *. cbn [fmap list_fmap stores_m] in *. lia.
    + intros f Hf. specialize (H3 f Hf). cbn [nodes_m] in *. lia.
Qed.

(** Releasing a pointer into a live block. *)
Lemma release_spec h np l1 l2 fs fn :
  heap_inv h -> used_space_list h = l1 ++ np :: l2 ->
  Forall (node_ok h) fs ->
  stores_m bytes (init_node h) (fn ++ (nid <$> fs)) =
    stores_m bytes (init_node h) (nid <$> (np :: free_space_list h)) ->
  (forall f, additive f -> stores_m f (init_node h) fn + nodes_m f (init_node h) fs =
     nodes_m f (init_node h) (np :: free_space_list h)) ->
  heap_inv (set_lists h (free_node_list h ++ fn) fs (l1 ++ l2)).
Proof.
  intros Hh Hu Hfs Hst Hm. apply (heap_inv_step h); try done.
  - split; try done. intros f Hf. specialize (Hm f Hf). unfold heap_m. simpl.
    rewrite Hu, !stores_m_app, !nodes_m_app. cbn [nodes_m] in *. lia.
  - simpl. pose proof (hv_used h Hh) as Hused. rewrite Hu in Hused.
    apply Forall_app in Hused as [? [_ ?]%Forall_cons]. by apply Forall_app.
  - unfold all_nids. simpl. rewrite Z.sub_diag, Hu.
    rewrite !fmap_app, !stores_m_app in *. cbn [fmap list_fmap stores_m] in *. lia.
Qed.

Lemma sbi_free_from_spec h ptr :
  heap_inv h -> lock_free (hlock h) -> ptr <> 0 ->
  exists h', sbi_free_from h ptr = Some h' /\ heap_inv h' /\ lock_free (hlock h') /\
    resv h' = resv h /\ hsize h' = hsize h /\ hbase h' = hbase h /\
    init_node h' = init_node h /\
    ((exists l1 np l2, used_space_list h = l1 ++ np :: l2 /\ used_space_list h' = l1 ++ l2 /\
        naddr np <= ptr < naddr np + nsize np) \/
     (used_space_list h' = used_space_list h /\
      Forall (fun n => ~ (naddr n <= ptr < naddr n + nsize n)) (used_space_list h))).
Proof.
  intros Hh Hl Hp. unfold sbi_free_from. rewrite (proj2 (Z.eqb_neq ptr 0)) by done.
  rewrite spin_lock_free by done. cbn [mbind option_bind].
  pose proof (hv_used h Hh) as Hused. pose proof (hv_free h Hh) as Hfree.
  set (h0 := set_hlock (lock_taken (hlock h)) h).
  pose proof (set_hlock_inv h (lock_taken (hlock h)) Hh : heap_inv h0) as Hh0.
  change (used_space_list h0) with (used_space_list h).
  change (free_space_list h0) with (free_space_list h).
  destruct (find_used ptr (used_space_list h)) as [[np us]|] eqn:Ef.
  - destruct (find_used_spec h ptr _ np us Hh Hused Ef) as (Hr & l1 & l2 & Eu & ->).
    assert (node_ok h np) as Hnp.
    { rewrite Eu in Hused. by apply Forall_app in Hused as [_ [? _]%Forall_cons]. }
    assert (forall h', heap_inv h' -> hlock h' = lock_taken (hlock h) -> resv h' = resv h ->
      hsize h' = hsize h -> hbase h' = hbase h -> init_node h' = init_node h ->
      used_space_list h' = l1 ++ l2 ->
      exists h'', Some (set_hlock (spin_unlock (hlock h')) h') = Some h'' /\ heap_inv h'' /\
        lock_free (hlock h'') /\ resv h'' = resv h /\ hsize h'' = hsize h /\
        hbase h'' = hbase h /\ init_node h'' = init_node h /\
        ((exists l1 np l2, used_space_list h = l1 ++ np :: l2 /\ used_space_list h'' = l1 ++ l2 /\
            naddr np <= ptr < naddr np + nsize np) \/
         (used_space_list h'' = used_space_list h /\
          Forall (fun n => ~ (naddr n <= ptr < naddr n + nsize n)) (used_space_list h)))) as Hfin.
    { intros h' Hi El Er Es Eb En Eus. eexists. split; [reflexivity|]. rewrite El.
      split_and!; try done; [by apply set_hlock_inv|by apply spin_unlock_taken|].
      left. by exists l1, np, l2. }
    destruct (insert_free np (free_space_list h)) as [[fs fn]|] eqn:Ei; apply Hfin; try done.
    + destruct (insert_free_spec h np _ fs fn Hh Hnp Hfree Ei) as (H1 & H2 & H3).
      by apply (release_spec h0 np).
    + change (free_node_list h0) with (free_node_list h).
      rewrite <- (app_nil_r (free_node_list h)). apply (release_spec h0 np); try done.
      * apply Forall_app. split; [done|by apply Forall_singleton].
      * change (free_space_list h0) with (free_space_list h). cbn [app].
        rewrite fmap_app, stores_m_app. cbn [fmap list_fmap stores_m]. lia.
      * intros f Hf. change (free_space_list h0) with (free_space_list h).
        rewrite nodes_m_app. cbn [nodes_m stores_m]. lia.
  - eexists. split; [reflexivity|]. simpl.
    split_and!; try done; [by apply set_hlock_inv|by apply spin_unlock_taken|].
    right. split; [done|by apply (find_used_none h)].
Qed.

(** ** Disjointness from the tiling *)

Fixpoint blocks_m (f : Z -> Z -> Z) (l : list heap_node) : Z :=
  match l with [] => 0 | n :: l' => f (naddr n) (nsize n) + blocks_m f l' end.

Lemma heap_m_split f h :
  heap_m f h = blocks_m f (free_space_list h) + blocks_m f (used_space_list h) +
    stores_m f (init_node h) (all_nids h).
Proof.
  unfold heap_m, all_nids. rewrite !nodes_m_split, !stores_m_app.
  assert (forall l, foldr (fun n acc => f (naddr n) (nsize n) + acc) 0 l = blocks_m f l) as H
    by (induction l; simpl; lia). rewrite !H. lia.
Qed.

Section NonNegative.
Context (f : Z -> Z -> Z) (Hf : forall a n, 0 <= f a n) (init : Z).

Lemma blocks_m_nonneg l : 0 <= blocks_m f l.
Proof using Hf.
  induction l as [|n l IH]; [done|]. cbn [blocks_m]. pose proof (Hf (naddr n) (nsize n)). lia.
Qed.

Lemma stores_m_nonneg l : 0 <= stores_m f init l.
Proof using Hf.
  induction l as [|n l IH]; [done|]. cbn [stores_m]. unfold store_m.
  pose proof (Hf n sizeof_heap_node). case_bool; lia.
Qed.

Lemma blocks_m_in n l : n ∈ l -> f (naddr n) (nsize n) <= blocks_m f l.
Proof using Hf.
  induction 1 as [n l|n m l _ IH]; cbn [blocks_m].
  - pose proof (blocks_m_nonneg l). lia.
  - pose proof (Hf (naddr m) (nsize m)). lia.
Qed.

Lemma stores_m_in n l : n ∈ l -> store_m f init n <= stores_m f init l.
Proof using Hf.
  induction 1 as [n l|n m l _ IH]; cbn [stores_m].
  - pose proof (stores_m_nonneg l). lia.
  - unfold store_m in *. pose proof (Hf m sizeof_heap_node). repeat case_bool; lia.
Qed.

Lemma blocks_m_two l i j a b :
  (i < j)%nat -> l !! i = Some a -> l !! j = Some b ->
  f (naddr a) (nsize a) + f (naddr b) (nsize b) <= blocks_m f l.
Proof using Hf.
  revert i j. induction l as [|n l IH]; intros i j Hij Hi Hj; [done|].
  destruct j as [|j]; [lia|]. destruct i as [|i]; cbn [blocks_m lookup list_lookup] in *.
  - simplify_eq. apply list_elem_of_lookup_2, blocks_m_in in Hj. lia.
  - specialize (IH i j ltac:(lia) Hi Hj). pose proof (Hf (naddr n) (nsize n)). lia.
Qed.
End NonNegative.

Lemma covers_nonneg x a n : 0 <= covers x a n.
Proof. unfold covers. destruct (_ && _); simpl; lia. Qed.

Definition disjoint (a n b m : Z) : Prop := a + n <= b \/ b + m <= a.

(** Two blocks that no address is in twice. *)
Lemma covers_disjoint a n b m :
  0 < n -> 0 < m -> (forall x, covers x a n + covers x b m <= 1) -> disjoint a n b m.
Proof.
  intros Hn Hm H. destruct (decide (disjoint a n b m)) as [|Hd]; [done|]. exfalso.
  unfold disjoint in Hd. specialize (H (Z.max a b)). unfold covers in H.
  rewrite !(proj2 (andb_true_iff _ _)) in H by lia. simpl in H. lia.
Qed.

#[export] Instance disjoint_dec a n b m : Decision (disjoint a n b m).
Proof. unfold disjoint. apply _. Defined.

(** No byte of the heap belongs to two blocks or to a block and a node. *)
Record heap_safe (h : sbi_heap_control) : Prop := {
  sf_used : forall i j a b, i <> j -> used_space_list h !! i = Some a ->
    used_space_list h !! j = Some b -> disjoint (naddr a) (nsize a) (naddr b) (nsize b);
  sf_free : forall a b, a ∈ used_space_list h -> b ∈ free_space_list h ->
    disjoint (naddr a) (nsize a) (naddr b) (nsize b);
  sf_node : forall a n, a ∈ used_space_list h -> n ∈ all_nids h -> n <> init_node h ->
    disjoint (naddr a) (nsize a) n sizeof_heap_node;
  sf_inside : forall a, a ∈ used_space_list h ->
    hbase h <= naddr a /\ naddr a + nsize a <= hbase h + hsize h /\ 0 < nsize a;
  sf_count : block_bytes (free_space_list h) + block_bytes (used_space_list h) + resv h = hsize h
}.

Lemma heap_inv_safe h : heap_inv h -> heap_safe h.
Proof.
  intros Hh.
  assert (forall x, blocks_m (covers x) (free_space_list h) + blocks_m (covers x) (used_space_list h) +
    stores_m (covers x) (init_node h) (all_nids h) <= 1) as Hx.
  { intros x. rewrite <- heap_m_split, (hv_cover h Hh). unfold covers. destruct (_ && _); simpl; lia. }
  assert (forall x, 0 <= blocks_m (covers x) (free_space_list h) /\
    0 <= blocks_m (covers x) (used_space_list h) /\
    0 <= stores_m (covers x) (init_node h) (all_nids h)) as Hnn.
  { intros x. split_and!; [apply blocks_m_nonneg|apply blocks_m_nonneg|apply stores_m_nonneg];
      intros; apply covers_nonneg. }
  assert (forall a, a ∈ used_space_list h -> node_ok h a) as Hu
    by (apply Forall_forall, (hv_used h Hh)).
  assert (forall a, a ∈ free_space_list h -> node_ok h a) as Hf
    by (apply Forall_forall, (hv_free h Hh)).
  split.
  - intros i j a b Hij Hi Hj.
    apply covers_disjoint; [apply (no_pos _ _ _ (Hu a ltac:(by eapply list_elem_of_lookup_2)))|
      apply (no_pos _ _ _ (Hu b ltac:(by eapply list_elem_of_lookup_2)))|].
    intros x. specialize (Hx x). specialize (Hnn x).
    destruct (decide (i < j)%nat).
    + pose proof (blocks_m_two (covers x) (covers_nonneg x) _ i j a b l Hi Hj). lia.
    + pose proof (blocks_m_two (covers x) (covers_nonneg x) _ j i b a ltac:(lia) Hj Hi). lia.
  - intros a b Ha Hb. apply covers_disjoint; [apply (Hu a Ha)|apply (Hf b Hb)|].
    intros x. specialize (Hx x). specialize (Hnn x).
    pose proof (blocks_m_in (covers x) (covers_nonneg x) a _ Ha).
    pose proof (blocks_m_in (covers x) (covers_nonneg x) b _ Hb). lia.
  - intros a n Ha Hn Hne. apply covers_disjoint; [apply (Hu a Ha)|done|].
    intros x. specialize (Hx x). specialize (Hnn x).
    pose proof (blocks_m_in (covers x) (covers_nonneg x) a _ Ha).
    pose proof (stores_m_in (covers x) (covers_nonneg x) (init_node h) n _ Hn) as Hs.
    unfold store_m in Hs. rewrite (proj2 (Z.eqb_neq n (init_node h))) in Hs by done. lia.
  - intros a Ha. destruct (Hu a Ha). done.
  - apply (heap_accounting h Hh).
Qed.

(** ** Sequences of calls *)

Inductive heap_op : Type :=
| HMalloc (size : Z)
| HAligned (alignment size : Z)
| HFree (ptr : Z).

Definition heap_step (op : heap_op) (h : sbi_heap_control) : option (Z * sbi_heap_control) :=
  match op with
  | HMalloc size => sbi_malloc_from h size
  | HAligned alignment size => sbi_aligned_alloc_from h alignment size
  | HFree ptr => h ← sbi_free_from h ptr; Some (0, h)
  end.

Fixpoint heap_run (ops : list heap_op) (h : sbi_heap_control) : option (list Z * sbi_heap_control) :=
  match ops with
  | [] => Some ([], h)
  | op :: ops' => '(r, h) ← heap_step op h; '(rs, h) ← heap_run ops' h; Some (r :: rs, h)
  end.

(** Requests that do not overflow the size computation. *)
Definition heap_op_ok (op : heap_op) : Prop :=
  match op with
  | HMalloc size => 0 <= size < 2 ^ 63
  | HAligned alignment size => 0 <= alignment <= 2 ^ 62 /\ 0 <= size < 2 ^ 63
  | HFree _ => True
  end.

(** [x & (x - 1)] is zero only for powers of two. *)
Lemma land_pred_pow2 x : 0 < x -> Z.land x (x - 1) = 0 -> x = 2 ^ Z.log2 x.
Proof.
  intros Hx H0. destruct (Z.log2_spec x Hx) as [H1 H2]. pose proof (Z.log2_nonneg x).
  destruct (Z.eq_dec x (2 ^ Z.log2 x)) as [|Hne]; [done|]. exfalso.
  assert (Z.log2 (x - 1) = Z.log2 x) as Hl by (apply Z.log2_unique; lia).
  pose proof (Z.land_spec x (x - 1) (Z.log2 x)) as Hb.
  rewrite H0, Z.testbit_0_l, Z.bit_log2 in Hb by done.
  rewrite <- Hl in Hb. rewrite Z.bit_log2 in Hb; [done|]. pose proof (pow2_pos (Z.log2 x)). lia.
Qed.

Definition heap_ok (h : sbi_heap_control) : Prop := heap_inv h /\ lock_free (hlock h).

Lemma heap_step_ok op h :
  heap_ok h -> heap_op_ok op -> exists r h', heap_step op h = Some (r, h') /\ heap_ok h'.
Proof.
  intros [Hh Hl] Hop. destruct op as [size|alignment size|ptr]; simpl in *.
  - destruct (decide (size = 0)) as [->|].
    + exists 0, h. done.
    + destruct (alloc_with_align_spec h 6 size Hh Hl ltac:(lia) ltac:(lia) ltac:(lia))
        as (r & h' & E & ? & ? & _). by exists r, h'.
  - unfold sbi_aligned_alloc_from.
    set (a := if alignment <? 64 then 64 else alignment).
    assert (64 <= a <= 2 ^ 62) as Ha by (unfold a; case_bool; lia).
    unfold truthy. destruct (Z.land a (a - 1) =? 0) eqn:Ea; cbn [negb]; [|by exists 0, h].
    destruct (size mod a =? 0) eqn:Em; cbn [negb]; [|by exists 0, h].
    destruct (decide (size = 0)) as [->|]; [by exists 0, h|]. bool_to_prop.
    apply land_pred_pow2 in Ea; [|lia].
    assert (6 <= Z.log2 a < 64) as Hk.
    { split; [by apply Z.log2_le_pow2; lia|apply Z.log2_lt_pow2; lia]. }
    rewrite Ea. destruct (alloc_with_align_spec h (Z.log2 a) size Hh Hl Hk ltac:(lia) ltac:(lia))
      as (r & h' & E & ? & ? & _). by exists r, h'.
  - destruct (decide (ptr = 0)) as [->|].
    + exists 0, h. done.
    + destruct (sbi_free_from_spec h ptr Hh Hl) as (h' & E & ? & ? & _); [done|].
      rewrite E. by exists 0, h'.
Qed.

Lemma heap_run_ok ops : forall h,
  heap_ok h -> Forall heap_op_ok ops -> exists rs h', heap_run ops h = Some (rs, h') /\ heap_ok h'.
Proof.
  induction ops as [|op ops IH]; intros h Hh Hops; [by exists [], h|].
  apply Forall_cons in Hops as [Hop Hops].
  destruct (heap_step_ok op h Hh Hop) as (r & h1 & E1 & Hh1).
  destruct (IH h1 Hh1 Hops) as (rs & h2 & E2 & Hh2).
  exists (r :: rs), h2. cbn [heap_run]. rewrite E1. cbn [mbind option_bind].
  rewrite E2. done.
Qed.

(** Where sbi_heap_init puts the heap. *)
Definition heap_area_ok (init base size : Z) : Prop :=
  0 < base /\ 0 < size /\ base + size < 2 ^ 64 /\ al64 base /\ al64 size /\
  ~ (base <= init < base + size).

Lemma heap_init_ok init base size :
  heap_area_ok init base size -> heap_ok (sbi_heap_init_new init base size).
Proof.
  intros (Hb & Hs & Ht & Hab & Has & Hi). split; [|apply lock_free_init].
  assert (forall f, heap_m f (sbi_heap_init_new init base size) = f base size) as Hm.
  { intros f. unfold heap_m, sbi_heap_init_new. cbn. unfold store_m. rewrite Z.eqb_refl. lia. }
  split; [simpl; lia..| | | | |].
  - apply Forall_singleton. split; simpl; done || lia.
  - constructor.
  - intros x. apply (Hm (covers x)).
  - apply (Hm bytes).
  - simpl. unfold store_m. by rewrite Z.eqb_refl.
Qed.

Lemma sum_sizes_spec h l : forall acc, Forall (node_ok h) l -> 0 <= acc ->
  acc + block_bytes l < 2 ^ 64 ->
  foldl (fun ret n => u64 (ret + nsize n)) acc l = acc + block_bytes l.
Proof.
  induction l as [|n l IH]; intros acc Hl Ha Hb; [unfold block_bytes; simpl; lia|].
  apply Forall_cons in Hl as [Hn Hl]. pose proof (no_pos _ _ _ Hn).
  pose proof (block_bytes_nonneg h l Hl). unfold block_bytes in *. simpl in *.
  rewrite wrap_id by lia. rewrite IH by (done || lia). lia.
Qed.

Lemma free_space_spec h : heap_ok h ->
  exists h', sbi_heap_free_space_from h = Some (block_bytes (free_space_list h), h') /\ heap_ok h'.
Proof.
  intros [Hh Hl]. unfold sbi_heap_free_space_from. rewrite spin_lock_free by done.
  cbn [mbind option_bind]. unfold sum_sizes.
  destruct (heap_accounting h Hh) as (Hacc & H1 & H2 & H3). pose proof (hv_top h Hh).
  pose proof (hv_base h Hh).
  rewrite (sum_sizes_spec h _ 0 (hv_free h Hh)) by lia. eexists. split; [reflexivity|].
  split; [by apply set_hlock_inv|by apply spin_unlock_taken].
Qed.

(** ** Properties *)

(** C9: for every sequence of allocations and releases (of valid, stale or
    wild pointers) on a fresh heap, no call blocks, live blocks never overlap
    each other, a free block or the allocator's own nodes, all of them lie
    inside the heap, and free, used and reserved bytes always add up to its
    size. *)
Theorem heap_blocks_never_overlap init base size ops :
  heap_area_ok init base size -> Forall heap_op_ok ops ->
  exists rs h, heap_run ops (sbi_heap_init_new init base size) = Some (rs, h) /\ heap_safe h.
Proof.
  intros Ha Hops. destruct (heap_run_ok ops _ (heap_init_ok _ _ _ Ha) Hops) as (rs & h & E & [Hh _]).
  exists rs, h. split; [done|by apply heap_inv_safe].
Qed.

Lemma heap_blocks_never_overlap_witness :
  exists rs h, heap_run [HMalloc 100; HAligned 4096 8192; HMalloc 64; HFree 0x80050000; HMalloc 30]
    (sbi_heap_init_new 0x80020000 0x80050000 0x20000) = Some (rs, h) /\ heap_safe h.
Proof.
  apply (heap_blocks_never_overlap 0x80020000 0x80050000 0x20000).
  - unfold heap_area_ok. split_and!; done || lia.
  - repeat apply Forall_cons_2; simpl; (apply Forall_nil_2 || lia || done).
Defined.

(** A successful sbi_malloc_from returns a non-NULL, 64-byte aligned
    address of a new live block of the rounded-up size; it fails only when no
    free block is large enough, or when the node pool is empty and no free
    block can hold another batch of nodes; a failing call leaves the live
    blocks alone. *)
Theorem malloc_correct h size :
  heap_ok h -> 0 < size < 2 ^ 63 ->
  exists ret h', sbi_malloc_from h size = Some (ret, h') /\ heap_ok h' /\
    (alloc_ok h 64 size ret h' \/
     (ret = 0 /\ used_space_list h' = used_space_list h /\
      (Forall (fun n => nsize n < 256) (free_space_list h) \/
       Forall (fun n => nsize n < align_up 64 size) (free_space_list h')))).
Proof.
  intros [Hh Hl] Hs. unfold sbi_malloc_from.
  destruct (alloc_with_align_spec h 6 size Hh Hl ltac:(lia) ltac:(lia) ltac:(lia))
    as (ret & h' & E & Hh' & Hl' & Hc).
  exists ret, h'. split_and!; [done|by split|].
  destruct Hc as [Hc|(-> & Hu & [Hc|Hc])]; [by left|right..]; split_and!; auto.
  right. pose proof (hv_free h' Hh') as Hf. pose proof (hv_base h' Hh'). pose proof (hv_top h' Hh').
  apply Forall_forall. intros n Hn. rewrite Forall_forall in Hc, Hf.
  specialize (Hc n Hn). destruct (Hf n Hn) as [Hlo Hhi Hp Ha _].
  destruct (pad_spec 6 (naddr n) ltac:(lia) ltac:(lia)) as [Hpad Hpal].
  fold (padding (2 ^ 6) n) in Hpad, Hpal. change (2 ^ 6) with 64 in *.
  rewrite Z.add_mod, Ha, Z.add_0_l, Zmod_mod, Z.mod_small in Hpal by lia. lia.
Qed.

Lemma malloc_correct_witness :
  exists ret h', sbi_malloc_from (sbi_heap_init_new 0x1000 0x10000 0x4000) 100 = Some (ret, h') /\
    heap_ok h'.
Proof.
  destruct (malloc_correct (sbi_heap_init_new 0x1000 0x10000 0x4000) 100)
    as (ret & h' & E & Hh & _).
  - apply heap_init_ok. unfold heap_area_ok. split_and!; done || lia.
  - lia.
  - exists ret, h'. split; [exact E|exact Hh].
Defined.

(** Releasing a pointer into a live block makes exactly that block
    free again: the other live blocks stay, the free space grows by its size,
    and a block of at most that size can be released twice without effect on
    the rest. *)
Theorem free_correct h l1 np l2 ptr :
  heap_ok h -> used_space_list h = l1 ++ np :: l2 ->
  naddr np <= ptr < naddr np + nsize np ->
  exists h', sbi_free_from h ptr = Some h' /\ heap_ok h' /\
    used_space_list h' = l1 ++ l2 /\
    block_bytes (free_space_list h') = block_bytes (free_space_list h) + nsize np /\
    exists h'', sbi_free_from h' ptr = Some h'' /\ used_space_list h'' = l1 ++ l2.
Proof.
  intros [Hh Hl] Hu Hp. pose proof (heap_inv_safe h Hh) as Hsafe.
  pose proof (hv_base h Hh) as Hbase.
  assert (np ∈ used_space_list h) as Hin by (rewrite Hu; set_solver).
  destruct (sf_inside h Hsafe np Hin) as (Hlo & _).
  assert (used_space_list h !! length l1 = Some np) as Hnp by (rewrite Hu; by apply list_lookup_middle).
  assert (forall n, n ∈ l1 ++ l2 -> ~ (naddr n <= ptr < naddr n + nsize n)) as Hother.
  { intros n Hn Hr. apply list_elem_of_lookup_1 in Hn as [i Hi].
    assert (exists j, j <> length l1 /\ used_space_list h !! j = Some n) as (j & Hj & Hjn).
    { destruct (decide (i < length l1)%nat).
      - exists i. rewrite Hu. rewrite lookup_app_l in * by done. split; [lia|done].
      - exists (S i). rewrite Hu. rewrite lookup_app_r in * by lia. split; [lia|].
        by replace (S i - length l1)%nat with (S (i - length l1)) by lia. }
    pose proof (sf_used h Hsafe j _ n np Hj Hjn Hnp) as Hd. unfold disjoint in Hd. lia. }
  destruct (sbi_free_from_spec h ptr Hh Hl ltac:(lia)) as
    (h' & E & Hh' & Hl' & Er & Es & _ & _ & [(m1 & mp & m2 & Em & Em' & Hmp)|[_ Hno]]).
  2:{ rewrite Forall_forall in Hno. by destruct (Hno np Hin). }
  assert (used_space_list h !! length m1 = Some mp) as Hmi by (rewrite Em; by apply list_lookup_middle).
  destruct (decide (length m1 = length l1)) as [Hlen|Hlen].
  2:{ pose proof (sf_used h Hsafe _ _ mp np Hlen Hmi Hnp) as Hd. unfold disjoint in Hd. lia. }
  rewrite Hu in Em. apply app_inj_1 in Em as [<- Em]; [|done]. injection Em as <- <-.
  exists h'. split_and!; [done|by split|done| |].
  - destruct (heap_accounting h Hh) as (Ha & _). destruct (heap_accounting h' Hh') as (Ha' & _).
    rewrite Em' in Ha'. rewrite Hu in Ha. rewrite !block_bytes_app in *.
    unfold block_bytes in Ha at 3. simpl in Ha. fold (block_bytes l2) in Ha. lia.
  - destruct (sbi_free_from_spec h' ptr Hh' Hl' ltac:(lia)) as
      (h'' & E'' & _ & _ & _ & _ & _ & _ & [(k1 & kp & k2 & Ek & _ & Hkp)|[Hsame _]]).
    + destruct (Hother kp); [|done]. rewrite <- Em', Ek. set_solver.
    + exists h''. by rewrite Hsame.
Qed.

Lemma free_correct_witness :
  exists h h', heap_ok h /\ sbi_free_from h 0x10040 = Some h' /\
    block_bytes (free_space_list h') = block_bytes (free_space_list h) + 128.
Proof.
  destruct (heap_step_ok (HMalloc 100) (sbi_heap_init_new 0x1000 0x10000 0x4000)) as
    (r & h & E & Hh).
  - apply heap_init_ok. unfold heap_area_ok. split_and!; done || lia.
  - simpl. lia.
  - vm_compute in E. simplify_eq. set (h := mkHeap _ _ _ _ _ _ _ _) in Hh |- *.
    destruct (free_correct h [] (mkNode 0x1000 0x10000 128) [] 0x10040 Hh) as
      (h' & E' & _ & _ & Hb & _); [reflexivity|simpl; lia|].
    exists h, h'. split; [exact Hh|]. split; [exact E'|exact Hb].
Defined.

(** sbi_heap_used_space_from is right for the global heap, and for
    another heap it is off by the difference of the two heaps' free space,
    because it subtracts the free space of the global one. *)
Theorem used_space_mixes_heaps global h :
  heap_ok global -> heap_ok h ->
  sbi_heap_used_space_from global global = Some (block_bytes (used_space_list global)) /\
  sbi_heap_used_space_from global h =
    Some (u64 (block_bytes (used_space_list h) +
               (block_bytes (free_space_list h) - block_bytes (free_space_list global)))).
Proof.
  intros Hg [Hh _]. destruct (free_space_spec global Hg) as (g' & E & _).
  destruct (heap_accounting h Hh) as (Ha & _).
  destruct (heap_accounting global (proj1 Hg)) as (Hag & H1 & H2 & H3).
  pose proof (hv_top global (proj1 Hg)). pose proof (hv_base global (proj1 Hg)).
  unfold sbi_heap_used_space_from. rewrite E. cbn [mbind option_bind]. split.
  - f_equal. rewrite wrap_id by lia. lia.
  - do 2 f_equal. lia.
Qed.

Lemma used_space_mixes_heaps_witness :
  let global := sbi_heap_init_new 0x1000 0x10000 0x4000 in
  let other := sbi_heap_init_new 0x2000 0x20000 0x1000 in
  block_bytes (used_space_list other) = 0 /\
  sbi_heap_used_space_from global other = Some (u64 (0 + (0x1000 - 0x4000))).
Proof.
  split; [reflexivity|].
  apply (used_space_mixes_heaps (sbi_heap_init_new 0x1000 0x10000 0x4000)
    (sbi_heap_init_new 0x2000 0x20000 0x1000));
  apply heap_init_ok; unfold heap_area_ok; split_and!; done || lia.
Defined.

(** A request within 63 bytes of the largest size wraps to zero in
    the rounding: it succeeds with a live block of no bytes, and the next
    allocation returns the same address. *)
Theorem malloc_size_wraps size :
  2 ^ 64 - 64 < size < 2 ^ 64 ->
  exists h1 h2 n, sbi_malloc_from (sbi_heap_init_new 0x1000 0x10000 0x4000) size = Some (0x10000, h1) /\
    used_space_list h1 = [mkNode n 0x10000 0] /\
    sbi_malloc_from h1 64 = Some (0x10000, h2).
Proof.
  intros Hs. unfold sbi_malloc_from at 1, alloc_with_align.
  rewrite (proj2 (Z.eqb_neq size 0)) by lia. change (HEAP_ALLOC_ALIGN - 1) with (2 ^ 6 - 1).
  assert (Z.land (u64 (size + (2 ^ 6 - 1))) (not_w 64 (2 ^ 6 - 1)) = 0) as ->.
  { rewrite land_not_mask by (try apply wrap_range; lia).
    assert (u64 (size + (2 ^ 6 - 1)) = size + (2 ^ 6 - 1) - 2 ^ 64) as -> by wrap_lia.
    rewrite Z.mod_small by lia. lia. }
  do 3 eexists. split; [vm_compute; reflexivity|]. split; [reflexivity|vm_compute; reflexivity].
Qed.

Lemma malloc_size_wraps_witness :
  exists h1 h2 n,
    sbi_malloc_from (sbi_heap_init_new 0x1000 0x10000 0x4000) (2 ^ 64 - 1) = Some (0x10000, h1) /\
    used_space_list h1 = [mkNode n 0x10000 0] /\
    sbi_malloc_from h1 64 = Some (0x10000, h2).
Proof. apply (malloc_size_wraps (2 ^ 64 - 1)). lia. Defined.
