(* ===== verification/Pmp.v ===== *)
(** * Physical memory protection: encoding, registers and checks

    - lib/sbi/sbi_pmp.c and include/sbi/sbi_pmp.h of xendor/opensbi: a PMP entry
      as a power-of-two region, encoded and decoded;
    - the PMP unit of Spike (xendor/riscv-isa-sim/riscv/csrs.cc and mmu.cc),
      the reference simulator the emulator is tested against: the register
      file, its write rules and the access check;
    - the register accessors of lib/sbi/sbi_hart_pmp.c on top of it.

    The theorems connect the three: what is encoded is decoded again, survives
    the packed configuration registers, and matches exactly the addresses of
    the region. *)

From S2P Require Import Prelude Bitops.

Local Open Scope Z_scope.

Abbreviation PMP_R := 0x01.
Abbreviation PMP_W := 0x02.
Abbreviation PMP_X := 0x04.
Abbreviation PMP_A := 0x18.
Abbreviation PMP_A_TOR := 0x08.
Abbreviation PMP_A_NA4 := 0x10.
Abbreviation PMP_A_NAPOT := 0x18.
Abbreviation PMP_L := 0x80.
Abbreviation PMP_SHIFT := 2.
Abbreviation PMP_COUNT := 64.
Definition XLEN : Z := 64.

Record pmp_t := mkPmp { pmp_addr : Z; pmp_cfg : Z }.

(** A nonzero word has a set bit among its 64. *)
Fixpoint ctz_loop (fuel : nat) (x ret : Z) : Z :=
  match fuel with
  | O => ret
  | S fuel => if negb (truthy (Z.land x 1)) then ctz_loop fuel (Z.shiftr x 1) (ret + 1) else ret
  end.

Definition ctz (x : Z) : Z := if x =? 0 then 8 * 8 else ctz_loop 64 x 0.

Definition sbi_pmp_is_enabled (pmp : pmp_t) : bool :=
  if truthy (Z.land (pmp_cfg pmp) PMP_A) then true else false.

Definition sbi_pmp_encode (prot addr log2len : Z) : Z * option pmp_t :=
  if (XLEN <? log2len) || (log2len <? PMP_SHIFT) then (SBI_EINVAL, None)
  else
    let prot := Z.land prot (not_w 64 PMP_A) in
    let prot := Z.lor prot (if log2len =? PMP_SHIFT then PMP_A_NA4 else PMP_A_NAPOT) in
    let paddr :=
      if log2len =? PMP_SHIFT then Z.shiftr addr PMP_SHIFT
      else if log2len =? XLEN then ULONG_MAX
      else
        let addrmask := shl64 1 (log2len - PMP_SHIFT) - 1 in
        Z.lor (Z.land (Z.shiftr addr PMP_SHIFT) (not_w 64 addrmask)) (Z.shiftr addrmask 1) in
    (SBI_OK, Some (mkPmp paddr (u8 prot))).

(** The three out pointers are not NULL: (prot, addr, log2len). *)
Definition sbi_pmp_decode (pmp : pmp_t) : Z * Z * Z :=
  let prot := pmp_cfg pmp in
  if Z.land prot PMP_A =? PMP_A_NAPOT then
    let addr := pmp_addr pmp in
    if addr =? ULONG_MAX then (prot, 0, XLEN)
    else
      let t1 := ctz (not_w 64 addr) in
      (prot, shl64 (Z.land addr (not_w 64 (shl64 1 t1 - 1))) PMP_SHIFT, t1 + PMP_SHIFT + 1)
  else (prot, shl64 (pmp_addr pmp) PMP_SHIFT, PMP_SHIFT).

(** ** Spike's PMP unit *)

Inductive access_type : Type := LOAD | STORE | FETCH.

Definition PRV_U : Z := 0.
Definition PRV_S : Z := 1.
Definition PRV_M : Z := 3.

Definition PMP_MT : Z := 0x60.
Abbreviation MSECCFG_MML := 1.
Abbreviation MSECCFG_MMWP := 2.
Abbreviation MSECCFG_RLB := 4.
Abbreviation CSR_PMPCFG0 := 0x3a0.
Abbreviation CSR_PMPADDR0 := 0x3b0.
Definition max_pmp : Z := 64.

Record pmp_entry := mkEntry { ent_val : Z; ent_cfg : Z }.

Record pmp_unit := mkUnit {
  n_pmp : Z;
  lg_pmp_granularity : Z;
  paddr_bits : Z;
  ext_smpmpmt : bool;
  ext_sspmpen : bool;
  spmpen : Z;
  mseccfg : Z;
  pmpaddr : list pmp_entry
}.

Definition ent (h : pmp_unit) (i : Z) : pmp_entry :=
  default (mkEntry 0 0) (pmpaddr h !! Z.to_nat i).

Definition set_ent (h : pmp_unit) (i : Z) (e : pmp_entry) : pmp_unit :=
  mkUnit (n_pmp h) (lg_pmp_granularity h) (paddr_bits h) (ext_smpmpmt h) (ext_sspmpen h)
    (spmpen h) (mseccfg h) (<[Z.to_nat i := e]> (pmpaddr h)).

Definition get_mml (h : pmp_unit) : bool := truthy (Z.land (mseccfg h) MSECCFG_MML).
Definition get_mmwp (h : pmp_unit) : bool := truthy (Z.land (mseccfg h) MSECCFG_MMWP).
Definition get_rlb (h : pmp_unit) : bool := truthy (Z.land (mseccfg h) MSECCFG_RLB).

Definition pmp_tor_mask (h : pmp_unit) : Z := u64 (- shl64 1 (lg_pmp_granularity h - PMP_SHIFT)).

Definition next_locked_and_tor (h : pmp_unit) (i : Z) : bool :=
  if max_pmp <=? i + 1 then false
  else
    let cfg := ent_cfg (ent h (i + 1)) in
    let next_locked := negb (get_rlb h) && truthy (Z.land cfg PMP_L) in
    let next_tor := Z.land cfg PMP_A =? PMP_A_TOR in
    next_locked && next_tor.

Definition tor_paddr (h : pmp_unit) (i : Z) : Z :=
  shl64 (Z.land (ent_val (ent h i)) (pmp_tor_mask h)) PMP_SHIFT.

Definition tor_base_paddr (h : pmp_unit) (i : Z) : Z :=
  if i =? 0 then 0 else tor_paddr h (i - 1).

Definition napot_mask (h : pmp_unit) (i : Z) : Z :=
  let is_na4 := Z.land (ent_cfg (ent h i)) PMP_A =? PMP_A_NA4 in
  let mask := Z.lor (Z.lor (shl64 (ent_val (ent h i)) 1) (Z.b2z (negb is_na4)))
                (not_w 64 (pmp_tor_mask h)) in
  shl64 (not_w 64 (Z.land mask (not_w 64 (u64 (mask + 1))))) PMP_SHIFT.

Definition match4 (h : pmp_unit) (i addr : Z) : bool :=
  if ext_sspmpen h && (n_pmp h <=? i + 1) && negb (truthy (Z.land (Z.shiftr (spmpen h) i) 1))
  then false
  else if Z.land (ent_cfg (ent h i)) PMP_A =? 0 then false
  else if Z.land (ent_cfg (ent h i)) PMP_A =? PMP_A_TOR
  then (tor_base_paddr h i <=? addr) && (addr <? tor_paddr h i)
  else Z.land (Z.lxor addr (tor_paddr h i)) (napot_mask h i) =? 0.

Definition pmpaddr_read (h : pmp_unit) (i : Z) : Z :=
  if n_pmp h <=? i then 0
  else if PMP_A_NAPOT <=? Z.land (ent_cfg (ent h i)) PMP_A
  then Z.lor (ent_val (ent h i)) (Z.shiftr (not_w 64 (pmp_tor_mask h)) 1)
  else Z.land (ent_val (ent h i)) (pmp_tor_mask h).

Definition pmpaddr_write (h : pmp_unit) (i val : Z) : pmp_unit :=
  if n_pmp h =? 0 then h
  else if n_pmp h <=? i then h
  else
    let locked := negb (get_rlb h) && truthy (Z.land (ent_cfg (ent h i)) PMP_L) in
    if (n_pmp h <=? i) || locked || next_locked_and_tor h i then h
    else set_ent h i
      (mkEntry (Z.land val (shl64 1 (paddr_bits h - PMP_SHIFT) - 1)) (ent_cfg (ent h i))).

Definition access_ok (h : pmp_unit) (i : Z) (type : access_type) (mode : Z) (hlvx : bool) : bool :=
  let cfg := ent_cfg (ent h i) in
  let cfgx := truthy (Z.land cfg PMP_X) in
  let cfgw := truthy (Z.land cfg PMP_W) in
  let cfgr := truthy (Z.land cfg PMP_R) in
  let cfgl := truthy (Z.land cfg PMP_L) in
  let prvm := mode =? PRV_M in
  let typer := match type with LOAD => true | _ => false end in
  let typex := match type with FETCH => true | _ => false end in
  let typew := match type with STORE => true | _ => false end in
  let normal_rwx := (typer && cfgr && (negb hlvx || cfgx)) || (typew && cfgw) || (typex && cfgx) in
  if get_mml h then
    if cfgx && cfgw && cfgr && cfgl then typer && negb hlvx
    else
      let mml_shared_region := negb cfgr && cfgw in
      let mml_chk_normal := eqb prvm cfgl && normal_rwx in
      let mml_chk_shared :=
        (negb cfgl && cfgx && ((typer && negb hlvx) || typew)) ||
        (negb cfgl && negb cfgx && ((typer && negb hlvx) || (typew && prvm))) ||
        (cfgl && typex) ||
        (cfgl && typer && cfgx && prvm) in
      if mml_shared_region then mml_chk_shared else mml_chk_normal
  else
    let m_bypass := prvm && negb cfgl in
    m_bypass || normal_rwx.

(** The eight entries of a 64-bit configuration register, from [i0]. *)
Definition cfg_indices (num : Z) : list Z := seqZ ((num - CSR_PMPCFG0) * 4) 8.

Definition pmpcfg_read (h : pmp_unit) (num : Z) : Z :=
  let i0 := (num - CSR_PMPCFG0) * 4 in
  foldl (fun res i =>
    if i <? max_pmp then Z.lor res (shl64 (ent_cfg (ent h i)) (8 * (i - i0))) else res)
    0 (cfg_indices num).

(** What one byte of a written configuration register becomes. *)
Definition legal_cfg (h : pmp_unit) (byte : Z) : Z :=
  let all_cfg_fields := Z.lor (Z.lor (Z.lor (Z.lor (Z.lor PMP_R PMP_W) PMP_X) PMP_A)
                          (if ext_smpmpmt h then PMP_MT else 0)) PMP_L in
  let cfg := u8 (Z.land byte all_cfg_fields) in
  let cfg := if negb (get_mml h)
    then u8 (Z.land cfg (Z.lor (not_w 64 PMP_W) (if truthy (Z.land cfg PMP_R) then PMP_W else 0)))
    else cfg in
  let cfg := if negb (lg_pmp_granularity h =? PMP_SHIFT) && (Z.land cfg PMP_A =? PMP_A_NA4)
    then Z.lor cfg PMP_A_NAPOT else cfg in
  if Z.shiftr (Z.land cfg PMP_MT) 5 =? 3 then Z.land cfg (not_w 8 PMP_MT) else cfg.

Definition pmpcfg_write_one (h : pmp_unit) (i byte : Z) : pmp_unit :=
  if i <? n_pmp h then
    let locked := truthy (Z.land (ent_cfg (ent h i)) PMP_L) in
    if get_rlb h || negb locked then
      let cfg := legal_cfg h byte in
      let cfgx := truthy (Z.land cfg PMP_X) in
      let cfgw := truthy (Z.land cfg PMP_W) in
      let cfgr := truthy (Z.land cfg PMP_R) in
      if get_rlb h ||
         negb (get_mml h && (truthy (Z.land cfg PMP_L) && negb (cfgx && cfgw && cfgr)
                             && (cfgx || (cfgw && negb cfgr))))
      then set_ent h i (mkEntry (ent_val (ent h i)) cfg) else h
    else h
  else h.

Definition pmpcfg_write (h : pmp_unit) (num val : Z) : pmp_unit :=
  if n_pmp h =? 0 then h
  else
    let i0 := (num - CSR_PMPCFG0) * 4 in
    foldl (fun h i => pmpcfg_write_one h i (Z.shiftr val (8 * (i - i0)))) h (cfg_indices num).

(** Which entry decides an access: [None] when no entry matches, [Some None]
    when one matches only part of it. *)
Fixpoint lookup_from (h : pmp_unit) (addr_aligned : Z) (offsets : list Z) (idx : list Z) :
    option (option Z) :=
  match idx with
  | [] => None
  | i :: idx' =>
      let any_match := existsb (fun o => match4 h i (u64 (addr_aligned + o))) offsets in
      let all_match := forallb (fun o => match4 h i (u64 (addr_aligned + o))) offsets in
      if any_match then if negb all_match then Some None else Some (Some i)
      else lookup_from h addr_aligned offsets idx'
  end.

Definition pmp_lookup (h : pmp_unit) (addr len : Z) : option (option Z) :=
  let gran := shl64 1 (lg_pmp_granularity h) in
  let addr_aligned := Z.land addr (u64 (- gran)) in
  let len_aligned := u64 (Z.land (u64 (addr + len + gran - 1)) (u64 (- gran)) - addr_aligned) in
  let offsets := (fun k => gran * k) <$> seqZ 0 (len_aligned / gran) in
  lookup_from h addr_aligned offsets (seqZ 0 (n_pmp h)).

Definition pmp_ok (h : pmp_unit) (addr len : Z) (type : access_type) (mode : Z) (hlvx : bool) : bool :=
  if n_pmp h =? 0 then true
  else
    match pmp_lookup h addr len with
    | Some (Some i) => access_ok h i type mode hlvx
    | Some None => false
    | None =>
        (mode =? PRV_M) && negb (get_mmwp h) &&
        (negb (get_mml h) || match type with FETCH => false | _ => true end)
    end.

(** ** Register accessors of sbi_hart_pmp.c *)

(** The cases of the PMP registers; the others are not part of the unit. *)
Definition csr_read_num (h : pmp_unit) (num : Z) : Z :=
  if (CSR_PMPCFG0 <=? num) && (num <? CSR_PMPCFG0 + 16) then pmpcfg_read h num
  else if (CSR_PMPADDR0 <=? num) && (num <? CSR_PMPADDR0 + 64)
  then pmpaddr_read h (num - CSR_PMPADDR0)
  else 0.

Definition csr_write_num (h : pmp_unit) (num val : Z) : pmp_unit :=
  if (CSR_PMPCFG0 <=? num) && (num <? CSR_PMPCFG0 + 16) then pmpcfg_write h num val
  else if (CSR_PMPADDR0 <=? num) && (num <? CSR_PMPADDR0 + 64)
  then pmpaddr_write h (num - CSR_PMPADDR0) val
  else h.

Definition hart_pmp_read (h : pmp_unit) (n : Z) : Z * option pmp_t :=
  if PMP_COUNT <=? n then (SBI_EINVAL, None)
  else
    let pmpcfg_csr := Z.land (CSR_PMPCFG0 + Z.shiftr n 2) (Z.lnot 1) in
    let pmpcfg_shift := Z.shiftl (Z.land n 7) 3 in
    let pmpaddr_csr := CSR_PMPADDR0 + n in
    let cfgmask := shl64 0xff pmpcfg_shift in
    (SBI_OK, Some (mkPmp (csr_read_num h pmpaddr_csr)
      (u8 (Z.shiftr (Z.land (csr_read_num h pmpcfg_csr) cfgmask) pmpcfg_shift)))).

Definition hart_pmp_write (h : pmp_unit) (pmp : pmp_t) (n : Z) : Z * pmp_unit :=
  if PMP_COUNT <=? n then (SBI_EINVAL, h)
  else
    let pmpcfg_csr := Z.land (CSR_PMPCFG0 + Z.shiftr n 2) (Z.lnot 1) in
    let pmpcfg_shift := Z.shiftl (Z.land n 7) 3 in
    let pmpaddr_csr := CSR_PMPADDR0 + n in
    let h := csr_write_num h pmpaddr_csr (pmp_addr pmp) in
    let cfgmask := not_w 64 (shl64 0xff pmpcfg_shift) in
    let pmpcfg := Z.land (csr_read_num h pmpcfg_csr) cfgmask in
    let pmpcfg := Z.lor pmpcfg (Z.land (shl64 (pmp_cfg pmp) pmpcfg_shift) (not_w 64 cfgmask)) in
    (SBI_OK, csr_write_num h pmpcfg_csr pmpcfg).

Definition sbi_hart_pmp_disable (h : pmp_unit) (n : Z) : Z * pmp_unit :=
  match hart_pmp_read h n with
  | (_, Some pmp) => hart_pmp_write h (mkPmp (pmp_addr pmp) 0) n
  | (rc, None) => (rc, h)
  end.

Definition sbi_hart_is_pmp_enabled (h : pmp_unit) (n : Z) : bool :=
  match hart_pmp_read h n with
  | (_, Some pmp) => sbi_pmp_is_enabled pmp
  | (_, None) => false
  end.

Definition sbi_hart_pmp_set (h : pmp_unit) (n prot addr log2len : Z) : Z * pmp_unit :=
  match sbi_pmp_encode prot addr log2len with
  | (_, Some pmp) => hart_pmp_write h pmp n
  | (rc, None) => (rc, h)
  end.

Definition sbi_hart_pmp_get (h : pmp_unit) (n : Z) : Z * option (Z * Z * Z) :=
  match hart_pmp_read h n with
  | (_, Some pmp) => (SBI_OK, Some (sbi_pmp_decode pmp))
  | (rc, None) => (rc, None)
  end.

(** ** Encoding and decoding *)

Lemma lor_disjoint j a b : 0 <= j -> 0 <= b < 2 ^ j -> Z.lor (a * 2 ^ j) b = a * 2 ^ j + b.
Proof.
  intros Hj Hb. pose proof (Z.add_lor_land (a * 2 ^ j) b) as H.
  replace (Z.land (a * 2 ^ j) b) with 0 in H; [lia|].
  pose proof (land_split j 0 a b 0 Hj ltac:(lia) Hb) as E.
  rewrite Z.land_0_l, Z.land_0_r in E. replace (0 + 2 ^ j * a) with (a * 2 ^ j) in E by lia.
  replace (b + 2 ^ j * 0) with b in E by lia. lia.
Qed.

Lemma ctz_loop_spec r : forall fuel m ret,
  (r < fuel)%nat -> m mod 2 <> 0 ->
  ctz_loop fuel (m * 2 ^ Z.of_nat r) ret = ret + Z.of_nat r.
Proof.
  induction r as [|r IH]; intros fuel m ret Hf Hm; (destruct fuel as [|fuel]; [lia|]);
    cbn [ctz_loop]; change 1 with (2 ^ 1 - 1) at 1; rewrite land_ones_mod by lia;
    change (2 ^ 1) with 2; unfold truthy.
  - rewrite Z.pow_0_r, Z.mul_1_r. rewrite (proj2 (Z.eqb_neq _ _)) by done. simpl. lia.
  - rewrite Nat2Z.inj_succ, Z.pow_succ_r by lia.
    replace (m * (2 * 2 ^ Z.of_nat r)) with (m * 2 ^ Z.of_nat r * 2) by lia.
    rewrite Z.mod_mul by lia. simpl negb. cbv iota.
    rewrite Z.shiftr_div_pow2 by lia. change (2 ^ 1) with 2. rewrite Z.div_mul by lia.
    rewrite IH by (done || lia). lia.
Qed.

Lemma ctz_spec m r : 0 <= r < 64 -> m mod 2 <> 0 -> ctz (m * 2 ^ r) = r.
Proof.
  intros Hr Hm. unfold ctz. pose proof (pow2_pos r ltac:(lia)).
  rewrite (proj2 (Z.eqb_neq _ _)).
  - rewrite <- (Z2Nat.id r) at 1 by lia. rewrite ctz_loop_spec by (done || lia). lia.
  - intros H0. assert (m = 0) as -> by nia. done.
Qed.

(** The value of the address register for an aligned region of order [k]. *)
Definition napot_value (k q : Z) : Z := q * 2 ^ (k - 2) + (2 ^ (k - 3) - 1).

Definition prot_napot (prot : Z) : Z := u8 (Z.lor (Z.land prot (not_w 64 PMP_A)) PMP_A_NAPOT).
Definition prot_na4 (prot : Z) : Z := u8 (Z.lor (Z.land prot (not_w 64 PMP_A)) PMP_A_NA4).

Lemma encode_napot prot k addr :
  3 <= k < 64 -> in_range 64 addr ->
  sbi_pmp_encode prot addr k =
    (SBI_OK, Some (mkPmp (napot_value k (addr / 2 ^ k)) (prot_napot prot))).
Proof.
  intros Hk Hb. unfold sbi_pmp_encode, XLEN.
  rewrite (proj2 (Z.ltb_ge 64 k)), (proj2 (Z.ltb_ge k 2)), (proj2 (Z.eqb_neq k 2)),
    (proj2 (Z.eqb_neq k 64)) by lia. cbn [orb]. rewrite shl64_1 by lia.
  pose proof (pow2_pos (k - 2) ltac:(lia)). pose proof (pow2_pos (k - 3) ltac:(lia)).
  rewrite Z.shiftr_div_pow2 by lia. unfold in_range in Hb.
  assert (2 ^ (k - 2) = 2 * 2 ^ (k - 3)) as E2.
  { rewrite <- Z.pow_succ_r by lia. f_equal. lia. }
  assert (addr / 2 ^ k = addr / 2 ^ 2 / 2 ^ (k - 2)) as Eq.
  { rewrite (pow2_split 2 k), Z.mul_comm by lia. rewrite Z.div_div by lia. done. }
  rewrite land_not_mask; [|lia|lia|].
  2:{ unfold in_range. change (2 ^ 2) with 4. Z.div_mod_to_equations. lia. }
  replace (addr / 2 ^ 2 - (addr / 2 ^ 2) mod 2 ^ (k - 2)) with (addr / 2 ^ k * 2 ^ (k - 2)).
  2:{ rewrite Eq. pose proof (Z.div_mod (addr / 2 ^ 2) (2 ^ (k - 2)) ltac:(lia)). lia. }
  assert (Z.shiftr (2 ^ (k - 2) - 1) 1 = 2 ^ (k - 3) - 1) as ->.
  { rewrite Z.shiftr_div_pow2 by lia. rewrite E2. change (2 ^ 1) with 2.
    replace (2 * 2 ^ (k - 3) - 1) with (1 + (2 ^ (k - 3) - 1) * 2) by lia.
    rewrite Z.div_add by lia. change (1 / 2) with 0. lia. }
  rewrite lor_disjoint by lia. done.
Qed.

Lemma prot_napot_A prot : Z.land (prot_napot prot) PMP_A = PMP_A_NAPOT.
Proof.
  unfold prot_napot, wrap. rewrite <- Z.land_ones by lia.
  apply Z.bits_inj'. intros b Hb. rewrite !Z.land_spec, Z.lor_spec.
  rewrite Z.testbit_ones by lia. destruct (Z.testbit 24 b) eqn:E; [|by rewrite andb_false_r].
  rewrite orb_true_r. destruct (decide (b < 8)); [lia|].
  rewrite (testbit_range 8 24) in E by (unfold in_range; lia). done.
Qed.

Lemma decode_napot prot k q :
  3 <= k < 64 -> 0 <= q -> q * 2 ^ k < 2 ^ 64 ->
  sbi_pmp_decode (mkPmp (napot_value k q) (prot_napot prot)) = (prot_napot prot, q * 2 ^ k, k).
Proof.
  intros Hk Hq Hb. unfold sbi_pmp_decode. cbn [pmp_cfg pmp_addr].
  rewrite prot_napot_A, Z.eqb_refl. unfold napot_value.
  pose proof (pow2_pos (k - 3) ltac:(lia)) as H3.
  assert (2 ^ (k - 2) = 2 * 2 ^ (k - 3)) as E2 by (rewrite <- Z.pow_succ_r by lia; f_equal; lia).
  assert (2 ^ k = 4 * 2 ^ (k - 2)) as E4.
  { change 4 with (2 ^ 2). rewrite <- Z.pow_add_r by lia. f_equal. lia. }
  assert (q * 2 ^ (k - 2) + (2 ^ (k - 3) - 1) < 2 ^ 62) as Hlt.
  { assert ((q + 1) * 2 ^ k <= 2 ^ 64) as Hq1.
    { assert (2 ^ 64 = 2 ^ (64 - k) * 2 ^ k) as E64 by (apply pow2_split; lia).
      assert (q < 2 ^ (64 - k)) by nia. nia. }
    assert ((q + 1) * 2 ^ (k - 2) <= 2 ^ 62) by lia. lia. }
  set (a := q * 2 ^ (k - 2) + (2 ^ (k - 3) - 1)) in *.
  assert (0 <= a) as Ha0 by nia.
  rewrite (proj2 (Z.eqb_neq a ULONG_MAX)) by (unfold ULONG_MAX; lia).
  assert (not_w 64 a = (2 ^ (67 - k) - 2 * q - 1) * 2 ^ (k - 3)) as Enot.
  { unfold not_w, wrap, Z.lnot. replace (Z.pred (- a)) with (2 ^ 64 - 1 - a + (-1) * 2 ^ 64) by lia.
    rewrite Z_mod_plus_full, Z.mod_small by lia. unfold a.
    assert (2 ^ 64 = 2 ^ (67 - k) * 2 ^ (k - 3)) as ->
      by (rewrite <- Z.pow_add_r by lia; f_equal; lia). rewrite E2. lia. }
  assert ((2 ^ (67 - k) - 2 * q - 1) mod 2 <> 0) as Hodd.
  { rewrite (pow2_split 1 (67 - k)) by lia. change (2 ^ 1) with 2.
    replace (2 ^ (67 - k - 1) * 2 - 2 * q - 1) with (1 + (2 ^ (67 - k - 1) - q - 1) * 2) by lia.
    rewrite Z.mod_add by lia. done. }
  rewrite Enot, ctz_spec by (done || lia). rewrite shl64_1 by lia.
  rewrite land_not_mask by (unfold in_range; lia).
  assert (a mod 2 ^ (k - 3) = 2 ^ (k - 3) - 1) as ->.
  { unfold a. rewrite E2. replace (q * (2 * 2 ^ (k - 3)) + (2 ^ (k - 3) - 1))
      with ((2 ^ (k - 3) - 1) + (2 * q) * 2 ^ (k - 3)) by lia.
    rewrite Z.mod_add by lia. apply Z.mod_small. lia. }
  unfold shl64. rewrite Z.shiftl_mul_pow2 by lia.
  replace ((a - (2 ^ (k - 3) - 1)) * 2 ^ 2) with (q * 2 ^ k) by (unfold a; lia).
  rewrite wrap_id by nia. f_equal. lia.
Qed.

Lemma prot_na4_A prot : Z.land (prot_na4 prot) PMP_A = PMP_A_NA4.
Proof.
  unfold prot_na4, wrap. rewrite <- Z.land_ones by lia.
  apply Z.bits_inj'. intros b Hb. rewrite !Z.land_spec, Z.lor_spec, Z.land_spec.
  rewrite Z.testbit_ones by lia.
  destruct (decide (b < 8)).
  - rewrite testbit_not_w by lia.
    destruct (Z.testbit 24 b) eqn:E24, (Z.testbit 16 b) eqn:E16; simpl;
      rewrite ?andb_true_r, ?andb_false_r, ?orb_false_r, ?orb_true_r; try lia.
    assert (b = 0 \/ b = 1 \/ b = 2 \/ b = 3 \/ b = 4 \/ b = 5 \/ b = 6 \/ b = 7) as Hb8 by lia.
    by destruct Hb8 as [->|[->|[->|[->|[->|[->|[->| ->]]]]]]].
  - rewrite (testbit_range 8 24), (testbit_range 8 16) by (unfold in_range; lia).
    by rewrite !andb_false_r.
Qed.

(** The bits of [prot] outside the mode field survive. *)
Lemma prot_keeps a prot b :
  (a = PMP_A_NA4 \/ a = PMP_A_NAPOT) -> 0 <= b < 8 -> b <> 3 -> b <> 4 ->
  Z.testbit (u8 (Z.lor (Z.land prot (not_w 64 PMP_A)) a)) b = Z.testbit prot b.
Proof.
  intros Ha Hb H3 H4. rewrite testbit_wrap by lia.
  rewrite Z.lor_spec, Z.land_spec, testbit_not_w by lia.
  assert (b = 0 \/ b = 1 \/ b = 2 \/ b = 5 \/ b = 6 \/ b = 7) as Hb8 by lia.
  destruct Ha as [-> | ->]; destruct Hb8 as [->|[->|[->|[->|[->| ->]]]]]; simpl;
    by rewrite andb_true_r, orb_false_r.
Qed.

Lemma land_mask_bits a b m : (forall k, 0 <= k -> Z.testbit m k = true -> Z.testbit a k = Z.testbit b k) ->
  Z.land a m = Z.land b m.
Proof.
  intros H. apply Z.bits_inj'. intros k Hk. rewrite !Z.land_spec.
  destruct (Z.testbit m k) eqn:E; [by rewrite H|]. by rewrite !andb_false_r.
Qed.

(** L, R, W and X. *)
Definition PMP_LRWX : Z := 0x87.

Lemma prot_LRWX a prot :
  (a = PMP_A_NA4 \/ a = PMP_A_NAPOT) ->
  Z.land (u8 (Z.lor (Z.land prot (not_w 64 PMP_A)) a)) PMP_LRWX = Z.land prot PMP_LRWX.
Proof.
  intros Ha. apply land_mask_bits. intros k Hk Ht.
  destruct (decide (k < 8)).
  - apply prot_keeps; [done|lia|intros ->; done|intros ->; done].
  - rewrite (testbit_range 8 PMP_LRWX) in Ht by (unfold in_range, PMP_LRWX; lia). done.
Qed.

(** ** The register file *)

(** A hart like the emulated one: 4-byte granularity, 56-bit physical
    addresses, no Smpmpmt and no Sspmpen. *)
Record unit_ok (h : pmp_unit) : Prop := {
  uo_len : length (pmpaddr h) = 64%nat;
  uo_n : 0 < n_pmp h <= 64;
  uo_gran : lg_pmp_granularity h = 2;
  uo_bits : paddr_bits h = 56;
  uo_mt : ext_smpmpmt h = false;
  uo_en : ext_sspmpen h = false;
  uo_val : forall i, 0 <= i < 64 -> in_range 54 (ent_val (ent h i));
  uo_cfg : forall i, 0 <= i < 64 -> in_range 8 (ent_cfg (ent h i)) /\
    legal_cfg h (ent_cfg (ent h i)) = ent_cfg (ent h i)
}.

Definition unlocked (h : pmp_unit) (i : Z) : bool :=
  get_rlb h || negb (truthy (Z.land (ent_cfg (ent h i)) PMP_L)).

Lemma tor_mask_all h : unit_ok h -> pmp_tor_mask h = ULONG_MAX.
Proof. intros Hh. unfold pmp_tor_mask. by rewrite (uo_gran h Hh). Qed.

Lemma ent_set_eq h i e : 0 <= i < Z.of_nat (length (pmpaddr h)) -> ent (set_ent h i e) i = e.
Proof. intros. unfold ent, set_ent. simpl. by rewrite list_lookup_insert_eq by lia. Qed.

Lemma ent_set_ne h i j e : 0 <= i -> 0 <= j -> i <> j -> ent (set_ent h i e) j = ent h j.
Proof. intros. unfold ent, set_ent. simpl. by rewrite list_lookup_insert_ne by lia. Qed.

Lemma ent_set h i j e : 0 <= i < Z.of_nat (length (pmpaddr h)) -> 0 <= j ->
  ent (set_ent h i e) j = if j =? i then e else ent h j.
Proof.
  intros. case_bool; bool_to_prop; [subst; by apply ent_set_eq|by apply ent_set_ne; lia].
Qed.

Lemma set_ent_same h i : 0 <= i < Z.of_nat (length (pmpaddr h)) -> set_ent h i (ent h i) = h.
Proof.
  intros Hi. unfold set_ent, ent. destruct h; simpl in *. f_equal.
  apply list_insert_id.
  destruct (lookup_lt_is_Some_2 pmpaddr0 (Z.to_nat i)) as [e He]; [lia|]. by rewrite He.
Qed.

(** Only the low byte of a written value counts. *)
Lemma legal_cfg_byte h b : legal_cfg h (u8 b) = legal_cfg h b.
Proof.
  unfold legal_cfg. rewrite (land_wrap 8 b); [done|].
  unfold in_range, PMP_MT. destruct (ext_smpmpmt h); vm_compute;
    intuition congruence.
Qed.

Lemma legal_cfg_flags h h' b :
  ext_smpmpmt h' = ext_smpmpmt h -> get_mml h' = get_mml h ->
  lg_pmp_granularity h' = lg_pmp_granularity h -> legal_cfg h' b = legal_cfg h b.
Proof. intros E1 E2 E3. unfold legal_cfg. by rewrite E1, E2, E3. Qed.

(** *** The packed configuration registers *)

Lemma testbit_foldl_lor (F : Z -> Z) l : forall acc p,
  Z.testbit (foldl (fun res i => Z.lor res (F i)) acc l) p =
  Z.testbit acc p || existsb (fun i => Z.testbit (F i) p) l.
Proof.
  induction l as [|i l IH]; intros acc p; simpl; [by rewrite orb_false_r|].
  rewrite IH, Z.lor_spec. by rewrite orb_assoc.
Qed.

Lemma existsb_unique {A} (p : A -> bool) (l : list A) (x : A) :
  x ∈ l -> (forall y, y ∈ l -> p y = true -> y = x) -> existsb p l = p x.
Proof.
  intros Hx Hu. destruct (p x) eqn:E.
  - apply existsb_exists. exists x. split; [by apply list_elem_of_In|done].
  - destruct (existsb p l) eqn:Ex; [|done]. apply existsb_exists in Ex as (y & Hy & Hp).
    apply list_elem_of_In in Hy. rewrite (Hu y Hy Hp) in Hp. congruence.
Qed.

Lemma testbit_shl_byte c k j b :
  in_range 8 c -> 0 <= k < 8 -> 0 <= j < 8 -> 0 <= b < 8 ->
  Z.testbit (shl64 c (8 * k)) (8 * j + b) = (j =? k) && Z.testbit c b.
Proof.
  intros Hc Hk Hj Hb. unfold shl64. rewrite testbit_wrap, Z.shiftl_spec by lia.
  destruct (Z.eqb_spec j k) as [->|Hne]; simpl; [f_equal; lia|].
  destruct (decide (j < k)).
  - apply Z.testbit_neg_r. lia.
  - apply (testbit_range 8); [lia|done|lia].
Qed.

Definition cfg_csr (n : Z) : Z := CSR_PMPCFG0 + 2 * (n / 8).

Lemma cfg_csr_eq n : 0 <= n < 64 -> Z.land (CSR_PMPCFG0 + Z.shiftr n 2) (Z.lnot 1) = cfg_csr n.
Proof.
  intros Hn. change 1 with (2 ^ 1 - 1). rewrite land_lnot_pow2 by lia. unfold cfg_csr.
  rewrite Z.shiftr_div_pow2 by lia. change (2 ^ 1) with 2. change (2 ^ 2) with 4.
  Z.div_mod_to_equations. lia.
Qed.

Lemma cfg_csr_base n : 0 <= n < 64 -> (cfg_csr n - CSR_PMPCFG0) * 4 = 8 * (n / 8) /\ 0 <= n / 8 < 8.
Proof. intros Hn. unfold cfg_csr. Z.div_mod_to_equations. lia. Qed.

Lemma cfg_shift_eq n : 0 <= n -> Z.shiftl (Z.land n 7) 3 = 8 * (n mod 8).
Proof.
  intros. change 7 with (2 ^ 3 - 1). rewrite land_ones_mod by lia.
  rewrite Z.shiftl_mul_pow2 by lia. change (2 ^ 3) with 8. lia.
Qed.

(** Byte [j] of the register that holds entries [8 g .. 8 g + 7]. *)
Lemma pmpcfg_read_bit h n j b :
  unit_ok h -> 0 <= n < 64 -> 0 <= j < 8 -> 0 <= b < 8 ->
  Z.testbit (pmpcfg_read h (cfg_csr n)) (8 * j + b) =
  Z.testbit (ent_cfg (ent h (8 * (n / 8) + j))) b.
Proof.
  intros Hh Hn Hj Hb. destruct (cfg_csr_base n Hn) as [Hb0 Hg].
  unfold pmpcfg_read, cfg_indices. rewrite Hb0. set (g := 8 * (n / 8)) in *.
  assert (forall l acc, (forall i, i ∈ l -> i < 64) ->
    foldl (fun res i => if i <? max_pmp then Z.lor res (shl64 (ent_cfg (ent h i)) (8 * (i - g)))
      else res) acc l =
    foldl (fun res i => Z.lor res (shl64 (ent_cfg (ent h i)) (8 * (i - g)))) acc l) as Hfold.
  { induction l as [|i l IH]; intros acc Hl; [done|]. simpl.
    rewrite (proj2 (Z.ltb_lt i max_pmp)) by (unfold max_pmp; apply Hl; left). apply IH. intros k Hk. apply Hl. by right. }
  rewrite Hfold by (intros i Hi%elem_of_seqZ; lia).
  rewrite (testbit_foldl_lor (fun i => shl64 (ent_cfg (ent h i)) (8 * (i - g)))).
  rewrite Z.testbit_0_l. cbn [orb].
  assert (forall i, i ∈ seqZ g 8 ->
    Z.testbit (shl64 (ent_cfg (ent h i)) (8 * (i - g))) (8 * j + b) =
    (j =? i - g) && Z.testbit (ent_cfg (ent h i)) b) as Hbit.
  { intros i Hi%elem_of_seqZ. apply testbit_shl_byte; try lia. apply (uo_cfg h Hh). lia. }
  rewrite (existsb_unique _ _ (g + j)).
  - rewrite Hbit by (apply elem_of_seqZ; lia).
    by rewrite (proj2 (Z.eqb_eq j (g + j - g))) by lia.
  - apply elem_of_seqZ. lia.
  - intros i Hi. rewrite Hbit by done. intros [E _]%andb_true_iff. lia.
Qed.

Lemma pmpcfg_read_byte h n j :
  unit_ok h -> 0 <= n < 64 -> 0 <= j < 8 ->
  u8 (Z.shiftr (pmpcfg_read h (cfg_csr n)) (8 * j)) = ent_cfg (ent h (8 * (n / 8) + j)).
Proof.
  intros Hh Hn Hj. pose proof (cfg_csr_base n Hn).
  apply (word_eq_bits 8); [lia|by apply wrap_range|apply (uo_cfg h Hh); lia|].
  intros b Hb. rewrite testbit_wrap, Z.shiftr_spec by lia.
  rewrite Z.add_comm. by apply pmpcfg_read_bit.
Qed.

(** *** Writing an entry *)

Lemma pmpcfg_write_one_id h i b :
  0 <= i < Z.of_nat (length (pmpaddr h)) -> legal_cfg h b = ent_cfg (ent h i) ->
  pmpcfg_write_one h i b = h.
Proof.
  intros Hi Hb. unfold pmpcfg_write_one. rewrite Hb.
  assert (set_ent h i (mkEntry (ent_val (ent h i)) (ent_cfg (ent h i))) = h) as Hid.
  { replace (mkEntry _ _) with (ent h i) by (by destruct (ent h i)). by apply set_ent_same. }
  by repeat case_match.
Qed.

Lemma pmpcfg_write_one_cases h i b :
  pmpcfg_write_one h i b = h \/
  pmpcfg_write_one h i b = set_ent h i (mkEntry (ent_val (ent h i)) (legal_cfg h b)).
Proof. unfold pmpcfg_write_one. repeat case_match; auto. Qed.

Lemma pmpcfg_write_others (F : Z -> Z) l : forall h,
  (forall i, i ∈ l -> 0 <= i < Z.of_nat (length (pmpaddr h))) ->
  (forall i, i ∈ l -> legal_cfg h (F i) = ent_cfg (ent h i)) ->
  foldl (fun h i => pmpcfg_write_one h i (F i)) h l = h.
Proof.
  induction l as [|i l IH]; intros h Hl Hid; [done|]. simpl.
  rewrite pmpcfg_write_one_id by (apply Hl || apply Hid; left).
  apply IH; intros k Hk; [apply Hl|apply Hid]; by right.
Qed.

Lemma pmpcfg_write_single (F : Z -> Z) n l : forall h,
  NoDup l -> n ∈ l ->
  (forall i, i ∈ l -> 0 <= i < Z.of_nat (length (pmpaddr h))) ->
  (forall i, i ∈ l -> i <> n -> legal_cfg h (F i) = ent_cfg (ent h i)) ->
  foldl (fun h i => pmpcfg_write_one h i (F i)) h l = pmpcfg_write_one h n (F n).
Proof.
  induction l as [|i l IH]; intros h Hd Hn Hl Hid; [by apply not_elem_of_nil in Hn|].
  apply NoDup_cons in Hd as [Hni Hd]. simpl. destruct (decide (i = n)) as [->|Hne].
  - apply pmpcfg_write_others.
    + intros k Hk. specialize (Hl k ltac:(by right)).
      destruct (pmpcfg_write_one_cases h n (F n)) as [-> | ->]; [done|].
      unfold set_ent. simpl. by rewrite length_insert.
    + intros k Hk. assert (k <> n) by (intros ->; done).
      rewrite (legal_cfg_flags h); [|by destruct (pmpcfg_write_one_cases h n (F n)) as [-> | ->]..].
      rewrite Hid by (done || by right). pose proof (Hl k ltac:(by right)).
      pose proof (Hl n ltac:(by left)).
      destruct (pmpcfg_write_one_cases h n (F n)) as [-> | ->]; [done|].
      by rewrite ent_set_ne by lia.
  - apply elem_of_cons in Hn as [->|Hn]; [done|].
    rewrite pmpcfg_write_one_id; [|apply Hl; left|apply Hid; [left|done]].
    apply IH; try done; intros k Hk; [apply Hl; by right|apply Hid; by right].
Qed.

(** Legalising twice is legalising once, and the result is a byte. *)
Definition legal_unit (mml : bool) : pmp_unit :=
  mkUnit 64 2 56 false false 0 (Z.b2z mml) (replicate 64 (mkEntry 0 0)).

Lemma legal_cfg_unit h b : unit_ok h -> legal_cfg h b = legal_cfg (legal_unit (get_mml h)) (u8 b).
Proof.
  intros Hh. rewrite legal_cfg_byte. apply legal_cfg_flags; simpl.
  - by rewrite (uo_mt h Hh).
  - by destruct (get_mml h).
  - by rewrite (uo_gran h Hh).
Qed.

Lemma legal_unit_ent mml i : ent (legal_unit mml) i = mkEntry 0 0.
Proof.
  unfold ent. simpl. change (mkEntry 0 0 :: _) with (replicate 64 (mkEntry 0 0)).
  destruct (replicate 64 (mkEntry 0 0) !! Z.to_nat i) eqn:E; [|done].
  apply lookup_replicate in E as [-> _]. done.
Qed.

Lemma legal_unit_ok mml : unit_ok (legal_unit mml).
Proof.
  constructor; try done; intros i Hi; rewrite legal_unit_ent; cbn [ent_val ent_cfg].
  - by unfold in_range.
  - split; [by unfold in_range|]. by destruct mml.
Qed.

Definition legal_table (mml : bool) (p : Z -> Z -> bool) : bool :=
  forallb (fun b => p b (legal_cfg (legal_unit mml) b)) (seqZ 0 256).

Lemma legal_table_spec mml p b :
  legal_table mml p = true -> 0 <= b < 256 -> p b (legal_cfg (legal_unit mml) b) = true.
Proof.
  unfold legal_table. rewrite forallb_forall. intros H Hb. apply H.
  apply list_elem_of_In, elem_of_seqZ. lia.
Qed.

Lemma legal_cfg_props h b : unit_ok h ->
  in_range 8 (legal_cfg h b) /\ legal_cfg h (legal_cfg h b) = legal_cfg h b.
Proof.
  intros Hh. pose proof (wrap_range 8 b ltac:(lia)) as Hb.
  assert ((0 <=? legal_cfg h b) && (legal_cfg h b <? 256) = true) as Hr.
  { rewrite (legal_cfg_unit h) by done.
    apply (legal_table_spec _ (fun _ c => (0 <=? c) && (c <? 256))); [by destruct (get_mml h)|done]. }
  assert (in_range 8 (legal_cfg h b)) as Hc by (unfold in_range; lia). split; [done|].
  rewrite (legal_cfg_unit h (legal_cfg h b)) by done. rewrite (wrap_id 8) by done.
  rewrite (legal_cfg_unit h b) by done. apply Z.eqb_eq.
  apply (legal_table_spec _ (fun _ c => legal_cfg (legal_unit (get_mml h)) c =? c)); [|done].
  by destruct (get_mml h).
Qed.

(** The register value [hart_pmp_write] composes: byte [j] is the new
    configuration for the entry written and the old one elsewhere. *)
Lemma cfg_compose_byte r c m j :
  0 <= m < 8 -> 0 <= j < 8 -> in_range 8 c ->
  let cfgmask := not_w 64 (shl64 0xff (8 * m)) in
  u8 (Z.shiftr (Z.lor (Z.land r cfgmask) (Z.land (shl64 c (8 * m)) (not_w 64 cfgmask))) (8 * j)) =
  if j =? m then c else u8 (Z.shiftr r (8 * j)).
Proof.
  intros Hm Hj Hc cfgmask. apply (word_eq_bits 8); [lia|by apply wrap_range| |].
  - case_bool; [done|]. by apply wrap_range.
  - intros b Hb. rewrite testbit_wrap, Z.shiftr_spec by lia.
    rewrite Z.lor_spec, !Z.land_spec, testbit_not_w by lia. unfold cfgmask.
    rewrite testbit_not_w by lia. replace (b + 8 * j) with (8 * j + b) by lia.
    rewrite !testbit_shl_byte by (done || unfold in_range; lia).
    assert (Z.testbit 255 b = true) as ->.
    { change 255 with (Z.ones 8). rewrite Z.testbit_ones by lia. lia. }
    case_bool; simpl.
    + rewrite andb_false_r, andb_true_r. done.
    + rewrite andb_true_r, orb_false_r. rewrite testbit_wrap, Z.shiftr_spec by lia. f_equal. lia.
Qed.

Definition writable (h : pmp_unit) (n : Z) : bool :=
  (0 <=? n) && (n <? n_pmp h) && unlocked h n && negb (next_locked_and_tor h n).

(** With Smepmp machine mode may not add an executable rule of its own. *)
Definition cfg_accepted (h : pmp_unit) (cfg : Z) : bool :=
  get_rlb h ||
  negb (get_mml h &&
    (truthy (Z.land cfg PMP_L) &&
     negb (truthy (Z.land cfg PMP_X) && truthy (Z.land cfg PMP_W) && truthy (Z.land cfg PMP_R)) &&
     (truthy (Z.land cfg PMP_X) || (truthy (Z.land cfg PMP_W) && negb (truthy (Z.land cfg PMP_R)))))).

Lemma unit_ok_set h n e :
  unit_ok h -> 0 <= n < 64 -> in_range 54 (ent_val e) ->
  in_range 8 (ent_cfg e) -> legal_cfg h (ent_cfg e) = ent_cfg e -> unit_ok (set_ent h n e).
Proof.
  intros Hh Hn Hv Hc Hl. pose proof (uo_len h Hh) as Hlen.
  constructor; try (by destruct Hh).
  - simpl. by rewrite length_insert.
  - intros i Hi. rewrite ent_set by lia. case_bool; [done|]. by apply (uo_val h Hh).
  - intros i Hi. rewrite ent_set by lia. rewrite (legal_cfg_flags h) by done.
    case_bool; [done|]. by apply (uo_cfg h Hh).
Qed.

Lemma addr_csr_eq n : (CSR_PMPCFG0 <=? CSR_PMPADDR0 + n) && (CSR_PMPADDR0 + n <? CSR_PMPCFG0 + 16) =
  (n <? 0) && (-16 <=? n).
Proof. lia. Qed.

Lemma addr_csr_range n : 0 <= n < 64 ->
  (CSR_PMPADDR0 <=? CSR_PMPADDR0 + n) && (CSR_PMPADDR0 + n <? CSR_PMPADDR0 + 64) = true.
Proof. lia. Qed.

Lemma cfg_csr_range n : 0 <= n < 64 ->
  (CSR_PMPCFG0 <=? cfg_csr n) && (cfg_csr n <? CSR_PMPCFG0 + 16) = true.
Proof. intros Hn. pose proof (cfg_csr_base n Hn). unfold cfg_csr in *. lia. Qed.

Lemma pmpaddr_write_spec h n v :
  unit_ok h -> writable h n = true ->
  pmpaddr_write h n v = set_ent h n (mkEntry (Z.land v (2 ^ 54 - 1)) (ent_cfg (ent h n))).
Proof.
  intros Hh Hw. unfold writable, unlocked in Hw. pose proof (uo_n h Hh).
  unfold pmpaddr_write. rewrite (uo_bits h Hh).
  rewrite (proj2 (Z.eqb_neq (n_pmp h) 0)), (proj2 (Z.leb_gt (n_pmp h) n)) by lia. cbn [orb].
  destruct (get_rlb h), (truthy (Z.land (ent_cfg (ent h n)) PMP_L)), (next_locked_and_tor h n);
    simpl in *; try lia; done.
Qed.

Lemma pmpcfg_write_one_byte h i b : pmpcfg_write_one h i (u8 b) = pmpcfg_write_one h i b.
Proof. unfold pmpcfg_write_one. by rewrite legal_cfg_byte. Qed.

Lemma pmpcfg_write_byte h n val c :
  unit_ok h -> 0 <= n < 64 ->
  (forall j, 0 <= j < 8 -> u8 (Z.shiftr val (8 * j)) =
    if j =? n mod 8 then c else ent_cfg (ent h (8 * (n / 8) + j))) ->
  pmpcfg_write h (cfg_csr n) val = pmpcfg_write_one h n c.
Proof.
  intros Hh Hn Hbyte. pose proof (uo_n h Hh). pose proof (uo_len h Hh).
  pose proof (cfg_csr_base n Hn) as [Hb Hg].
  assert (n = 8 * (n / 8) + n mod 8 /\ 0 <= n mod 8 < 8) as Hdm by (Z.div_mod_to_equations; lia).
  unfold pmpcfg_write, cfg_indices. rewrite Hb.
  rewrite (proj2 (Z.eqb_neq (n_pmp h) 0)) by lia.
  rewrite (pmpcfg_write_single (fun i => Z.shiftr val (8 * (i - 8 * (n / 8)))) n).
  - rewrite <- pmpcfg_write_one_byte, Hbyte by lia.
    by rewrite (proj2 (Z.eqb_eq (n - 8 * (n / 8)) (n mod 8))) by lia.
  - apply NoDup_seqZ.
  - apply elem_of_seqZ. lia.
  - intros i Hi%elem_of_seqZ. lia.
  - intros i Hi%elem_of_seqZ Hne. rewrite <- legal_cfg_byte, Hbyte by lia.
    rewrite (proj2 (Z.eqb_neq (i - 8 * (n / 8)) (n mod 8))) by lia.
    replace (8 * (n / 8) + (i - 8 * (n / 8))) with i by lia. apply (uo_cfg h Hh). lia.
Qed.

Lemma pmpcfg_write_one_accepted h n b :
  n < n_pmp h -> unlocked h n = true -> cfg_accepted h (legal_cfg h b) = true ->
  pmpcfg_write_one h n b = set_ent h n (mkEntry (ent_val (ent h n)) (legal_cfg h b)).
Proof.
  intros Hn Hu Ha. unfold pmpcfg_write_one. rewrite (proj2 (Z.ltb_lt n (n_pmp h))) by lia.
  unfold unlocked in Hu. unfold cfg_accepted in Ha. cbv zeta. by rewrite Hu, Ha.
Qed.

Lemma set_ent_set h n e e' : set_ent (set_ent h n e) n e' = set_ent h n e'.
Proof. unfold set_ent. simpl. f_equal. apply list_insert_insert_eq. Qed.

(** One call of [hart_pmp_write] changes the entry it names and no other. *)
Lemma hart_pmp_write_spec h n pmp :
  unit_ok h -> writable h n = true -> in_range 8 (pmp_cfg pmp) ->
  cfg_accepted h (legal_cfg h (pmp_cfg pmp)) = true ->
  hart_pmp_write h pmp n =
  (SBI_OK, set_ent h n (mkEntry (Z.land (pmp_addr pmp) (2 ^ 54 - 1)) (legal_cfg h (pmp_cfg pmp)))).
Proof.
  intros Hh Hw Hc Ha. pose proof (uo_n h Hh). pose proof (uo_len h Hh).
  assert (0 <= n < n_pmp h /\ unlocked h n = true) as [Hn Hu] by (unfold writable in Hw; lia).
  unfold hart_pmp_write. rewrite (proj2 (Z.leb_gt 64 n)) by lia.
  rewrite cfg_csr_eq, cfg_shift_eq by lia. f_equal. unfold csr_write_num, csr_read_num.
  rewrite addr_csr_eq, (proj2 (Z.ltb_ge n 0)), addr_csr_range, cfg_csr_range by lia. cbn [andb].
  replace (CSR_PMPADDR0 + n - CSR_PMPADDR0) with n by lia.
  rewrite pmpaddr_write_spec by done. set (e := mkEntry _ (ent_cfg (ent h n))).
  set (h1 := set_ent h n e). assert (unit_ok h1) as Hh1.
  { apply unit_ok_set; simpl; try done; try lia; [|apply (uo_cfg h Hh); lia..].
    unfold in_range. rewrite land_ones_mod by lia. apply Z.mod_pos_bound. lia. }
  assert (ent h1 n = e) as He by (apply ent_set_eq; lia).
  rewrite (pmpcfg_write_byte h1 n _ (pmp_cfg pmp)); [|done|lia|].
  - rewrite pmpcfg_write_one_accepted; [|simpl; lia| |by rewrite (legal_cfg_flags h)].
    + rewrite He. unfold h1. by rewrite set_ent_set, (legal_cfg_flags h).
    + unfold unlocked. by rewrite He.
  - intros j Hj. rewrite cfg_compose_byte by (done || apply Z.mod_pos_bound; lia).
    by rewrite pmpcfg_read_byte by (done || lia).
Qed.

Lemma cfg_extract_byte r m : 0 <= m < 8 ->
  u8 (Z.shiftr (Z.land r (shl64 0xff (8 * m))) (8 * m)) = u8 (Z.shiftr r (8 * m)).
Proof.
  intros Hm. apply (word_eq_bits 8); [lia|by apply wrap_range..|].
  intros b Hb. rewrite !testbit_wrap, !Z.shiftr_spec, Z.land_spec by lia.
  replace (b + 8 * m) with (8 * m + b) by lia. rewrite testbit_shl_byte by (unfold in_range; lia).
  change 255 with (Z.ones 8). rewrite Z.testbit_ones by lia. rewrite Z.eqb_refl. lia.
Qed.

Lemma hart_pmp_read_spec h n :
  unit_ok h -> 0 <= n < n_pmp h ->
  hart_pmp_read h n = (SBI_OK, Some (mkPmp (ent_val (ent h n)) (ent_cfg (ent h n)))).
Proof.
  intros Hh Hn. pose proof (uo_n h Hh).
  assert (n = 8 * (n / 8) + n mod 8 /\ 0 <= n mod 8 < 8) as Hdm by (Z.div_mod_to_equations; lia).
  unfold hart_pmp_read. rewrite (proj2 (Z.leb_gt 64 n)) by lia.
  rewrite cfg_csr_eq, cfg_shift_eq by lia. unfold csr_read_num.
  rewrite addr_csr_eq, (proj2 (Z.ltb_ge n 0)), addr_csr_range, cfg_csr_range by lia. cbn [andb].
  replace (CSR_PMPADDR0 + n - CSR_PMPADDR0) with n by lia. do 3 f_equal.
  - unfold pmpaddr_read. rewrite (proj2 (Z.leb_gt (n_pmp h) n)) by lia.
    rewrite (tor_mask_all h Hh). case_bool.
    + change (Z.shiftr (not_w 64 ULONG_MAX) 1) with 0. apply Z.lor_0_r.
    + unfold ULONG_MAX. apply (land_all 64); [lia|].
      pose proof (uo_val h Hh n ltac:(lia)) as Hv. unfold in_range in Hv. lia.
  - rewrite cfg_extract_byte by lia. rewrite pmpcfg_read_byte by (done || lia).
    by rewrite <- (proj1 Hdm).
Qed.

(** *** Address matching *)

Lemma ldiff_low_ones q j : 0 <= j ->
  Z.land (q * 2 ^ (j + 1) + (2 ^ j - 1)) (Z.lnot (q * 2 ^ (j + 1) + 2 ^ j)) = 2 ^ j - 1.
Proof.
  intros Hj. pose proof (pow2_pos j Hj). assert (2 ^ (j + 1) = 2 * 2 ^ j) as E.
  { rewrite Z.pow_add_r by lia. change (2 ^ 1) with 2. lia. }
  replace (Z.lnot (q * 2 ^ (j + 1) + 2 ^ j)) with ((2 ^ j - 1) + 2 ^ (j + 1) * Z.lnot q)
    by (unfold Z.lnot; lia).
  rewrite (Z.add_comm (q * _)), (Z.mul_comm q). rewrite land_split by lia.
  rewrite Z.land_lnot_diag, Z.land_diag. lia.
Qed.

Lemma napot_mask_spec h n q j :
  unit_ok h -> 0 <= n < 64 -> 0 <= q -> 0 <= j < 62 ->
  2 * ent_val (ent h n) + (if Z.land (ent_cfg (ent h n)) PMP_A =? PMP_A_NA4 then 0 else 1) =
    q * 2 ^ (j + 1) + (2 ^ j - 1) ->
  napot_mask h n = 2 ^ 64 - 2 ^ (j + 2).
Proof.
  intros Hh Hn Hq Hj Hv. pose proof (uo_val h Hh n Hn) as Hr. unfold in_range in Hr.
  unfold napot_mask. rewrite (tor_mask_all h Hh).
  change (not_w 64 ULONG_MAX) with 0. rewrite Z.lor_0_r.
  set (v := ent_val (ent h n)) in *. pose proof (pow2_pos j ltac:(lia)).
  assert (Z.lor (shl64 v 1) (Z.b2z (negb (Z.land (ent_cfg (ent h n)) PMP_A =? PMP_A_NA4))) =
    q * 2 ^ (j + 1) + (2 ^ j - 1)) as ->.
  { rewrite <- Hv. unfold shl64. rewrite Z.shiftl_mul_pow2 by lia. rewrite wrap_id by lia.
    rewrite lor_disjoint by (lia || by destruct (_ =? _)). destruct (_ =? _); simpl; lia. }
  set (m := q * 2 ^ (j + 1) + (2 ^ j - 1)) in *.
  assert (0 <= m < 2 ^ 56) by (destruct (_ =? _); lia).
  rewrite (wrap_id 64 (m + 1)) by lia. rewrite land_not_w by (unfold in_range; lia).
  replace (m + 1) with (q * 2 ^ (j + 1) + 2 ^ j) by (unfold m; lia). unfold m.
  rewrite ldiff_low_ones by lia.
  assert (4 * 2 ^ j = 2 ^ (j + 2)) as E4 by (rewrite Z.pow_add_r by lia; lia).
  assert (2 ^ (j + 2) < 2 ^ 64) by (apply pow2_lt; lia).
  unfold not_w, shl64, Z.lnot. rewrite Z.shiftl_mul_pow2 by lia. change (2 ^ 2) with 4.
  unfold wrap. rewrite Zmult_mod_idemp_l.
  replace (Z.pred (- (2 ^ j - 1)) * 4) with ((2 ^ 64 - 2 ^ (j + 2)) + (-1) * 2 ^ 64) by lia.
  rewrite Z_mod_plus_full. apply Z.mod_small. pose proof (pow2_pos (j + 2) ltac:(lia)). lia.
Qed.

Lemma lxor_high_zero a b k : 0 <= k -> in_range 64 a -> in_range 64 b -> k <= 64 ->
  (Z.land (Z.lxor a b) (2 ^ 64 - 2 ^ k) =? 0) = (a / 2 ^ k =? b / 2 ^ k).
Proof.
  intros Hk Ha Hb Hk64. pose proof (pow2_pos k Hk).
  assert (2 ^ k <= 2 ^ 64) by (apply pow2_le; lia).
  replace (2 ^ 64 - 2 ^ k) with (not_w 64 (2 ^ k - 1)).
  2:{ unfold not_w, wrap, Z.lnot. replace (Z.pred (- (2 ^ k - 1))) with (2 ^ 64 - 2 ^ k + (-1) * 2 ^ 64)
        by lia. rewrite Z_mod_plus_full. apply Z.mod_small. lia. }
  rewrite land_not_mask by (done || lia || by apply lxor_range).
  apply eq_iff_eq_true. rewrite !Z.eqb_eq, <- !Z.shiftr_div_pow2 by lia.
  rewrite <- (Z.lxor_eq_0_iff (Z.shiftr a k) (Z.shiftr b k)), <- Z.shiftr_lxor, Z.shiftr_div_pow2 by lia.
  pose proof (Z.div_mod (Z.lxor a b) (2 ^ k) ltac:(lia)). nia.
Qed.

(** A power-of-two entry matches the addresses that share its prefix. *)
Lemma match4_spec h n q j a :
  unit_ok h -> 0 <= n < 64 -> 0 <= q -> 0 <= j < 62 -> in_range 64 a ->
  (Z.land (ent_cfg (ent h n)) PMP_A = PMP_A_NA4 \/ Z.land (ent_cfg (ent h n)) PMP_A = PMP_A_NAPOT) ->
  2 * ent_val (ent h n) + (if Z.land (ent_cfg (ent h n)) PMP_A =? PMP_A_NA4 then 0 else 1) =
    q * 2 ^ (j + 1) + (2 ^ j - 1) ->
  match4 h n a = (a / 2 ^ (j + 2) =? q).
Proof.
  intros Hh Hn Hq Hj Ha HA Hv. pose proof (uo_val h Hh n Hn) as Hr. unfold in_range in Hr.
  unfold match4. rewrite (uo_en h Hh). cbn [andb].
  assert ((Z.land (ent_cfg (ent h n)) PMP_A =? 0) = false /\
    (Z.land (ent_cfg (ent h n)) PMP_A =? PMP_A_TOR) = false) as [-> ->]
    by lia.
  rewrite (napot_mask_spec h n q j) by done. unfold tor_paddr.
  rewrite (tor_mask_all h Hh). unfold ULONG_MAX. rewrite (land_all 64) by lia.
  unfold shl64. rewrite Z.shiftl_mul_pow2 by lia. rewrite wrap_id by lia.
  rewrite lxor_high_zero by (done || unfold in_range; lia). f_equal.
  assert (2 ^ (j + 2) = 4 * 2 ^ j /\ 2 ^ (j + 1) = 2 * 2 ^ j) as [E2 E1].
  { rewrite !Z.pow_add_r by lia. lia. }
  symmetry. pose proof (pow2_pos j ltac:(lia)).
  destruct (_ =? _); [apply (Z.div_unique _ _ _ (2 * (2 ^ j - 1)))|
    apply (Z.div_unique _ _ _ (2 * (2 ^ j - 2)))]; nia.
Qed.

(** *** Setting an entry *)

(** What [sbi_pmp_encode] puts in the configuration byte. *)
Definition prot_cfg (prot k : Z) : Z := if k =? 2 then prot_na4 prot else prot_napot prot.

Lemma prot_cfg_A prot k :
  Z.land (prot_cfg prot k) PMP_A = if k =? 2 then PMP_A_NA4 else PMP_A_NAPOT.
Proof. unfold prot_cfg. case_bool; [apply prot_na4_A|apply prot_napot_A]. Qed.

Lemma prot_cfg_LRWX prot k : Z.land (prot_cfg prot k) PMP_LRWX = Z.land prot PMP_LRWX.
Proof. unfold prot_cfg. case_bool; apply prot_LRWX; auto. Qed.

Lemma prot_cfg_range prot k : in_range 8 (prot_cfg prot k).
Proof. unfold prot_cfg. case_bool; by apply wrap_range. Qed.

(** Without machine-mode lockdown write-only is not a legal permission. *)
Definition perm_legal (h : pmp_unit) (prot : Z) : bool :=
  get_mml h || truthy (Z.land prot PMP_R) || negb (truthy (Z.land prot PMP_W)).

Lemma perm_legal_ext h prot prot' :
  Z.land prot PMP_LRWX = Z.land prot' PMP_LRWX -> perm_legal h prot = perm_legal h prot'.
Proof.
  intros E. unfold perm_legal.
  assert (forall m, Z.land PMP_LRWX m = m -> Z.land prot m = Z.land prot' m) as Hm.
  { intros m <-. by rewrite !Z.land_assoc, E. }
  by rewrite (Hm PMP_R), (Hm PMP_W).
Qed.

Lemma legal_cfg_keeps h c :
  unit_ok h -> in_range 8 c ->
  Z.land (legal_cfg h c) PMP_A = Z.land c PMP_A /\
  (perm_legal h c = true -> Z.land (legal_cfg h c) PMP_LRWX = Z.land c PMP_LRWX).
Proof.
  intros Hh Hc. rewrite (legal_cfg_unit h c Hh), (wrap_id 8) by done.
  set (p := fun b l => (Z.land l PMP_A =? Z.land b PMP_A) &&
    (negb (get_mml h || truthy (Z.land b PMP_R) || negb (truthy (Z.land b PMP_W))) ||
     (Z.land l PMP_LRWX =? Z.land b PMP_LRWX))).
  assert (p c (legal_cfg (legal_unit (get_mml h)) c) = true) as Hp.
  { apply legal_table_spec; [|done]. unfold p. by destruct (get_mml h). }
  unfold p in Hp. apply andb_true_iff in Hp as [H1 H2]. split; [by apply Z.eqb_eq|].
  unfold perm_legal. intros Hperm. rewrite Hperm in H2. by apply Z.eqb_eq.
Qed.

(** The stored entry of a region of order [k] based at [q * 2^k]. *)
Definition region_entry (h : pmp_unit) (prot q k : Z) : pmp_entry :=
  mkEntry (if k =? 2 then q else if k <? 57 then napot_value k q else 2 ^ 54 - 1)
    (legal_cfg h (prot_cfg prot k)).

(** The region lies in the 56-bit physical space, or spans all of it. *)
Definition region_fits (q k : Z) : Prop :=
  (2 <= k <= 56 /\ 0 <= q /\ (q + 1) * 2 ^ k <= 2 ^ 56) \/ (57 <= k <= 64 /\ q = 0).

Lemma napot_value_low k q : 3 <= k <= 56 -> 0 <= q -> (q + 1) * 2 ^ k <= 2 ^ 56 ->
  0 <= napot_value k q < 2 ^ 54.
Proof.
  intros Hk Hq Hb. unfold napot_value. pose proof (pow2_pos (k - 3) ltac:(lia)).
  assert (2 ^ (k - 2) = 2 * 2 ^ (k - 3)) by (rewrite <- Z.pow_succ_r by lia; f_equal; lia).
  assert (2 ^ k = 8 * 2 ^ (k - 3)) as E8.
  { change 8 with (2 ^ 3). rewrite <- Z.pow_add_r by lia. f_equal. lia. }
  rewrite E8 in Hb. nia.
Qed.

Lemma napot_value_all k : 57 <= k < 64 -> napot_value k 0 mod 2 ^ 54 = 2 ^ 54 - 1.
Proof.
  intros Hk. unfold napot_value. rewrite (pow2_split 54 (k - 3)) by lia.
  replace (0 * 2 ^ (k - 2) + (2 ^ (k - 3 - 54) * 2 ^ 54 - 1))
    with ((2 ^ 54 - 1) + (2 ^ (k - 3 - 54) - 1) * 2 ^ 54) by lia.
  rewrite Z.mod_add by lia. done.
Qed.

Lemma encode_cases prot k addr : in_range 64 addr -> 2 <= k <= 64 ->
  sbi_pmp_encode prot addr k = (SBI_OK, Some (mkPmp
    (if k =? 2 then addr / 4 else if k =? 64 then ULONG_MAX else napot_value k (addr / 2 ^ k))
    (prot_cfg prot k))).
Proof.
  intros Ha Hk. unfold prot_cfg. destruct (Z.eqb_spec k 2) as [->|H2].
  - unfold sbi_pmp_encode. simpl. by rewrite Z.shiftr_div_pow2.
  - destruct (Z.eqb_spec k 64) as [->|H64]; [done|]. apply encode_napot; [lia|done].
Qed.

Lemma encode_region prot q k : region_fits q k ->
  exists pmp, sbi_pmp_encode prot (q * 2 ^ k) k = (SBI_OK, Some pmp) /\
    (forall h, Z.land (pmp_addr pmp) (2 ^ 54 - 1) = ent_val (region_entry h prot q k)) /\
    pmp_cfg pmp = prot_cfg prot k.
Proof.
  intros Hf. pose proof (pow2_pos k ltac:(unfold region_fits in Hf; lia)) as Hp.
  assert (2 <= k <= 64 /\ in_range 64 (q * 2 ^ k)) as [Hk Ha].
  { unfold in_range. destruct Hf as [(? & ? & ?)|[? ->]]; lia. }
  rewrite encode_cases by done. eexists. split_and!; [done| |done].
  intros h. unfold region_entry. cbn [pmp_addr ent_val]. rewrite land_ones_mod by lia.
  destruct Hf as [(Hk' & Hq & Hb)|[Hk' ->]].
  - rewrite (proj2 (Z.eqb_neq k 64)), (proj2 (Z.ltb_lt k 57)) by lia.
    destruct (Z.eqb_spec k 2) as [->|H2].
    + change (2 ^ 2) with 4 in *. rewrite Z.div_mul by lia. apply Z.mod_small. lia.
    + rewrite Z.div_mul by lia. apply Z.mod_small. apply napot_value_low; lia.
  - rewrite (proj2 (Z.eqb_neq k 2)), (proj2 (Z.ltb_ge k 57)) by lia.
    destruct (Z.eqb_spec k 64) as [->|]; [done|]. rewrite Z.div_mul by lia.
    apply napot_value_all. lia.
Qed.

Lemma region_entry_val h prot q k : region_fits q k -> in_range 54 (ent_val (region_entry h prot q k)).
Proof.
  intros Hf. destruct (encode_region prot q k Hf) as (pmp & _ & Hv & _). rewrite <- Hv.
  unfold in_range. rewrite land_ones_mod by lia. apply Z.mod_pos_bound. lia.
Qed.

Lemma hart_pmp_set_spec h n prot q k :
  unit_ok h -> writable h n = true -> region_fits q k ->
  cfg_accepted h (legal_cfg h (prot_cfg prot k)) = true ->
  sbi_hart_pmp_set h n prot (q * 2 ^ k) k = (SBI_OK, set_ent h n (region_entry h prot q k)) /\
  unit_ok (set_ent h n (region_entry h prot q k)).
Proof.
  intros Hh Hw Hf Ha. destruct (encode_region prot q k Hf) as (pmp & He & Hv & Hc).
  pose proof (uo_n h Hh). split.
  - unfold sbi_hart_pmp_set. rewrite He, hart_pmp_write_spec; try done.
    + rewrite (Hv h), Hc. done.
    + rewrite Hc. apply prot_cfg_range.
    + by rewrite Hc.
  - apply unit_ok_set; [done|unfold writable in Hw; lia|by apply region_entry_val| |];
      cbn [region_entry ent_cfg]; by apply legal_cfg_props.
Qed.

Lemma region_entry_match h n prot q k a :
  unit_ok h -> 0 <= n < 64 -> region_fits q k -> ent h n = region_entry h prot q k ->
  in_range 56 a -> match4 h n a = (a / 2 ^ k =? q).
Proof.
  intros Hh Hn Hf He Ha. unfold in_range in Ha.
  assert (Z.land (ent_cfg (ent h n)) PMP_A = if k =? 2 then PMP_A_NA4 else PMP_A_NAPOT) as HA.
  { rewrite He. cbn [region_entry ent_cfg].
    rewrite (proj1 (legal_cfg_keeps h _ Hh (prot_cfg_range prot k))). apply prot_cfg_A. }
  assert (forall j qq, 0 <= qq -> 0 <= j < 62 ->
    2 * ent_val (ent h n) + (if k =? 2 then 0 else 1) = qq * 2 ^ (j + 1) + (2 ^ j - 1) ->
    match4 h n a = (a / 2 ^ (j + 2) =? qq)) as Hm.
  { intros j qq Hqq Hj Hv. apply match4_spec; try done; [unfold in_range; lia| |].
    - rewrite HA. case_bool; auto.
    - rewrite HA. destruct (k =? 2); done. }
  rewrite He in Hm. unfold region_entry in Hm. cbn [ent_val] in Hm.
  destruct Hf as [(Hk & Hq & Hb)|[Hk ->]].
  - replace (a / 2 ^ k) with (a / 2 ^ (k - 2 + 2)) by (do 2 f_equal; lia). apply Hm; [lia..|].
    destruct (Z.eqb_spec k 2) as [->|H2]; [simpl; lia|].
    rewrite (proj2 (Z.ltb_lt k 57)) by lia. unfold napot_value.
    replace (k - 2 + 1) with (Z.succ (k - 2)) by lia. rewrite Z.pow_succ_r by lia.
    replace (k - 2) with (Z.succ (k - 3)) by lia. rewrite Z.pow_succ_r by lia. lia.
  - rewrite (Hm 55 0); [|lia..|].
    + change (55 + 2) with 57. rewrite Z.div_small by lia. rewrite Z.div_small; [done|].
      assert (2 ^ 57 <= 2 ^ k) by (apply pow2_le; lia). lia.
    + by rewrite (proj2 (Z.eqb_neq k 2)), (proj2 (Z.ltb_ge k 57)) by lia.
Qed.

(** The address lies in the naturally aligned region. *)
Lemma region_member q k a : 0 <= k ->
  (a / 2 ^ k =? q) = (q * 2 ^ k <=? a) && (a <? q * 2 ^ k + 2 ^ k).
Proof.
  intros Hk. pose proof (pow2_pos k Hk). apply eq_iff_eq_true.
  rewrite andb_true_iff, Z.eqb_eq, Z.leb_le, Z.ltb_lt.
  pose proof (Z.div_mod a (2 ^ k) ltac:(lia)). pose proof (Z.mod_pos_bound a (2 ^ k) ltac:(lia)).
  split; [intros <-; nia|]. intros. nia.
Qed.

Lemma decode_region h prot q k : unit_ok h -> 2 <= k <= 56 -> region_fits q k ->
  let e := region_entry h prot q k in
  sbi_pmp_decode (mkPmp (ent_val e) (ent_cfg e)) = (ent_cfg e, q * 2 ^ k, k).
Proof.
  intros Hh Hk Hf e.
  assert (Z.land (ent_cfg e) PMP_A = if k =? 2 then PMP_A_NA4 else PMP_A_NAPOT) as HA.
  { unfold e. cbn [region_entry ent_cfg].
    rewrite (proj1 (legal_cfg_keeps h _ Hh (prot_cfg_range prot k))). apply prot_cfg_A. }
  destruct Hf as [(_ & Hq & Hb)|[? _]]; [|lia]. pose proof (pow2_pos k ltac:(lia)).
  destruct (Z.eqb_spec k 2) as [->|H2].
  - unfold sbi_pmp_decode. cbn [pmp_cfg pmp_addr]. rewrite HA. simpl.
    unfold shl64. rewrite Z.shiftl_mul_pow2, wrap_id by lia. done.
  - pose proof (decode_napot 0 k q ltac:(lia) Hq ltac:(lia)) as Hd. revert Hd.
    unfold sbi_pmp_decode. cbn [pmp_cfg pmp_addr]. rewrite prot_napot_A, HA.
    replace (ent_val e) with (napot_value k q).
    2:{ unfold e, region_entry. cbn [ent_val].
        by rewrite (proj2 (Z.eqb_neq k 2)), (proj2 (Z.ltb_lt k 57)) by lia. }
    change (PMP_A_NAPOT =? PMP_A_NAPOT) with true. cbv iota.
    destruct (napot_value k q =? ULONG_MAX); intros Hd; injection Hd; congruence.
Qed.

Lemma hart_pmp_disable_spec h n :
  unit_ok h -> writable h n = true ->
  sbi_hart_pmp_disable h n = (SBI_OK, set_ent h n (mkEntry (ent_val (ent h n)) 0)) /\
  unit_ok (set_ent h n (mkEntry (ent_val (ent h n)) 0)).
Proof.
  intros Hh Hw. pose proof (uo_n h Hh).
  assert (0 <= n < n_pmp h) as Hn by (unfold writable in Hw; lia).
  assert (legal_cfg h 0 = 0) as Hl.
  { rewrite legal_cfg_unit by done. by destruct (get_mml h). }
  pose proof (uo_val h Hh n ltac:(lia)) as Hv. split.
  - unfold sbi_hart_pmp_disable. rewrite hart_pmp_read_spec by done.
    rewrite hart_pmp_write_spec; cbn [pmp_cfg pmp_addr]; try done.
    + rewrite Hl, land_ones_mod by lia. by rewrite Z.mod_small.
    + rewrite Hl. unfold cfg_accepted. cbn. by rewrite andb_false_r, orb_true_r.
  - apply unit_ok_set; simpl; [done|lia|done|by unfold in_range|done].
Qed.

Lemma match4_off h n a : Z.land (ent_cfg (ent h n)) PMP_A = 0 -> match4 h n a = false.
Proof. intros E. unfold match4. rewrite E. by repeat case_match. Qed.

(** *** Locked entries *)

(** What a lock on entry [i] keeps: the entry, and the address below it when
    the entry ranges up from that address. *)
Record lock_kept (i : Z) (h h' : pmp_unit) : Prop := {
  lk_len : length (pmpaddr h') = length (pmpaddr h);
  lk_rlb : get_rlb h' = get_rlb h;
  lk_ent : ent h' i = ent h i;
  lk_tor : Z.land (ent_cfg (ent h i)) PMP_A = PMP_A_TOR -> 0 < i ->
    ent_val (ent h' (i - 1)) = ent_val (ent h (i - 1))
}.

Lemma lock_kept_refl i h : lock_kept i h h.
Proof. by constructor. Qed.

Lemma lock_kept_trans i h1 h2 h3 : lock_kept i h1 h2 -> lock_kept i h2 h3 -> lock_kept i h1 h3.
Proof.
  intros [L1 R1 E1 T1] [L2 R2 E2 T2]. constructor; try congruence.
  intros HA Hi. rewrite T2 by (congruence || lia). by apply T1.
Qed.

Definition locked (h : pmp_unit) (i : Z) : Prop :=
  length (pmpaddr h) = 64%nat /\ 0 <= i < 64 /\ get_rlb h = false /\
  truthy (Z.land (ent_cfg (ent h i)) PMP_L) = true.

Lemma locked_kept i h h' : lock_kept i h h' -> locked h i -> locked h' i.
Proof. intros [L R E _] (?&?&?&?). split_and!; try congruence; lia. Qed.

Lemma pmpcfg_write_one_lock i h j b : locked h i -> 0 <= j -> lock_kept i h (pmpcfg_write_one h j b).
Proof.
  intros (Hlen & Hi & Hr & Hlock) Hj. unfold pmpcfg_write_one.
  destruct (Z.ltb_spec j (n_pmp h)); [|apply lock_kept_refl]. rewrite Hr. cbn [orb].
  destruct (truthy (Z.land (ent_cfg (ent h j)) PMP_L)) eqn:Hlj; cbn [negb]; [apply lock_kept_refl|].
  case_bool; [|apply lock_kept_refl].
  assert (j <> i) by congruence. destruct (decide (j < 64)).
  - constructor; simpl; [by rewrite length_insert|done|by apply ent_set_ne; lia|].
    intros _ Hi0. rewrite ent_set by lia. case_bool; [|done]. bool_to_prop. by subst.
  - unfold set_ent. rewrite list_insert_ge by lia.
    destruct h; apply lock_kept_refl.
Qed.

Lemma pmpcfg_write_lock i h num v : locked h i -> CSR_PMPCFG0 <= num -> lock_kept i h (pmpcfg_write h num v).
Proof.
  intros Hl Hnum. unfold pmpcfg_write. case_bool; [apply lock_kept_refl|].
  assert (forall l h, locked h i -> (forall j, j ∈ l -> 0 <= j) -> lock_kept i h
    (foldl (fun h i => pmpcfg_write_one h i (Z.shiftr v (8 * (i - (num - CSR_PMPCFG0) * 4)))) h l)) as Hf.
  { induction l as [|j l IH]; intros h' Hl' Hj; [apply lock_kept_refl|]. simpl.
    assert (lock_kept i h' (pmpcfg_write_one h' j (Z.shiftr v (8 * (j - (num - CSR_PMPCFG0) * 4)))))
      as Hk by (apply pmpcfg_write_one_lock; [done|apply Hj; left]).
    eapply lock_kept_trans; [exact Hk|]. apply IH; [by eapply locked_kept|].
    intros; apply Hj; by right. }
  apply Hf; [done|]. intros j Hj%elem_of_seqZ. lia.
Qed.

Lemma pmpaddr_write_lock i h j v : locked h i -> 0 <= j -> lock_kept i h (pmpaddr_write h j v).
Proof.
  intros (Hlen & Hi & Hr & Hlock) Hj. unfold pmpaddr_write.
  case_bool; [apply lock_kept_refl|]. case_bool; [apply lock_kept_refl|]. rewrite Hr.
  destruct (_ || _) eqn:E1; [apply lock_kept_refl|].
  apply orb_false_iff in E1 as [[_ Hlj]%orb_false_iff Hnt]. cbn [negb andb] in Hlj.
  assert (j <> i) by congruence. destruct (decide (j < 64)).
  - constructor; simpl; [by rewrite length_insert|done|by apply ent_set_ne; lia|].
    intros HA Hi0. rewrite ent_set by lia. case_bool; [|done]. bool_to_prop. subst j.
    unfold next_locked_and_tor, max_pmp in Hnt. replace (i - 1 + 1) with i in Hnt by lia.
    rewrite (proj2 (Z.leb_gt 64 i)), Hr, Hlock, HA in Hnt by lia. done.
  - unfold set_ent. rewrite list_insert_ge by lia. destruct h; apply lock_kept_refl.
Qed.

(** A write to one of the PMP registers, as (number, value). *)
Definition pmp_csr_write (h : pmp_unit) (w : Z * Z) : pmp_unit := csr_write_num h w.1 w.2.

Lemma pmp_csr_writes_lock i ws : forall h,
  locked h i -> Forall (fun w => CSR_PMPCFG0 <= w.1 < CSR_PMPADDR0 + 64) ws ->
  lock_kept i h (foldl pmp_csr_write h ws).
Proof.
  induction ws as [|w ws IH]; intros h Hl Hws; [apply lock_kept_refl|].
  apply Forall_cons in Hws as [Hw Hws]. simpl.
  assert (lock_kept i h (pmp_csr_write h w)) as Hk.
  { unfold pmp_csr_write, csr_write_num. case_bool; [apply pmpcfg_write_lock; [done|lia]|].
    case_bool; [|apply lock_kept_refl]. apply pmpaddr_write_lock; [done|]. lia. }
  eapply lock_kept_trans; [exact Hk|]. apply IH; [by eapply locked_kept|done].
Qed.

(** ** Properties *)

(** [sbi_pmp_encode] refuses region sizes outside 4 bytes to the whole
    space with [SBI_EINVAL] and otherwise produces an enabled entry that
    [sbi_pmp_decode] reads back as the naturally aligned region holding the
    address, of the same size and with the same lock, read, write and execute
    bits. *)
Theorem pmp_encode_decode prot addr k :
  in_range 64 addr ->
  (k < 2 \/ 64 < k -> sbi_pmp_encode prot addr k = (SBI_EINVAL, None)) /\
  (2 <= k <= 64 ->
   exists pmp prot', sbi_pmp_encode prot addr k = (SBI_OK, Some pmp) /\
     sbi_pmp_is_enabled pmp = true /\
     sbi_pmp_decode pmp = (prot', addr - addr mod 2 ^ k, k) /\
     Z.land prot' PMP_LRWX = Z.land prot PMP_LRWX).
Proof.
  intros Ha. split.
  - intros Hk. unfold sbi_pmp_encode, XLEN.
    destruct Hk; [rewrite (proj2 (Z.ltb_lt k 2)) by lia; by rewrite orb_true_r|
      by rewrite (proj2 (Z.ltb_lt 64 k)) by lia].
  - intros Hk. rewrite encode_cases by done. eexists _, (prot_cfg prot k). split_and!; [done| | |].
    + unfold sbi_pmp_is_enabled. cbn [pmp_cfg]. rewrite prot_cfg_A. by destruct (k =? 2).
    + unfold in_range in Ha. pose proof (pow2_pos k ltac:(lia)).
      pose proof (Z.div_mod addr (2 ^ k) ltac:(lia)) as Hdm.
      replace (addr - addr mod 2 ^ k) with (addr / 2 ^ k * 2 ^ k) by lia.
      assert (addr / 2 ^ k * 2 ^ k < 2 ^ 64) by (pose proof (Z.mod_pos_bound addr (2 ^ k) ltac:(lia)); lia).
      assert (0 <= addr / 2 ^ k) by (apply Z.div_pos; lia).
      destruct (Z.eqb_spec k 2) as [->|H2].
      * change (2 ^ 2) with 4 in *. unfold sbi_pmp_decode. cbn [pmp_cfg pmp_addr]. rewrite prot_cfg_A. simpl.
        unfold shl64. rewrite Z.shiftl_mul_pow2 by lia. change (2 ^ 2) with 4. rewrite wrap_id by lia. done.
      * destruct (Z.eqb_spec k 64) as [->|H64].
        -- unfold sbi_pmp_decode. cbn [pmp_cfg pmp_addr]. rewrite prot_cfg_A. simpl.
           rewrite Z.div_small by lia. done.
        -- unfold prot_cfg. rewrite (proj2 (Z.eqb_neq k 2)) by lia. apply decode_napot; lia.
    + apply prot_cfg_LRWX.
Qed.

Lemma pmp_encode_decode_witness :
  in_range 64 0x80001234 /\
  exists pmp prot', sbi_pmp_encode 0x87 0x80001234 12 = (SBI_OK, Some pmp) /\
    sbi_pmp_is_enabled pmp = true /\ sbi_pmp_decode pmp = (prot', 0x80001000, 12) /\
    Z.land prot' PMP_LRWX = 0x87.
Proof.
  assert (in_range 64 0x80001234) as Hr by (split; vm_compute; congruence).
  split; [exact Hr|].
  exact (proj2 (pmp_encode_decode 0x87 0x80001234 12 Hr) ltac:(lia)).
Defined.

(** C35: on a hart with 4-byte granularity and 56-bit addresses,
    [sbi_hart_pmp_set] on a writable entry succeeds, leaves every other entry
    alone although eight of them share a configuration register, is read back
    by [sbi_hart_pmp_get] with the same region and permissions, and makes the
    entry match exactly the addresses of the region. *)
Theorem hart_pmp_set_exact h n prot q k :
  unit_ok h -> writable h n = true -> region_fits q k ->
  cfg_accepted h (legal_cfg h (prot_cfg prot k)) = true -> perm_legal h prot = true ->
  exists h', sbi_hart_pmp_set h n prot (q * 2 ^ k) k = (SBI_OK, h') /\ unit_ok h' /\
    (forall i, 0 <= i < 64 -> i <> n -> ent h' i = ent h i) /\
    (exists prot', (k <= 56 -> sbi_hart_pmp_get h' n = (SBI_OK, Some (prot', q * 2 ^ k, k))) /\
       ent_cfg (ent h' n) = prot' /\ Z.land prot' PMP_LRWX = Z.land prot PMP_LRWX) /\
    (forall a, in_range 56 a ->
       match4 h' n a = (q * 2 ^ k <=? a) && (a <? q * 2 ^ k + 2 ^ k)).
Proof.
  intros Hh Hw Hf Ha Hp. pose proof (uo_n h Hh). pose proof (uo_len h Hh).
  assert (0 <= n < n_pmp h) as Hn by (unfold writable in Hw; lia).
  destruct (hart_pmp_set_spec h n prot q k Hh Hw Hf Ha) as [Hset Hok].
  set (h' := set_ent h n (region_entry h prot q k)) in *.
  assert (ent h' n = region_entry h' prot q k) as He.
  { unfold h'. rewrite ent_set_eq by lia. unfold region_entry. by f_equal. }
  exists h'. split_and!; [done|done| | |].
  - intros i Hi Hne. apply ent_set_ne; lia.
  - exists (ent_cfg (ent h' n)). split_and!; [|done|].
    + intros Hk. unfold sbi_hart_pmp_get. rewrite hart_pmp_read_spec by done.
      rewrite He. rewrite decode_region; [done|done|unfold region_fits in Hf; lia|done].
    + rewrite He. cbn [region_entry ent_cfg].
      destruct (legal_cfg_keeps h' _ Hok (prot_cfg_range prot k)) as [_ Hk].
      rewrite Hk, prot_cfg_LRWX; [done|].
      rewrite (perm_legal_ext h' _ prot); [done|apply prot_cfg_LRWX].
  - intros a Ha'. rewrite <- region_member by (unfold region_fits in Hf; lia).
    apply region_entry_match with (prot := prot); (done || lia).
Qed.

Lemma hart_pmp_set_exact_witness :
  let h := legal_unit false in
  exists h', sbi_hart_pmp_set h 9 7 (4 * 2 ^ 12) 12 = (SBI_OK, h') /\ unit_ok h' /\
    (forall i, 0 <= i < 64 -> i <> 9 -> ent h' i = ent h i) /\
    (exists prot', (12 <= 56 -> sbi_hart_pmp_get h' 9 = (SBI_OK, Some (prot', 4 * 2 ^ 12, 12))) /\
       ent_cfg (ent h' 9) = prot' /\ Z.land prot' PMP_LRWX = Z.land 7 PMP_LRWX) /\
    (forall a, in_range 56 a ->
       match4 h' 9 a = (4 * 2 ^ 12 <=? a) && (a <? 4 * 2 ^ 12 + 2 ^ 12)).
Proof.
  intros h. apply (hart_pmp_set_exact h 9 7 4 12); [apply legal_unit_ok|reflexivity| |reflexivity..].
  left. lia.
Defined.

(** C36: while RLB is clear a locked entry survives every sequence of
    writes to the PMP registers, and so does the address register below it
    when the entry is a top-of-range one. *)
Theorem locked_entry_immutable h i ws :
  locked h i -> Forall (fun w => CSR_PMPCFG0 <= w.1 < CSR_PMPADDR0 + 64) ws ->
  let h' := foldl pmp_csr_write h ws in
  ent h' i = ent h i /\
  (Z.land (ent_cfg (ent h i)) PMP_A = PMP_A_TOR -> 0 < i ->
   ent_val (ent h' (i - 1)) = ent_val (ent h (i - 1))).
Proof. intros Hl Hws h'. destruct (pmp_csr_writes_lock i ws h Hl Hws) as [_ _ He Ht]. done. Qed.

Lemma locked_entry_immutable_witness :
  let h := set_ent (legal_unit false) 1 (mkEntry 0x2000 0x8f) in
  let h' := foldl pmp_csr_write h [(CSR_PMPCFG0, 0); (CSR_PMPADDR0 + 1, 7); (CSR_PMPADDR0, 7)] in
  ent h' 1 = ent h 1 /\ ent_val (ent h' 0) = ent_val (ent h 0).
Proof.
  intros h h'.
  assert (locked h 1 /\ Forall (fun w => CSR_PMPCFG0 <= w.1 < CSR_PMPADDR0 + 64)
    [(CSR_PMPCFG0, 0); (CSR_PMPADDR0 + 1, 7); (CSR_PMPADDR0, 7)]) as [H1 H2].
  { split; [split_and!; by vm_compute|]. repeat constructor; by vm_compute. }
  destruct (locked_entry_immutable h 1 _ H1 H2) as [Ha Hb]. split; [exact Ha|].
  apply Hb; reflexivity.
Defined.
