(* ===== verification/Memregion.v ===== *)
(** * Memory regions of a domain

    The region layer of lib/sbi/sbi_domain.c and include/sbi/sbi_domain.h
    (xendor/opensbi): naturally aligned power-of-two regions, their access
    flags, the sort and the pruning done by [sanitize_domain], the address
    checks, and the merging done when a region is added to the root domain.

    The array [dom->regions], which ends at the first element of order zero, is
    the list of the elements before it.  Theorems: a region made from a range
    covers it and is the least one; the range check agrees with a check of
    every address in it and terminates; after sorting and pruning the most
    specific region decides.  Three places where they do not hold are proved as such. *)

From S2P Require Import Prelude Bitops.
From stdpp Require Export sorting.

Local Open Scope Z_scope.

Record memregion := mkReg { order : Z; base : Z; flags : Z }.

#[export] Instance memregion_eq_dec : EqDecision memregion.
Proof. solve_decision. Defined.

Abbreviation SBI_DOMAIN_READ := 1.
Abbreviation SBI_DOMAIN_WRITE := 2.
Abbreviation SBI_DOMAIN_EXECUTE := 4.
Abbreviation SBI_DOMAIN_MMIO := 8.

Abbreviation MEMREGION_M_READABLE := 1.
Abbreviation MEMREGION_M_WRITABLE := 2.
Abbreviation MEMREGION_M_EXECUTABLE := 4.
Abbreviation MEMREGION_SU_READABLE := 8.
Abbreviation MEMREGION_SU_WRITABLE := 16.
Abbreviation MEMREGION_SU_EXECUTABLE := 32.
Abbreviation MEMREGION_ACCESS_MASK := 0x3f.
Abbreviation MEMREGION_M_ACCESS_MASK := 0x7.
Abbreviation MEMREGION_SU_ACCESS_MASK := 0x38.
Abbreviation MEMREGION_SU_ACCESS_SHIFT := 3.
Abbreviation MEMREGION_ENF_PERMISSIONS := 0x40.
Abbreviation MEMREGION_M_RWX := 7.
Abbreviation MEMREGION_FW := (2 ^ 30).
Abbreviation MEMREGION_MMIO := (2 ^ 31).

Definition is_firmware (flags : Z) : bool := truthy (Z.land flags MEMREGION_FW).

(** The last address of a region. *)
Definition rend (r : memregion) : Z :=
  if order r <? 64 then u64 (base r + (shl64 1 (order r) - 1)) else ULONG_MAX.

Definition sbi_domain_memregion_is_subset (regA regB : memregion) : bool :=
  let regA_start := base regA in
  let regA_mask := if 64 <=? order regA then ULONG_MAX else BIT (order regA) - 1 in
  let regA_end := u64 (regA_start + regA_mask) in
  let regB_start := base regB in
  let regB_mask := if 64 <=? order regB then ULONG_MAX else BIT (order regB) - 1 in
  let regB_end := u64 (regB_start + regB_mask) in
  (regB_start <=? regA_start) && (regA_start <? regB_end) && (regB_start <? regA_end) &&
  (regA_end <=? regB_end).

(** From any order the loop stops at 64 at the latest. *)
Fixpoint memregion_init_loop (fuel : nat) (addr size ord : Z) : Z * Z :=
  match fuel with
  | O => (0, ord)
  | S fuel =>
      if ord <? 64 then
        let base := Z.land addr (not_w 64 (shl64 1 ord - 1)) in
        let last := u64 (addr + size - 1) in
        let top := u64 (base + shl64 1 ord) in
        if (base <=? addr) && (addr <? top) && (base <=? last) && (last <? top)
        then (base, ord) else memregion_init_loop fuel addr size (ord + 1)
      else (0, ord)
  end.

Definition sbi_domain_memregion_init (addr size flags : Z) : memregion :=
  let '(base, ord) := memregion_init_loop 65 addr size (log2roundup size) in
  mkReg ord base flags.

Definition in_region (r : memregion) (addr : Z) : bool := (base r <=? addr) && (addr <=? rend r).

(** What an access asks of the flags of the region it hits. *)
Definition access_rwx (access_flags : Z) : Z :=
  let rwx := if truthy (Z.land access_flags SBI_DOMAIN_READ) then MEMREGION_M_READABLE else 0 in
  let rwx := if truthy (Z.land access_flags SBI_DOMAIN_WRITE)
             then Z.lor rwx MEMREGION_M_WRITABLE else rwx in
  if truthy (Z.land access_flags SBI_DOMAIN_EXECUTE) then Z.lor rwx MEMREGION_M_EXECUTABLE else rwx.

Definition region_allows (rflags mode access_flags : Z) : bool :=
  let rwx := access_rwx access_flags in
  let mmio := truthy (Z.land access_flags SBI_DOMAIN_MMIO) in
  let rrwx := if mode =? 3 then Z.land rflags MEMREGION_M_ACCESS_MASK
    else Z.shiftr (Z.land rflags MEMREGION_SU_ACCESS_MASK) MEMREGION_SU_ACCESS_SHIFT in
  let rmmio := truthy (Z.land rflags MEMREGION_MMIO) in
  if negb mmio && rmmio then false else Z.land rrwx rwx =? rwx.

Fixpoint check_addr (regs : list memregion) (addr mode access_flags : Z) : bool :=
  match regs with
  | [] => mode =? 3
  | reg :: regs' =>
      if in_region reg addr then region_allows (flags reg) mode access_flags
      else check_addr regs' addr mode access_flags
  end.

Definition is_region_valid (reg : memregion) : bool :=
  if (order reg <? 3) || (64 <? order reg) then false
  else if (order reg =? 64) && negb (base reg =? 0) then false
  else if (order reg <? 64) && truthy (Z.land (base reg) (BIT (order reg) - 1)) then false
  else true.

Definition is_region_compatible (regA regB : memregion) : bool :=
  sbi_domain_memregion_is_subset regA regB && (flags regA =? flags regB).

Definition is_region_before (regA regB : memregion) : bool :=
  if is_firmware (flags regA) && negb (is_firmware (flags regB)) then true
  else if negb (is_firmware (flags regA)) && is_firmware (flags regB) then false
  else if order regA <? order regB then true
  else (order regA =? order regB) && (base regA <? base regB).

(** The first region holding the address, with its index: the code compares
    pointers to tell a region from an equal copy of it. *)
Fixpoint find_region_from (i : nat) (regs : list memregion) (addr : Z) : option (nat * memregion) :=
  match regs with
  | [] => None
  | reg :: regs' => if in_region reg addr then Some (i, reg) else find_region_from (S i) regs' addr
  end.

Definition find_region := find_region_from 0.

(** One iteration: element [i] against the candidate so far. *)
Definition next_subset_step (ri : nat) (reg : memregion) (addr : Z) (i : nat) (sreg : memregion)
    (ret : option memregion) : option memregion :=
  if bool_decide (i = ri) || (base sreg <=? addr) || negb (sbi_domain_memregion_is_subset sreg reg)
  then ret
  else
    match ret with
    | None => Some sreg
    | Some r =>
        if (base sreg <? base r) || ((base sreg =? base r) && (order sreg <? order r))
        then Some sreg else ret
    end.

Fixpoint next_subset_from (i : nat) (sregs : list memregion) (ri : nat) (reg : memregion)
    (addr : Z) (ret : option memregion) : option memregion :=
  match sregs with
  | [] => ret
  | sreg :: sregs' =>
      next_subset_from (S i) sregs' ri reg addr (next_subset_step ri reg addr i sreg ret)
  end.

Definition find_next_subset_region (regs : list memregion) (ri : nat) (reg : memregion) (addr : Z) :
    option memregion := next_subset_from 0 regs ri reg addr None.

(** [None] is a loop still running when the fuel ends. *)
Fixpoint check_range_loop (fuel : nat) (regs : list memregion) (addr max mode access_flags : Z) :
    option bool :=
  match fuel with
  | O => None
  | S fuel =>
      if addr <? max then
        match find_region regs addr with
        | None => Some false
        | Some (ri, reg) =>
            if negb (check_addr regs addr mode access_flags) then Some false
            else
              match find_next_subset_region regs ri reg addr with
              | Some sreg => check_range_loop fuel regs (base sreg) max mode access_flags
              | None =>
                  if order reg <? 64
                  then check_range_loop fuel regs (u64 (base reg + shl64 1 (order reg))) max mode
                         access_flags
                  else Some true
              end
        end
      else Some true
  end.

Definition range_fuel (regs : list memregion) : nat := (2 * length regs + 1)%nat.

Definition check_addr_range_fuel (fuel : nat) (regs : list memregion)
    (addr size mode access_flags : Z) : option bool :=
  let max := u64 (addr + size) in
  if truthy size && (max <=? addr) then Some false
  else check_range_loop fuel regs addr max mode access_flags.

Definition check_addr_range (regs : list memregion) := check_addr_range_fuel (range_fuel regs) regs.

Definition sbi_domain_used_memregions (regs : list memregion) : Z := Z.of_nat (length regs).

(** One run of the inner sorting loop: [reg] is the element at [i], the list
    the elements after it. *)
Fixpoint sort_pass (reg : memregion) (rest : list memregion) : memregion * list memregion :=
  match rest with
  | [] => (reg, [])
  | reg1 :: rest' =>
      if is_region_before reg1 reg
      then let '(r, l) := sort_pass reg1 rest' in (r, reg :: l)
      else let '(r, l) := sort_pass reg rest' in (r, reg1 :: l)
  end.

Fixpoint sort_from (n : nat) (regs : list memregion) : list memregion :=
  match n, regs with
  | S n, reg :: rest => let '(r, l) := sort_pass reg rest in r :: sort_from n l
  | _, _ => regs
  end.

Definition sort_regions (regs : list memregion) : list memregion := sort_from (length regs) regs.

Fixpoint remove_covered (regs : list memregion) : list memregion :=
  match regs with
  | [] => []
  | reg :: rest =>
      if existsb (is_region_compatible reg) rest then remove_covered rest
      else reg :: remove_covered rest
  end.

(** One pass of the merging loop of [root_add_memregion]. *)
Definition mergeable (r r1 : memregion) : bool :=
  negb (truthy (Z.land (base r) (BIT (order r + 1) - 1))) &&
  (u64 (base r + BIT (order r)) =? base r1) && (order r =? order r1) && (flags r =? flags r1).

Fixpoint merge_pass (regs : list memregion) : bool * list memregion :=
  match regs with
  | nreg :: ((nreg1 :: rest) as tl) =>
      if mergeable nreg nreg1
      then let '(_, l) := merge_pass rest in (true, mkReg (order nreg + 1) (base nreg) (flags nreg) :: l)
      else let '(m, l) := merge_pass tl in (m, nreg :: l)
  | _ => (false, regs)
  end.

(** ** Valid regions *)

Definition valid (r : memregion) : Prop := is_region_valid r = true /\ in_range 64 (base r).

Definition lim (r : memregion) : Z := base r + 2 ^ order r.

Lemma valid_spec r : valid r ->
  3 <= order r <= 64 /\ 0 <= base r /\ base r = base r / 2 ^ order r * 2 ^ order r /\
  lim r <= 2 ^ 64 /\ 8 <= 2 ^ order r.
Proof.
  intros [Hv Hb]. unfold is_region_valid in Hv. unfold in_range in Hb. unfold lim.
  destruct ((order r <? 3) || (64 <? order r)) eqn:E1; [done|].
  destruct ((order r =? 64) && negb (base r =? 0)) eqn:E2; [done|].
  destruct ((order r <? 64) && truthy (Z.land (base r) (BIT (order r) - 1))) eqn:E3; [done|].
  assert (3 <= order r <= 64) as Ho by lia.
  assert (2 ^ 3 <= 2 ^ order r) as H8 by (apply pow2_le; lia). change (2 ^ 3) with 8 in H8.
  destruct (decide (order r = 64)) as [E|E].
  - rewrite E in *. assert (base r = 0) as -> by lia. split_and!; try lia; done.
  - rewrite (proj2 (Z.ltb_lt _ _)) in E3 by lia. cbn [andb] in E3. unfold truthy in E3.
    apply negb_false_iff, Z.eqb_eq in E3. unfold BIT in E3. rewrite shl64_1 in E3 by lia.
    rewrite land_ones_mod in E3 by lia.
    pose proof (Z.div_mod (base r) (2 ^ order r) ltac:(lia)) as Hdm.
    split_and!; try lia. rewrite (pow2_split (order r) 64) in * by lia.
    assert (base r / 2 ^ order r < 2 ^ (64 - order r)) by nia. nia.
Qed.

Lemma rend_valid r : valid r -> rend r = lim r - 1.
Proof.
  intros Hv. destruct (valid_spec r Hv) as (Ho & H0 & _ & Hl & H8). unfold rend, lim in *. case_bool; bool_to_prop.
  - rewrite shl64_1 by lia. rewrite wrap_id by lia. lia.
  - replace (order r) with 64 in * by lia. unfold ULONG_MAX. lia.
Qed.

Lemma in_region_iff r a : valid r -> in_region r a = true <-> base r <= a < lim r.
Proof. intros Hv. unfold in_region. rewrite rend_valid by done. lia. Qed.

Lemma subset_iff A B : valid A -> valid B ->
  sbi_domain_memregion_is_subset A B = true <-> base B <= base A /\ lim A <= lim B.
Proof.
  intros HA HB. pose proof (valid_spec A HA) as (? & ? & ? & ? & ?).
  pose proof (valid_spec B HB) as (? & ? & ? & ? & ?).
  assert (forall r, valid r -> u64 (base r + (if 64 <=? order r then ULONG_MAX else BIT (order r) - 1)) =
    lim r - 1) as He.
  { intros r Hr. rewrite <- rend_valid by done. unfold rend.
    destruct (valid_spec r Hr) as (? & ? & ? & ? & ?). unfold lim in *.
    destruct (Z.ltb_spec (order r) 64).
    - by rewrite (proj2 (Z.leb_gt 64 (order r))) by lia.
    - rewrite (proj2 (Z.leb_le 64 (order r))) by lia. replace (order r) with 64 in * by lia.
      replace (base r) with 0 by lia. done. }
  unfold sbi_domain_memregion_is_subset. rewrite (He A HA), (He B HB). unfold lim in *. lia.
Qed.

(** Two regions that meet are nested, the smaller in the larger. *)
Lemma regions_nested A B a :
  valid A -> valid B -> order A <= order B -> base A <= a < lim A -> base B <= a < lim B ->
  base B <= base A /\ lim A <= lim B.
Proof.
  intros HA HB Ho Ha Hb. destruct (valid_spec A HA) as (? & ? & EA & _ & _).
  destruct (valid_spec B HB) as (? & ? & EB & _ & _). unfold lim in *.
  set (p := base A / 2 ^ order A) in *. set (q := base B / 2 ^ order B) in *.
  pose proof (pow2_pos (order A) ltac:(lia)).
  rewrite (pow2_split (order A) (order B)) in EB, Hb |- * by lia.
  pose proof (pow2_pos (order B - order A) ltac:(lia)).
  set (m := 2 ^ (order B - order A)) in *. set (n := 2 ^ order A) in *.
  rewrite EA, EB in *. clearbody p q m n. clear EA EB.
  assert (q * m <= p) by (apply Z.lt_succ_r; nia).
  assert (p < q * m + m) by nia. nia.
Qed.

Definition top_free (r : memregion) : Prop := order r < 64 -> lim r < 2 ^ 64.

(** ** Regions from ranges *)

Lemma memregion_init_loop_spec fuel : forall addr size ord,
  0 <= ord <= 64 -> 64 - ord < Z.of_nat fuel -> 0 <= addr -> 0 < size -> addr + size <= 2 ^ 64 ->
  let fits k := addr / 2 ^ k = (addr + size - 1) / 2 ^ k /\ (addr / 2 ^ k + 1) * 2 ^ k < 2 ^ 64 in
  let '(b, o) := memregion_init_loop fuel addr size ord in
  ord <= o <= 64 /\ (forall k, ord <= k < o -> ~ fits k) /\
  ((o < 64 /\ b = addr / 2 ^ o * 2 ^ o /\ fits o) \/ (o = 64 /\ b = 0)).
Proof.
  induction fuel as [|fuel IH]; intros addr size ord Ho Hf Ha Hs Hb fits; [lia|].
  cbn [memregion_init_loop]. destruct (Z.ltb_spec ord 64) as [Hlt|Hge].
  2:{ split_and!; [lia|lia|intros; lia|right; lia]. }
  rewrite shl64_1 by lia. rewrite land_not_mask by (unfold in_range; lia).
  rewrite (wrap_id 64 (addr + size - 1)) by lia.
  pose proof (pow2_pos ord ltac:(lia)) as Hp. set (P := 2 ^ ord) in *.
  pose proof (Z.div_mod addr P ltac:(lia)) as Hdm. pose proof (Z.mod_pos_bound addr P Hp) as Hm.
  pose proof (Z.div_mod (addr + size - 1) P ltac:(lia)) as Hdm2.
  pose proof (Z.mod_pos_bound (addr + size - 1) P Hp) as Hm2.
  replace (addr - addr mod P) with (addr / P * P) by lia.
  assert (P <= 2 ^ 63) as HP63 by (apply pow2_le; lia).
  assert ((addr / P + 1) * P <= 2 ^ 64) as Htop.
  { assert (2 ^ 64 = 2 ^ (64 - ord) * P) as E64 by (apply pow2_split; lia).
    rewrite E64 in *. assert (addr / P < 2 ^ (64 - ord)) by nia. nia. }
  destruct (_ && _) eqn:E.
  - assert (fits ord) as Hfit.
    { unfold fits. fold P. destruct (decide ((addr / P + 1) * P = 2 ^ 64)) as [Et|].
      - replace (addr / P * P + P) with (2 ^ 64) in E by lia. change (u64 (2 ^ 64)) with 0 in E. lia.
      - rewrite wrap_id in E by lia. split; [|lia]. nia. }
    split_and!; [lia|lia|intros; lia|]. left. fold P. split_and!; [lia|done|exact Hfit].
  - assert (~ fits ord) as Hnf.
    { intros [F1 F2]. fold P in F1, F2. rewrite wrap_id in E by lia. rewrite F1 in *.
      apply andb_false_iff in E as [E|E]; [apply andb_false_iff in E as [E|E];
        [apply andb_false_iff in E as [E|E]|]|]; lia. }
    specialize (IH addr size (ord + 1) ltac:(lia) ltac:(lia) Ha Hs Hb). cbv zeta in IH.
    destruct (memregion_init_loop fuel addr size (ord + 1)) as [b o].
    destruct IH as (Ho1 & Hmin & Hres). split_and!; [lia|lia| |exact Hres].
    intros k Hk. destruct (decide (k = ord)) as [->|]; [done|]. apply Hmin. lia.
Qed.

(** The region holds the range; [k] is refused when it does not fit or when
    the candidate ends at the top of the address space. *)
Lemma memregion_init_spec addr size fl :
  0 <= addr -> 0 < size -> addr + size <= 2 ^ 64 ->
  let r := sbi_domain_memregion_init addr size fl in
  flags r = fl /\ log2roundup size <= order r <= 64 /\
  (base r mod 2 ^ order r = 0 /\ 0 <= base r <= addr /\ addr + size <= lim r /\ lim r <= 2 ^ 64) /\
  (forall k, log2roundup size <= k < order r ->
     ~ (addr / 2 ^ k = (addr + size - 1) / 2 ^ k /\ (addr / 2 ^ k + 1) * 2 ^ k < 2 ^ 64)).
Proof.
  intros Ha Hs Hb r.
  destruct (log2roundup_loop_spec 64 size 0 ltac:(lia) ltac:(lia) ltac:(lia)) as (Hl & _ & _).
  fold (log2roundup size) in Hl.
  pose proof (memregion_init_loop_spec 65 addr size (log2roundup size) ltac:(lia) ltac:(lia) Ha Hs Hb) as Hi.
  unfold r, sbi_domain_memregion_init, lim. destruct (memregion_init_loop 65 addr size (log2roundup size)) as [b o].
  cbn [flags order base]. destruct Hi as (Ho & Hleast & Hres).
  pose proof (pow2_pos o ltac:(lia)) as Hp. split_and!; try done; try lia;
    (destruct Hres as [(Hlt & -> & F1 & F2)|[-> ->]]; [|done || lia]);
    pose proof (Z.div_mod addr (2 ^ o) ltac:(lia)); pose proof (Z.mod_pos_bound addr (2 ^ o) Hp);
    pose proof (Z.div_mod (addr + size - 1) (2 ^ o) ltac:(lia));
    pose proof (Z.mod_pos_bound (addr + size - 1) (2 ^ o) Hp); rewrite <- ?F1 in *;
    first [apply Z.mod_mul; lia | apply Z.mul_nonneg_nonneg; [apply Z.div_pos|]; lia | lia].
Qed.

(** ** The range check *)

Lemma find_region_from_some regs : forall i a j r,
  find_region_from i regs a = Some (j, r) <->
  (i <= j)%nat /\ regs !! (j - i)%nat = Some r /\ in_region r a = true /\
  (forall k r', (k < j - i)%nat -> regs !! k = Some r' -> in_region r' a = false).
Proof.
  induction regs as [|x regs IH]; intros i a j r; cbn [find_region_from].
  { split; [done|]. intros (_ & H & _). done. }
  destruct (in_region x a) eqn:E.
  - split.
    + intros [= <- <-]. rewrite Nat.sub_diag. split_and!; [lia|done|done|lia].
    + intros (Hij & Hj & Hr & Hlt). destruct (decide (i = j)) as [->|Hne].
      * rewrite Nat.sub_diag in Hj. simpl in Hj. congruence.
      * specialize (Hlt 0%nat x ltac:(lia) eq_refl). congruence.
  - rewrite IH. split.
    + intros (Hij & Hj & Hr & Hlt). replace (j - i)%nat with (S (j - S i)) by lia.
      split_and!; [lia|done|done|]. intros [|k] r' Hk Hl; simpl in Hl; [congruence|].
      apply (Hlt k); [lia|done].
    + intros (Hij & Hj & Hr & Hlt). assert (i <> j).
      { intros ->. rewrite Nat.sub_diag in Hj. simpl in Hj. congruence. }
      replace (j - i)%nat with (S (j - S i)) in Hj, Hlt by lia.
      split_and!; [lia|done|done|]. intros k r' Hk Hl. apply (Hlt (S k)); [lia|done].
Qed.

Lemma find_region_some regs a j r :
  find_region regs a = Some (j, r) <->
  regs !! j = Some r /\ in_region r a = true /\
  (forall k r', (k < j)%nat -> regs !! k = Some r' -> in_region r' a = false).
Proof.
  unfold find_region. rewrite find_region_from_some. rewrite Nat.sub_0_r.
  split; [intros (_ & ? & ? & ?); done|intros (? & ? & ?); split_and!; (done || lia)].
Qed.

Lemma find_region_none regs : forall i a,
  find_region_from i regs a = None <-> forall r, r ∈ regs -> in_region r a = false.
Proof.
  induction regs as [|x regs IH]; intros i a; cbn [find_region_from].
  { split; [intros _ r Hr; by apply not_elem_of_nil in Hr|done]. }
  destruct (in_region x a) eqn:E.
  - split; [done|]. intros H. rewrite (H x) in E by left. done.
  - rewrite IH. split; intros H r Hr.
    + apply elem_of_cons in Hr as [->|Hr]; [done|by apply H].
    + apply H. by right.
Qed.

(** What the code decides for an address is what the first region says. *)
Lemma check_addr_find regs a mode af : forall i,
  check_addr regs a mode af =
  match find_region_from i regs a with
  | Some (_, r) => region_allows (flags r) mode af
  | None => mode =? 3
  end.
Proof.
  induction regs as [|x regs IH]; intros i; cbn [check_addr find_region_from]; [done|].
  destruct (in_region x a); [done|]. apply IH.
Qed.

Definition candidate (ri : nat) (reg : memregion) (addr : Z) (k : nat) (s : memregion) : Prop :=
  k <> ri /\ addr < base s /\ sbi_domain_memregion_is_subset s reg = true.

(** [s] is at or below the candidate [ret] found before. *)
Definition at_most (s : memregion) (ret : option memregion) : Prop :=
  match ret with Some r => base s <= base r | None => True end.

Definition good (reg : memregion) (addr : Z) (s : memregion) : Prop :=
  addr < base s /\ sbi_domain_memregion_is_subset s reg = true.

Lemma next_subset_step_spec ri reg addr i x ret :
  (candidate ri reg addr i x /\ exists r, next_subset_step ri reg addr i x ret = Some r /\
     base r <= base x /\ (r = x \/ ret = Some r) /\ at_most r ret) \/
  (~ candidate ri reg addr i x /\ next_subset_step ri reg addr i x ret = ret).
Proof.
  unfold next_subset_step, candidate. destruct (_ || _ || _) eqn:E.
  - right. split; [|done]. intros (H1 & H2 & H3). rewrite bool_decide_false, H3 in E by done. lia.
  - left. apply orb_false_iff in E as [[E1 E2]%orb_false_iff E3].
    apply bool_decide_eq_false in E1. apply negb_false_iff in E3. split; [split_and!; (done || lia)|].
    destruct ret as [r|]; [|exists x; split_and!; (done || lia || auto)].
    case_bool; [exists x|exists r]; split_and!; simpl; try done; auto; lia.
Qed.

Lemma next_subset_from_spec ri reg addr sregs : forall i ret,
  (forall r, ret = Some r -> good reg addr r) ->
  match next_subset_from i sregs ri reg addr ret with
  | Some s =>
      good reg addr s /\ (ret = Some s \/ s ∈ sregs) /\ at_most s ret /\
      (forall k c, sregs !! k = Some c -> candidate ri reg addr (i + k) c -> base s <= base c)
  | None => ret = None /\ (forall k c, sregs !! k = Some c -> ~ candidate ri reg addr (i + k) c)
  end.
Proof.
  induction sregs as [|x sregs IH]; intros i ret Hret; cbn [next_subset_from].
  { destruct ret as [r|]; split_and!; try done; auto. simpl. lia. }
  pose proof (next_subset_step_spec ri reg addr i x ret) as Hcase.
  set (ret' := next_subset_step ri reg addr i x ret) in *.
  assert (forall r, ret' = Some r -> good reg addr r) as Hret'.
  { intros r Er. destruct Hcase as [((_ & Hx) & r' & E' & _ & [-> | E2] & _)|[_ E']];
      [|rewrite E2 in *|]; [by simplify_eq|apply Hret; congruence|apply Hret; congruence]. }
  specialize (IH (S i) ret' Hret').
  assert (forall k, (S i + k)%nat = (i + S k)%nat) as Hk by lia.
  destruct (next_subset_from (S i) sregs ri reg addr ret') as [s|].
  - destruct IH as (Hs & Hin & Hle & Hmin). split_and!; [done| | |].
    + destruct Hin as [Hin|Hin]; [|by right; right].
      destruct Hcase as [(_ & r' & E' & _ & [-> | E2] & _)|[_ E']]; [right|left|left]; try congruence.
      replace s with x by congruence. left.
    + destruct Hcase as [(_ & r' & E' & _ & _ & Ham)|[_ E']]; rewrite E' in Hle; [|done].
      destruct ret; simpl in *; [lia|done].
    + intros [|k] c Hc Hcand; simpl in Hc; [|apply (Hmin k); [done|by rewrite Hk]].
      injection Hc as <-. rewrite Nat.add_0_r in Hcand.
      destruct Hcase as [(_ & r' & E' & Hle' & _)|[? _]]; [|done]. rewrite E' in Hle. simpl in Hle. lia.
  - destruct IH as [E Hnone]. destruct Hcase as [(_ & r' & E' & _)|[Hnc E']]; [congruence|].
    split; [congruence|]. intros [|k] c Hc Hcand; simpl in Hc.
    + injection Hc as <-. rewrite Nat.add_0_r in Hcand. done.
    + apply (Hnone k c Hc). by rewrite Hk.
Qed.

(** Where the loop goes from an address inside [reg]. *)
Definition step_addr (regs : list memregion) (ri : nat) (reg : memregion) (addr : Z) : Z :=
  match find_next_subset_region regs ri reg addr with Some s => base s | None => lim reg end.

Lemma step_addr_spec regs addr ri reg :
  Forall valid regs -> find_region regs addr = Some (ri, reg) ->
  let nxt := step_addr regs ri reg addr in
  addr < nxt <= lim reg /\ (exists r, r ∈ regs /\ (nxt = base r \/ nxt = lim r)) /\
  (forall a, addr <= a < nxt -> find_region regs a = Some (ri, reg)).
Proof.
  intros Hv Hf nxt. pose proof Hf as (Hri & Hin & Hbefore)%find_region_some.
  rewrite Forall_forall in Hv.
  assert (reg ∈ regs) as Hreg by (by eapply list_elem_of_lookup_2).
  pose proof (Hv reg Hreg) as Hvr. apply in_region_iff in Hin; [|done].
  unfold nxt, step_addr, find_next_subset_region.
  pose proof (next_subset_from_spec ri reg addr regs 0 None ltac:(done)) as Hn.
  set (res := next_subset_from 0 regs ri reg addr None) in *.
  assert (addr < step_addr regs ri reg addr <= lim reg) as Hle.
  { unfold step_addr, find_next_subset_region. fold res. destruct res as [s|]; [|lia].
    destruct Hn as ([Hs Hsub] & [?|Hin'] & _); [done|].
    apply subset_iff in Hsub; [|by apply Hv|done].
    pose proof (valid_spec s (Hv s Hin')) as (? & ? & ? & ? & ?). unfold lim in *. lia. }
  unfold step_addr, find_next_subset_region in Hle. fold res in Hle. split_and!; [lia|lia| |].
  - destruct res as [s|]; [|by exists reg; auto].
    destruct Hn as (_ & [?|Hin'] & _); [done|]. exists s; auto.
  - intros a Ha. apply find_region_some. split_and!; [done|apply in_region_iff; [done|lia]|].
    intros k r' Hk Hl. destruct (in_region r' a) eqn:E; [|done]. exfalso.
    assert (r' ∈ regs) as Hr' by (by eapply list_elem_of_lookup_2).
    pose proof (Hv r' Hr') as Hvr'. apply in_region_iff in E; [|done].
    pose proof (Hbefore k r' Hk Hl) as Hnot.
    assert (~ (base r' <= addr < lim r')) as Hout by (rewrite <- in_region_iff by done; congruence).
    destruct (decide (order r' <= order reg)) as [Ho|Ho].
    + destruct (regions_nested r' reg a Hvr' Hvr Ho E ltac:(lia)) as [Hb Hl'].
      assert (candidate ri reg addr (0 + k) r') as Hc.
      { split_and!; [simpl; lia|lia|by apply subset_iff]. }
      destruct res as [s|]; [|by apply (proj2 Hn k r' Hl)].
      destruct Hn as (_ & _ & _ & Hmin). specialize (Hmin k r' Hl Hc). lia.
    + destruct (regions_nested reg r' a Hvr Hvr' ltac:(lia) ltac:(lia) E). lia.
Qed.

(** Boundaries of regions above an address: how far the loop can still go. *)
Definition boundaries (regs : list memregion) : list Z := (base <$> regs) ++ (lim <$> regs).
Definition count_above (x : Z) (l : list Z) : nat := length (filter (fun b => x < b) l).
Definition above (regs : list memregion) (addr : Z) : nat := count_above addr (boundaries regs).

Lemma filter_lt_weaken x y l :
  x < y -> (count_above y l <= count_above x l)%nat.
Proof.
  intros Hxy. unfold count_above. induction l as [|b l IH]; [done|]. rewrite !filter_cons.
  repeat case_decide; simpl; lia.
Qed.

Lemma filter_lt_strict x y l :
  x < y -> y ∈ l -> (count_above y l < count_above x l)%nat.
Proof.
  intros Hxy. unfold count_above. induction l as [|b l IH]; intros Hin; [by apply not_elem_of_nil in Hin|].
  pose proof (filter_lt_weaken x y l Hxy) as Hw. unfold count_above in Hw. rewrite !filter_cons.
  apply elem_of_cons in Hin as [->|Hin].
  - rewrite (decide_False (P := b < b)) by lia. rewrite (decide_True (P := x < b)) by lia. simpl. lia.
  - specialize (IH Hin). repeat case_decide; simpl; lia.
Qed.

Lemma above_decreases regs x y :
  x < y -> (exists r, r ∈ regs /\ (y = base r \/ y = lim r)) -> (above regs y < above regs x)%nat.
Proof.
  intros Hxy (r & Hr & Hy). apply filter_lt_strict; [done|]. unfold boundaries.
  apply elem_of_app. destruct Hy as [-> | ->]; [left|right]; by apply list_elem_of_fmap_2.
Qed.

Lemma above_bound regs addr : (above regs addr <= 2 * length regs)%nat.
Proof.
  unfold above, count_above, boundaries. etrans; [apply length_filter|]. rewrite length_app, !length_fmap. lia.
Qed.

(** What the range check should decide for one address: unlike the single
    address check it wants a region even in machine mode. *)
Definition addr_allowed (regs : list memregion) (mode af a : Z) : bool :=
  match find_region regs a with Some (_, r) => region_allows (flags r) mode af | None => false end.

Lemma check_range_loop_spec regs max mode af : forall fuel addr,
  Forall valid regs -> Forall top_free regs -> 0 <= addr -> max < 2 ^ 64 -> (above regs addr < fuel)%nat ->
  exists b, check_range_loop fuel regs addr max mode af = Some b /\
    (b = true <-> forall a, addr <= a < max -> addr_allowed regs mode af a = true).
Proof.
  induction fuel as [|fuel IH]; intros addr Hv Ht Ha Hm Hf; [lia|]. cbn [check_range_loop].
  destruct (Z.ltb_spec addr max) as [Hlt|Hge]; [|exists true; split; [done|split; [lia|done]]].
  destruct (find_region regs addr) as [[ri reg]|] eqn:Hreg.
  2:{ exists false. split; [done|]. split; [done|]. intros H. specialize (H addr ltac:(lia)).
      unfold addr_allowed in H. by rewrite Hreg in H. }
  rewrite (check_addr_find _ _ _ _ 0%nat). fold (find_region regs addr). rewrite Hreg.
  assert (forall a, find_region regs a = Some (ri, reg) ->
    addr_allowed regs mode af a = region_allows (flags reg) mode af) as Hall.
  { intros a Hfa. unfold addr_allowed. by rewrite Hfa. }
  destruct (region_allows (flags reg) mode af) eqn:Hok; cbn [negb].
  2:{ exists false. split; [done|]. split; [done|]. intros H. specialize (H addr ltac:(lia)).
      rewrite (Hall addr Hreg) in H. congruence. }
  destruct (step_addr_spec regs addr ri reg Hv Hreg) as (Hn & Hb & Hsame).
  assert (forall n, n = step_addr regs ri reg addr -> exists b,
    check_range_loop fuel regs n max mode af = Some b /\
    (b = true <-> forall a, addr <= a < max -> addr_allowed regs mode af a = true)) as Hrec.
  { intros n ->. pose proof (above_decreases regs addr (step_addr regs ri reg addr) ltac:(lia) Hb).
    destruct (IH (step_addr regs ri reg addr) Hv Ht ltac:(lia) Hm ltac:(lia)) as (b & Hl & Hiff).
    exists b. split; [done|]. rewrite Hiff. split; intros H' a Ha'; [|apply H'; lia].
    destruct (decide (a < step_addr regs ri reg addr)); [|apply H'; lia].
    rewrite Hall; [done|]. apply Hsame. lia. }
  pose proof Hreg as (Hri & _)%find_region_some. apply list_elem_of_lookup_2 in Hri.
  rewrite Forall_forall in Hv, Ht. pose proof (valid_spec reg (Hv reg Hri)) as (? & ? & ? & ? & ?).
  unfold step_addr in *. destruct (find_next_subset_region regs ri reg addr) as [s|]; [by apply Hrec|].
  destruct (Z.ltb_spec (order reg) 64) as [Ho|Ho].
  - apply Hrec. rewrite shl64_1 by lia. specialize (Ht reg Hri Ho). unfold lim in *. apply wrap_id. lia.
  - exists true. split; [done|]. split; [|done]. intros _ a Ha'. rewrite Hall; [done|]. apply Hsame.
    replace (lim reg) with (2 ^ 64) in *; [lia|]. unfold lim in *. replace (order reg) with 64 in * by lia. lia.
Qed.

(** ** Sorting *)

(** [A] may stand before [B]: the order the exchange sort establishes. *)
Definition le_reg (A B : memregion) : Prop := is_region_before B A = false.

(** Case analysis on the comparisons of [is_region_before]. *)
Ltac order_cases :=
  unfold le_reg, is_region_before in *;
  repeat match goal with |- context [is_firmware ?f] => destruct (is_firmware f) end;
  simpl in *; repeat case_match; try done; lia.

#[export] Instance le_reg_preorder : PreOrder le_reg.
Proof. split; [intros A|intros A B C]; order_cases. Qed.

Lemma before_le A B : is_region_before A B = true -> le_reg A B.
Proof. order_cases. Qed.

(** Among regions of the same kind the smaller comes first. *)
Lemma le_reg_order A B : is_firmware (flags A) = is_firmware (flags B) -> le_reg A B -> order A <= order B.
Proof. order_cases. Qed.

Lemma le_reg_firmware A B : is_firmware (flags B) = true -> le_reg A B -> is_firmware (flags A) = true.
Proof. order_cases. Qed.

Lemma sort_pass_spec rest : forall reg r l,
  sort_pass reg rest = (r, l) ->
  Permutation (reg :: rest) (r :: l) /\ Forall (le_reg r) (reg :: rest).
Proof.
  induction rest as [|x rest IH]; intros reg r l H; cbn [sort_pass] in H.
  { injection H as <- <-. split; [done|]. by constructor. }
  destruct (is_region_before x reg) eqn:E.
  - destruct (sort_pass x rest) as [r' l'] eqn:Ep. injection H as <- <-.
    destruct (IH x r' l' Ep) as [Hp Hle]. split.
    + rewrite Hp. apply Permutation_swap.
    + constructor; [|done]. apply Forall_cons in Hle as [Hx _]. etrans; [exact Hx|by apply before_le].
  - destruct (sort_pass reg rest) as [r' l'] eqn:Ep. injection H as <- <-.
    destruct (IH reg r' l' Ep) as [Hp Hle]. split.
    + rewrite Permutation_swap, Hp. apply Permutation_swap.
    + apply Forall_cons in Hle as [Hr Hrest]. repeat constructor; [done| |done]. by etrans.
Qed.

Lemma sort_from_spec n : forall regs, (length regs <= n)%nat ->
  Permutation regs (sort_from n regs) /\ StronglySorted le_reg (sort_from n regs).
Proof.
  induction n as [|n IH]; intros [|x rest] Hn; simpl in Hn |- *; try lia; try (split; [done|constructor]).
  destruct (sort_pass x rest) as [r l] eqn:E. destruct (sort_pass_spec rest x r l E) as [Hp Hle].
  pose proof (Permutation_length Hp) as Hlen. simpl in Hlen.
  destruct (IH l ltac:(lia)) as [Hp' Hs]. split; [by rewrite Hp, <- Hp'|].
  constructor; [done|]. rewrite <- Hp'. rewrite Hp in Hle. by apply Forall_cons in Hle as [_ Hle].
Qed.

Lemma sort_regions_perm regs : Permutation regs (sort_regions regs).
Proof. by apply sort_from_spec. Qed.

Lemma sort_regions_sorted regs : StronglySorted le_reg (sort_regions regs).
Proof. by apply sort_from_spec. Qed.

(** ** Pruning *)

Definition sanitize_regions (regs : list memregion) : list memregion := remove_covered (sort_regions regs).

(** The flags that decide an access to [a]. *)
Fixpoint region_flags (regs : list memregion) (a : Z) : option Z :=
  match regs with
  | [] => None
  | r :: regs' => if in_region r a then Some (flags r) else region_flags regs' a
  end.

Lemma check_addr_flags regs a mode af :
  check_addr regs a mode af =
  match region_flags regs a with Some f => region_allows f mode af | None => mode =? 3 end.
Proof. induction regs as [|r regs IH]; simpl; [done|]. by destruct (in_region r a). Qed.

Lemma region_flags_some regs a f :
  region_flags regs a = Some f ->
  exists pre y post, regs = pre ++ y :: post /\ in_region y a = true /\ flags y = f /\
    Forall (fun r => in_region r a = false) pre.
Proof.
  induction regs as [|x regs IH]; simpl; [done|]. destruct (in_region x a) eqn:E.
  - intros [= <-]. by exists [], x, regs.
  - intros (pre & y & post & -> & Hy & Hf & Hpre)%IH. exists (x :: pre), y, post.
    split_and!; try done. by constructor.
Qed.

Definition covered (regs : list memregion) (a : Z) : bool := existsb (fun r => in_region r a) regs.

Lemma region_flags_covered regs a : is_Some (region_flags regs a) <-> covered regs a = true.
Proof.
  induction regs as [|x regs IH]; simpl; [split; [intros [? ?]; done|done]|].
  destruct (in_region x a); [by split|done].
Qed.

Lemma covered_true regs a : covered regs a = true <-> exists r, r ∈ regs /\ in_region r a = true.
Proof.
  unfold covered. rewrite existsb_exists. split; intros (r & Hr & H); exists r; (split; [|done]);
    by apply list_elem_of_In.
Qed.

Lemma covered_perm regs regs' a : Permutation regs regs' -> covered regs a = covered regs' a.
Proof.
  intros Hp. apply eq_iff_eq_true. rewrite !covered_true.
  split; intros (r & Hr & H); exists r; (split; [|done]); [rewrite <- Hp|rewrite Hp]; done.
Qed.

(** No region stands between two others of equal flags with flags of its own. *)
Definition no_sandwich (regs : list memregion) : Prop :=
  forall A C B, A ∈ regs -> C ∈ regs -> B ∈ regs ->
    sbi_domain_memregion_is_subset A C = true -> sbi_domain_memregion_is_subset C B = true ->
    flags A = flags B -> flags C = flags A.

Lemma compatible_exists reg rest :
  existsb (is_region_compatible reg) rest = true ->
  exists B, B ∈ rest /\ sbi_domain_memregion_is_subset reg B = true /\ flags reg = flags B.
Proof.
  intros (B & HB & [Hs Hf]%andb_true_iff)%existsb_exists. exists B.
  split_and!; [by apply list_elem_of_In|done|lia].
Qed.

(** In a sorted list, what stands between a region and one that replaces it
    lies between them in the subset order too. *)
Lemma covered_decision x rest a B :
  Forall valid (x :: rest) -> StronglySorted le_reg (x :: rest) -> no_sandwich (x :: rest) ->
  B ∈ rest -> sbi_domain_memregion_is_subset x B = true -> flags x = flags B ->
  in_region x a = true -> region_flags rest a = Some (flags x).
Proof.
  intros Hv Hs Hns HB Hsub Hfl Ha. rewrite Forall_forall in Hv.
  assert (valid x) as Hvx by (apply Hv; left). assert (valid B) as HvB by (apply Hv; by right).
  pose proof Hsub as HxB. apply subset_iff in HxB as [Hb1 Hb2]; [|done|done].
  pose proof Ha as Hxa. apply in_region_iff in Hxa; [|done].
  assert (in_region B a = true) as HBa by (apply in_region_iff; [done|lia]).
  destruct (region_flags rest a) as [f|] eqn:E.
  2:{ assert (is_Some (region_flags rest a)) as [? ?]; [|congruence].
      apply region_flags_covered, covered_true. by exists B. }
  f_equal. apply region_flags_some in E as (pre & y & post & -> & Hya & <- & Hpre).
  assert (valid y) as Hvy by (apply Hv; right; set_solver).
  assert (le_reg y B) as HyB.
  { apply elem_of_app in HB as [HB|[->|HB]%elem_of_cons]; [|done|].
    - rewrite Forall_forall in Hpre. rewrite (Hpre B HB) in HBa. done.
    - apply StronglySorted_inv in Hs as [Hs _]. apply StronglySorted_app_1_r in Hs.
      apply StronglySorted_inv in Hs as [_ Hs]. by apply (proj1 (Forall_forall _ _) Hs). }
  assert (le_reg x y) as Hxy.
  { apply StronglySorted_inv in Hs as [_ Hs]. apply (proj1 (Forall_forall _ _) Hs). set_solver. }
  assert (is_firmware (flags x) = is_firmware (flags y)) as Hfw.
  { destruct (is_firmware (flags x)) eqn:Ex.
    - symmetry. apply (le_reg_firmware y B); [congruence|done].
    - destruct (is_firmware (flags y)) eqn:Ey; [|done].
      by rewrite (le_reg_firmware x y Ey Hxy) in Ex. }
  apply in_region_iff in Hya; [|done]. apply in_region_iff in HBa; [|done].
  apply (Hns x y B); [left|right; set_solver|by right| | |done].
  - apply subset_iff; [done..|].
    apply (regions_nested x y a); try done. by apply le_reg_order.
  - apply subset_iff; [done..|].
    apply (regions_nested y B a); try done. apply le_reg_order; [congruence|done].
Qed.

Lemma no_sandwich_tail x rest : no_sandwich (x :: rest) -> no_sandwich rest.
Proof. intros H A C B HA HC HB. apply H; by right. Qed.

(** Removing covered regions changes no decision. *)
Lemma remove_covered_flags regs a :
  Forall valid regs -> StronglySorted le_reg regs -> no_sandwich regs ->
  region_flags (remove_covered regs) a = region_flags regs a.
Proof.
  induction regs as [|x rest IH]; intros Hv Hs Hns; [done|]. cbn [remove_covered].
  pose proof Hv as [_ Hv']%Forall_cons. pose proof Hs as [Hs' _]%StronglySorted_inv.
  specialize (IH Hv' Hs' (no_sandwich_tail _ _ Hns)).
  destruct (existsb (is_region_compatible x) rest) eqn:E; cbn [region_flags]; rewrite IH; [|done].
  destruct (in_region x a) eqn:Ea; [|done].
  apply compatible_exists in E as (B & HB & Hsub & Hfl). by eapply covered_decision.
Qed.

Lemma remove_covered_sublist regs : sublist (remove_covered regs) regs.
Proof.
  induction regs as [|x rest IH]; [constructor|]. simpl. case_bool; by constructor.
Qed.

Lemma remove_covered_elem regs r : r ∈ remove_covered regs -> r ∈ regs.
Proof. intros H. eapply elem_of_submseteq; [exact H|]. apply sublist_submseteq, remove_covered_sublist. Qed.

Lemma remove_covered_sorted regs :
  StronglySorted le_reg regs -> StronglySorted le_reg (remove_covered regs).
Proof.
  induction regs as [|x rest IH]; intros Hs; [done|]. apply StronglySorted_inv in Hs as [Hs Hx].
  simpl. case_bool; [by apply IH|]. constructor; [by apply IH|].
  rewrite Forall_forall in Hx |- *. intros r Hr. by apply Hx, remove_covered_elem.
Qed.

(** Whatever is removed, the same addresses stay covered. *)
Lemma remove_covered_covers regs a : Forall valid regs -> covered (remove_covered regs) a = covered regs a.
Proof.
  induction regs as [|x rest IH]; intros Hv; [done|]. apply Forall_cons in Hv as [Hx Hv].
  simpl. case_bool; simpl; rewrite IH by done; [|done].
  destruct (in_region x a) eqn:Ea; [|done]. simpl.
  apply compatible_exists in E as (B & HB & Hsub & Hfl). apply covered_true. exists B.
  rewrite Forall_forall in Hv. split; [done|]. apply subset_iff in Hsub; [|done|by apply Hv].
  apply in_region_iff in Ea; [|done]. apply in_region_iff; [by apply Hv|lia].
Qed.

Lemma sanitize_valid regs : Forall valid regs -> Forall valid (sanitize_regions regs).
Proof.
  intros Hv. rewrite (sort_regions_perm regs) in Hv. rewrite Forall_forall in *.
  intros r Hr. by apply Hv, remove_covered_elem.
Qed.

Lemma sanitize_sorted regs : StronglySorted le_reg (sanitize_regions regs).
Proof. apply remove_covered_sorted, sort_regions_sorted. Qed.

Lemma sanitize_covers regs a : Forall valid regs -> covered (sanitize_regions regs) a = covered regs a.
Proof.
  intros Hv. unfold sanitize_regions. rewrite remove_covered_covers.
  - symmetry. apply covered_perm, sort_regions_perm.
  - by rewrite <- (sort_regions_perm regs).
Qed.

Lemma sanitize_length regs : (length (sanitize_regions regs) <= length regs)%nat.
Proof.
  unfold sanitize_regions. rewrite (Permutation_length (sort_regions_perm regs)).
  apply sublist_length, remove_covered_sublist.
Qed.

Lemma remove_covered_nodup regs : Forall valid regs -> NoDup (remove_covered regs).
Proof.
  induction regs as [|x rest IH]; intros Hv; [constructor|]. apply Forall_cons in Hv as [Hx Hv].
  simpl. destruct (existsb (is_region_compatible x) rest) eqn:E; [by apply IH|].
  constructor; [|by apply IH]. intros Hin%remove_covered_elem.
  assert (existsb (is_region_compatible x) rest = true); [|congruence].
  apply existsb_exists. exists x. split; [by apply list_elem_of_In|].
  unfold is_region_compatible. rewrite Z.eqb_refl, andb_true_r. apply subset_iff; [done|done|lia].
Qed.

(** ** Which region decides *)

(** The most specific region that holds [a]: firmware before the others, then the
    smallest.  The order of the list does not matter. *)
Definition decides (regs : list memregion) (a : Z) (r : memregion) : Prop :=
  r ∈ regs /\ in_region r a = true /\
  forall r', r' ∈ regs -> in_region r' a = true ->
    (is_firmware (flags r') = true -> is_firmware (flags r) = true) /\
    (is_firmware (flags r') = is_firmware (flags r) -> order r <= order r').

(** No two regions of the same kind give the same range different flags. *)
Definition unambiguous (regs : list memregion) : Prop :=
  forall r1 r2, r1 ∈ regs -> r2 ∈ regs -> is_firmware (flags r1) = is_firmware (flags r2) ->
    order r1 = order r2 -> base r1 = base r2 -> flags r1 = flags r2.

Lemma decides_perm regs regs' a r : Permutation regs regs' -> decides regs a r -> decides regs' a r.
Proof.
  intros Hp (Hr & Ha & Hm). split_and!; [by rewrite <- Hp|done|]. intros r' Hr'. apply Hm. by rewrite Hp.
Qed.

Lemma sorted_decides regs a f :
  StronglySorted le_reg regs -> region_flags regs a = Some f -> exists r, decides regs a r /\ flags r = f.
Proof.
  intros Hs (pre & y & post & -> & Hya & <- & Hpre)%region_flags_some. exists y. split; [|done].
  split_and!; [set_solver|done|]. intros r' Hr' Ha. rewrite Forall_forall in Hpre.
  assert (le_reg y r') as Hle.
  { apply elem_of_app in Hr' as [Hr'|[->|Hr']%elem_of_cons]; [by rewrite (Hpre r' Hr') in Ha|done|].
    apply StronglySorted_app_1_r, StronglySorted_inv in Hs as [_ Hs]. by apply (proj1 (Forall_forall _ _) Hs). }
  split; [intros Hf; by apply (le_reg_firmware y r')|]. intros Hf. by apply le_reg_order.
Qed.

Lemma decides_unique regs a r1 r2 :
  Forall valid regs -> unambiguous regs -> decides regs a r1 -> decides regs a r2 -> flags r1 = flags r2.
Proof.
  intros Hv Hu (H1 & A1 & M1) (H2 & A2 & M2). rewrite Forall_forall in Hv.
  destruct (M1 r2 H2 A2) as [F1 O1], (M2 r1 H1 A1) as [F2 O2].
  assert (is_firmware (flags r1) = is_firmware (flags r2)) as Hf.
  { destruct (is_firmware (flags r1)), (is_firmware (flags r2)); try done; [by rewrite F2|by rewrite F1]. }
  specialize (O1 (eq_sym Hf)). specialize (O2 Hf).
  apply in_region_iff in A1, A2; [|by apply Hv..].
  destruct (regions_nested r1 r2 a), (regions_nested r2 r1 a); try (by apply Hv); try lia.
  apply Hu; try done; lia.
Qed.

(** ** Merging *)

Lemma merge_spec r r1 : valid r -> valid r1 -> r <> r1 -> mergeable r r1 = true ->
  let m := mkReg (order r + 1) (base r) (flags r) in
  valid m /\ (forall a, in_region m a = in_region r a || in_region r1 a) /\ flags r = flags r1.
Proof.
  intros Hv Hv1 Hne Hm m. unfold mergeable in Hm.
  apply andb_true_iff in Hm as [[[Hal Hb]%andb_true_iff Ho]%andb_true_iff Hf].
  apply Z.eqb_eq in Hb, Ho, Hf. unfold truthy in Hal. rewrite negb_involutive in Hal.
  apply Z.eqb_eq in Hal. destruct (valid_spec r Hv) as (Hr & H0 & _ & Hl & _).
  destruct (valid_spec r1 Hv1) as (_ & H01 & _ & Hl1 & _). pose proof (proj2 Hv) as Hrange.
  unfold lim in *. unfold in_range in Hrange. unfold BIT in *.
  assert (order r <= 63) as Ho63.
  { destruct (decide (order r = 64)) as [E|]; [|lia]. exfalso. apply Hne.
    rewrite E in Hb. change (shl64 1 64) with 0 in Hb. rewrite wrap_id in Hb by lia.
    destruct r, r1; simpl in *. f_equal; lia. }
  pose proof (pow2_pos (order r) ltac:(lia)) as Hp.
  assert (base r mod 2 ^ (order r + 1) = 0 /\ (order r = 63 -> base r = 0)) as [Hmod H63].
  { destruct (decide (order r = 63)) as [E|].
    - rewrite E in *. change (shl64 1 (63 + 1) - 1) with (-1) in Hal. rewrite Z.land_m1_r in Hal.
      by rewrite Hal.
    - rewrite shl64_1, land_ones_mod in Hal by lia. split; [done|lia]. }
  assert (2 ^ (order r + 1) = 2 * 2 ^ order r) as E2 by (rewrite Z.pow_add_r by lia; lia).
  assert (base r + 2 ^ order r < 2 ^ 64) as Hlt.
  { destruct (decide (base r + 2 ^ order r = 2 ^ 64)) as [E|]; [|lia].
    exfalso. pose proof (Z.div_mod (base r) (2 ^ (order r + 1)) ltac:(lia)) as Hdm.
    destruct (decide (order r = 63)) as [E63|]; [rewrite (H63 E63), E63 in E; lia|].
    assert (2 ^ 64 = 2 ^ (64 - (order r + 1)) * 2 ^ (order r + 1)) as E64 by (apply pow2_split; lia).
    set (P := 2 ^ order r) in *. set (Q := 2 ^ (64 - (order r + 1))) in *.
    set (q := base r / 2 ^ (order r + 1)) in *. rewrite E2 in *. clearbody P Q q.
    assert (P * (2 * (Q - q) - 1) = 0) as [?|?]%Z.mul_eq_0 by lia; lia. }
  rewrite shl64_1, wrap_id in Hb by lia.
  assert (valid m) as Hvm.
  { split; [|done]. unfold is_region_valid, m. simpl.
    rewrite (proj2 (Z.ltb_ge (order r + 1) 3)), (proj2 (Z.ltb_ge 64 (order r + 1))) by lia. cbn [orb].
    destruct (Z.eqb_spec (order r + 1) 64) as [E|E].
    - rewrite (H63 ltac:(lia)), E. done.
    - cbn [andb]. unfold BIT. rewrite shl64_1 by lia. rewrite land_ones_mod, Hmod by lia.
      by rewrite andb_false_r. }
  split_and!; [done| |done]. intros a. apply eq_iff_eq_true.
  rewrite orb_true_iff, !in_region_iff by done. unfold lim, m. simpl. rewrite <- Ho, E2. lia.
Qed.

Lemma merge_pass_cons r r1 rest :
  merge_pass (r :: r1 :: rest) =
  if mergeable r r1
  then let '(_, l) := merge_pass rest in (true, mkReg (order r + 1) (base r) (flags r) :: l)
  else let '(m, l) := merge_pass (r1 :: rest) in (m, r :: l).
Proof. done. Qed.

Lemma merge_pass_spec : forall n regs, (length regs <= n)%nat -> Forall valid regs -> NoDup regs ->
  let '(m, l) := merge_pass regs in
  Forall valid l /\ (forall a, region_flags l a = region_flags regs a) /\
  (m = true -> (length l < length regs)%nat) /\ (m = false -> l = regs).
Proof.
  induction n as [|n IH]; intros regs Hn Hv Hd; [by destruct regs; [|simpl in Hn; lia]|].
  destruct regs as [|r [|r1 rest]]; [done|done|]. rewrite merge_pass_cons.
  apply Forall_cons in Hv as [Hr Hv]. apply NoDup_cons in Hd as [Hnr Hd].
  destruct (mergeable r r1) eqn:E.
  - pose proof Hv as [Hr1 Hvr]%Forall_cons. pose proof Hd as [_ Hdr]%NoDup_cons.
    specialize (IH rest ltac:(simpl in Hn; lia) Hvr Hdr).
    destruct (merge_pass rest) as [m l]. destruct IH as (Hl & Hfl & Hm1 & Hm0).
    destruct (merge_spec r r1 Hr Hr1 ltac:(set_solver) E) as (Hvm & Hin & Hff).
    split_and!; [by constructor| | |done].
    + intros a. cbn [region_flags flags]. rewrite Hin, Hfl, <- Hff.
      by destruct (in_region r a), (in_region r1 a).
    + intros _. simpl. destruct m; [specialize (Hm1 eq_refl); lia|rewrite (Hm0 eq_refl); lia].
  - specialize (IH (r1 :: rest) ltac:(simpl in Hn |- *; lia) Hv Hd).
    destruct (merge_pass (r1 :: rest)) as [m l]. destruct IH as (Hl & Hfl & Hm1 & Hm0).
    split_and!; [by constructor| | |].
    + intros a. cbn [region_flags]. rewrite Hfl. done.
    + intros Hm. specialize (Hm1 Hm). simpl in *. lia.
    + intros Hm. by rewrite (Hm0 Hm).
Qed.

(** ** Properties *)

(** For a nonempty range that does not leave the address space,
    [sbi_domain_memregion_init] returns a naturally aligned region that holds
    the whole range, and no smaller power-of-two region that ends below the
    top of the address space holds it. *)
Theorem memregion_init_least addr size fl :
  0 <= addr -> 0 < size -> addr + size <= 2 ^ 64 ->
  let r := sbi_domain_memregion_init addr size fl in
  flags r = fl /\ 0 <= order r <= 64 /\ base r mod 2 ^ order r = 0 /\
  base r <= addr /\ addr + size <= lim r /\ lim r <= 2 ^ 64 /\
  (forall k, 0 <= k < order r ->
     ~ (exists q, q * 2 ^ k <= addr /\ addr + size <= (q + 1) * 2 ^ k /\ (q + 1) * 2 ^ k < 2 ^ 64)).
Proof.
  intros Ha Hs Hb r. destruct (memregion_init_spec addr size fl Ha Hs Hb) as (Hf & Ho & Hcov & Hleast).
  fold r in Hf, Ho, Hcov, Hleast.
  destruct (log2roundup_loop_spec 64 size 0 ltac:(lia) ltac:(lia) ltac:(lia)) as (Hl & Hmin & _).
  fold (log2roundup size) in Hl, Hmin.
  split_and!; try apply Hcov; [done|lia|lia|]. intros k Hk (q & Hq1 & Hq2 & Hq3).
  pose proof (pow2_pos k ltac:(lia)) as Hpk. destruct (decide (k < log2roundup size)) as [Hlk|Hlk].
  - specialize (Hmin k ltac:(lia)). lia.
  - apply (Hleast k); [lia|].
    assert (addr / 2 ^ k = q) as E1 by (symmetry; apply (Z.div_unique _ _ _ (addr - q * 2 ^ k)); lia).
    assert ((addr + size - 1) / 2 ^ k = q) as E2
      by (symmetry; apply (Z.div_unique _ _ _ (addr + size - 1 - q * 2 ^ k)); lia).
    rewrite E1, E2. split; [done|lia].
Qed.

Lemma memregion_init_least_witness :
  sbi_domain_memregion_init 0x80040000 0x30000 0x3f = mkReg 18 0x80040000 0x3f /\
  (forall k, 0 <= k < 18 ->
     ~ (exists q, q * 2 ^ k <= 0x80040000 /\ 0x80040000 + 0x30000 <= (q + 1) * 2 ^ k /\
          (q + 1) * 2 ^ k < 2 ^ 64)).
Proof.
  destruct (memregion_init_least 0x80040000 0x30000 0x3f ltac:(lia) ltac:(lia) ltac:(lia))
    as (_ & _ & _ & _ & _ & _ & H).
  split; [vm_compute; reflexivity|exact H].
Defined.

(** C40: a range that ends at the top of the address space does not get the
    region of its own size: the end of the candidate region wraps to zero, every
    candidate is refused and the region becomes the whole address space. *)
Theorem memregion_init_top_swallows_all k fl :
  3 <= k < 64 ->
  sbi_domain_memregion_init (2 ^ 64 - 2 ^ k) (2 ^ k) fl = mkReg 64 0 fl /\
  valid (mkReg k (2 ^ 64 - 2 ^ k) fl).
Proof.
  intros Hk. pose proof (pow2_pos k ltac:(lia)) as Hp.
  assert (2 ^ k <= 2 ^ 63) as H63 by (apply pow2_le; lia).
  assert (2 ^ 64 = 2 ^ (64 - k) * 2 ^ k) as E64 by (apply pow2_split; lia). split.
  - destruct (log2roundup_loop_spec 64 (2 ^ k) 0 ltac:(lia) ltac:(lia) ltac:(lia)) as (Hl & _ & _).
    fold (log2roundup (2 ^ k)) in Hl.
    pose proof (memregion_init_loop_spec 65 (2 ^ 64 - 2 ^ k) (2 ^ k) (log2roundup (2 ^ k)) ltac:(lia)
      ltac:(lia) ltac:(lia) Hp ltac:(lia)) as Hi.
    unfold sbi_domain_memregion_init.
    destruct (memregion_init_loop 65 (2 ^ 64 - 2 ^ k) (2 ^ k) (log2roundup (2 ^ k))) as [b o].
    destruct Hi as (Ho & _ & [(Hlt & _ & F1 & F2)|[-> ->]]); [|done]. exfalso.
    pose proof (pow2_pos o ltac:(lia)) as Hpo.
    assert (2 ^ 64 = 2 ^ (64 - o) * 2 ^ o) as E64' by (apply pow2_split; lia).
    replace (2 ^ 64 - 2 ^ k + 2 ^ k - 1) with ((2 ^ (64 - o) - 1) * 2 ^ o + (2 ^ o - 1)) in F1 by lia.
    rewrite Z.div_add_l, (Z.div_small (2 ^ o - 1)) in F1 by lia. rewrite F1 in F2. lia.
  - split; [|unfold in_range; simpl; lia]. unfold is_region_valid. cbn [order base].
    rewrite (proj2 (Z.ltb_ge k 3)), (proj2 (Z.ltb_ge 64 k)), (proj2 (Z.eqb_neq k 64)) by lia. cbn [orb andb].
    unfold BIT. rewrite shl64_1, land_ones_mod by lia.
    replace (2 ^ 64 - 2 ^ k) with ((2 ^ (64 - k) - 1) * 2 ^ k) by lia. rewrite Z.mod_mul by lia.
    by rewrite andb_false_r.
Qed.

Lemma memregion_init_top_swallows_all_witness :
  sbi_domain_memregion_init 0xfffffffffffff000 0x1000 0 = mkReg 64 0 0.
Proof. exact (proj1 (memregion_init_top_swallows_all 12 0 ltac:(lia))). Defined.

(** C19: for valid regions none of which ends at the very top of the
    address space, [sbi_domain_check_addr_range] returns, and returns true
    exactly when the range does not wrap and the first region holding each
    single address of the range allows the access, although it only looks at
    addresses where the deciding region changes. *)
Theorem check_addr_range_exact regs addr size mode af :
  Forall valid regs -> Forall top_free regs -> in_range 64 addr -> in_range 64 size ->
  exists b, check_addr_range regs addr size mode af = Some b /\
    (b = true <-> (size = 0 \/ addr + size < 2 ^ 64) /\
       forall a, addr <= a < addr + size -> addr_allowed regs mode af a = true).
Proof.
  intros Hv Ht Ha Hs. unfold in_range in *. unfold check_addr_range, check_addr_range_fuel.
  assert (forall a', u64 (addr + size) = a' -> a' < 2 ^ 64) as Hw.
  { intros a' <-. apply (wrap_range 64 _). lia. }
  destruct (truthy size && (u64 (addr + size) <=? addr)) eqn:E.
  - exists false. split; [done|]. split; [done|]. intros [H _]. unfold truthy in E.
    apply andb_true_iff in E as [E1 E2]. destruct H as [->|H]; [done|].
    rewrite wrap_id in E2 by lia. lia.
  - destruct (check_range_loop_spec regs (u64 (addr + size)) mode af (range_fuel regs) addr Hv Ht
      ltac:(lia) ltac:(by apply Hw)) as (b & Hl & Hiff).
    { unfold range_fuel. pose proof (above_bound regs addr). lia. }
    exists b. split; [done|]. rewrite Hiff. unfold truthy in E.
    destruct (decide (size = 0)) as [->|Hs0].
    + rewrite Z.add_0_r, wrap_id by lia. split; [intros H; split; [by left|done]|by intros [_ H]].
    + assert (addr + size < 2 ^ 64) as Hno.
      { destruct (decide (addr + size < 2 ^ 64)); [done|].
        assert (u64 (addr + size) = addr + size - 2 ^ 64) as E'.
        { unfold wrap. symmetry. apply (Z.mod_unique _ _ 1); lia. }
        rewrite E' in E. lia. }
      rewrite wrap_id by lia. split; [intros H; split; [by right|done]|by intros [_ H]].
Qed.

Definition regs_example : list memregion :=
  [mkReg 12 0x80000000 0x7; mkReg 31 0x80000000 0x3f; mkReg 64 0 0x38].

Lemma check_addr_range_exact_witness :
  Forall valid regs_example /\ Forall top_free regs_example /\
  exists b, check_addr_range regs_example 0x80000ff0 0x20 1 1 = Some b /\
    (b = true <-> (0x20 = 0 \/ 0x80000ff0 + 0x20 < 2 ^ 64) /\
       forall a, 0x80000ff0 <= a < 0x80000ff0 + 0x20 -> addr_allowed regs_example 1 1 a = true).
Proof.
  assert (Forall valid regs_example) as Hv
    by (repeat constructor; vm_compute; congruence).
  assert (Forall top_free regs_example) as Ht
    by (repeat constructor; vm_compute; congruence).
  split; [exact Hv|]. split; [exact Ht|].
  apply (check_addr_range_exact regs_example 0x80000ff0 0x20 1 1 Hv Ht);
    unfold in_range; lia.
Defined.

Definition regs_top : list memregion := [mkReg 63 0 0x3f; mkReg 63 (2 ^ 63) 0x3f].

Lemma regs_top_loop fuel max : 2 ^ 63 < max ->
  check_range_loop fuel regs_top 0 max 1 1 = None /\
  check_range_loop fuel regs_top (2 ^ 63) max 1 1 = None.
Proof.
  intros Hm. induction fuel as [|fuel [IH1 IH2]]; [done|]. split; cbn [check_range_loop].
  - rewrite (proj2 (Z.ltb_lt 0 max)) by lia.
    change (find_region regs_top 0) with (Some (0%nat, mkReg 63 0 0x3f)).
    change (check_addr regs_top 0 1 1) with true.
    change (find_next_subset_region regs_top 0 (mkReg 63 0 0x3f) 0) with (@None memregion).
    exact IH2.
  - rewrite (proj2 (Z.ltb_lt (2 ^ 63) max)) by lia.
    change (find_region regs_top (2 ^ 63)) with (Some (1%nat, mkReg 63 (2 ^ 63) 0x3f)).
    change (check_addr regs_top (2 ^ 63) 1 1) with true.
    change (find_next_subset_region regs_top 1 (mkReg 63 (2 ^ 63) 0x3f) (2 ^ 63)) with (@None memregion).
    exact IH1.
Qed.

(** With a region that ends at the top of the address space the next
    address wraps to zero, and the loop of [sbi_domain_check_addr_range] may
    never end: here all of memory is readable and a read of eight bytes near
    the top is still undecided after any number of iterations. *)
Theorem check_addr_range_can_loop :
  Forall valid regs_top /\ (forall a, in_range 64 a -> addr_allowed regs_top 1 1 a = true) /\
  forall fuel, check_addr_range_fuel fuel regs_top (2 ^ 64 - 16) 8 1 1 = None.
Proof.
  split_and!.
  - repeat constructor; vm_compute; congruence.
  - intros a Ha. unfold in_range in Ha. unfold addr_allowed, find_region, regs_top.
    assert (Forall valid regs_top) as [H1 [H2 _]%Forall_cons]%Forall_cons
      by (repeat constructor; vm_compute; congruence).
    cbn [find_region_from]. destruct (in_region (mkReg 63 0 63) a) eqn:E1; [done|].
    destruct (in_region (mkReg 63 (2 ^ 63) 63) a) eqn:E2; [done|]. exfalso.
    pose proof (proj2 (in_region_iff (mkReg 63 0 63) a H1)) as I1.
    pose proof (proj2 (in_region_iff (mkReg 63 (2 ^ 63) 63) a H2)) as I2.
    unfold lim in *. cbn [base order] in *.
    destruct (decide (a < 2 ^ 63)); [rewrite I1 in E1 by lia|rewrite I2 in E2 by lia]; done.
  - intros fuel. unfold check_addr_range_fuel.
    change (u64 (2 ^ 64 - 16 + 8)) with (2 ^ 64 - 8).
    change (truthy 8 && (2 ^ 64 - 8 <=? 2 ^ 64 - 16)) with false. cbv iota.
    destruct fuel as [|fuel]; [done|].
    destruct (regs_top_loop fuel (2 ^ 64 - 8) ltac:(lia)) as [H0 _]. exact H0.
Qed.

(** C21: sorting and pruning leave a sorted list of valid regions taken
    from the original ones that covers the same addresses.  Unless a region
    stands between two others that have the same flags, the first region of the
    new list that holds an address allows what the most specific of the original
    regions that hold it allows, in whatever order they were given: firmware
    before the others, then the smallest.  Where two regions of the same kind
    have the same range, it is one of them. *)
Theorem sanitize_regions_correct regs :
  Forall valid regs ->
  let regs' := sanitize_regions regs in
  StronglySorted le_reg regs' /\ Forall valid regs' /\ (forall r, r ∈ regs' -> r ∈ regs) /\
  (forall a, covered regs' a = covered regs a) /\
  (no_sandwich regs -> forall a mode af,
     (covered regs a = false -> check_addr regs' a mode af = (mode =? 3)) /\
     (covered regs a = true -> exists r, decides regs a r /\ check_addr regs' a mode af = region_allows (flags r) mode af) /\
     (unambiguous regs -> forall r, decides regs a r -> check_addr regs' a mode af = region_allows (flags r) mode af)).
Proof.
  intros Hv regs'. split_and!.
  - apply sanitize_sorted.
  - by apply sanitize_valid.
  - intros r Hr%remove_covered_elem. by rewrite (sort_regions_perm regs).
  - intros a. by apply sanitize_covers.
  - intros Hns a mode af. assert (region_flags regs' a = region_flags (sort_regions regs) a) as E.
    { apply remove_covered_flags; [by rewrite <- (sort_regions_perm regs)|apply sort_regions_sorted|].
      intros A C B. rewrite <- !(elem_of_Permutation_proper _ _ _ (sort_regions_perm regs)). apply Hns. }
    assert (covered regs a = true -> exists r, decides regs a r /\ region_flags regs' a = Some (flags r)) as Hd.
    { intros Hc. rewrite (covered_perm _ _ a (sort_regions_perm regs)) in Hc. apply region_flags_covered in Hc as [f Hf].
      destruct (sorted_decides _ a f (sort_regions_sorted regs) Hf) as (r & Hr & <-). exists r. rewrite E.
      split; [|done]. by apply (decides_perm (sort_regions regs)); [symmetry; apply sort_regions_perm|]. }
    rewrite check_addr_flags. split_and!.
    + intros Hc. destruct (region_flags regs' a) eqn:Ef; [|done].
      assert (covered regs' a = true) as Hc' by (by apply region_flags_covered; rewrite Ef).
      unfold regs' in Hc'. by rewrite sanitize_covers, Hc in Hc'.
    + intros Hc. destruct (Hd Hc) as (r & Hr & ->). eauto.
    + intros Hu r Hr. destruct Hd as (r' & Hr' & ->).
      { apply covered_true. exists r. destruct Hr as (? & ? & _). done. }
      by rewrite (decides_unique regs a r' r).
Qed.

(** The sort moves a page in front of the region around it, and with it the
    decision; the page with the flags of the region around it is dropped. *)
Lemma sanitize_regions_correct_witness :
  let regs := [mkReg 31 0x80000000 0x38; mkReg 12 0x80000000 0x07; mkReg 12 0x90000000 0x38; mkReg 12 0x1000 0x1b] in
  Forall valid regs /\ no_sandwich regs /\ unambiguous regs /\
  check_addr regs 0x80000000 1 SBI_DOMAIN_WRITE = true /\
  sanitize_regions regs = [mkReg 12 0x1000 0x1b; mkReg 12 0x80000000 0x07; mkReg 31 0x80000000 0x38] /\
  check_addr (sanitize_regions regs) 0x80000000 1 SBI_DOMAIN_WRITE = region_allows 0x07 1 SBI_DOMAIN_WRITE.
Proof.
  intros regs.
  assert (Forall valid regs) as Hv by (repeat constructor; vm_compute; congruence).
  assert (no_sandwich regs) as Hns.
  { intros A C B HA HC HB. unfold regs in HA, HC, HB. rewrite !elem_of_cons, elem_of_nil in HA, HC, HB.
    destruct HA as [->|[->|[->|[->|[]]]]]; destruct HC as [->|[->|[->|[->|[]]]]]; destruct HB as [->|[->|[->|[->|[]]]]];
      vm_compute; congruence. }
  assert (unambiguous regs) as Hu.
  { intros A B HA HB. unfold regs in HA, HB. rewrite !elem_of_cons, elem_of_nil in HA, HB.
    destruct HA as [->|[->|[->|[->|[]]]]]; destruct HB as [->|[->|[->|[->|[]]]]]; vm_compute; congruence. }
  destruct (sanitize_regions_correct regs Hv) as (_ & _ & _ & _ & Hc).
  split; [exact Hv|]. split; [exact Hns|]. split; [exact Hu|]. split; [vm_compute; reflexivity|]. split; [vm_compute; reflexivity|].
  apply (Hc Hns 0x80000000 1 SBI_DOMAIN_WRITE) with (r := mkReg 12 0x80000000 0x07); [exact Hu|].
  split_and!; [unfold regs; set_solver|vm_compute; reflexivity|]. intros r' Hr'. unfold regs in Hr'. rewrite !elem_of_cons, elem_of_nil in Hr'.
  destruct Hr' as [->|[->|[->|[->|[]]]]]; vm_compute; (split; congruence) || congruence.
Defined.

(** Without that condition pruning changes decisions.  A page that
    only machine mode may use lies in a megabyte open to everyone, itself inside
    a machine-only gigabyte; the page is dropped because the gigabyte has its
    flags, and its addresses then fall to the open megabyte. *)
Theorem sanitize_opens_sandwiched_region :
  let regs := [mkReg 12 0x80000000 0x7; mkReg 20 0x80000000 0x3f; mkReg 30 0x80000000 0x7] in
  Forall valid regs /\ sort_regions regs = regs /\
  check_addr regs 0x80000000 1 SBI_DOMAIN_WRITE = false /\
  check_addr (sanitize_regions regs) 0x80000000 1 SBI_DOMAIN_WRITE = true.
Proof. split; [repeat constructor; vm_compute; congruence|]. by vm_compute. Qed.
