(* ===== verification/HartPmp.v ===== *)
(** * Programming the PMP from a domain

    lib/sbi/sbi_hart_pmp.c and the PMP flag functions of lib/sbi/sbi_domain.c
    (xendor/opensbi), on the PMP unit of file Pmp: the plain and the Smepmp
    configuration of a hart for a domain, the temporary mapping of shared
    memory, and the removal of a configuration; with lib/sbi/sbi_hart_protection.c,
    which picks between them.

    The theorems say that the configured hardware allows exactly (or, where the
    hardware has no encoding, at most) what [sbi_domain_check_addr] allows. *)

From S2P Require Import Prelude Bitops Bitmap Pmp Memregion.

Local Open Scope Z_scope.
Local Arguments Z.testbit : simpl never.

Definition sbi_domain_get_oldpmp_flags (reg : memregion) : Z :=
  let pmp_flags := if truthy (Z.land (flags reg) MEMREGION_ENF_PERMISSIONS) then PMP_L else 0 in
  let pmp_flags := if truthy (Z.land (flags reg) MEMREGION_SU_READABLE)
                   then Z.lor pmp_flags PMP_R else pmp_flags in
  let pmp_flags := if truthy (Z.land (flags reg) MEMREGION_SU_WRITABLE)
                   then Z.lor pmp_flags PMP_W else pmp_flags in
  if truthy (Z.land (flags reg) MEMREGION_SU_EXECUTABLE) then Z.lor pmp_flags PMP_X else pmp_flags.

Definition MEMREGION_SHARED_RDONLY : Z := Z.lor MEMREGION_M_READABLE MEMREGION_SU_READABLE.
Definition MEMREGION_SHARED_SUX_MRX : Z :=
  Z.lor (Z.lor MEMREGION_M_READABLE MEMREGION_M_EXECUTABLE) MEMREGION_SU_EXECUTABLE.
Definition MEMREGION_SHARED_SUX_MX : Z := Z.lor MEMREGION_M_EXECUTABLE MEMREGION_SU_EXECUTABLE.
Definition MEMREGION_SHARED_SURW_MRW : Z :=
  Z.lor (Z.lor (Z.lor MEMREGION_M_READABLE MEMREGION_M_WRITABLE) MEMREGION_SU_READABLE)
    MEMREGION_SU_WRITABLE.
Definition MEMREGION_SHARED_SUR_MRW : Z :=
  Z.lor (Z.lor MEMREGION_M_READABLE MEMREGION_M_WRITABLE) MEMREGION_SU_READABLE.

Definition IS_SUR_MR (f : Z) : bool := Z.land f MEMREGION_ACCESS_MASK =? MEMREGION_SHARED_RDONLY.
Definition IS_SUX_MRX (f : Z) : bool := Z.land f MEMREGION_ACCESS_MASK =? MEMREGION_SHARED_SUX_MRX.
Definition IS_SUX_MX (f : Z) : bool := Z.land f MEMREGION_ACCESS_MASK =? MEMREGION_SHARED_SUX_MX.
Definition IS_SURW_MRW (f : Z) : bool := Z.land f MEMREGION_ACCESS_MASK =? MEMREGION_SHARED_SURW_MRW.
Definition IS_SUR_MRW (f : Z) : bool := Z.land f MEMREGION_ACCESS_MASK =? MEMREGION_SHARED_SUR_MRW.
Definition IS_SHARED (f : Z) : bool :=
  IS_SUR_MR f || IS_SUX_MRX f || IS_SUX_MX f || IS_SURW_MRW f || IS_SUR_MRW f.
Definition M_ONLY_ACCESS (f : Z) : bool :=
  truthy (Z.land f MEMREGION_M_ACCESS_MASK) && negb (truthy (Z.land f MEMREGION_SU_ACCESS_MASK)).
Definition SU_ONLY_ACCESS (f : Z) : bool :=
  truthy (Z.land f MEMREGION_SU_ACCESS_MASK) && negb (truthy (Z.land f MEMREGION_M_ACCESS_MASK)).

Definition sbi_domain_get_smepmp_flags (reg : memregion) : Z :=
  let f := flags reg in
  if Z.land f MEMREGION_ACCESS_MASK =? 0 then 0
  else if IS_SHARED f then
    if IS_SUR_MR f then Z.lor (Z.lor (Z.lor PMP_L PMP_R) PMP_W) PMP_X
    else if IS_SUX_MRX f then Z.lor (Z.lor PMP_L PMP_W) PMP_X
    else if IS_SUX_MX f then Z.lor PMP_L PMP_W
    else if IS_SURW_MRW f then Z.lor PMP_W PMP_X
    else if IS_SUR_MRW f then PMP_W
    else 0
  else if M_ONLY_ACCESS f then
    if Z.land f MEMREGION_M_ACCESS_MASK =? MEMREGION_M_RWX then 0
    else
      let p := PMP_L in
      let p := if truthy (Z.land f MEMREGION_M_READABLE) then Z.lor p PMP_R else p in
      let p := if truthy (Z.land f MEMREGION_M_WRITABLE) then Z.lor p PMP_W else p in
      if truthy (Z.land f MEMREGION_M_EXECUTABLE) then Z.lor p PMP_X else p
  else if SU_ONLY_ACCESS f then
    let p := if truthy (Z.land f MEMREGION_SU_READABLE) then PMP_R else 0 in
    let p := if truthy (Z.land f MEMREGION_SU_WRITABLE) then Z.lor p PMP_W else p in
    if truthy (Z.land f MEMREGION_SU_EXECUTABLE) then Z.lor p PMP_X else p
  else 0.

(** The features detected at boot and the state shared by the harts. *)
Record hart_features := mkFeatures { pmp_count : Z; pmp_log2gran : Z; pmp_addr_bits : Z }.

Record hart_pmp := mkHartPmp {
  unit_of : pmp_unit;
  fw_smepmp_ids : list Z;
  fw_smepmp_ids_inited : bool
}.

Definition with_unit (s : hart_pmp) (h : pmp_unit) : hart_pmp :=
  mkHartPmp h (fw_smepmp_ids s) (fw_smepmp_ids_inited s).

Abbreviation SBI_SMEPMP_RESV_ENTRY := 0.

(** Spike's mseccfg: the RLB bit cannot come back once an entry is locked, MML
    and MMWP stay. *)
Definition mseccfg_write (h : pmp_unit) (val : Z) : pmp_unit :=
  if n_pmp h =? 0 then h
  else
    let pmplock_recorded := existsb (fun i => truthy (Z.land (ent_cfg (ent h i)) PMP_L)) (seqZ 0 (n_pmp h)) in
    let new_val := mseccfg h in
    let new_val := if negb (pmplock_recorded && (Z.land (mseccfg h) MSECCFG_RLB =? 0))
      then Z.lor (Z.land new_val (not_w 64 MSECCFG_RLB)) (Z.land val MSECCFG_RLB) else new_val in
    let new_val := Z.lor new_val (Z.land val MSECCFG_MMWP) in
    let new_val := Z.lor new_val (Z.land val MSECCFG_MML) in
    mkUnit (n_pmp h) (lg_pmp_granularity h) (paddr_bits h) (ext_smpmpmt h) (ext_sspmpen h) (spmpen h)
      new_val (pmpaddr h).

Definition csr_set_mseccfg (h : pmp_unit) (bits : Z) : pmp_unit :=
  mseccfg_write h (Z.lor (mseccfg h) bits).

Definition sbi_hart_smepmp_is_fw_region (s : hart_pmp) (pmp_idx : Z) : bool :=
  if negb (fw_smepmp_ids_inited s) then false else truthy (bitmap_test (fw_smepmp_ids s) pmp_idx).

Definition addr_max (f : hart_features) : Z :=
  let pmp_bits := pmp_addr_bits f - 1 in Z.lor (shl64 1 pmp_bits) (shl64 1 pmp_bits - 1).

(** The unit's register file takes the region only when it can express it. *)
Definition expressible (f : hart_features) (reg : memregion) : bool :=
  (pmp_log2gran f <=? order reg) && (Z.shiftr (base reg) PMP_SHIFT <? addr_max f).

Definition sbi_hart_smepmp_set (f : hart_features) (h : pmp_unit) (reg : memregion) (pmp_idx pmp_flags : Z) :
    pmp_unit :=
  if expressible f reg then (sbi_hart_pmp_set h pmp_idx pmp_flags (base reg) (order reg)).2 else h.

Definition is_valid_pmp_idx (pmp_count pmp_idx : Z) : bool := pmp_idx <? pmp_count.

Definition skip_reserved (pmp_idx : Z) : Z :=
  if pmp_idx =? SBI_SMEPMP_RESV_ENTRY then pmp_idx + 1 else pmp_idx.

(** The first pass: machine-only regions, before MML is set.  The result is the
    return code when the pass ends early. *)
Fixpoint smepmp_m_pass (f : hart_features) (regs : list memregion) (pmp_idx : Z) (s : hart_pmp) :
    option Z * hart_pmp :=
  match regs with
  | [] => (None, s)
  | reg :: regs' =>
      let pmp_idx := skip_reserved pmp_idx in
      if negb (is_valid_pmp_idx (pmp_count f) pmp_idx) then (Some SBI_EFAIL, s)
      else if negb (M_ONLY_ACCESS (flags reg)) then smepmp_m_pass f regs' (pmp_idx + 1) s
      else if is_firmware (flags reg) && fw_smepmp_ids_inited s &&
              negb (sbi_hart_smepmp_is_fw_region s pmp_idx) then (Some SBI_EINVAL, s)
      else
        let ids := if is_firmware (flags reg) && negb (fw_smepmp_ids_inited s)
                   then bitmap_set (fw_smepmp_ids s) pmp_idx 1 else fw_smepmp_ids s in
        let h := sbi_hart_smepmp_set f (unit_of s) reg pmp_idx (sbi_domain_get_smepmp_flags reg) in
        smepmp_m_pass f regs' (pmp_idx + 1) (mkHartPmp h ids (fw_smepmp_ids_inited s))
  end.

(** The second pass: shared and supervisor-only regions, under MML.  The index
    of the first entry after the domain's comes back with the unit. *)
Fixpoint smepmp_su_pass (f : hart_features) (regs : list memregion) (pmp_idx : Z) (h : pmp_unit) :
    option Z * Z * pmp_unit :=
  match regs with
  | [] => (None, pmp_idx, h)
  | reg :: regs' =>
      let pmp_idx := skip_reserved pmp_idx in
      if negb (is_valid_pmp_idx (pmp_count f) pmp_idx) then (Some SBI_EFAIL, pmp_idx, h)
      else if M_ONLY_ACCESS (flags reg) then smepmp_su_pass f regs' (pmp_idx + 1) h
      else smepmp_su_pass f regs' (pmp_idx + 1)
             (sbi_hart_smepmp_set f h reg pmp_idx (sbi_domain_get_smepmp_flags reg))
  end.

Definition disable_from (f : hart_features) (pmp_idx : Z) (h : pmp_unit) : pmp_unit :=
  foldl (fun h i => (sbi_hart_pmp_disable h i).2) h (seqZ pmp_idx (pmp_count f - pmp_idx)).

Definition sbi_hart_smepmp_configure (f : hart_features) (regs : list memregion) (s : hart_pmp) :
    Z * hart_pmp :=
  let h := csr_set_mseccfg (unit_of s) MSECCFG_RLB in
  let h := (sbi_hart_pmp_disable h SBI_SMEPMP_RESV_ENTRY).2 in
  match smepmp_m_pass f regs 0 (with_unit s h) with
  | (Some rc, s) => (rc, s)
  | (None, s) =>
      let s := mkHartPmp (csr_set_mseccfg (unit_of s) MSECCFG_MML) (fw_smepmp_ids s) true in
      match smepmp_su_pass f regs 0 (unit_of s) with
      | (Some rc, _, h) => (rc, with_unit s h)
      | (None, pmp_idx, h) => (0, with_unit s (disable_from f pmp_idx h))
      end
  end.

(** The first order the loop accepts, with its base; [None] when it reaches 64. *)
Fixpoint map_range_loop (fuel : nat) (addr size ord : Z) : option (Z * Z) :=
  match fuel with
  | O => None
  | S fuel =>
      if ord <? 64 then
        let base := Z.land addr (not_w 64 (shl64 1 ord - 1)) in
        let last := u64 (addr + size - 1) in
        let top := u64 (base + shl64 1 ord) in
        if (base <=? addr) && (addr <? top) && (base <=? last) && (last <? top)
        then Some (base, ord) else map_range_loop fuel addr size (ord + 1)
      else None
  end.

Definition sbi_hart_smepmp_map_range (f : hart_features) (s : hart_pmp) (addr size : Z) : Z * hart_pmp :=
  let pmp_flags := Z.lor PMP_W PMP_X in
  if sbi_hart_is_pmp_enabled (unit_of s) SBI_SMEPMP_RESV_ENTRY then (SBI_ENOSPC, s)
  else
    match map_range_loop 65 addr size (Z.max (pmp_log2gran f) (log2roundup size)) with
    | None => (SBI_EFAIL, s)
    | Some (base, ord) =>
        (SBI_OK, with_unit s (sbi_hart_pmp_set (unit_of s) SBI_SMEPMP_RESV_ENTRY pmp_flags base ord).2)
    end.

Definition sbi_hart_smepmp_unmap_range (s : hart_pmp) : Z * hart_pmp :=
  let '(rc, h) := sbi_hart_pmp_disable (unit_of s) SBI_SMEPMP_RESV_ENTRY in (rc, with_unit s h).

Fixpoint oldpmp_pass (f : hart_features) (regs : list memregion) (pmp_idx : Z) (h : pmp_unit) :
    option Z * Z * pmp_unit :=
  match regs with
  | [] => (None, pmp_idx, h)
  | reg :: regs' =>
      if negb (is_valid_pmp_idx (pmp_count f) pmp_idx) then (Some SBI_EFAIL, pmp_idx, h)
      else if expressible f reg
      then oldpmp_pass f regs' (pmp_idx + 1)
             (sbi_hart_pmp_set h pmp_idx (sbi_domain_get_oldpmp_flags reg) (base reg) (order reg)).2
      else oldpmp_pass f regs' pmp_idx h
  end.

Definition sbi_hart_oldpmp_configure (f : hart_features) (regs : list memregion) (s : hart_pmp) :
    Z * hart_pmp :=
  match oldpmp_pass f regs 0 (unit_of s) with
  | (Some rc, _, h) => (rc, with_unit s h)
  | (None, pmp_idx, h) => (0, with_unit s (disable_from f pmp_idx h))
  end.

Definition sbi_hart_pmp_unconfigure (f : hart_features) (s : hart_pmp) : hart_pmp :=
  with_unit s (foldl (fun h i =>
    if sbi_hart_smepmp_is_fw_region s i then h else (sbi_hart_pmp_disable h i).2)
    (unit_of s) (seqZ 0 (pmp_count f))).

(** ** Choosing a protection mechanism (sbi_hart_protection.c)

    The list hart_protection_list, best rating first; an operation that is a
    NULL pointer is [None].  The state the operations act on is [S]. *)

Definition SBI_ENOSYS : Z := -1001.

Section Protection.
Context {S : Type}.

Record hart_protection := mkProtection {
  rating : Z;
  configure : option (S -> Z * S);
  unconfigure : option (S -> S);
  map_range : option (S -> Z -> Z -> Z * S);
  unmap_range : option (S -> Z -> Z -> Z * S)
}.

Definition sbi_hart_protection_best (l : list hart_protection) : option hart_protection := head l.

(** Before the first entry of a lower rating, or at the end. *)
Fixpoint insert_protection (hprot : hart_protection) (l : list hart_protection) : list hart_protection :=
  match l with
  | [] => [hprot]
  | pos :: l' => if rating pos <? rating hprot then hprot :: l else pos :: insert_protection hprot l'
  end.

Definition sbi_hart_protection_register (hprot : option hart_protection) (l : list hart_protection) :
    Z * list hart_protection :=
  match hprot with None => (SBI_EINVAL, l) | Some hprot => (0, insert_protection hprot l) end.

Definition sbi_hart_protection_configure (l : list hart_protection) (s : S) : Z * S :=
  match sbi_hart_protection_best l with
  | None => (0, s)
  | Some hprot => match configure hprot with None => (SBI_ENOSYS, s) | Some f => f s end
  end.

Definition sbi_hart_protection_unconfigure (l : list hart_protection) (s : S) : S :=
  match sbi_hart_protection_best l with
  | None => s
  | Some hprot => match unconfigure hprot with None => s | Some f => f s end
  end.

Definition sbi_hart_protection_map_range (l : list hart_protection) (base size : Z) (s : S) : Z * S :=
  match sbi_hart_protection_best l with
  | None => (0, s)
  | Some hprot => match map_range hprot with None => (0, s) | Some f => f s base size end
  end.

Definition sbi_hart_protection_unmap_range (l : list hart_protection) (base size : Z) (s : S) : Z * S :=
  match sbi_hart_protection_best l with
  | None => (0, s)
  | Some hprot => match unmap_range hprot with None => (0, s) | Some f => f s base size end
  end.

Lemma insert_protection_sorted hprot l :
  StronglySorted (fun a b => rating b <= rating a) l ->
  StronglySorted (fun a b => rating b <= rating a) (insert_protection hprot l).
Proof.
  assert (forall l x, x ∈ insert_protection hprot l -> x = hprot \/ x ∈ l) as Hin.
  { induction l0 as [|y l0 IH]; intros x; simpl; [set_solver|].
    case_bool; [set_solver|]. intros [->|Hx]%elem_of_cons; [right; left|].
    destruct (IH x Hx); [by left|right; by right]. }
  induction l as [|pos l IH]; intros Hs; simpl; [repeat constructor|].
  apply StronglySorted_inv in Hs as [Hs Hp]. case_bool; bool_to_prop.
  - repeat constructor; try done; [lia|]. eapply Forall_impl; [exact Hp|]. simpl. lia.
  - constructor; [by apply IH|]. rewrite Forall_forall in *. intros x Hx.
    destruct (Hin l x Hx) as [->|Hxl]; [done|by apply Hp].
Qed.
End Protection.
Arguments hart_protection : clear implicits.

(** The two mechanisms of sbi_hart_pmp.c, for the domain regions [regs]. *)
Definition pmp_protection (f : hart_features) (regs : list memregion) : hart_protection hart_pmp :=
  mkProtection 100 (Some (sbi_hart_oldpmp_configure f regs)) (Some (sbi_hart_pmp_unconfigure f)) None None.

Definition epmp_protection (f : hart_features) (regs : list memregion) : hart_protection hart_pmp :=
  mkProtection 200 (Some (sbi_hart_smepmp_configure f regs)) (Some (sbi_hart_pmp_unconfigure f))
    (Some (fun s addr size => sbi_hart_smepmp_map_range f s addr size))
    (Some (fun s _ _ => sbi_hart_smepmp_unmap_range s)).

Definition sbi_hart_pmp_init (f : hart_features) (smepmp : bool) (regs : list memregion)
    (l : list (hart_protection hart_pmp)) : Z * list (hart_protection hart_pmp) :=
  if truthy (pmp_count f) then
    sbi_hart_protection_register (Some (if smepmp then epmp_protection f regs else pmp_protection f regs)) l
  else (0, l).

(** ** Looking an access up *)

Lemma find_seqZ (p : Z -> bool) n : forall lo i,
  find p (seqZ lo n) = Some i <->
  lo <= i < lo + n /\ p i = true /\ (forall j, lo <= j < i -> p j = false).
Proof.
  destruct (decide (n < 0)) as [Hneg|Hn].
  { intros. rewrite seqZ_nil by lia. simpl. split; [done|]. intros (? & _). lia. }
  rewrite <- (Z2Nat.id n) by lia. generalize (Z.to_nat n) as k. clear n Hn.
  induction k as [|k IH]; intros lo i.
  { rewrite seqZ_nil by lia. simpl. split; [done|]. intros (? & _). lia. }
  rewrite seqZ_cons by lia. replace (Z.pred (Z.of_nat (S k))) with (Z.of_nat k) by lia.
  cbn [find]. destruct (p lo) eqn:E.
  - split.
    + intros [= <-]. split_and!; [lia|lia|done|lia].
    + intros (Hi & Hp & Hlt). f_equal. destruct (decide (lo = i)); [done|].
      rewrite Hlt in E by lia. done.
  - rewrite IH. split; intros (Hi & Hp & Hlt).
    + split_and!; [lia|lia|done|]. intros j Hj. destruct (decide (j = lo)) as [->|]; [done|apply Hlt; lia].
    + assert (lo <> i) by congruence. split_and!; [lia|lia|done|]. intros j Hj. apply Hlt. lia.
Qed.

Lemma find_seqZ_none (p : Z -> bool) lo n :
  (forall j, lo <= j < lo + n -> p j = false) -> find p (seqZ lo n) = None.
Proof.
  intros H. destruct (find p (seqZ lo n)) as [i|] eqn:E; [|done].
  apply find_seqZ in E as (Hi & Hp & _). rewrite H in Hp by done. done.
Qed.

(** Entries that cannot tell two addresses of one doubleword apart. *)
Definition coarse (h : pmp_unit) (i : Z) : Prop :=
  forall a b, in_range 56 a -> in_range 56 b -> a / 8 = b / 8 -> match4 h i a = match4 h i b.

(** The access lies in one aligned doubleword of the physical space. *)
Definition small_access (addr len : Z) : Prop := in_range 56 addr /\ 0 < len /\ addr mod 8 + len <= 8.

Lemma access_offsets addr len :
  small_access addr len ->
  let aligned := Z.land addr (u64 (- 4)) in
  let len_aligned := u64 (Z.land (u64 (addr + len + 4 - 1)) (u64 (- 4)) - aligned) in
  let offsets := (fun k => 4 * k) <$> seqZ 0 (len_aligned / 4) in
  offsets <> [] /\
  (forall o, o ∈ offsets -> in_range 56 (u64 (aligned + o)) /\ u64 (aligned + o) / 8 = addr / 8).
Proof.
  intros (Ha & Hl & H8) aligned len_aligned offsets. unfold in_range in *.
  assert (forall x, 0 <= x < 2 ^ 64 -> Z.land x (u64 (- 4)) = x - x mod 4) as Hal.
  { intros x Hx. change (u64 (- 4)) with (not_w 64 (2 ^ 2 - 1)). by rewrite land_not_mask by (unfold in_range; lia). }
  pose proof (Z.mod_pos_bound addr 8 ltac:(lia)).
  assert (aligned = addr - addr mod 4) as Ea by (apply Hal; lia).
  assert (len_aligned = (addr + len + 3) - (addr + len + 3) mod 4 - aligned) as El.
  { unfold len_aligned. rewrite (wrap_id 64 (addr + len + 4 - 1)) by lia. rewrite Hal by lia.
    replace (addr + len + 4 - 1) with (addr + len + 3) by lia. apply wrap_id.
    rewrite Ea. Z.div_mod_to_equations. lia. }
  assert (aligned mod 4 = 0 /\ len_aligned mod 4 = 0 /\ 4 <= len_aligned /\ 0 <= aligned /\
    aligned / 8 = addr / 8 /\ aligned + len_aligned <= 8 * (addr / 8) + 8 /\ 8 * (addr / 8) + 8 <= 2 ^ 56)
    as (H1 & H2 & H3 & H4 & H5 & H6 & H7) by (rewrite El, Ea; Z.div_mod_to_equations; lia).
  split.
  - unfold offsets. rewrite seqZ_cons by (apply Z.div_str_pos; lia). done.
  - intros o (k & -> & Hk%elem_of_seqZ)%list_elem_of_fmap. rewrite wrap_id; Z.div_mod_to_equations; lia.
Qed.

Lemma lookup_from_uniform h aligned offsets idx a :
  offsets <> [] ->
  (forall i o, i ∈ idx -> o ∈ offsets -> match4 h i (u64 (aligned + o)) = match4 h i a) ->
  lookup_from h aligned offsets idx = Some <$> find (fun i => match4 h i a) idx.
Proof.
  intros Hne. induction idx as [|i idx IH]; intros Hu; [done|]. cbn [lookup_from find].
  assert (existsb (fun o => match4 h i (u64 (aligned + o))) offsets = match4 h i a /\
    (match4 h i a = true -> forallb (fun o => match4 h i (u64 (aligned + o))) offsets = true)) as [Hex Hall].
  { split.
    - destruct offsets as [|o os]; [done|]. destruct (match4 h i a) eqn:E.
      + apply existsb_exists. exists o. split; [by left|]. rewrite Hu; [done|left|left].
      + apply not_true_is_false. intros (x & Hx & Hm)%existsb_exists. apply list_elem_of_In in Hx.
        rewrite Hu in Hm by (done || left). congruence.
    - intros E. apply forallb_forall. intros o Ho%list_elem_of_In. rewrite Hu by (done || left). done. }
  rewrite Hex. destruct (match4 h i a); [by rewrite Hall|].
  apply IH. intros. apply Hu; [by right|done].
Qed.

Lemma pmp_lookup_first h addr len :
  unit_ok h -> small_access addr len -> (forall i, 0 <= i < n_pmp h -> coarse h i) ->
  pmp_lookup h addr len = Some <$> find (fun i => match4 h i addr) (seqZ 0 (n_pmp h)).
Proof.
  intros Hh Hs Hc. unfold pmp_lookup. rewrite (uo_gran h Hh).
  change (shl64 1 2) with 4. destruct (access_offsets addr len Hs) as [Hne Ho].
  apply lookup_from_uniform; [exact Hne|]. intros i o Hi%elem_of_seqZ Hin.
  destruct (Ho o Hin) as [Hr Hd]. apply Hc; [lia|done|apply Hs|done].
Qed.

(** ** Programmed entries *)

(** What boot code finds out about a hart with the unit [h]. *)
Record features_ok (f : hart_features) (h : pmp_unit) : Prop := {
  fo_count : pmp_count f = n_pmp h;
  fo_gran : pmp_log2gran f = 2;
  fo_bits : pmp_addr_bits f = 54
}.

(** [h'] differs from [h] in its entries only. *)
Record same_mode (h h' : pmp_unit) : Prop := {
  sm_n : n_pmp h' = n_pmp h;
  sm_gran : lg_pmp_granularity h' = lg_pmp_granularity h;
  sm_mt : ext_smpmpmt h' = ext_smpmpmt h;
  sm_sec : mseccfg h' = mseccfg h
}.

#[export] Instance same_mode_preorder : PreOrder same_mode.
Proof. split; [intros h; by constructor|]. intros h1 h2 h3 [] []. constructor; congruence. Qed.

Lemma same_mode_set h i e : same_mode h (set_ent h i e).
Proof. by constructor. Qed.

Lemma same_mode_legal h h' b : same_mode h h' -> legal_cfg h' b = legal_cfg h b.
Proof. intros []. apply legal_cfg_flags; [done| |done]. unfold get_mml. congruence. Qed.

Lemma same_mode_entry h h' prot q k : same_mode h h' -> region_entry h' prot q k = region_entry h prot q k.
Proof. intros Hs. unfold region_entry. by rewrite (same_mode_legal h h'). Qed.

Lemma addr_max_54 f : pmp_addr_bits f = 54 -> addr_max f = 2 ^ 54 - 1.
Proof. intros E. unfold addr_max. by rewrite E. Qed.

Definition reg_q (r : memregion) : Z := base r / 2 ^ order r.

Lemma expressible_iff f h r : features_ok f h -> valid r -> expressible f r = true <-> base r < 2 ^ 56.
Proof.
  intros [_ Hg Hb] Hv. destruct (valid_spec r Hv) as (Ho & H0 & Hq & _ & _). unfold expressible.
  rewrite Hg, (addr_max_54 f Hb), Z.shiftr_div_pow2 by lia. change (2 ^ 2) with 4.
  assert (base r mod 8 = 0) as H8.
  { rewrite Hq. rewrite (pow2_split 3 (order r)) by lia. change (2 ^ 3) with 8.
    rewrite Z.mul_assoc. apply Z.mod_mul. lia. }
  rewrite andb_true_iff, Z.leb_le, Z.ltb_lt. Z.div_mod_to_equations. lia.
Qed.

Lemma valid_fits r : valid r -> base r < 2 ^ 56 ->
  region_fits (reg_q r) (order r) /\ base r = reg_q r * 2 ^ order r.
Proof.
  intros Hv Hb. destruct (valid_spec r Hv) as (Ho & H0 & Hq & Hl & H8). split; [|done].
  unfold region_fits, reg_q. destruct (decide (order r <= 56)) as [Hle|Hgt].
  - left. split_and!; [lia|lia|apply Z.div_pos; lia|].
    rewrite (pow2_split (order r) 56) in * by lia.
    assert (base r / 2 ^ order r < 2 ^ (56 - order r)) by nia. nia.
  - right. split; [lia|]. apply Z.div_small.
    assert (2 ^ 57 <= 2 ^ order r) by (apply pow2_le; lia). lia.
Qed.

Definition holds (h : pmp_unit) (i : Z) (r : memregion) (prot : Z) : Prop :=
  ent h i = region_entry h prot (reg_q r) (order r).

Lemma holds_match h i r prot a :
  unit_ok h -> 0 <= i < 64 -> valid r -> base r < 2 ^ 56 -> holds h i r prot -> in_range 56 a ->
  match4 h i a = in_region r a.
Proof.
  intros Hh Hi Hv Hb He Ha. destruct (valid_fits r Hv Hb) as [Hf Hq].
  destruct (valid_spec r Hv) as (Ho & _ & _ & _ & _).
  rewrite (region_entry_match h i prot (reg_q r) (order r) a) by done.
  rewrite region_member by lia. rewrite <- Hq. apply eq_iff_eq_true.
  rewrite in_region_iff by done. unfold lim. lia.
Qed.

Lemma in_region_coarse r a b : valid r -> a / 8 = b / 8 -> in_region r a = in_region r b.
Proof.
  intros Hv Hab. destruct (valid_spec r Hv) as (Ho & _ & Hq & _ & _).
  assert (forall x, in_region r x = (x / 2 ^ order r =? base r / 2 ^ order r)) as Hx.
  { intros x. rewrite region_member by lia. rewrite <- Hq. apply eq_iff_eq_true.
    rewrite in_region_iff by done. unfold lim. lia. }
  rewrite !Hx. f_equal. rewrite (pow2_split 3 (order r)) by lia. change (2 ^ 3) with 8.
  rewrite (Z.mul_comm _ 8), <- !Z.div_div by (lia || apply pow2_pos; lia). by rewrite Hab.
Qed.

Lemma holds_coarse h i r prot :
  unit_ok h -> 0 <= i < 64 -> valid r -> base r < 2 ^ 56 -> holds h i r prot -> coarse h i.
Proof.
  intros Hh Hi Hv Hb He a b Ha Hb' Hab. rewrite !(holds_match h i r prot) by done.
  by apply in_region_coarse.
Qed.

Definition disabled (h : pmp_unit) (i : Z) : Prop := Z.land (ent_cfg (ent h i)) PMP_A = 0.

(** The entries from [off] on hold the regions [regs] with the permissions
    [prot] gives them, and no other entry is enabled. *)
Record configured (prot : memregion -> Z) (off : Z) (regs : list memregion) (h : pmp_unit) : Prop := {
  cf_unit : unit_ok h;
  cf_off : 0 <= off /\ off + Z.of_nat (length regs) <= n_pmp h;
  cf_valid : Forall (fun r => valid r /\ base r < 2 ^ 56) regs;
  cf_ent : forall k r, regs !! k = Some r -> holds h (off + Z.of_nat k) r (prot r);
  cf_rest : forall i, 0 <= i < n_pmp h -> i < off \/ off + Z.of_nat (length regs) <= i -> disabled h i
}.

Lemma configured_coarse prot off regs h i : configured prot off regs h -> 0 <= i < n_pmp h -> coarse h i.
Proof.
  intros [Hh Ho Hv He Hr] Hi. pose proof (uo_n h Hh).
  destruct (decide (off <= i < off + Z.of_nat (length regs))) as [Hin|Hout].
  - destruct (lookup_lt_is_Some_2 regs (Z.to_nat (i - off))) as [r Hl]; [lia|].
    specialize (He _ _ Hl). rewrite Z2Nat.id in He by lia. replace (off + (i - off)) with i in He by lia.
    rewrite Forall_lookup in Hv. destruct (Hv _ _ Hl). eapply holds_coarse; try done; lia.
  - intros a b _ _ _. rewrite !match4_off; [done|apply Hr; lia..].
Qed.

(** The unit decides an access by the first region of the domain. *)
Lemma configured_lookup prot off regs h addr len :
  configured prot off regs h -> small_access addr len ->
  pmp_lookup h addr len =
  match find_region regs addr with
  | Some (k, _) => Some (Some (off + Z.of_nat k))
  | None => None
  end.
Proof.
  intros Hc Hs. rewrite pmp_lookup_first;
    [|by apply (cf_unit _ _ _ _ Hc)|done|intros; by eapply configured_coarse].
  destruct Hc as [Hh Ho Hv He Hr]. pose proof (uo_n h Hh). destruct Hs as (Ha & _ & _).
  rewrite Forall_lookup in Hv.
  assert (forall i r, regs !! i = Some r -> match4 h (off + Z.of_nat i) addr = in_region r addr) as Hm.
  { intros i r Hl. destruct (Hv _ _ Hl). pose proof (lookup_lt_Some _ _ _ Hl).
    apply holds_match with (prot := prot r); try done; [lia|by apply He]. }
  assert (forall i, 0 <= i < n_pmp h -> i < off \/ off + Z.of_nat (length regs) <= i ->
    match4 h i addr = false) as Hoff by (intros; apply match4_off; by apply Hr).
  assert (forall i, off <= i < off + Z.of_nat (length regs) ->
    exists k r, i = off + Z.of_nat k /\ regs !! k = Some r) as Hidx.
  { intros i Hi. destruct (lookup_lt_is_Some_2 regs (Z.to_nat (i - off))) as [r Hl]; [lia|].
    exists (Z.to_nat (i - off)), r. split; [lia|done]. }
  destruct (find_region regs addr) as [[k r]|] eqn:E.
  - apply find_region_some in E as (Hl & Hin & Hbefore). pose proof (lookup_lt_Some _ _ _ Hl).
    rewrite (proj2 (find_seqZ _ (n_pmp h) 0 (off + Z.of_nat k))); [done|].
    split_and!; [lia|lia|by rewrite (Hm k r)|]. intros j Hj.
    destruct (decide (off <= j)) as [Hge|]; [|apply Hoff; lia].
    destruct (Hidx j ltac:(lia)) as (k' & r' & -> & Hl'). rewrite (Hm k' r') by done.
    apply (Hbefore k'); [lia|done].
  - unfold find_region in E. pose proof (proj1 (find_region_none regs 0 addr) E) as Hnone.
    rewrite find_seqZ_none; [done|]. intros j Hj.
    destruct (decide (off <= j < off + Z.of_nat (length regs))); [|apply Hoff; lia].
    destruct (Hidx j ltac:(lia)) as (k' & r' & -> & Hl'). rewrite (Hm k' r') by done.
    apply Hnone. by eapply list_elem_of_lookup_2.
Qed.

(** ** The programming loops *)

Definition open_from (h : pmp_unit) (idx : Z) : Prop := forall i, idx <= i < 64 -> unlocked h i = true.

Lemma open_writable h idx i : unit_ok h -> open_from h idx -> 0 <= idx <= i -> i < n_pmp h -> writable h i = true.
Proof.
  intros Hh Ho Hi Hn. pose proof (uo_n h Hh). unfold writable.
  rewrite (proj2 (Z.leb_le 0 i)), (proj2 (Z.ltb_lt i (n_pmp h))), Ho by lia. cbn [andb].
  unfold next_locked_and_tor, max_pmp. destruct (Z.leb_spec 64 (i + 1)); [done|].
  pose proof (Ho (i + 1) ltac:(lia)) as Hu. unfold unlocked in Hu.
  destruct (get_rlb h), (truthy (Z.land (ent_cfg (ent h (i + 1))) PMP_L)); simpl in *; done.
Qed.

Lemma open_set h idx i e : length (pmpaddr h) = 64%nat -> 0 <= i < 64 -> 0 <= idx -> open_from h idx ->
  i < idx \/ truthy (Z.land (ent_cfg e) PMP_L) = false -> open_from (set_ent h i e) idx.
Proof.
  intros Hl Hi Hidx Ho He j Hj. unfold unlocked. rewrite ent_set by lia.
  change (get_rlb (set_ent h i e)) with (get_rlb h). case_bool; [|by apply Ho].
  bool_to_prop. destruct He as [He| ->]; [lia|by rewrite orb_true_r].
Qed.

Lemma disable_list_spec l : forall h,
  unit_ok h -> NoDup l -> (forall i, i ∈ l -> 0 <= i < n_pmp h) ->
  (forall i, i ∈ l -> open_from h i) ->
  let h' := foldl (fun h i => (sbi_hart_pmp_disable h i).2) h l in
  unit_ok h' /\ same_mode h h' /\ (forall i, 0 <= i < 64 -> i ∉ l -> ent h' i = ent h i) /\
  (forall i, i ∈ l -> disabled h' i).
Proof.
  induction l as [|x l IH]; intros h Hh Hd Hl Ho; cbn [foldl].
  { cbv zeta. split_and!; [done|done|done|]. intros i Hi. by apply not_elem_of_nil in Hi. }
  pose proof (uo_n h Hh) as Hn. pose proof (uo_len h Hh) as Hlen. pose proof (Hl x ltac:(left)) as Hx.
  apply NoDup_cons in Hd as [Hnx Hd].
  destruct (hart_pmp_disable_spec h x Hh) as [E Hok].
  { apply (open_writable h x); try done; [apply Ho; left|lia|lia]. }
  rewrite E. cbn [snd]. set (h1 := set_ent h x _) in *.
  destruct (IH h1 Hok Hd) as (Hok' & Hsm & Hfr & Hdis).
  - intros i Hi. apply Hl. by right.
  - intros i Hi. pose proof (Hl i ltac:(by right)). apply open_set; try done; [lia|lia|apply Ho; by right|by right].
  - cbv zeta. split_and!; [done| | |].
    + etrans; [apply same_mode_set|exact Hsm].
    + intros i Hi Hni. rewrite Hfr by set_solver. apply ent_set_ne; [lia|lia|set_solver].
    + intros i [->|Hi]%elem_of_cons; [|by apply Hdis]. unfold disabled. rewrite Hfr by (done || lia).
      unfold h1. rewrite ent_set_eq by lia. done.
Qed.

Lemma disable_from_spec f idx h :
  unit_ok h -> features_ok f h -> 0 <= idx -> open_from h idx ->
  let h' := disable_from f idx h in
  unit_ok h' /\ same_mode h h' /\ (forall i, 0 <= i < idx -> i < 64 -> ent h' i = ent h i) /\
  (forall i, idx <= i < n_pmp h -> disabled h' i).
Proof.
  intros Hh Hf Hi Ho. unfold disable_from. rewrite (fo_count _ _ Hf).
  destruct (disable_list_spec (seqZ idx (n_pmp h - idx)) h Hh) as (H1 & H2 & H3 & H4).
  - apply NoDup_seqZ.
  - intros i Hin%elem_of_seqZ. lia.
  - intros i Hin%elem_of_seqZ j Hj. apply Ho. lia.
  - cbv zeta. split_and!; [done|done| |].
    + intros i Hlt H64. apply H3; [lia|]. rewrite elem_of_seqZ. lia.
    + intros i Hin. apply H4. apply elem_of_seqZ. lia.
Qed.

(** Programming one region. *)
Lemma set_region_spec h i r prot :
  unit_ok h -> writable h i = true -> valid r -> base r < 2 ^ 56 ->
  get_mml h = false \/ get_rlb h = true ->
  let h' := (sbi_hart_pmp_set h i prot (base r) (order r)).2 in
  unit_ok h' /\ same_mode h h' /\ h' = set_ent h i (region_entry h prot (reg_q r) (order r)).
Proof.
  intros Hh Hw Hv Hb Hacc. destruct (valid_fits r Hv Hb) as [Hf Hq]. rewrite Hq.
  destruct (hart_pmp_set_spec h i prot (reg_q r) (order r) Hh Hw Hf) as [E Hok].
  { unfold cfg_accepted. destruct Hacc as [-> | ->]; [by rewrite orb_true_r|done]. }
  rewrite E. cbn [snd]. split_and!; [done|apply same_mode_set|done].
Qed.

Lemma features_same f h h' : same_mode h h' -> features_ok f h -> features_ok f h'.
Proof. intros [] []. constructor; congruence. Qed.

Lemma oldpmp_pass_spec f regs : forall idx h idx' h',
  unit_ok h -> features_ok f h -> get_mml h = false -> Forall valid regs ->
  0 <= idx <= n_pmp h -> open_from h idx ->
  oldpmp_pass f regs idx h = (None, idx', h') ->
  let ex := filter (fun r => base r < 2 ^ 56) regs in
  unit_ok h' /\ same_mode h h' /\ idx' = idx + Z.of_nat (length ex) /\ idx' <= n_pmp h /\
  (forall i, 0 <= i < idx -> ent h' i = ent h i) /\ open_from h' idx' /\
  (forall k r, ex !! k = Some r -> holds h' (idx + Z.of_nat k) r (sbi_domain_get_oldpmp_flags r)).
Proof.
  induction regs as [|r regs IH]; intros idx h idx' h' Hh Hf Hm Hv Hidx Ho E ex; cbn [oldpmp_pass] in E.
  { injection E as <- <-. unfold ex. simpl. split_and!; try done; lia. }
  unfold is_valid_pmp_idx in E. rewrite (fo_count _ _ Hf) in E.
  destruct (Z.ltb_spec idx (n_pmp h)) as [Hlt|]; [|done]. cbn [negb] in E.
  apply Forall_cons in Hv as [Hr Hv]. pose proof (uo_n h Hh). pose proof (uo_len h Hh).
  unfold ex. rewrite filter_cons. destruct (expressible f r) eqn:Ex.
  - pose proof (proj1 (expressible_iff f h r Hf Hr) Ex) as Hb. rewrite decide_True by done.
    destruct (set_region_spec h idx r (sbi_domain_get_oldpmp_flags r) Hh) as (Hok & Hsm & Heq);
      [apply (open_writable h idx); (done || lia)|done|done|by left|].
    set (h1 := (sbi_hart_pmp_set h idx _ _ _).2) in *.
    destruct (IH (idx + 1) h1 idx' h' Hok) as (A1 & A2 & A3 & A4 & A5 & A6 & A7); try done.
    + by eapply features_same.
    + unfold get_mml. by rewrite (sm_sec _ _ Hsm).
    + rewrite (sm_n _ _ Hsm). lia.
    + rewrite Heq. apply open_set; [done|lia|lia| |left; lia]. intros k Hk. apply Ho. lia.
    + assert (ent h1 idx = region_entry h1 (sbi_domain_get_oldpmp_flags r) (reg_q r) (order r)) as Hent.
      { rewrite (same_mode_entry h h1) by done. rewrite Heq. apply ent_set_eq. lia. }
      split_and!; try done.
      * by etrans.
      * simpl. lia.
      * rewrite <- (sm_n _ _ Hsm). done.
      * intros i Hi. rewrite A5 by lia. rewrite Heq. apply ent_set_ne; lia.
      * intros [|k] r' Hk; simpl in Hk.
        -- injection Hk as <-. unfold holds. rewrite Z.add_0_r, A5 by lia.
           rewrite Hent. symmetry. by apply same_mode_entry.
        -- replace (idx + Z.of_nat (S k)) with (idx + 1 + Z.of_nat k) by lia. by apply A7.
  - rewrite decide_False; [by apply IH|]. intros Hb.
    by rewrite (proj2 (expressible_iff f h r Hf Hr) Hb) in Ex.
Qed.

Lemma oldpmp_pass_total f regs : forall idx h,
  idx + Z.of_nat (length regs) <= pmp_count f -> exists idx' h', oldpmp_pass f regs idx h = (None, idx', h').
Proof.
  induction regs as [|r regs IH]; intros idx h Hn; cbn [oldpmp_pass]; [by eauto|].
  cbn [length] in Hn. unfold is_valid_pmp_idx. rewrite (proj2 (Z.ltb_lt _ _)) by lia. cbn [negb].
  case_bool; apply IH; lia.
Qed.

(** ** Permissions *)

Lemma land_bit_eq x k : 0 <= k -> (Z.land x (2 ^ k) =? 2 ^ k) = Z.testbit x k.
Proof.
  intros Hk. rewrite <- truthy_bit by done. pose proof (pow2_pos k Hk) as Hp.
  destruct (truthy (Z.land x (2 ^ k))) eqn:E.
  - rewrite truthy_bit in E by done. apply Z.eqb_eq. apply Z.bits_inj'. intros j Hj.
    rewrite Z.land_spec, Z.pow2_bits_eqb by lia. destruct (Z.eqb_spec k j) as [<-|]; [by rewrite E|].
    apply andb_false_r.
  - unfold truthy in E. apply negb_false_iff, Z.eqb_eq in E. rewrite E. lia.
Qed.

(** The access flags of one access; MMIO is set since the PMP does not know
    device memory from memory. *)
Definition access_of (type : access_type) : Z :=
  Z.lor SBI_DOMAIN_MMIO
    match type with LOAD => SBI_DOMAIN_READ | STORE => SBI_DOMAIN_WRITE | FETCH => SBI_DOMAIN_EXECUTE end.

Definition type_bit (type : access_type) : Z := match type with LOAD => 0 | STORE => 1 | FETCH => 2 end.

(** The bit of the region's flags an access needs. *)
Lemma region_allows_bit fl mode type :
  region_allows fl mode (access_of type) =
  Z.testbit fl (if mode =? 3 then type_bit type else 3 + type_bit type).
Proof.
  unfold region_allows. replace (truthy (Z.land (access_of type) SBI_DOMAIN_MMIO)) with true by (by destruct type).
  cbn [negb andb]. replace (access_rwx (access_of type)) with (2 ^ type_bit type) by (by destruct type).
  assert (0 <= type_bit type <= 2) as Ht by (by destruct type).
  rewrite land_bit_eq by lia. destruct (mode =? 3).
  - rewrite Z.land_spec. replace (Z.testbit MEMREGION_M_ACCESS_MASK (type_bit type)) with true by (by destruct type).
    apply andb_true_r.
  - rewrite Z.shiftr_spec, Z.land_spec by lia.
    replace (Z.testbit MEMREGION_SU_ACCESS_MASK (type_bit type + 3)) with true by (by destruct type).
    rewrite andb_true_r. f_equal. lia.
Qed.

Lemma oldpmp_flags_bits r :
  Z.testbit (sbi_domain_get_oldpmp_flags r) 0 = Z.testbit (flags r) 3 /\
  Z.testbit (sbi_domain_get_oldpmp_flags r) 1 = Z.testbit (flags r) 4 /\
  Z.testbit (sbi_domain_get_oldpmp_flags r) 2 = Z.testbit (flags r) 5.
Proof.
  unfold sbi_domain_get_oldpmp_flags.
  change 8 with (2 ^ 3). change 16 with (2 ^ 4). change 32 with (2 ^ 5). change 64 with (2 ^ 6).
  rewrite !truthy_bit by lia.
  by destruct (Z.testbit (flags r) 3), (Z.testbit (flags r) 4), (Z.testbit (flags r) 5),
    (Z.testbit (flags r) 6).
Qed.

(** Without MML, legalising drops the write bit of a write-only entry. *)
Lemma legal_cfg_bits h c :
  unit_ok h -> get_mml h = false -> in_range 8 c ->
  Z.testbit (legal_cfg h c) 0 = Z.testbit c 0 /\
  Z.testbit (legal_cfg h c) 1 = Z.testbit c 1 && Z.testbit c 0 /\
  Z.testbit (legal_cfg h c) 2 = Z.testbit c 2.
Proof.
  intros Hh Hm Hc. rewrite (legal_cfg_unit h c Hh), Hm, (wrap_id 8) by done.
  set (p := fun b l => eqb (Z.testbit l 0) (Z.testbit b 0) &&
    eqb (Z.testbit l 1) (Z.testbit b 1 && Z.testbit b 0) && eqb (Z.testbit l 2) (Z.testbit b 2)).
  assert (p c (legal_cfg (legal_unit false) c) = true) as Hp by (by apply legal_table_spec).
  unfold p in Hp. apply andb_true_iff in Hp as [[H0 H1]%andb_true_iff H2].
  split_and!; by apply eqb_prop.
Qed.

Lemma prot_cfg_bit prot k b : 0 <= b < 3 -> Z.testbit (prot_cfg prot k) b = Z.testbit prot b.
Proof. intros Hb. unfold prot_cfg. case_bool; apply prot_keeps; try lia; auto. Qed.

(** The permission bits of a configuration byte. *)
Lemma cfg_x_bit l : truthy (Z.land l PMP_X) = Z.testbit l 2.
Proof. exact (truthy_bit l 2 ltac:(done)). Qed.

Lemma cfg_w_bit l : truthy (Z.land l PMP_W) = Z.testbit l 1.
Proof. exact (truthy_bit l 1 ltac:(done)). Qed.

Lemma cfg_r_bit l : truthy (Z.land l PMP_R) = Z.testbit l 0.
Proof. exact (truthy_bit l 0 ltac:(done)). Qed.

Lemma oldpmp_access h i r type mode :
  unit_ok h -> get_mml h = false -> mode <> PRV_M -> holds h i r (sbi_domain_get_oldpmp_flags r) ->
  access_ok h i type mode false =
  region_allows (flags r) mode (access_of type) &&
  (match type with STORE => Z.testbit (flags r) 3 | _ => true end).
Proof.
  intros Hh Hm Hmode He. unfold access_ok. rewrite Hm, He. cbn [region_entry ent_cfg].
  rewrite (proj2 (Z.eqb_neq mode PRV_M)) by done. rewrite region_allows_bit.
  unfold PRV_M in Hmode. rewrite (proj2 (Z.eqb_neq mode 3)) by done.
  destruct (oldpmp_flags_bits r) as (F0 & F1 & F2).
  destruct (legal_cfg_bits h _ Hh Hm (prot_cfg_range (sbi_domain_get_oldpmp_flags r) (order r))) as (B0 & B1 & B2).
  rewrite prot_cfg_bit, F0 in B0 by done. rewrite !prot_cfg_bit, F0, F1 in B1 by done.
  rewrite prot_cfg_bit, F2 in B2 by done. clear Hm He.
  generalize dependent (legal_cfg h (prot_cfg (sbi_domain_get_oldpmp_flags r) (order r))).
  intros l B0 B1 B2. rewrite cfg_x_bit, cfg_w_bit, cfg_r_bit, B0, B1, B2. clear B0 B1 B2 F0 F1 F2.
  destruct type; cbn [type_bit]; change (3 + 0) with 3; change (3 + 1) with 4; change (3 + 2) with 5;
    by destruct (Z.testbit (flags r) 3), (Z.testbit (flags r) 4), (Z.testbit (flags r) 5).
Qed.

(** Regions above the physical space decide nothing in it. *)
Lemma check_addr_expressible regs a mode af :
  Forall valid regs -> in_range 56 a ->
  check_addr (filter (fun r => base r < 2 ^ 56) regs) a mode af = check_addr regs a mode af.
Proof.
  intros Hv Ha. unfold in_range in Ha. induction regs as [|r regs IH]; [done|].
  apply Forall_cons in Hv as [Hr Hv]. rewrite filter_cons. cbn [check_addr]. case_decide; cbn [check_addr].
  - by rewrite IH.
  - rewrite IH by done. destruct (in_region r a) eqn:E; [|done]. apply in_region_iff in E; [lia|done].
Qed.

Lemma oldpmp_configured f regs s :
  unit_ok (unit_of s) -> features_ok f (unit_of s) -> get_mml (unit_of s) = false ->
  open_from (unit_of s) 0 -> Forall valid regs -> Z.of_nat (length regs) <= pmp_count f ->
  exists s', sbi_hart_oldpmp_configure f regs s = (0, s') /\ same_mode (unit_of s) (unit_of s') /\
    configured sbi_domain_get_oldpmp_flags 0 (filter (fun r => base r < 2 ^ 56) regs) (unit_of s').
Proof.
  intros Hh Hf Hm Ho Hv Hn. pose proof (uo_n _ Hh) as Hnp. unfold sbi_hart_oldpmp_configure.
  destruct (oldpmp_pass_total f regs 0 (unit_of s) Hn) as (idx' & h' & E). rewrite E.
  destruct (oldpmp_pass_spec f regs 0 (unit_of s) idx' h' Hh Hf Hm Hv ltac:(lia) Ho E)
    as (A1 & A2 & A3 & A4 & _ & A6 & A7).
  set (ex := filter _ regs) in *.
  destruct (disable_from_spec f idx' h' A1 (features_same _ _ _ A2 Hf) ltac:(lia) A6) as (B1 & B2 & B3 & B4).
  eexists. split; [done|]. cbn [with_unit unit_of]. pose proof (sm_n _ _ A2) as Hn1. pose proof (sm_n _ _ B2) as Hn2.
  split; [by etrans|]. constructor; [done|lia| | |].
  - rewrite Forall_forall in Hv |- *. intros r [Hb Hr]%list_elem_of_filter. auto.
  - intros k r Hk. specialize (A7 k r Hk). pose proof (lookup_lt_Some _ _ _ Hk).
    pose proof (uo_n _ A1). unfold holds in *. rewrite B3 by lia. rewrite A7.
    symmetry. by apply same_mode_entry.
  - intros i Hi [?|Hge]; [lia|]. apply B4. lia.
Qed.

(** ** Smepmp *)

(** Both passes program the selected regions, each at its own index. *)
Fixpoint prog_pass (sel : memregion -> bool) (f : hart_features) (regs : list memregion) (idx : Z)
    (h : pmp_unit) : pmp_unit :=
  match regs with
  | [] => h
  | r :: regs' =>
      prog_pass sel f regs' (idx + 1)
        (if sel r then sbi_hart_smepmp_set f h r idx (sbi_domain_get_smepmp_flags r) else h)
  end.

Lemma m_pass_prog f regs : forall idx s s',
  1 <= idx -> smepmp_m_pass f regs idx s = (None, s') ->
  unit_of s' = prog_pass (fun r => M_ONLY_ACCESS (flags r)) f regs idx (unit_of s) /\
  (regs = [] \/ idx + Z.of_nat (length regs) <= pmp_count f).
Proof.
  induction regs as [|r regs IH]; intros idx s s' Hi E; cbn [smepmp_m_pass prog_pass] in *.
  { injection E as <-. auto. }
  unfold skip_reserved, is_valid_pmp_idx in E.
  rewrite (proj2 (Z.eqb_neq idx 0)) in E by lia.
  destruct (Z.ltb_spec idx (pmp_count f)); [|done]. cbn [negb] in E.
  assert (forall s1, smepmp_m_pass f regs (idx + 1) s1 = (None, s') ->
    unit_of s' = prog_pass (fun r => M_ONLY_ACCESS (flags r)) f regs (idx + 1) (unit_of s1) /\
    (r :: regs = [] \/ idx + Z.of_nat (length (r :: regs)) <= pmp_count f)) as Hrec.
  { intros s1 E1. destruct (IH (idx + 1) s1 s' ltac:(lia) E1) as [-> Hl]. split; [done|]. right.
    cbn [length]. destruct Hl as [->|]; simpl; lia. }
  destruct (M_ONLY_ACCESS (flags r)); cbn [negb] in E; [|by apply Hrec].
  destruct (_ && _ && _) in E; [done|]. apply Hrec in E. exact E.
Qed.

Lemma su_pass_prog f regs : forall idx h idx' h',
  1 <= idx -> smepmp_su_pass f regs idx h = (None, idx', h') ->
  h' = prog_pass (fun r => negb (M_ONLY_ACCESS (flags r))) f regs idx h /\
  idx' = idx + Z.of_nat (length regs) /\ (regs = [] \/ idx' <= pmp_count f).
Proof.
  induction regs as [|r regs IH]; intros idx h idx' h' Hi E; cbn [smepmp_su_pass prog_pass] in *.
  { injection E as <- <-. simpl. split_and!; [done|lia|auto]. }
  unfold skip_reserved, is_valid_pmp_idx in E.
  rewrite (proj2 (Z.eqb_neq idx 0)) in E by lia.
  destruct (Z.ltb_spec idx (pmp_count f)); [|done]. cbn [negb] in E. cbn [length].
  destruct (M_ONLY_ACCESS (flags r)); cbn [negb];
    (destruct (IH (idx + 1) _ idx' h' ltac:(lia) E) as (-> & -> & Hl); split_and!;
     [done|lia|right; destruct Hl as [->|]; simpl; lia]).
Qed.

Lemma prog_pass_spec sel f regs : forall idx h,
  unit_ok h -> features_ok f h -> get_rlb h = true ->
  Forall (fun r => valid r /\ base r < 2 ^ 56) regs -> 1 <= idx ->
  regs = [] \/ idx + Z.of_nat (length regs) <= n_pmp h ->
  let h' := prog_pass sel f regs idx h in
  unit_ok h' /\ same_mode h h' /\
  (forall k r, regs !! k = Some r ->
     if sel r then holds h' (idx + Z.of_nat k) r (sbi_domain_get_smepmp_flags r)
     else ent h' (idx + Z.of_nat k) = ent h (idx + Z.of_nat k)) /\
  (forall i, 0 <= i < 64 -> i < idx \/ idx + Z.of_nat (length regs) <= i -> ent h' i = ent h i).
Proof.
  induction regs as [|r regs IH]; intros idx h Hh Hf Hr Hv Hi Hn; cbn [prog_pass].
  { cbv zeta. split_and!; try done. }
  destruct Hn as [|Hn]; [done|]. cbn [length] in Hn. pose proof (uo_n h Hh). pose proof (uo_len h Hh).
  apply Forall_cons in Hv as [[Hvr Hb] Hv].
  set (h1 := if sel r then _ else h).
  assert (unit_ok h1 /\ same_mode h h1 /\
    h1 = (if sel r then set_ent h idx (region_entry h (sbi_domain_get_smepmp_flags r) (reg_q r) (order r)) else h))
    as (Hok & Hsm & Heq).
  { unfold h1. destruct (sel r); [|done]. unfold sbi_hart_smepmp_set.
    rewrite (proj2 (expressible_iff f h r Hf Hvr) Hb). apply set_region_spec; try done; [|by right].
    apply (open_writable h 0); try done; [|lia|lia]. intros j _. unfold unlocked. by rewrite Hr. }
  destruct (IH (idx + 1) h1) as (A1 & A2 & A3 & A4); try done.
  - by eapply features_same.
  - unfold get_rlb. by rewrite (sm_sec _ _ Hsm).
  - lia.
  - rewrite (sm_n _ _ Hsm). right. lia.
  - cbv zeta in A1, A2, A3, A4 |- *. set (h' := prog_pass sel f regs (idx + 1) h1) in *.
    assert (forall i, 0 <= i < 64 -> i <> idx -> ent h1 i = ent h i) as Hfr.
    { intros i Hi64 Hne. rewrite Heq. destruct (sel r); [|done]. apply ent_set_ne; lia. }
    split_and!; [done|by etrans| |].
    + intros [|k] r' Hk; simpl in Hk.
      * injection Hk as <-. rewrite Z.add_0_r. unfold holds. rewrite A4 by lia. rewrite Heq.
        destruct (sel r); [|done]. rewrite ent_set_eq by lia.
        rewrite (same_mode_entry h h'); [done|by etrans].
      * specialize (A3 k r' Hk). replace (idx + Z.of_nat (S k)) with (idx + 1 + Z.of_nat k) by lia.
        destruct (sel r'); [done|]. rewrite A3. apply Hfr; pose proof (lookup_lt_Some _ _ _ Hk); lia.
    + intros i Hi64 Hout. cbn [length] in Hout. rewrite A4 by lia. apply Hfr; lia.
Qed.

Lemma csr_set_bit h b p :
  unit_ok h -> open_from h 0 -> (p = 0 \/ p = 2) -> 0 <= b ->
  Z.testbit (mseccfg (csr_set_mseccfg h (2 ^ b))) p = Z.testbit (mseccfg h) p || (p =? b).
Proof.
  intros Hh Ho Hp Hb. pose proof (uo_n h Hh). unfold csr_set_mseccfg, mseccfg_write.
  rewrite (proj2 (Z.eqb_neq (n_pmp h) 0)) by lia. cbn [mseccfg].
  assert (existsb (fun i => truthy (Z.land (ent_cfg (ent h i)) PMP_L)) (seqZ 0 (n_pmp h)) &&
    (Z.land (mseccfg h) MSECCFG_RLB =? 0) = false) as ->.
  { apply not_true_is_false. intros [(i & Hi & Hlock)%existsb_exists Hrlb]%andb_true_iff.
    apply list_elem_of_In, elem_of_seqZ in Hi. pose proof (Ho i ltac:(lia)) as Hu.
    unfold unlocked, get_rlb, truthy in Hu. rewrite Hrlb in Hu. unfold truthy in Hlock.
    rewrite Hlock in Hu. done. }
  cbn [negb].
  rewrite !Z.lor_spec, !Z.land_spec, !Z.lor_spec, Z.pow2_bits_eqb by lia.
  rewrite testbit_not_w by lia. rewrite (Z.eqb_sym b p).
  destruct Hp as [-> | ->]; simpl; destruct (Z.testbit (mseccfg h) _); simpl;
    rewrite ?andb_false_r, ?andb_true_r, ?orb_false_r, ?orb_true_r; done.
Qed.

Lemma csr_set_frame h bits :
  pmpaddr (csr_set_mseccfg h bits) = pmpaddr h /\ n_pmp (csr_set_mseccfg h bits) = n_pmp h /\
  lg_pmp_granularity (csr_set_mseccfg h bits) = lg_pmp_granularity h /\
  paddr_bits (csr_set_mseccfg h bits) = paddr_bits h /\ ext_smpmpmt (csr_set_mseccfg h bits) = ext_smpmpmt h /\
  ext_sspmpen (csr_set_mseccfg h bits) = ext_sspmpen h.
Proof. unfold csr_set_mseccfg, mseccfg_write. by destruct (n_pmp h =? 0). Qed.

Lemma csr_set_ent h bits i : ent (csr_set_mseccfg h bits) i = ent h i.
Proof. unfold ent. by destruct (csr_set_frame h bits) as [-> _]. Qed.

Lemma get_rlb_bit h : get_rlb h = Z.testbit (mseccfg h) 2.
Proof. unfold get_rlb. change 4 with (2 ^ 2). by rewrite truthy_bit. Qed.

Lemma get_mml_bit h : get_mml h = Z.testbit (mseccfg h) 0.
Proof. unfold get_mml. change 1 with (2 ^ 0). by rewrite truthy_bit. Qed.

(** What is legal without machine-mode lockdown is legal with it. *)
Lemma legal_cfg_lockdown h h' c :
  unit_ok h -> ext_smpmpmt h' = false -> lg_pmp_granularity h' = 2 -> in_range 8 c ->
  legal_cfg h c = c -> (get_mml h = true -> get_mml h' = true) -> legal_cfg h' c = c.
Proof.
  intros Hh Hmt Hg Hc Hl Hm.
  assert (legal_cfg h' c = legal_cfg (legal_unit (get_mml h')) c) as ->.
  { apply legal_cfg_flags; simpl; [done|by destruct (get_mml h')|done]. }
  rewrite (legal_cfg_unit h c Hh), (wrap_id 8) in Hl by done.
  destruct (get_mml h), (get_mml h'); try done; [by specialize (Hm eq_refl)|].
  set (p := fun b l => negb (l =? b) || (legal_cfg (legal_unit true) b =? b)).
  assert (p c (legal_cfg (legal_unit false) c) = true) as Hp by (by apply legal_table_spec).
  unfold p in Hp. rewrite Hl, Z.eqb_refl in Hp. by apply Z.eqb_eq.
Qed.

Lemma csr_set_unit_ok h b : unit_ok h -> open_from h 0 -> b = 0 \/ b = 2 ->
  unit_ok (csr_set_mseccfg h (2 ^ b)).
Proof.
  intros Hh Ho Hb. destruct (csr_set_frame h (2 ^ b)) as (E1 & E2 & E3 & E4 & E5 & E6).
  constructor; rewrite ?E1, ?E2, ?E3, ?E4, ?E5, ?E6; try by destruct Hh.
  - intros i Hi. rewrite csr_set_ent. by apply (uo_val h Hh).
  - intros i Hi. rewrite csr_set_ent. destruct (uo_cfg h Hh i Hi) as [Hr Hl]. split; [done|].
    apply (legal_cfg_lockdown h); [done|rewrite E5; apply (uo_mt h Hh)|rewrite E3; apply (uo_gran h Hh)|done|done|].
    rewrite !get_mml_bit, csr_set_bit by (done || lia || auto). by intros ->.
Qed.

(** *** Smepmp permissions *)

(** No region of one privilege level is writable without being readable. *)
Definition sme_sound (f : Z) : bool :=
  negb (M_ONLY_ACCESS f && Z.testbit f 1 && negb (Z.testbit f 0)) &&
  negb (SU_ONLY_ACCESS f && Z.testbit f 4 && negb (Z.testbit f 3)).

(** The permissions Smepmp has an encoding for. *)
Definition sme_supported (f : Z) : bool :=
  sme_sound f &&
  ((Z.land f MEMREGION_ACCESS_MASK =? 0) || IS_SHARED f ||
   (M_ONLY_ACCESS f && negb (Z.land f MEMREGION_M_ACCESS_MASK =? MEMREGION_M_RWX)) ||
   SU_ONLY_ACCESS f).

Definition sme_cfg (f : Z) : Z := sbi_domain_get_smepmp_flags (mkReg 12 0 f).

Lemma land_63 f m : Z.land 63 m = m -> Z.land (Z.land f 63) m = Z.land f m.
Proof. intros E. by rewrite <- Z.land_assoc, E. Qed.

Lemma sme_cfg_mask f : sme_cfg f = sme_cfg (Z.land f 63).
Proof.
  unfold sme_cfg, sbi_domain_get_smepmp_flags, IS_SHARED, IS_SUR_MR, IS_SUX_MRX, IS_SUX_MX,
    IS_SURW_MRW, IS_SUR_MRW, M_ONLY_ACCESS, SU_ONLY_ACCESS. cbn [flags].
  by rewrite !(land_63 f) by done.
Qed.

Lemma testbit_63 f p : 0 <= p < 6 -> Z.testbit (Z.land f 63) p = Z.testbit f p.
Proof.
  intros Hp. rewrite Z.land_spec. change 63 with (Z.ones 6). rewrite Z.testbit_ones by lia.
  rewrite (proj2 (Z.leb_le 0 p)), (proj2 (Z.ltb_lt p 6)) by lia. apply andb_true_r.
Qed.

Lemma sme_sound_mask f : sme_sound f = sme_sound (Z.land f 63).
Proof.
  unfold sme_sound, M_ONLY_ACCESS, SU_ONLY_ACCESS.
  by rewrite !(land_63 f), !testbit_63 by (done || lia).
Qed.

Lemma sme_supported_mask f : sme_supported f = sme_supported (Z.land f 63).
Proof.
  unfold sme_supported. rewrite <- sme_sound_mask. unfold IS_SHARED, IS_SUR_MR, IS_SUX_MRX, IS_SUX_MX,
    IS_SURW_MRW, IS_SUR_MRW, M_ONLY_ACCESS, SU_ONLY_ACCESS. by rewrite !(land_63 f) by done.
Qed.

Lemma m_only_mask f : M_ONLY_ACCESS f = M_ONLY_ACCESS (Z.land f 63).
Proof. unfold M_ONLY_ACCESS. by rewrite !(land_63 f) by done. Qed.

(** A unit in lockdown with one entry. *)
Definition acc_unit (c : Z) : pmp_unit := set_ent (legal_unit true) 0 (mkEntry 0 c).

Lemma access_ok_LRWX h i type mode :
  get_mml h = true ->
  access_ok h i type mode false =
  access_ok (acc_unit (Z.land (ent_cfg (ent h i)) PMP_LRWX)) 0 type (if mode =? PRV_M then 3 else 1) false.
Proof.
  intros Hm. unfold access_ok. rewrite Hm. change (get_mml (acc_unit _)) with true.
  change (ent_cfg (ent (acc_unit (Z.land (ent_cfg (ent h i)) PMP_LRWX)) 0))
    with (Z.land (ent_cfg (ent h i)) PMP_LRWX).
  rewrite <- !Z.land_assoc. change (Z.land PMP_LRWX PMP_X) with PMP_X.
  change (Z.land PMP_LRWX PMP_W) with PMP_W. change (Z.land PMP_LRWX PMP_R) with PMP_R.
  change (Z.land PMP_LRWX PMP_L) with PMP_L. by destruct (mode =? PRV_M).
Qed.

(** For each of the 64 permission sets: the encoding under lockdown grants at
    most what the flags grant when they are sound, and exactly that when they
    are supported; a sound machine-only set is never write-only. *)
Definition sme_check (f : Z) : bool :=
  forallb (fun '(t, m) =>
    let g := access_ok (acc_unit (Z.land (sme_cfg f) PMP_LRWX)) 0 t m false in
    let d := Z.testbit f (if m =? 3 then type_bit t else 3 + type_bit t) in
    (negb (sme_sound f) || negb g || d) && (negb (sme_supported f) || eqb g d))
    [(LOAD, 3); (STORE, 3); (FETCH, 3); (LOAD, 1); (STORE, 1); (FETCH, 1)] &&
  (negb (M_ONLY_ACCESS f && sme_sound f) || truthy (Z.land (sme_cfg f) PMP_R) ||
   negb (truthy (Z.land (sme_cfg f) PMP_W))).

Lemma sme_table f : sme_check (Z.land f 63) = true.
Proof.
  assert (forallb sme_check (seqZ 0 64) = true) as H by (by vm_compute).
  rewrite forallb_forall in H. apply H. apply list_elem_of_In, elem_of_seqZ.
  change 63 with (2 ^ 6 - 1). rewrite land_ones_mod by lia.
  pose proof (Z.mod_pos_bound f (2 ^ 6) ltac:(lia)). lia.
Qed.

Lemma smepmp_access h i r type mode :
  unit_ok h -> get_mml h = true -> holds h i r (sbi_domain_get_smepmp_flags r) ->
  let g := access_ok h i type mode false in
  (sme_sound (flags r) = true -> g = true -> region_allows (flags r) mode (access_of type) = true) /\
  (sme_supported (flags r) = true -> g = region_allows (flags r) mode (access_of type)).
Proof.
  intros Hh Hm He g. rewrite region_allows_bit.
  assert (Z.land (ent_cfg (ent h i)) PMP_LRWX = Z.land (sme_cfg (Z.land (flags r) 63)) PMP_LRWX) as Ec.
  { rewrite He. cbn [region_entry ent_cfg].
    destruct (legal_cfg_keeps h _ Hh (prot_cfg_range (sbi_domain_get_smepmp_flags r) (order r))) as [_ Hk].
    rewrite Hk, prot_cfg_LRWX; [|unfold perm_legal; by rewrite Hm]. rewrite <- sme_cfg_mask. done. }
  unfold g. rewrite access_ok_LRWX, Ec by done. unfold PRV_M.
  pose proof (sme_table (flags r)) as Ht. unfold sme_check in Ht. apply andb_true_iff in Ht as [Ht _].
  rewrite forallb_forall in Ht. set (m := if mode =? 3 then 3 else 1).
  specialize (Ht (type, m)). assert (In (type, m) [(LOAD, 3); (STORE, 3); (FETCH, 3); (LOAD, 1); (STORE, 1); (FETCH, 1)])
    as Hin by (unfold m; destruct type, (mode =? 3); simpl; tauto).
  specialize (Ht Hin). cbv beta iota in Ht. rewrite <- sme_sound_mask, <- sme_supported_mask in Ht.
  assert ((if m =? 3 then type_bit type else 3 + type_bit type) =
    (if mode =? 3 then type_bit type else 3 + type_bit type)) as Em by (unfold m; by destruct (mode =? 3)).
  rewrite Em, testbit_63 in Ht by (destruct (mode =? 3), type; simpl; lia).
  apply andb_true_iff in Ht as [H1 H2]. split.
  - intros Hs Hg. rewrite Hs, Hg in H1. done.
  - intros Hs. rewrite Hs in H2. by apply eqb_prop.
Qed.

(** Entries that are not write-only are legal alike with and without lockdown. *)
Lemma legal_cfg_any h h' c :
  unit_ok h -> unit_ok h' -> in_range 8 c ->
  truthy (Z.land c PMP_R) || negb (truthy (Z.land c PMP_W)) = true -> legal_cfg h c = legal_cfg h' c.
Proof.
  intros Hh Hh' Hc Hp. rewrite (legal_cfg_unit h c Hh), (legal_cfg_unit h' c Hh'), (wrap_id 8) by done.
  set (p := fun b l => negb (truthy (Z.land b PMP_R) || negb (truthy (Z.land b PMP_W))) ||
    (l =? legal_cfg (legal_unit true) b)).
  assert (p c (legal_cfg (legal_unit false) c) = true) as Ht by (by apply legal_table_spec).
  unfold p in Ht. rewrite Hp in Ht. apply Z.eqb_eq in Ht.
  by destruct (get_mml h), (get_mml h').
Qed.

Lemma m_only_entry h h' r : unit_ok h -> unit_ok h' ->
  M_ONLY_ACCESS (flags r) = true -> sme_sound (flags r) = true ->
  region_entry h (sbi_domain_get_smepmp_flags r) (reg_q r) (order r) =
  region_entry h' (sbi_domain_get_smepmp_flags r) (reg_q r) (order r).
Proof.
  intros Hh Hh' Hm Hs. unfold region_entry. f_equal. apply legal_cfg_any; [done|done|apply prot_cfg_range|].
  pose proof (sme_table (flags r)) as Ht. unfold sme_check in Ht. apply andb_true_iff in Ht as [_ Ht].
  rewrite <- m_only_mask, <- sme_sound_mask, <- sme_cfg_mask, Hm, Hs in Ht. cbn [andb negb orb] in Ht.
  set (c := prot_cfg _ _). pose proof (prot_cfg_LRWX (sbi_domain_get_smepmp_flags r) (order r)) as E.
  fold c in E. assert (forall m, Z.land PMP_LRWX m = m ->
    Z.land c m = Z.land (sme_cfg (flags r)) m) as Hbits.
  { intros m Em. rewrite <- Em, !Z.land_assoc. f_equal. exact E. }
  by rewrite !Hbits.
Qed.

Lemma rlb_open h : get_rlb h = true -> forall i, open_from h i.
Proof. intros E i j Hj. unfold unlocked. by rewrite E. Qed.

Lemma m_pass_0 f regs s : smepmp_m_pass f regs 0 s = smepmp_m_pass f regs 1 s.
Proof. by destruct regs. Qed.

Lemma su_pass_0 f r regs h : smepmp_su_pass f (r :: regs) 0 h = smepmp_su_pass f (r :: regs) 1 h.
Proof. done. Qed.

(** The state both passes start from: the reserved entry off, RLB set. *)
Lemma smepmp_prepare h :
  unit_ok h -> open_from h 0 ->
  let h1 := (sbi_hart_pmp_disable (csr_set_mseccfg h MSECCFG_RLB) SBI_SMEPMP_RESV_ENTRY).2 in
  unit_ok h1 /\ get_rlb h1 = true /\ n_pmp h1 = n_pmp h /\ disabled h1 0.
Proof.
  intros Hh Ho h1. pose proof (uo_n h Hh). set (h0 := csr_set_mseccfg h MSECCFG_RLB) in *.
  assert (unit_ok h0) as Hh0 by (apply (csr_set_unit_ok h 2); auto).
  assert (get_rlb h0 = true) as Hr0.
  { rewrite get_rlb_bit. unfold h0. change MSECCFG_RLB with (2 ^ 2).
    rewrite csr_set_bit by (done || lia || auto). apply orb_true_r. }
  assert (n_pmp h0 = n_pmp h) as Hn0 by apply csr_set_frame.
  destruct (hart_pmp_disable_spec h0 0 Hh0) as [E Hok].
  { apply (open_writable h0 0); [done|by apply rlb_open|lia|lia]. }
  unfold h1. rewrite E. cbn [snd]. split_and!; [done|done|done|].
  unfold disabled. rewrite ent_set_eq; [done|]. rewrite (uo_len h0 Hh0). lia.
Qed.

Lemma m_pass_error f regs : forall idx s rc s', smepmp_m_pass f regs idx s = (Some rc, s') -> rc <> 0.
Proof.
  induction regs as [|r regs IH]; intros idx s rc s' E; cbn [smepmp_m_pass] in E; [done|].
  destruct (negb (is_valid_pmp_idx _ _)); [by injection E as <- _|].
  destruct (negb (M_ONLY_ACCESS (flags r))); [by eapply IH|].
  destruct (_ && _ && _) in E; [by injection E as <- _|by eapply IH].
Qed.

Lemma su_pass_error f regs : forall idx h rc i h', smepmp_su_pass f regs idx h = (Some rc, i, h') -> rc <> 0.
Proof.
  induction regs as [|r regs IH]; intros idx h rc i h' E; cbn [smepmp_su_pass] in E; [done|].
  destruct (negb (is_valid_pmp_idx _ _)); [by injection E as <- _ _|].
  destruct (M_ONLY_ACCESS (flags r)); by eapply IH.
Qed.

Section SmepmpPasses.
Context (f : hart_features) (regs : list memregion) (h1 : pmp_unit).
Hypothesis (Hh1 : unit_ok h1) (Hf : features_ok f h1) (Hr1 : get_rlb h1 = true).
Hypothesis (Hv : Forall (fun r => valid r /\ base r < 2 ^ 56) regs).
Hypothesis (Hsnd : Forall (fun r => sme_sound (flags r) = true) regs).
Hypothesis (Hlen : regs = [] \/ 1 + Z.of_nat (length regs) <= n_pmp h1).

Definition after_m_pass : pmp_unit :=
  csr_set_mseccfg (prog_pass (fun r => M_ONLY_ACCESS (flags r)) f regs 1 h1) MSECCFG_MML.

Lemma after_m_pass_spec :
  unit_ok after_m_pass /\ get_mml after_m_pass = true /\ get_rlb after_m_pass = true /\
  n_pmp after_m_pass = n_pmp h1 /\ features_ok f after_m_pass /\ ent after_m_pass 0 = ent h1 0 /\
  (forall k r, regs !! k = Some r -> M_ONLY_ACCESS (flags r) = true ->
     holds after_m_pass (1 + Z.of_nat k) r (sbi_domain_get_smepmp_flags r)).
Proof.
  destruct (prog_pass_spec (fun r => M_ONLY_ACCESS (flags r)) f regs 1 h1) as (A1 & A2 & A3 & A4); try done.
  cbv zeta in A1, A2, A3, A4. unfold after_m_pass. set (h2 := prog_pass _ f regs 1 h1) in *.
  assert (get_rlb h2 = true) as Hr2 by (unfold get_rlb; by rewrite (sm_sec _ _ A2)).
  assert (open_from h2 0) as Ho2 by (by apply rlb_open).
  assert (unit_ok (csr_set_mseccfg h2 MSECCFG_MML)) as Hh3 by (apply (csr_set_unit_ok h2 0); auto).
  set (h3 := csr_set_mseccfg h2 MSECCFG_MML) in *.
  assert (n_pmp h3 = n_pmp h1) as Hn by (rewrite <- (sm_n _ _ A2); apply csr_set_frame).
  split_and!; try done.
  - rewrite get_mml_bit. unfold h3. change MSECCFG_MML with (2 ^ 0).
    rewrite csr_set_bit by (done || lia || auto). apply orb_true_r.
  - rewrite get_rlb_bit in Hr2 |- *. unfold h3. change MSECCFG_MML with (2 ^ 0).
    rewrite csr_set_bit by (done || lia || auto). by rewrite Hr2.
  - destruct Hf. constructor; congruence.
  - unfold h3. rewrite csr_set_ent. apply A4; lia.
  - intros k r Hk Hm. specialize (A3 k r Hk). rewrite Hm in A3. unfold holds in *.
    unfold h3 at 1. rewrite csr_set_ent, A3. apply m_only_entry; try done.
    rewrite Forall_lookup in Hsnd. by apply (Hsnd k).
Qed.

Lemma after_su_pass_spec :
  let h4 := prog_pass (fun r => negb (M_ONLY_ACCESS (flags r))) f regs 1 after_m_pass in
  unit_ok h4 /\ same_mode after_m_pass h4 /\ ent h4 0 = ent h1 0 /\
  (forall k r, regs !! k = Some r -> holds h4 (1 + Z.of_nat k) r (sbi_domain_get_smepmp_flags r)).
Proof.
  destruct after_m_pass_spec as (B1 & B2 & B3 & B4 & B5 & B6 & B7).
  destruct (prog_pass_spec (fun r => negb (M_ONLY_ACCESS (flags r))) f regs 1 after_m_pass)
    as (A1 & A2 & A3 & A4); try done; [by rewrite B4|].
  cbv zeta in A1, A2, A3, A4 |- *. set (h4 := prog_pass _ f regs 1 after_m_pass) in *.
  split_and!; [done|done|by rewrite A4 by lia|]. intros k r Hk. specialize (A3 k r Hk).
  destruct (M_ONLY_ACCESS (flags r)) eqn:Em; cbn [negb] in A3; [|done].
  specialize (B7 k r Hk Em). unfold holds in *. rewrite A3, B7. symmetry. by apply same_mode_entry.
Qed.
End SmepmpPasses.

Lemma smepmp_configured f regs s s' :
  unit_ok (unit_of s) -> features_ok f (unit_of s) -> open_from (unit_of s) 0 ->
  Forall (fun r => valid r /\ base r < 2 ^ 56) regs -> Forall (fun r => sme_sound (flags r) = true) regs ->
  sbi_hart_smepmp_configure f regs s = (0, s') ->
  configured sbi_domain_get_smepmp_flags 1 regs (unit_of s') /\ get_mml (unit_of s') = true.
Proof.
  intros Hh Hf Ho Hv Hsnd E. pose proof (uo_n _ Hh) as Hn0. unfold sbi_hart_smepmp_configure in E.
  destruct (smepmp_prepare (unit_of s) Hh Ho) as (Hh1 & Hr1 & Hn1 & Hd1).
  set (h1 := (sbi_hart_pmp_disable _ _).2) in *. rewrite m_pass_0 in E.
  assert (features_ok f h1) as Hf1 by (destruct Hf; constructor; congruence).
  destruct (smepmp_m_pass f regs 1 (with_unit s h1)) as [[rc|] s2] eqn:Em.
  { apply m_pass_error in Em. by injection E as -> _. }
  destruct (m_pass_prog f regs 1 _ s2 ltac:(lia) Em) as [E2 Hlen]. cbn [with_unit unit_of] in E2.
  rewrite (fo_count _ _ Hf1) in Hlen. cbn [unit_of] in E. rewrite E2 in E. fold (after_m_pass f regs h1) in E.
  destruct (after_m_pass_spec f regs h1 Hh1 Hf1 Hr1 Hv Hsnd Hlen) as (B1 & B2 & B3 & B4 & B5 & _ & _).
  pose proof (after_su_pass_spec f regs h1 Hh1 Hf1 Hr1 Hv Hsnd Hlen) as (C1 & C2 & C3 & C4).
  set (h3 := after_m_pass f regs h1) in *. set (h4 := prog_pass _ f regs 1 h3) in *.
  destruct (smepmp_su_pass f regs 0 h3) as [[[rc|] idx'] h4'] eqn:Es.
  { apply su_pass_error in Es. by injection E as -> _. }
  assert (h4' = h4 /\ (regs <> [] -> idx' = 1 + Z.of_nat (length regs)) /\
    (regs = [] -> idx' = 0)) as (-> & Hi & Hi0).
  { destruct regs as [|r0 regs0].
    - simpl in Es. injection Es as <- <-. done.
    - rewrite su_pass_0 in Es. destruct (su_pass_prog f _ 1 h3 idx' h4' ltac:(lia) Es) as (-> & -> & _). done. }
  injection E as <-. cbn [with_unit unit_of].
  assert (0 <= idx') by (destruct regs; [rewrite Hi0 by done|rewrite Hi by done]; lia).
  assert (get_rlb h4 = true) as Hr4 by (unfold get_rlb; by rewrite (sm_sec _ _ C2)).
  destruct (disable_from_spec f idx' h4 C1 (features_same _ _ _ C2 B5) ltac:(lia) (rlb_open h4 Hr4 idx'))
    as (D1 & D2 & D3 & D4). pose proof (sm_n _ _ C2) as Hn4. pose proof (sm_n _ _ D2) as Hn5.
  split; [|unfold get_mml in *; by rewrite (sm_sec _ _ D2), (sm_sec _ _ C2)].
  constructor; [done|destruct Hlen as [->|]; simpl; lia|done| |].
  - intros k r Hk. pose proof (lookup_lt_Some _ _ _ Hk). specialize (C4 k r Hk).
    assert (regs <> []) as Hne by (by intros ->). destruct Hlen as [|Hlen]; [done|].
    unfold holds in *. rewrite D3 by (rewrite ?Hi by done; lia). rewrite C4. symmetry. by apply same_mode_entry.
  - intros i Hi64 Hout. destruct (decide (idx' <= i)) as [|Hlt]; [apply D4; lia|].
    assert (regs <> []) as Hne by (intros Ee; specialize (Hi0 Ee); lia).
    rewrite Hi in Hlt by done. unfold disabled. rewrite D3 by (rewrite ?Hi by done; lia).
    replace i with 0 by lia. rewrite C3. exact Hd1.
Qed.

(** *** Temporary mappings *)

Lemma map_range_loop_eq fuel : forall addr size ord,
  0 <= ord <= 64 -> 64 - ord < Z.of_nat fuel ->
  map_range_loop fuel addr size ord =
  let '(b, o) := memregion_init_loop fuel addr size ord in if o <? 64 then Some (b, o) else None.
Proof.
  induction fuel as [|fuel IH]; intros addr size ord Ho Hf; [lia|].
  cbn [map_range_loop memregion_init_loop]. destruct (Z.ltb_spec ord 64).
  - destruct (_ && _); [by rewrite (proj2 (Z.ltb_lt ord 64))|]. apply IH; lia.
  - by rewrite (proj2 (Z.ltb_ge ord 64)).
Qed.

Lemma map_range_loop_spec f addr size :
  pmp_log2gran f = 2 -> 0 <= addr -> 0 < size -> addr + size <= 2 ^ 56 ->
  exists k q, map_range_loop 65 addr size (Z.max (pmp_log2gran f) (log2roundup size)) = Some (q * 2 ^ k, k) /\
    region_fits q k /\ q * 2 ^ k <= addr /\ addr + size <= q * 2 ^ k + 2 ^ k.
Proof.
  intros Hg Ha Hs Hb. rewrite Hg.
  destruct (log2roundup_loop_spec 64 size 0 ltac:(lia) ltac:(lia) ltac:(lia)) as (Hl & Hmin & _).
  fold (log2roundup size) in Hl, Hmin.
  rewrite map_range_loop_eq by lia.
  pose proof (memregion_init_loop_spec 65 addr size (Z.max 2 (log2roundup size)) ltac:(lia) ltac:(lia)
    Ha Hs ltac:(lia)) as Hi.
  destruct (memregion_init_loop 65 addr size (Z.max 2 (log2roundup size))) as [b o].
  destruct Hi as (Ho & Hleast & Hres).
  assert (o <= 56) as Ho56.
  { destruct (decide (o <= 56)); [done|]. exfalso. destruct (decide (log2roundup size <= 56)).
    - apply (Hleast 56); [lia|]. rewrite !Z.div_small by lia. split; [done|lia].
    - specialize (Hmin 56 ltac:(lia)). lia. }
  destruct Hres as [(Hlt & -> & F1 & F2)|[-> _]]; [|lia].
  exists o, (addr / 2 ^ o). rewrite (proj2 (Z.ltb_lt o 64)) by lia. split; [done|].
  pose proof (pow2_pos o ltac:(lia)) as Hp.
  pose proof (Z.div_mod addr (2 ^ o) ltac:(lia)). pose proof (Z.mod_pos_bound addr (2 ^ o) Hp).
  pose proof (Z.div_mod (addr + size - 1) (2 ^ o) ltac:(lia)).
  pose proof (Z.mod_pos_bound (addr + size - 1) (2 ^ o) Hp). rewrite <- F1 in *.
  split_and!; [|lia|lia]. left. split_and!; [lia|lia|apply Z.div_pos; lia|].
  assert (2 ^ 56 = 2 ^ (56 - o) * 2 ^ o) as E56 by (apply pow2_split; lia).
  rewrite E56 in *. assert (addr / 2 ^ o < 2 ^ (56 - o)) by nia. nia.
Qed.

(** ** Properties *)

(** C2: on a hart without Smepmp whose PMP entries are not locked, and for
    a domain with no more regions than the hart has entries,
    [sbi_hart_oldpmp_configure] succeeds, and then an access of S or U mode
    inside an aligned doubleword passes the PMP only if [sbi_domain_check_addr]
    allows it; and exactly then, if no region is writable without being
    readable. *)
Theorem oldpmp_enforces_domain f regs s mode type addr len :
  unit_ok (unit_of s) -> features_ok f (unit_of s) -> get_mml (unit_of s) = false ->
  open_from (unit_of s) 0 -> Forall valid regs -> Z.of_nat (length regs) <= pmp_count f ->
  mode <> PRV_M -> small_access addr len ->
  exists s', sbi_hart_oldpmp_configure f regs s = (0, s') /\
    (pmp_ok (unit_of s') addr len type mode false = true ->
     check_addr regs addr mode (access_of type) = true) /\
    (Forall (fun r => Z.testbit (flags r) 4 = true -> Z.testbit (flags r) 3 = true) regs ->
     pmp_ok (unit_of s') addr len type mode false = check_addr regs addr mode (access_of type)).
Proof.
  intros Hh Hf Hm Ho Hv Hn Hmode Hs.
  destruct (oldpmp_configured f regs s Hh Hf Hm Ho Hv Hn) as (s' & E & Hsm & Hc).
  exists s'. split; [done|]. rewrite <- (check_addr_expressible regs) by (done || apply Hs).
  set (ex := filter _ regs) in *. assert (get_mml (unit_of s') = false) as Hm'.
  { unfold get_mml. by rewrite (sm_sec _ _ Hsm). }
  pose proof (cf_unit _ _ _ _ Hc) as Hh'. pose proof (uo_n _ Hh') as Hn'.
  unfold pmp_ok. rewrite (proj2 (Z.eqb_neq (n_pmp (unit_of s')) 0)) by lia.
  rewrite (configured_lookup _ _ _ _ _ _ Hc Hs), (check_addr_find _ _ _ _ 0%nat).
  fold (find_region ex addr). unfold PRV_M in *.
  destruct (find_region ex addr) as [[k r]|] eqn:Er.
  - apply find_region_some in Er as (Hl & _ & _).
    rewrite (oldpmp_access _ _ r) by (done || by apply (cf_ent _ _ _ _ Hc)). split; [lia|].
    intros Hw. rewrite Forall_forall in Hw. apply list_elem_of_lookup_2 in Hl.
    apply list_elem_of_filter in Hl as [_ Hin]. specialize (Hw r Hin).
    destruct type; rewrite ?andb_true_r; try done. rewrite region_allows_bit.
    rewrite (proj2 (Z.eqb_neq mode 3)) by done. change (3 + type_bit STORE) with 4.
    destruct (Z.testbit (flags r) 4); [by rewrite Hw|done].
  - rewrite (proj2 (Z.eqb_neq mode 3)) by done. done.
Qed.

Lemma legal_unit_open mml : open_from (legal_unit mml) 0.
Proof. intros i Hi. unfold unlocked. rewrite legal_unit_ent. simpl. apply orb_true_r. Qed.

Definition features_example : hart_features := mkFeatures 64 2 54.

Lemma oldpmp_enforces_domain_witness :
  let s := mkHartPmp (legal_unit false) [0] false in
  exists s', sbi_hart_oldpmp_configure features_example regs_example s = (0, s') /\
    (pmp_ok (unit_of s') 0x80001000 8 LOAD PRV_S false = true ->
     check_addr regs_example 0x80001000 PRV_S (access_of LOAD) = true) /\
    (Forall (fun r => Z.testbit (flags r) 4 = true -> Z.testbit (flags r) 3 = true) regs_example ->
     pmp_ok (unit_of s') 0x80001000 8 LOAD PRV_S false =
     check_addr regs_example 0x80001000 PRV_S (access_of LOAD)).
Proof.
  intros s. apply (oldpmp_enforces_domain features_example regs_example s PRV_S LOAD 0x80001000 8).
  - apply legal_unit_ok.
  - constructor; reflexivity.
  - reflexivity.
  - apply legal_unit_open.
  - repeat constructor; vm_compute; congruence.
  - vm_compute. congruence.
  - discriminate.
  - split; [split; vm_compute; congruence|]. split; [lia|vm_compute; congruence].
Defined.

(** C3: on a hart with Smepmp whose entries can be written, when
    [sbi_hart_smepmp_configure] succeeds for a domain none of whose regions is
    writable without being readable, an access of any mode inside an aligned
    doubleword passes the PMP only if [sbi_domain_check_addr] allows it; and
    exactly then, if Smepmp has an encoding for the permissions of every region
    and, for machine mode, some region holds the address. *)
Theorem smepmp_enforces_domain f regs s s' mode type addr len :
  unit_ok (unit_of s) -> features_ok f (unit_of s) -> open_from (unit_of s) 0 ->
  Forall (fun r => valid r /\ base r < 2 ^ 56) regs -> Forall (fun r => sme_sound (flags r) = true) regs ->
  small_access addr len -> sbi_hart_smepmp_configure f regs s = (0, s') ->
  (pmp_ok (unit_of s') addr len type mode false = true ->
   check_addr regs addr mode (access_of type) = true) /\
  (Forall (fun r => sme_supported (flags r) = true) regs ->
   (mode = PRV_M -> covered regs addr = true) ->
   pmp_ok (unit_of s') addr len type mode false = check_addr regs addr mode (access_of type)).
Proof.
  intros Hh Hf Ho Hv Hsnd Hs E.
  destruct (smepmp_configured f regs s s' Hh Hf Ho Hv Hsnd E) as [Hc Hm].
  pose proof (cf_unit _ _ _ _ Hc) as Hh'. pose proof (uo_n _ Hh') as Hn'.
  unfold pmp_ok. rewrite (proj2 (Z.eqb_neq (n_pmp (unit_of s')) 0)) by lia.
  rewrite (configured_lookup _ _ _ _ _ _ Hc Hs), (check_addr_find _ _ _ _ 0%nat).
  fold (find_region regs addr). unfold PRV_M in *.
  destruct (find_region regs addr) as [[k r]|] eqn:Er.
  - apply find_region_some in Er as (Hl & _ & _).
    destruct (smepmp_access (unit_of s') (1 + Z.of_nat k) r type mode Hh' Hm) as [H1 H2];
      [by apply (cf_ent _ _ _ _ Hc)|]. rewrite Forall_lookup in Hsnd. split.
    + intros Hg. apply H1; [by apply (Hsnd k)|done].
    + intros Hsup _. rewrite Forall_lookup in Hsup. apply H2. by apply (Hsup k).
  - split; [lia|]. intros _ Hcov. destruct (Z.eqb_spec mode 3) as [->|]; [|done].
    specialize (Hcov eq_refl). apply covered_true in Hcov as (r & Hr & Hin).
    by rewrite (proj1 (find_region_none regs 0 addr) Er r Hr) in Hin.
Qed.

(** The root domain of a firmware at 2 GiB. *)
Definition root_regs : list memregion :=
  [mkReg 16 0x80000000 (5 + MEMREGION_FW); mkReg 16 0x80010000 (3 + MEMREGION_FW); mkReg 64 0 0x38].

Definition smepmp_example : hart_pmp :=
  (sbi_hart_smepmp_configure features_example root_regs (mkHartPmp (legal_unit false) [0] false)).2.

Lemma smepmp_enforces_domain_witness :
  (pmp_ok (unit_of smepmp_example) 0x80010008 8 FETCH PRV_M false = true ->
   check_addr root_regs 0x80010008 PRV_M (access_of FETCH) = true) /\
  (Forall (fun r => sme_supported (flags r) = true) root_regs ->
   (PRV_M = PRV_M -> covered root_regs 0x80010008 = true) ->
   pmp_ok (unit_of smepmp_example) 0x80010008 8 FETCH PRV_M false =
   check_addr root_regs 0x80010008 PRV_M (access_of FETCH)).
Proof.
  apply (smepmp_enforces_domain features_example root_regs (mkHartPmp (legal_unit false) [0] false)
    smepmp_example PRV_M FETCH 0x80010008 8).
  - apply legal_unit_ok.
  - constructor; reflexivity.
  - apply legal_unit_open.
  - repeat constructor; vm_compute; congruence.
  - repeat constructor.
  - split; [split; vm_compute; congruence|]. split; [lia|vm_compute; congruence].
  - vm_compute. reflexivity.
Defined.

(** A machine-only region that is writable but not readable is encoded
    as a region shared with S and U mode.  On a hart already in lockdown, as
    after a domain switch, S mode may then fetch from a region the domain keeps
    to machine mode. *)
Theorem smepmp_write_only_leaks :
  let regs := [mkReg 16 0x80000000 MEMREGION_M_WRITABLE; mkReg 64 0 0x38] in
  let '(rc, s') := sbi_hart_smepmp_configure features_example regs
                     (mkHartPmp (legal_unit true) [0] false) in
  rc = 0 /\ Forall valid regs /\
  check_addr regs 0x80000000 PRV_S (access_of FETCH) = false /\
  pmp_ok (unit_of s') 0x80000000 4 FETCH PRV_S false = true.
Proof.
  assert (Forall valid [mkReg 16 0x80000000 MEMREGION_M_WRITABLE; mkReg 64 0 0x38]) as Hv
    by (repeat constructor; vm_compute; congruence).
  cbv zeta. rewrite (surjective_pairing (sbi_hart_smepmp_configure _ _ _)).
  split_and!; [| exact Hv | |]; vm_compute; reflexivity.
Qed.

(** On a hart in lockdown with RLB set and the reserved entry off,
    [sbi_hart_smepmp_map_range] maps any nonempty range of the physical space:
    the reserved entry, the one looked at first, then matches every address of
    the range and lets both modes load and store; no other entry changes, a
    second mapping is refused, and [sbi_hart_smepmp_unmap_range] turns the
    entry off again. *)
Theorem smepmp_map_range_correct f s addr size :
  unit_ok (unit_of s) -> features_ok f (unit_of s) -> get_mml (unit_of s) = true ->
  get_rlb (unit_of s) = true -> ent_cfg (ent (unit_of s) 0) = 0 ->
  0 <= addr -> 0 < size -> addr + size <= 2 ^ 56 ->
  exists s', sbi_hart_smepmp_map_range f s addr size = (SBI_OK, s') /\
    (forall a, addr <= a < addr + size -> match4 (unit_of s') 0 a = true) /\
    (forall mode, access_ok (unit_of s') 0 LOAD mode false = true /\
       access_ok (unit_of s') 0 STORE mode false = true /\
       access_ok (unit_of s') 0 FETCH mode false = false) /\
    (forall i, 0 < i < 64 -> ent (unit_of s') i = ent (unit_of s) i) /\
    (sbi_hart_smepmp_map_range f s' addr size).1 = SBI_ENOSPC /\
    exists s'', sbi_hart_smepmp_unmap_range s' = (SBI_OK, s'') /\ disabled (unit_of s'') 0 /\
      (forall i, 0 < i < 64 -> ent (unit_of s'') i = ent (unit_of s) i).
Proof.
  intros Hh Hf Hm Hr H0 Ha Hs Hb. set (h := unit_of s) in *. pose proof (uo_n h Hh). pose proof (uo_len h Hh).
  destruct (map_range_loop_spec f addr size (fo_gran _ _ Hf) Ha Hs Hb) as (k & q & E & Hfit & Hlo & Hhi).
  assert (writable h 0 = true) as Hw by (apply (open_writable h 0); [done|by apply rlb_open|lia|lia]).
  destruct (hart_pmp_set_spec h 0 (Z.lor PMP_W PMP_X) q k Hh Hw Hfit) as [Eset Hok];
    [unfold cfg_accepted; by rewrite Hr|].
  set (h' := set_ent h 0 (region_entry h (Z.lor PMP_W PMP_X) q k)) in *.
  assert (ent h' 0 = region_entry h' (Z.lor PMP_W PMP_X) q k) as He.
  { unfold h'. rewrite ent_set_eq by lia. by f_equal. }
  unfold sbi_hart_smepmp_map_range. fold h.
  assert (sbi_hart_is_pmp_enabled h 0 = false) as ->.
  { unfold sbi_hart_is_pmp_enabled. rewrite hart_pmp_read_spec by (done || lia). by rewrite H0. }
  rewrite E, Eset. cbn [snd]. eexists. split; [done|]. cbn [with_unit unit_of].
  assert (forall i, 0 < i < 64 -> ent h' i = ent h i) as Hfr by (intros; apply ent_set_ne; lia).
  assert (Z.land (ent_cfg (ent h' 0)) PMP_LRWX = 6 /\ Z.land (ent_cfg (ent h' 0)) PMP_A <> 0) as [Hlrwx HA].
  { rewrite He. cbn [region_entry ent_cfg].
    destruct (legal_cfg_keeps h' _ Hok (prot_cfg_range (Z.lor PMP_W PMP_X) k)) as [HA HL].
    assert (get_mml h' = true) as Hm' by exact Hm.
    rewrite HA, HL, prot_cfg_LRWX, prot_cfg_A by (unfold perm_legal; by rewrite Hm').
    split; [done|]. by destruct (k =? 2). }
  assert (writable h' 0 = true) as Hw' by (apply (open_writable h' 0); [done|by apply rlb_open|lia|simpl; lia]).
  destruct (hart_pmp_disable_spec h' 0 Hok Hw') as [Edis _].
  split_and!; [| |done| |].
  - intros a Haa. rewrite (region_entry_match h' 0 (Z.lor PMP_W PMP_X) q k) by (done || unfold in_range; lia).
    rewrite region_member by (unfold region_fits in Hfit; lia). lia.
  - intros mode. split_and!; rewrite access_ok_LRWX, Hlrwx by exact Hm; by destruct (mode =? PRV_M).
  - assert (sbi_hart_is_pmp_enabled h' 0 = true) as ->; [|done].
    unfold sbi_hart_is_pmp_enabled. rewrite hart_pmp_read_spec by (done || simpl; lia).
    unfold sbi_pmp_is_enabled, truthy. cbn [pmp_cfg]. rewrite (proj2 (Z.eqb_neq _ _)) by done. done.
  - unfold sbi_hart_smepmp_unmap_range. cbn [with_unit unit_of]. rewrite Edis.
    eexists. split; [done|]. cbn [with_unit unit_of]. split.
    + unfold disabled. rewrite ent_set_eq; [done|]. rewrite (uo_len h' Hok). lia.
    + intros i Hi. rewrite ent_set_ne by lia. by apply Hfr.
Qed.

Lemma smepmp_map_range_correct_witness :
  exists s', sbi_hart_smepmp_map_range features_example smepmp_example 0x90000100 0x200 = (SBI_OK, s') /\
    (forall a, 0x90000100 <= a < 0x90000100 + 0x200 -> match4 (unit_of s') 0 a = true).
Proof.
  destruct (smepmp_map_range_correct features_example smepmp_example 0x90000100 0x200)
    as (s' & H1 & H2 & _).
  - apply (smepmp_configured features_example root_regs (mkHartPmp (legal_unit false) [0] false) smepmp_example);
      [apply legal_unit_ok|constructor; reflexivity|apply legal_unit_open|
       repeat constructor; vm_compute; congruence|repeat constructor|vm_compute; reflexivity].
  - constructor; vm_compute; reflexivity.
  - vm_compute. reflexivity.
  - vm_compute. reflexivity.
  - vm_compute. reflexivity.
  - lia.
  - lia.
  - lia.
  - exists s'. split; [exact H1|exact H2].
Defined.
