(* ===== verification/Domain.v ===== *)
(** * Domains (lib/sbi/sbi_domain.c of xendor/opensbi)

    A domain owns memory regions and harts.  A pointer to a domain is its key in
    the map [doms]; the per-hart scratch slot at [domain_hart_ptr_offset] is the
    entry of the hart's index in [hart_domain].  The regions themselves and the
    address checks are in file Memregion; starting the boot harts of the domains
    is in file Hsm.

    Two outcomes of code outside this file are arguments: the return code of
    sbi_domain_setup_data, which only touches the domain's data pointers, and
    the success of the allocations of [sbi_domain_init].

    Theorems: every hart belongs to exactly the domain its slot names, through
    every registration; adding a region to the root domain ends and covers what
    it should; and S and U mode never get at the firmware. *)

From stdpp Require Import gmap.
From S2P Require Import Prelude Locks Bitops Bitmap Strings Scratch Memregion.

Local Open Scope Z_scope.

Abbreviation ROOT_REGION_MAX := 32.

Record sbi_domain := mkDomain {
  index : Z;
  assigned_harts : sbi_hartmask;
  assigned_harts_lock : spinlock_t;
  possible_harts : option sbi_hartmask;
  regions : option (list memregion);
  boot_hartid : Z;
  dom_next_arg1 : Z;
  dom_next_addr : Z;
  dom_next_mode : Z;
  system_reset_allowed : bool;
  system_suspend_allowed : bool;
  fw_region_inited : bool
}.

Definition set_regions (d : sbi_domain) (regs : list memregion) : sbi_domain :=
  mkDomain (index d) (assigned_harts d) (assigned_harts_lock d) (possible_harts d) (Some regs)
    (boot_hartid d) (dom_next_arg1 d) (dom_next_addr d) (dom_next_mode d) (system_reset_allowed d)
    (system_suspend_allowed d) (fw_region_inited d).

Definition set_assigned (d : sbi_domain) (m : sbi_hartmask) : sbi_domain :=
  mkDomain (index d) m (assigned_harts_lock d) (possible_harts d) (regions d)
    (boot_hartid d) (dom_next_arg1 d) (dom_next_addr d) (dom_next_mode d) (system_reset_allowed d)
    (system_suspend_allowed d) (fw_region_inited d).

Definition set_lock (d : sbi_domain) (l : spinlock_t) : sbi_domain :=
  mkDomain (index d) (assigned_harts d) l (possible_harts d) (regions d)
    (boot_hartid d) (dom_next_arg1 d) (dom_next_addr d) (dom_next_mode d) (system_reset_allowed d)
    (system_suspend_allowed d) (fw_region_inited d).

Definition set_index (d : sbi_domain) (i : Z) : sbi_domain :=
  mkDomain i (assigned_harts d) (assigned_harts_lock d) (possible_harts d) (regions d)
    (boot_hartid d) (dom_next_arg1 d) (dom_next_addr d) (dom_next_mode d) (system_reset_allowed d)
    (system_suspend_allowed d) (fw_region_inited d).

Definition set_boot_hartid (d : sbi_domain) (h : Z) : sbi_domain :=
  mkDomain (index d) (assigned_harts d) (assigned_harts_lock d) (possible_harts d) (regions d)
    h (dom_next_arg1 d) (dom_next_addr d) (dom_next_mode d) (system_reset_allowed d)
    (system_suspend_allowed d) (fw_region_inited d).

Record domain_state := mkDomState {
  doms : gmap Z sbi_domain;
  domain_list : list Z;
  domain_count : Z;
  domain_finalized : bool;
  domain_hart_ptr_offset : Z;
  hart_domain : gmap Z Z
}.

Definition upd_dom (st : domain_state) (p : Z) (d : sbi_domain) : domain_state :=
  mkDomState (<[p := d]> (doms st)) (domain_list st) (domain_count st) (domain_finalized st)
    (domain_hart_ptr_offset st) (hart_domain st).

(** ** Harts of a domain *)

Definition sbi_hartindex_to_domain (sc : scratch_state) (st : domain_state) (i : Z) : option Z :=
  match sbi_hartindex_to_scratch sc i with
  | None => None
  | Some _ => if domain_hart_ptr_offset st =? 0 then None else hart_domain st !! i
  end.

Definition sbi_update_hartindex_to_domain (sc : scratch_state) (st : domain_state) (i p : Z) :
    domain_state :=
  match sbi_hartindex_to_scratch sc i with
  | None => st
  | Some _ => mkDomState (doms st) (domain_list st) (domain_count st) (domain_finalized st)
                (domain_hart_ptr_offset st) (<[i := p]> (hart_domain st))
  end.

(** The lock is taken and released; [None] spins for ever. *)
Definition sbi_domain_is_assigned_hart (dom : option sbi_domain) (i : Z) : option (bool * option sbi_domain) :=
  match dom with
  | None => Some (false, None)
  | Some d =>
      l ← spin_lock (assigned_harts_lock d);
      let ret := truthy (sbi_hartmask_test_hartindex i (assigned_harts d)) in
      Some (ret, Some (set_lock d (spin_unlock l)))
  end.

Definition sbi_domain_get_assigned_hartmask (dom : option sbi_domain) (mask : sbi_hartmask) :
    option (Z * sbi_hartmask * option sbi_domain) :=
  match dom with
  | None => Some (0, sbi_hartmask_clear_all mask, None)
  | Some d =>
      l ← spin_lock (assigned_harts_lock d);
      let mask := sbi_hartmask_copy mask (assigned_harts d) in
      Some (0, mask, Some (set_lock d (spin_unlock l)))
  end.

(** ** Address checks *)

Definition sbi_domain_check_addr (dom : option sbi_domain) (addr mode access_flags : Z) : bool :=
  match dom with
  | None => false
  | Some d => check_addr (default [] (regions d)) addr mode access_flags
  end.

Definition sbi_domain_check_addr_range (dom : option sbi_domain) (addr size mode access_flags : Z) :
    option bool :=
  match dom with
  | None => Some false
  | Some d => check_addr_range (default [] (regions d)) addr size mode access_flags
  end.

(** ** Registration *)

Definition sanitize_domain (sc : scratch_state) (d : sbi_domain) : Z * sbi_domain :=
  match possible_harts d with
  | None => (SBI_EINVAL, d)
  | Some ph =>
      if negb (forallb (sbi_hartindex_valid sc) (hartmask_indices ph)) then (SBI_EINVAL, d)
      else
        match regions d with
        | None => (SBI_EINVAL, d)
        | Some regs =>
            if negb (forallb is_region_valid regs) then (SBI_EINVAL, d)
            else if negb (fw_region_inited d) then (SBI_EINVAL, d)
            else
              let d := set_regions d (remove_covered (sort_regions regs)) in
              if negb (dom_next_mode d =? 1) && negb (dom_next_mode d =? 0) then (SBI_EINVAL, d)
              else if negb (sbi_domain_check_addr (Some d) (dom_next_addr d) (dom_next_mode d)
                              SBI_DOMAIN_EXECUTE) then (SBI_EINVAL, d)
              else (0, d)
        end
  end.

(** One hart of the assignment loop. *)
Definition assign_hart (sc : scratch_state) (p cold_hartid : Z) (st : domain_state) (i : Z) : domain_state :=
  match doms st !! p with
  | None => st
  | Some d =>
      if negb (truthy (sbi_hartmask_test_hartindex i (default (mkHartmask []) (possible_harts d)))) then st
      else
        let st :=
          match sbi_hartindex_to_domain sc st i with
          | None => st
          | Some t =>
              match doms st !! t with
              | None => st
              | Some td => upd_dom st t (set_assigned td (sbi_hartmask_clear_hartindex i (assigned_harts td)))
              end
          end in
        let st := sbi_update_hartindex_to_domain sc st i p in
        let d := default d (doms st !! p) in
        let d := set_assigned d (sbi_hartmask_set_hartindex i (assigned_harts d)) in
        let d := if (sbi_hartindex_to_hartid sc i =? cold_hartid) && negb (boot_hartid d =? cold_hartid)
                 then set_boot_hartid d cold_hartid else d in
        upd_dom st p d
  end.

Definition sbi_domain_register (sc : scratch_state) (st : domain_state) (cold_hartid : Z) (dom : option Z)
    (assign_mask : option sbi_hartmask) (rc_data : Z) : Z * domain_state :=
  match dom, assign_mask with
  | Some p, Some mask =>
      if domain_finalized st then (SBI_EINVAL, st)
      else if bool_decide (p ∈ domain_list st) then (SBI_EALREADY, st)
      else
        match doms st !! p with
        | None => (SBI_EINVAL, st)
        | Some d =>
            match sanitize_domain sc d with
            | (rc, d) =>
                if truthy rc then (rc, upd_dom st p d)
                else
                  let d := set_index d (domain_count st) in
                  let d := set_lock d SPIN_LOCK_UNLOCKED in
                  let d := set_assigned d (sbi_hartmask_clear_all (assigned_harts d)) in
                  let st := mkDomState (<[p := d]> (doms st)) (domain_list st ++ [p])
                              (u32 (domain_count st + 1)) (domain_finalized st)
                              (domain_hart_ptr_offset st) (hart_domain st) in
                  let st := foldl (assign_hart sc p cold_hartid) st (hartmask_indices mask) in
                  if truthy rc_data
                  then (rc_data, mkDomState (doms st) (filter (fun q => q <> p) (domain_list st))
                                   (domain_count st) (domain_finalized st)
                                   (domain_hart_ptr_offset st) (hart_domain st))
                  else (0, st)
            end
        end
  | _, _ => (SBI_EINVAL, st)
  end.

(** ** The root domain's regions *)

Fixpoint root_merge_loop (fuel : nat) (sc : scratch_state) (root : sbi_domain) : option (Z * sbi_domain) :=
  match fuel with
  | O => None
  | S fuel =>
      let '(rc, root) := sanitize_domain sc root in
      if truthy rc then Some (rc, root)
      else
        let '(reg_merged, regs) := merge_pass (default [] (regions root)) in
        let root := set_regions root regs in
        if reg_merged then root_merge_loop fuel sc root else Some (0, root)
  end.

Definition root_add_memregion (sc : scratch_state) (finalized : bool) (root : sbi_domain)
    (reg : option memregion) : option (Z * sbi_domain) :=
  match reg, regions root with
  | Some reg, Some regs =>
      if finalized || (ROOT_REGION_MAX <=? sbi_domain_used_memregions regs) then Some (SBI_EINVAL, root)
      else if existsb (is_region_compatible reg) regs then Some (0, root)
      else root_merge_loop (S (S (length regs))) sc
             (set_regions root (if order reg =? 0 then regs else regs ++ [reg]))
  | _, _ => Some (SBI_EINVAL, root)
  end.

(** The loop of sbi_domain_root_add_memrange. *)
Fixpoint root_add_memrange_loop (fuel : nat) (sc : scratch_state) (finalized : bool) (root : sbi_domain)
    (pos endp align region_flags : Z) : option (Z * sbi_domain) :=
  match fuel with
  | O => None
  | S fuel =>
      if pos <? endp then
        let rsize := Z.land pos (u64 (align - 1)) in
        let rsize := if truthy rsize then shl64 1 (sbi_ffs pos)
                     else if u64 (endp - pos) <? align then u64 (endp - pos) else align in
        let reg := sbi_domain_memregion_init pos rsize region_flags in
        '(rc, root) ← root_add_memregion sc finalized root (Some reg);
        if truthy rc then Some (rc, root)
        else root_add_memrange_loop fuel sc finalized root (u64 (pos + rsize)) endp align region_flags
      else Some (0, root)
  end.

Definition sbi_domain_root_add_memrange (fuel : nat) (sc : scratch_state) (finalized : bool)
    (root : sbi_domain) (addr size align region_flags : Z) : option (Z * sbi_domain) :=
  root_add_memrange_loop fuel sc finalized root addr (u64 (addr + size)) align region_flags.

(** ** Finalisation and boot *)

(** The platform may register domains of its own; what it does is a parameter. *)
Definition sbi_domain_finalize (platform_domains_init : domain_state -> Z * domain_state) (st : domain_state) :
    Z * domain_state :=
  if domain_finalized st then (SBI_EINVAL, st)
  else
    let '(rc, st) := platform_domains_init st in
    if truthy rc then (rc, st)
    else (0, mkDomState (doms st) (domain_list st) (domain_count st) true
               (domain_hart_ptr_offset st) (hart_domain st)).

Definition FW_FLAGS_RWX : Z := 7 + MEMREGION_FW.
Definition FW_FLAGS_RX : Z := 5 + MEMREGION_FW.
Abbreviation FW_FLAGS_RW := (3 + MEMREGION_FW).

(** The regions the root domain starts with. *)
Definition root_boot_regions (scr : sbi_scratch) (fw_single_region : bool) : list memregion :=
  (if fw_single_region
   then [sbi_domain_memregion_init (fw_start scr) (fw_size scr) FW_FLAGS_RWX]
   else [sbi_domain_memregion_init (fw_start scr) (fw_rw_offset scr) FW_FLAGS_RX;
         sbi_domain_memregion_init (u64 (fw_start scr + fw_rw_offset scr))
           (u64 (fw_size scr - fw_rw_offset scr)) FW_FLAGS_RW]) ++
  [sbi_domain_memregion_init 0 ULONG_MAX MEMREGION_SU_ACCESS_MASK].

(** The elements of an array before its terminator. *)
Fixpoint live_regions (regs : list memregion) : list memregion :=
  match regs with
  | [] => []
  | r :: regs' => if order r =? 0 then [] else r :: live_regions regs'
  end.

(** The outcome of what [sbi_domain_init] calls: the scratch offset (0 when
    none is left), the return code of the context code, and whether the two
    heap allocations succeeded. *)
Record init_env := mkInitEnv { env_offset : Z; env_context_rc : Z; env_memregs : bool; env_hmask : bool }.

Definition ROOT : Z := 0.

Definition sbi_domain_init (sc : scratch_state) (scr : sbi_scratch) (cold_hartid : Z) (fw_single_region : bool)
    (env : init_env) (root : sbi_domain) (rc_data : Z) : Z * domain_state :=
  let st0 := mkDomState {[ROOT := root]} [] 0 false (env_offset env) ∅ in
  let fw_rw := fw_rw_offset scr in
  if negb fw_single_region && ((fw_rw =? 0) || negb (Z.land fw_rw (fw_rw - 1) =? 0)) then (SBI_EINVAL, st0)
  else if negb fw_single_region && negb (Z.land (fw_start scr) (fw_rw - 1) =? 0) then (SBI_EINVAL, st0)
  else if env_offset env =? 0 then (SBI_ENOMEM, st0)
  else if truthy (env_context_rc env) then (env_context_rc env, st0)
  else if negb (env_memregs env) then (SBI_ENOMEM, st0)
  else if negb (env_hmask env) then (SBI_ENOMEM, st0)
  else
    let hmask := foldl (fun m i => sbi_hartmask_set_hartindex i m) (mkHartmask [0; 0]) (for_each_hartindex sc) in
    let regs := live_regions (root_boot_regions scr fw_single_region) in
    let root := mkDomain (index root) (assigned_harts root) (assigned_harts_lock root) (Some hmask) (Some regs)
                  cold_hartid (next_arg1 scr) (next_addr scr) (next_mode scr) (system_reset_allowed root)
                  (system_suspend_allowed root) true in
    sbi_domain_register sc (upd_dom st0 ROOT root) cold_hartid (Some ROOT) (Some hmask) rc_data.

(** ** Regions through sanitising and merging *)

(** The addresses of the regions whose flags satisfy [P]. *)
Definition covered_by (P : Z -> bool) (regs : list memregion) (a : Z) : bool :=
  existsb (fun r => P (flags r) && in_region r a) regs.

Lemma covered_by_true P regs a :
  covered_by P regs a = true <-> exists r, r ∈ regs /\ P (flags r) = true /\ in_region r a = true.
Proof.
  unfold covered_by. rewrite existsb_exists. split.
  - intros (r & Hr & [Hp Ha]%andb_true_iff). exists r. split_and!; try done. by apply list_elem_of_In.
  - intros (r & Hr & Hp & Ha). exists r. rewrite Hp, Ha. split; [by apply list_elem_of_In|done].
Qed.

Lemma covered_by_perm P regs regs' a : Permutation regs regs' -> covered_by P regs a = covered_by P regs' a.
Proof.
  intros Hp. apply eq_iff_eq_true. rewrite !covered_by_true.
  split; intros (r & Hr & H); exists r; (split; [|done]); [rewrite <- Hp|rewrite Hp]; done.
Qed.

Lemma remove_covered_by P regs a : Forall valid regs -> covered_by P (remove_covered regs) a = covered_by P regs a.
Proof.
  induction regs as [|x rest IH]; intros Hv; [done|]. apply Forall_cons in Hv as [Hx Hv].
  simpl. destruct (existsb (is_region_compatible x) rest) eqn:E; simpl; rewrite IH by done; [|done].
  destruct (P (flags x) && in_region x a) eqn:Ea; [|done]. simpl.
  apply andb_true_iff in Ea as [HP Ea].
  apply compatible_exists in E as (B & HB & Hsub & Hfl). apply covered_by_true. exists B.
  rewrite Forall_forall in Hv. split_and!; [done|congruence|].
  apply subset_iff in Hsub; [|done|by apply Hv].
  apply in_region_iff in Ea; [|done]. apply in_region_iff; [by apply Hv|lia].
Qed.

Lemma sanitize_covered_by P regs a :
  Forall valid regs -> covered_by P (sanitize_regions regs) a = covered_by P regs a.
Proof.
  intros Hv. unfold sanitize_regions. rewrite remove_covered_by by (by rewrite <- (sort_regions_perm regs)).
  symmetry. apply covered_by_perm, sort_regions_perm.
Qed.

Lemma merge_covered_by P a : forall n regs, (length regs <= n)%nat -> Forall valid regs -> NoDup regs ->
  covered_by P (merge_pass regs).2 a = covered_by P regs a /\
  (forall r, r ∈ (merge_pass regs).2 -> exists r0, r0 ∈ regs /\ flags r = flags r0).
Proof.
  induction n as [|n IH]; intros regs Hn Hv Hd; [destruct regs; [by eauto|simpl in Hn; lia]|].
  destruct regs as [|r [|r1 rest]]; [by eauto|by eauto|]. rewrite merge_pass_cons.
  apply Forall_cons in Hv as [Hr Hv]. apply NoDup_cons in Hd as [Hnr Hd]. cbn [length] in Hn.
  destruct (mergeable r r1) eqn:E.
  - pose proof Hv as [Hr1 Hvr]%Forall_cons. pose proof Hd as [_ Hdr]%NoDup_cons.
    destruct (IH rest ltac:(lia) Hvr Hdr) as [H1 H2]. destruct (merge_pass rest) as [m l]. cbn [snd] in *.
    destruct (merge_spec r r1 Hr Hr1 ltac:(set_solver) E) as (Hvm & Hin & Hff). split.
    + unfold covered_by in *. cbn [existsb flags]. rewrite Hin, H1, <- Hff.
      by destruct (P (flags r)), (in_region r a), (in_region r1 a).
    + intros x [->|Hx]%elem_of_cons; [exists r; split; [left|done]|].
      destruct (H2 x Hx) as (r0 & Hr0 & Hf). exists r0. split; [by do 2 right|done].
  - destruct (IH (r1 :: rest) ltac:(simpl; lia) Hv Hd) as [H1 H2].
    destruct (merge_pass (r1 :: rest)) as [m l]. cbn [snd] in *. split.
    + unfold covered_by in *. cbn [existsb]. by rewrite H1.
    + intros x [->|Hx]%elem_of_cons; [exists r; split; [left|done]|].
      destruct (H2 x Hx) as (r0 & Hr0 & Hf). exists r0. split; [by right|done].
Qed.

Definition bases_ok (regs : list memregion) : Prop := Forall (fun r => in_range 64 (base r)) regs.

Lemma valid_bases regs : Forall valid regs -> bases_ok regs.
Proof. intros H. eapply Forall_impl; [exact H|]. by intros r [_ ?]. Qed.

Lemma sanitize_domain_ok sc d d' regs :
  regions d = Some regs -> bases_ok regs -> sanitize_domain sc d = (0, d') ->
  Forall valid regs /\ d' = set_regions d (sanitize_regions regs) /\
  (exists ph, possible_harts d = Some ph /\ forallb (sbi_hartindex_valid sc) (hartmask_indices ph) = true) /\
  check_addr (sanitize_regions regs) (dom_next_addr d) (dom_next_mode d) SBI_DOMAIN_EXECUTE = true /\
  (dom_next_mode d = 1 \/ dom_next_mode d = 0).
Proof.
  intros Hr Hb. unfold sanitize_domain. destruct (possible_harts d) as [ph|] eqn:Hph; [|done].
  destruct (forallb (sbi_hartindex_valid sc) (hartmask_indices ph)) eqn:Hv; cbn [negb]; [|done].
  rewrite Hr. destruct (forallb is_region_valid regs) eqn:Hval; cbn [negb]; [|done].
  destruct (fw_region_inited d); cbn [negb]; [|done]. cbn [set_regions dom_next_mode dom_next_addr].
  destruct (_ && _) eqn:Hmode; [done|].
  destruct (negb (sbi_domain_check_addr _ _ _ _)) eqn:Hchk; [done|]. intros [= <-].
  apply negb_false_iff in Hchk. split_and!; [|done|by eauto|done|].
  - rewrite forallb_forall in Hval. unfold bases_ok in Hb. rewrite Forall_forall in *. intros r Hin.
    split; [apply Hval; by apply list_elem_of_In|by apply Hb].
  - apply andb_false_iff in Hmode. lia.
Qed.

Lemma sanitize_domain_total sc d : exists rc d', sanitize_domain sc d = (rc, d').
Proof. destruct (sanitize_domain sc d) as [rc d']. eauto. Qed.

(** What a successful run of the merging loop leaves of the regions [regs]. *)
Record merged (regs regs' : list memregion) : Prop := {
  mg_valid : Forall valid regs';
  mg_sorted : StronglySorted le_reg regs';
  mg_len : (length regs' <= length regs)%nat;
  mg_cover : forall P a, covered_by P regs' a = covered_by P regs a;
  mg_flags : forall r, r ∈ regs' -> exists r0, r0 ∈ regs /\ flags r = flags r0
}.

Lemma root_merge_loop_spec sc fuel : forall root regs,
  regions root = Some regs -> bases_ok regs -> (length regs < fuel)%nat ->
  exists rc root', root_merge_loop fuel sc root = Some (rc, root') /\
    (rc = 0 -> exists regs', root' = set_regions root regs' /\ merged regs regs').
Proof.
  induction fuel as [|fuel IH]; intros root regs Hr Hb Hf; [lia|]. cbn [root_merge_loop].
  destruct (sanitize_domain sc root) as [rc d'] eqn:Es.
  destruct (truthy rc) eqn:Et.
  { exists rc, d'. split; [done|]. intros ->. done. }
  assert (rc = 0) as -> by (unfold truthy in Et; lia).
  destruct (sanitize_domain_ok sc root d' regs Hr Hb Es) as (Hv & -> & _).
  change (default [] (regions (set_regions root (sanitize_regions regs)))) with (sanitize_regions regs).
  set (sr := sanitize_regions regs) in *.
  assert (Forall valid sr) as Hvs by (by apply sanitize_valid).
  assert (NoDup sr) as Hnd by (apply remove_covered_nodup; by rewrite <- (sort_regions_perm regs)).
  assert (forall r, r ∈ sr -> r ∈ regs) as Hsub.
  { intros r Hin%remove_covered_elem. by rewrite (sort_regions_perm regs). }
  pose proof (merge_pass_spec (length sr) sr ltac:(lia) Hvs Hnd) as Hm.
  pose proof (fun P a => merge_covered_by P a (length sr) sr ltac:(lia) Hvs Hnd) as Hc.
  destruct (merge_pass sr) as [m l]. cbn [snd] in Hc. destruct Hm as (Hvl & _ & Hlt & Heq).
  pose proof (sanitize_length regs) as Hsl. fold sr in Hsl.
  destruct m.
  - specialize (Hlt eq_refl).
    destruct (IH (set_regions (set_regions root sr) l) l ltac:(done) (valid_bases l Hvl) ltac:(lia))
      as (rc & root' & E & Hok).
    exists rc, root'. split; [exact E|]. intros ->. destruct (Hok eq_refl) as (regs' & -> & [M1 M2 M3 M4 M5]).
    exists regs'. split; [done|]. constructor; [done|done|lia| |].
    + intros P a. rewrite M4, (proj1 (Hc P a)). by apply sanitize_covered_by.
    + intros r Hin. destruct (M5 r Hin) as (r0 & Hr0 & ->).
      destruct (proj2 (Hc (fun _ => true) 0) r0 Hr0) as (r1 & Hr1 & ->). eauto.
  - rewrite (Heq eq_refl). exists 0, (set_regions root sr). split; [done|]. intros _. exists sr.
    split; [done|]. constructor; [done|apply sanitize_sorted|done| |by eauto].
    intros P a. by apply sanitize_covered_by.
Qed.

(** What a successful [root_add_memregion] leaves. *)
Lemma root_add_memregion_spec sc root regs reg :
  regions root = Some regs -> Forall valid regs -> StronglySorted le_reg regs -> valid reg ->
  exists rc root', root_add_memregion sc false root (Some reg) = Some (rc, root') /\
    (ROOT_REGION_MAX <= Z.of_nat (length regs) -> rc = SBI_EINVAL /\ root' = root) /\
    (rc = 0 -> exists regs', regions root' = Some regs' /\ merged (reg :: regs) regs' /\
       Z.of_nat (length regs') <= ROOT_REGION_MAX).
Proof.
  intros Hr Hv Hs Hreg. unfold root_add_memregion, sbi_domain_used_memregions. rewrite Hr.
  destruct (Z.leb_spec 32 (Z.of_nat (length regs))) as [Hge|Hlt]; cbn [orb].
  { exists SBI_EINVAL, root. split_and!; done. }
  destruct (existsb (is_region_compatible reg) regs) eqn:E.
  - exists 0, root. split_and!; [done|lia|]. intros _. exists regs. split_and!; [done| |lia].
    constructor; [done|done|simpl; lia| |].
    + intros P a. pose proof (remove_covered_by P (reg :: regs) a ltac:(by constructor)) as H1.
      cbn [remove_covered] in H1. rewrite E in H1. by rewrite <- H1, remove_covered_by.
    + intros r Hin. exists r. split; [by right|done].
  - pose proof (valid_spec reg Hreg) as (Ho & _). rewrite (proj2 (Z.eqb_neq (order reg) 0)) by lia.
    destruct (root_merge_loop_spec sc (S (S (length regs))) (set_regions root (regs ++ [reg])) (regs ++ [reg]))
      as (rc & root' & El & Hok); [done| |rewrite length_app; simpl; lia|].
    { apply valid_bases, Forall_app. split; [done|by constructor]. }
    exists rc, root'. split_and!; [done|lia|]. intros ->. destruct (Hok eq_refl) as (regs' & -> & [M1 M2 M3 M4 M5]).
    rewrite length_app in M3. simpl in M3.
    exists regs'. split_and!; [done| |lia]. constructor; [done|done|simpl; lia| |].
    + intros P a. rewrite M4. apply covered_by_perm. by rewrite Permutation_app_comm.
    + intros r Hin. destruct (M5 r Hin) as (r0 & Hr0 & Hf). exists r0. split; [|done]. set_solver.
Qed.

(** ** Firmware first *)

Lemma firmware_decides regs a :
  StronglySorted le_reg regs -> covered_by is_firmware regs a = true ->
  exists f, region_flags regs a = Some f /\ is_firmware f = true /\ exists r, r ∈ regs /\ flags r = f.
Proof.
  intros Hs (r & Hr & Hfw & Ha)%covered_by_true.
  destruct (region_flags regs a) as [f|] eqn:E.
  2:{ assert (is_Some (region_flags regs a)) as [? ?]; [|congruence].
      apply region_flags_covered, covered_true. eauto. }
  exists f. split; [done|]. apply region_flags_some in E as (pre & y & post & -> & Hya & <- & Hpre).
  split; [|exists y; split; [set_solver|done]].
  apply elem_of_app in Hr as [Hr|[->|Hr]%elem_of_cons]; [|done|].
  - rewrite Forall_forall in Hpre. rewrite (Hpre r Hr) in Ha. done.
  - apply StronglySorted_app_1_r, StronglySorted_inv in Hs as [_ Hs].
    apply (le_reg_firmware y r Hfw). by apply (proj1 (Forall_forall _ _) Hs).
Qed.

(** The regions keep S and U mode out of the addresses from [lo] to [hi]. *)
Record fw_protected (lo hi : Z) (regs : list memregion) : Prop := {
  fp_valid : Forall valid regs;
  fp_sorted : StronglySorted le_reg regs;
  fp_flags : forall r, r ∈ regs -> is_firmware (flags r) = true -> Z.land (flags r) MEMREGION_SU_ACCESS_MASK = 0;
  fp_cover : forall a, lo <= a < hi -> covered_by is_firmware regs a = true
}.

Lemma fw_protected_check lo hi regs a mode af :
  fw_protected lo hi regs -> lo <= a < hi -> mode <> 3 -> access_rwx af <> 0 -> check_addr regs a mode af = false.
Proof.
  intros [Hv Hs Hfl Hc] Ha Hm Haf. rewrite check_addr_flags.
  destruct (firmware_decides regs a Hs (Hc a Ha)) as (f & -> & Hfw & r & Hr & <-).
  unfold region_allows. rewrite (proj2 (Z.eqb_neq mode 3)), (Hfl r Hr Hfw) by done.
  destruct (negb _ && _); [done|]. change (Z.shiftr 0 MEMREGION_SU_ACCESS_SHIFT) with 0.
  rewrite Z.land_0_l. lia.
Qed.

Lemma fw_protected_add lo hi sc root regs reg root' :
  regions root = Some regs -> fw_protected lo hi regs -> valid reg -> is_firmware (flags reg) = false ->
  root_add_memregion sc false root (Some reg) = Some (0, root') ->
  exists regs', regions root' = Some regs' /\ fw_protected lo hi regs'.
Proof.
  intros Hr [Hv Hs Hfl Hc] Hreg Hnf E.
  destruct (root_add_memregion_spec sc root regs reg Hr Hv Hs Hreg) as (rc & r' & E' & _ & Hok).
  rewrite E in E'. injection E' as <- <-. destruct (Hok eq_refl) as (regs' & Hr' & [M1 M2 _ M4 M5] & _).
  exists regs'. split; [done|]. constructor; [done|done| |].
  - intros r Hin Hfw. destruct (M5 r Hin) as (r0 & [->|Hr0]%elem_of_cons & Hf); [congruence|].
    rewrite Hf in *. by apply Hfl.
  - intros a Ha. rewrite M4. unfold covered_by. cbn [existsb].
    fold (covered_by is_firmware regs a). rewrite (Hc a Ha). apply orb_true_r.
Qed.

(** Adding several regions, up to the first error. *)
Fixpoint root_add_all (sc : scratch_state) (root : sbi_domain) (l : list memregion) : option (Z * sbi_domain) :=
  match l with
  | [] => Some (0, root)
  | r :: l =>
      '(rc, root) ← root_add_memregion sc false root (Some r);
      if truthy rc then Some (rc, root) else root_add_all sc root l
  end.

Lemma fw_protected_add_all lo hi sc l : forall root regs root',
  regions root = Some regs -> fw_protected lo hi regs ->
  Forall (fun r => valid r /\ is_firmware (flags r) = false) l ->
  root_add_all sc root l = Some (0, root') ->
  exists regs', regions root' = Some regs' /\ fw_protected lo hi regs'.
Proof.
  induction l as [|r l IH]; intros root regs root' Hr Hp Hl E; cbn [root_add_all] in E.
  { injection E as <-. eauto. }
  apply Forall_cons in Hl as [[Hv Hf] Hl].
  destruct (root_add_memregion sc false root (Some r)) as [[rc root1]|] eqn:E1; [|done].
  cbn in E. destruct (truthy rc) eqn:Et; [injection E as -> _; done|].
  assert (rc = 0) as -> by (unfold truthy in Et; lia).
  destruct (fw_protected_add lo hi sc root regs r root1 Hr Hp Hv Hf E1) as (regs1 & Hr1 & Hp1).
  by eapply IH.
Qed.

(** ** Boot *)

(** Assigning harts touches no domain's regions. *)
Lemma assign_hart_regions sc p cold i st q :
  regions <$> doms (assign_hart sc p cold st i) !! q = regions <$> doms st !! q.
Proof.
  unfold assign_hart. destruct (doms st !! p) as [d|] eqn:Ep; [|done].
  destruct (negb _); [done|].
  set (st1 := match sbi_hartindex_to_domain sc st i with Some _ => _ | None => _ end).
  assert (forall q, regions <$> doms st1 !! q = regions <$> doms st !! q) as H1.
  { intros q'. unfold st1. destruct (sbi_hartindex_to_domain sc st i) as [t|]; [|done].
    destruct (doms st !! t) as [td|] eqn:Et; [|done]. cbn [upd_dom doms].
    destruct (decide (q' = t)) as [->|]; [by rewrite lookup_insert_eq, Et|by rewrite lookup_insert_ne]. }
  set (st2 := sbi_update_hartindex_to_domain sc st1 i p).
  assert (doms st2 = doms st1) as Hd2 by (unfold st2, sbi_update_hartindex_to_domain; by case_match).
  cbn [upd_dom doms]. rewrite Hd2. destruct (decide (q = p)) as [->|]; [|by rewrite lookup_insert_ne].
  rewrite lookup_insert_eq. specialize (H1 p). rewrite Ep in H1.
  destruct (doms st1 !! p) as [d1|]; [|done]. simpl in H1. rewrite Ep. simpl.
  injection H1 as H1. destruct (_ && _); simpl; by rewrite H1.
Qed.

Lemma assign_loop_regions sc p cold l : forall st q,
  regions <$> doms (foldl (assign_hart sc p cold) st l) !! q = regions <$> doms st !! q.
Proof.
  induction l as [|i l IH]; intros st q; [done|]. cbn [foldl]. rewrite IH. apply assign_hart_regions.
Qed.

Lemma register_regions sc st cold p mask st' d regs :
  doms st !! p = Some d -> regions d = Some regs -> bases_ok regs ->
  sbi_domain_register sc st cold (Some p) (Some mask) 0 = (0, st') ->
  Forall valid regs /\ exists d', doms st' !! p = Some d' /\ regions d' = Some (sanitize_regions regs).
Proof.
  intros Hp Hr Hb. unfold sbi_domain_register.
  destruct (domain_finalized st); [done|]. case_bool_decide; [done|]. rewrite Hp.
  destruct (sanitize_domain sc d) as [rc d1] eqn:Es. destruct (truthy rc) eqn:Et; [intros [= -> _]; done|].
  assert (rc = 0) as -> by (unfold truthy in Et; lia).
  destruct (sanitize_domain_ok sc d d1 regs Hr Hb Es) as (Hv & -> & _).
  change (truthy 0) with false. cbv iota. set (st1 := mkDomState _ _ _ _ _ _). intros [= <-].
  split; [done|]. pose proof (assign_loop_regions sc p cold (hartmask_indices mask) st1 p) as H1.
  unfold st1 at 2 in H1. cbn [doms] in H1. rewrite lookup_insert_eq in H1. simpl in H1.
  destruct (doms (foldl _ _ _) !! p) as [d'|]; [|done]. simpl in H1. injection H1 as H1. eauto.
Qed.

(** The firmware lies inside the address space and is not tiny. *)
Record fw_ok (scr : sbi_scratch) : Prop := {
  fk_range : 0 <= fw_start scr /\ fw_start scr + fw_size scr <= 2 ^ 64;
  fk_rw : 0 < fw_rw_offset scr < fw_size scr;
  fk_min : 8 <= fw_rw_offset scr /\ 8 <= fw_size scr - fw_rw_offset scr
}.

Lemma log2roundup_8 size : 8 <= size -> 3 <= log2roundup size.
Proof.
  intros Hs. destruct (log2roundup_loop_spec 64 size 0 ltac:(lia) ltac:(lia) ltac:(lia)) as (Hl & _ & Hmax).
  fold (log2roundup size) in Hl, Hmax. destruct (decide (3 <= log2roundup size)); [done|].
  specialize (Hmax ltac:(lia)). assert (2 ^ log2roundup size <= 2 ^ 2) by (apply pow2_le; lia). lia.
Qed.

Lemma init_region addr size fl :
  0 <= addr -> 8 <= size -> addr + size <= 2 ^ 64 ->
  let r := sbi_domain_memregion_init addr size fl in
  flags r = fl /\ order r <> 0 /\ in_range 64 (base r) /\ base r <= addr /\ addr + size <= lim r.
Proof.
  intros Ha Hs Hb r. destruct (memregion_init_spec addr size fl Ha ltac:(lia) Hb) as (Hf & Ho & (_ & H1 & H2 & _) & _).
  pose proof (log2roundup_8 size Hs). fold r in Hf, Ho, H1, H2. unfold in_range. split_and!; try done; lia.
Qed.

(** What the regions made at boot have in common. *)
Definition boot_region (r : memregion) : Prop :=
  order r <> 0 /\ in_range 64 (base r) /\
  (is_firmware (flags r) = true -> Z.land (flags r) MEMREGION_SU_ACCESS_MASK = 0).

Lemma boot_region_init r fl :
  flags r = fl -> order r <> 0 -> in_range 64 (base r) ->
  negb (is_firmware fl) || (Z.land fl MEMREGION_SU_ACCESS_MASK =? 0) = true -> boot_region r.
Proof.
  intros <- Ho Hb Hf. split_and!; [done|done|]. intros Hw. rewrite Hw in Hf. by apply Z.eqb_eq.
Qed.

Lemma in_region_range r a : valid r -> base r <= a < lim r -> in_region r a = true.
Proof. intros Hv Ha. by apply in_region_iff. Qed.

Lemma live_all regs : Forall (fun r => order r <> 0) regs -> live_regions regs = regs.
Proof.
  induction 1 as [|r regs Hr _ IH]; [done|]. simpl. by rewrite (proj2 (Z.eqb_neq _ _)), IH.
Qed.

(** The regions at boot, as sanitised. *)
Lemma boot_fw_protected scr single :
  fw_ok scr -> let regs := root_boot_regions scr single in
  live_regions regs = regs /\ bases_ok regs /\
  (Forall valid regs -> fw_protected (fw_start scr) (fw_start scr + fw_size scr) (sanitize_regions regs)).
Proof.
  intros [[H0 H1] [H2 H3] [H4 H5]] regs.
  destruct (init_region 0 ULONG_MAX MEMREGION_SU_ACCESS_MASK) as (A1 & A2 & A3 & _);
    [lia|unfold ULONG_MAX; lia|unfold ULONG_MAX; lia|].
  assert (Forall boot_region regs /\
    (Forall valid regs -> forall a, fw_start scr <= a < fw_start scr + fw_size scr ->
       covered_by is_firmware regs a = true)) as [Hall Hcov].
  { unfold regs, root_boot_regions. destruct single; cbn [app].
    - destruct (init_region (fw_start scr) (fw_size scr) FW_FLAGS_RWX) as (B1 & B2 & B3 & B4 & B5); [lia..|].
      split; [repeat apply Forall_cons_2; [by eapply boot_region_init..|constructor]|].
      intros Hv a Ha.
      apply Forall_cons in Hv as [Hv _]. unfold covered_by. cbn [existsb]. rewrite B1.
      rewrite (in_region_range _ a Hv) by lia. done.
    - rewrite !(wrap_id 64) by lia.
      destruct (init_region (fw_start scr) (fw_rw_offset scr) FW_FLAGS_RX) as (B1 & B2 & B3 & B4 & B5); [lia..|].
      destruct (init_region (fw_start scr + fw_rw_offset scr) (fw_size scr - fw_rw_offset scr) FW_FLAGS_RW)
        as (C1 & C2 & C3 & C4 & C5); [lia..|].
      split; [repeat apply Forall_cons_2; [by eapply boot_region_init..|constructor]|].
      intros Hv a Ha.
      apply Forall_cons in Hv as [Hv [Hv' _]%Forall_cons]. unfold covered_by. cbn [existsb]. rewrite B1, C1.
      destruct (decide (a < fw_start scr + fw_rw_offset scr)).
      + rewrite (in_region_range _ a Hv) by lia. done.
      + rewrite (in_region_range _ a Hv') by lia. apply orb_true_r. }
  split_and!.
  - apply live_all. eapply Forall_impl; [exact Hall|]. by intros r (? & _).
  - eapply Forall_impl; [exact Hall|]. by intros r (_ & ? & _).
  - intros Hv. constructor; [by apply sanitize_valid|apply sanitize_sorted| |].
    + intros r Hin. rewrite Forall_forall in Hall. apply Hall. apply remove_covered_elem in Hin.
      by rewrite (sort_regions_perm regs).
    + intros a Ha. rewrite sanitize_covered_by by done. by apply Hcov.
Qed.

Lemma init_fw_protected sc scr cold single env root st :
  fw_ok scr -> sbi_domain_init sc scr cold single env root 0 = (0, st) ->
  exists d regs, doms st !! ROOT = Some d /\ regions d = Some regs /\
    fw_protected (fw_start scr) (fw_start scr + fw_size scr) regs.
Proof.
  intros Hfw. unfold sbi_domain_init.
  do 6 (match goal with |- (if ?b then _ else _) = _ -> _ => destruct b eqn:?; [intros [= ? _]; first [done|unfold truthy in *; lia]|] end).
  destruct (boot_fw_protected scr single Hfw) as (Hlive & Hb & Hp). rewrite Hlive.
  set (st0 := upd_dom _ _ _). intros E.
  destruct (register_regions sc st0 cold ROOT _ st _ (root_boot_regions scr single)
    (lookup_insert_eq _ _ _) eq_refl Hb E) as (Hv & d' & Hd & Hr).
  exists d', (sanitize_regions (root_boot_regions scr single)). split_and!; [done|done|by apply Hp].
Qed.

(** ** Assignment of harts *)

(** Every hart is assigned to the domain its slot names and to no other. *)
Record assign_inv (st : domain_state) : Prop := {
  ai_wf : forall p d, doms st !! p = Some d -> hm_wf (assigned_harts d);
  ai_mem : forall p d i, doms st !! p = Some d -> 0 <= i < 128 ->
    hm_mem (assigned_harts d) i = true <-> hart_domain st !! i = Some p;
  ai_listed : forall i p, hart_domain st !! i = Some p -> p ∈ domain_list st;
  ai_doms : forall p, p ∈ domain_list st -> is_Some (doms st !! p)
}.

(** Harts of the tables have scratch space, and the slot offset is allocated. *)
Definition slots_ok (sc : scratch_state) (st : domain_state) : Prop :=
  domain_hart_ptr_offset st <> 0 /\
  forall i, sbi_hartindex_valid sc i = true -> is_Some (sbi_hartindex_to_scratch sc i).

(** The domains after hart [i] left its old domain. *)
Definition clear_owner (st : domain_state) (i : Z) : gmap Z sbi_domain :=
  match hart_domain st !! i with
  | None => doms st
  | Some t =>
      match doms st !! t with
      | None => doms st
      | Some td => <[t := set_assigned td (sbi_hartmask_clear_hartindex i (assigned_harts td))]> (doms st)
      end
  end.

Lemma clear_owner_spec st i q d :
  assign_inv st -> 0 <= i < 128 -> doms st !! q = Some d ->
  exists d1, clear_owner st i !! q = Some d1 /\ possible_harts d1 = possible_harts d /\
    hm_wf (assigned_harts d1) /\
    (forall j, 0 <= j < 128 -> hm_mem (assigned_harts d1) j = negb (j =? i) && hm_mem (assigned_harts d) j).
Proof.
  intros Hinv Hi Hq. pose proof (ai_wf _ Hinv q d Hq) as Hwf. unfold clear_owner.
  assert (hart_domain st !! i <> Some q -> forall j, 0 <= j < 128 ->
    hm_mem (assigned_harts d) j = negb (j =? i) && hm_mem (assigned_harts d) j) as Hkeep.
  { intros Hne j Hj. destruct (Z.eqb_spec j i) as [->|]; [|done]. apply not_true_is_false.
    intros Hm. apply Hne. by apply (ai_mem _ Hinv q d). }
  destruct (hart_domain st !! i) as [t|] eqn:Et; [|by exists d; split_and!; auto].
  destruct (ai_doms _ Hinv t (ai_listed _ Hinv i t Et)) as [td Htd]. rewrite Htd.
  destruct (decide (t = q)) as [->|Hne].
  - rewrite Hq in Htd. injection Htd as <-.
    destruct (hm_clear_spec i (assigned_harts d) Hwf ltac:(lia)) as [H1 H2].
    eexists. rewrite lookup_insert_eq. split_and!; [done|done|exact H1|exact H2].
  - exists d. rewrite lookup_insert_ne by done. split_and!; try done. apply Hkeep. congruence.
Qed.

Lemma clear_owner_dom st i q : is_Some (clear_owner st i !! q) -> is_Some (doms st !! q).
Proof.
  unfold clear_owner. destruct (hart_domain st !! i) as [t|]; [|done].
  destruct (doms st !! t) as [td|] eqn:E; [|done]. rewrite lookup_insert_is_Some'.
  intros [<-|H]; [by rewrite E|done].
Qed.

(** Moving hart [i] to the domain [p], whose record becomes [d']. *)
Lemma move_hart_inv st i p d' st' :
  assign_inv st -> 0 <= i < 128 -> p ∈ domain_list st ->
  (exists d1, clear_owner st i !! p = Some d1 /\
     assigned_harts d' = sbi_hartmask_set_hartindex i (assigned_harts d1)) ->
  doms st' = <[p := d']> (clear_owner st i) -> hart_domain st' = <[i := p]> (hart_domain st) ->
  domain_list st' = domain_list st -> assign_inv st'.
Proof.
  intros Hinv Hi Hpl (d1 & Hd1 & Ha) Hd Hh Hl.
  destruct (clear_owner_dom st i p ltac:(by eauto)) as [d Hp].
  assert (forall q dq, doms st' !! q = Some dq ->
    hm_wf (assigned_harts dq) /\ exists d0, doms st !! q = Some d0 /\
    forall j, 0 <= j < 128 -> hm_mem (assigned_harts dq) j =
      if j =? i then bool_decide (q = p) else hm_mem (assigned_harts d0) j) as Hview.
  { intros q dq Hq. rewrite Hd in Hq. destruct (decide (q = p)) as [->|Hne].
    - rewrite lookup_insert_eq in Hq. injection Hq as <-.
      destruct (clear_owner_spec st i p d Hinv Hi Hp) as (d1' & E1 & _ & Hwf & Hm).
      rewrite Hd1 in E1. injection E1 as <-. rewrite Ha.
      destruct (hm_set_spec i (assigned_harts d1) Hwf ltac:(lia)) as [H1 H2]. split; [exact H1|].
      exists d. split; [done|]. intros j Hj. rewrite H2, Hm, bool_decide_true by done.
      by destruct (j =? i).
    - rewrite lookup_insert_ne in Hq by done.
      destruct (clear_owner_dom st i q ltac:(by eauto)) as [d0 Hd0].
      destruct (clear_owner_spec st i q d0 Hinv Hi Hd0) as (d1' & E1 & _ & Hwf & Hm).
      rewrite Hq in E1. injection E1 as <-. split; [exact Hwf|]. exists d0. split; [done|].
      intros j Hj. rewrite Hm, bool_decide_false by done. by destruct (j =? i). }
  constructor.
  - intros q dq Hq. by apply (Hview q dq).
  - intros q dq j Hq Hj. destruct (Hview q dq Hq) as (_ & d0 & Hd0 & Hm). rewrite Hm by done. rewrite Hh.
    destruct (Z.eqb_spec j i) as [->|Hne].
    + rewrite lookup_insert_eq. case_bool_decide; [by subst|]. split; [done|]. intros [= ->]. done.
    + rewrite lookup_insert_ne by done. by apply (ai_mem _ Hinv q d0).
  - intros j q Hq. rewrite Hh in Hq. rewrite Hl. destruct (decide (j = i)) as [->|].
    + rewrite lookup_insert_eq in Hq. by injection Hq as <-.
    + rewrite lookup_insert_ne in Hq by done. by apply (ai_listed _ Hinv j).
  - intros q Hq. rewrite Hl in Hq. rewrite Hd. destruct (decide (q = p)) as [->|Hne].
    + rewrite lookup_insert_eq. by eauto.
    + rewrite lookup_insert_ne by done. destruct (ai_doms _ Hinv q Hq) as [d0 Hd0].
      destruct (clear_owner_spec st i q d0 Hinv Hi Hd0) as (d1' & E1 & _). by eauto.
Qed.

Lemma assign_hart_spec sc p cold st i d ph :
  assign_inv st -> slots_ok sc st -> p ∈ domain_list st -> doms st !! p = Some d ->
  possible_harts d = Some ph -> 0 <= i < 128 ->
  (hm_mem ph i = true -> sbi_hartindex_valid sc i = true) ->
  let st' := assign_hart sc p cold st i in
  assign_inv st' /\ slots_ok sc st' /\ domain_list st' = domain_list st /\
  (exists d', doms st' !! p = Some d' /\ possible_harts d' = Some ph) /\
  hart_domain st' = (if hm_mem ph i then <[i := p]> (hart_domain st) else hart_domain st).
Proof.
  intros Hinv [Hoff Hsc] Hpl Hp Hph Hi Hval st'. unfold st', assign_hart. rewrite Hp, Hph. cbn [default from_option id].
  rewrite hartmask_test_mem by done. destruct (hm_mem ph i) eqn:Hm; cbn [Z.b2z].
  2:{ change (negb (truthy 0)) with true. cbv iota. split_and!; try done. by eauto. }
  change (negb (truthy 1)) with false. cbv iota.
  destruct (Hsc i (Hval eq_refl)) as [ptr Hptr].
  unfold sbi_hartindex_to_domain, sbi_update_hartindex_to_domain. rewrite Hptr.
  rewrite (proj2 (Z.eqb_neq _ _)) by done.
  set (st1 := match hart_domain st !! i with Some _ => _ | None => _ end).
  assert (doms st1 = clear_owner st i /\ hart_domain st1 = hart_domain st /\
    domain_list st1 = domain_list st /\ domain_hart_ptr_offset st1 = domain_hart_ptr_offset st)
    as (E1 & E2 & E3 & E4).
  { unfold st1, clear_owner. destruct (hart_domain st !! i) as [t|]; [|done].
    by destruct (doms st !! t). }
  cbn [doms hart_domain domain_list domain_hart_ptr_offset upd_dom].
  destruct (clear_owner_spec st i p d Hinv Hi Hp) as (d1 & Hd1 & Hph1 & Hwf1 & _).
  rewrite E1, Hd1. cbn [default from_option id].
  set (d2 := set_assigned d1 (sbi_hartmask_set_hartindex i (assigned_harts d1))).
  set (d' := if _ && _ then set_boot_hartid d2 cold else d2).
  assert (assigned_harts d' = sbi_hartmask_set_hartindex i (assigned_harts d1) /\
    possible_harts d' = possible_harts d1) as [Ha' Hph'] by (unfold d'; by destruct (_ && _)).
  assert (domain_hart_ptr_offset st1 <> 0) as Hoff1 by congruence.
  split_and!; [|split; [exact Hoff1|done]|by rewrite E3| |by rewrite E2].
  - apply (move_hart_inv st i p d'); try done; [by eauto|].
    change (<[i := p]> (hart_domain st1) = <[i := p]> (hart_domain st)). by rewrite E2.
  - exists d'. rewrite lookup_insert_eq. split; [done|congruence].
Qed.

Lemma assign_loop_spec sc p cold l : forall st d ph,
  assign_inv st -> slots_ok sc st -> p ∈ domain_list st -> doms st !! p = Some d ->
  possible_harts d = Some ph -> (forall i, i ∈ l -> 0 <= i < 128) ->
  (forall i, 0 <= i < 128 -> hm_mem ph i = true -> sbi_hartindex_valid sc i = true) ->
  let st' := foldl (assign_hart sc p cold) st l in
  assign_inv st' /\ domain_list st' = domain_list st /\
  (forall i, hart_domain st' !! i =
     if decide (i ∈ l /\ hm_mem ph i = true) then Some p else hart_domain st !! i).
Proof.
  induction l as [|x l IH]; intros st d ph Hinv Hsl Hpl Hp Hph Hl Hval; cbn [foldl].
  { cbv zeta. split_and!; [done|done|]. intros i. rewrite decide_False; [done|].
    intros [Hin _]. by apply not_elem_of_nil in Hin. }
  pose proof (Hl x ltac:(left)) as Hx.
  destruct (assign_hart_spec sc p cold st x d ph Hinv Hsl Hpl Hp Hph Hx (Hval x Hx))
    as (I1 & S1 & L1 & (d1 & Hd1 & Hph1) & H1).
  set (st1 := assign_hart sc p cold st x) in *.
  destruct (IH st1 d1 ph I1 S1 ltac:(by rewrite L1) Hd1 Hph1) as (I2 & L2 & H2);
    [intros; apply Hl; by right|done|].
  cbv zeta. split_and!; [done|congruence|]. intros i. rewrite H2, H1.
  destruct (decide (i = x)) as [->|Hne].
  - destruct (hm_mem ph x) eqn:Em.
    + rewrite (decide_True (P := x ∈ x :: l /\ true = true)) by (split; [left|done]).
      case_decide; [done|]. by rewrite lookup_insert_eq.
    + rewrite !decide_False by (intros [_ ?]; done). done.
  - rewrite (decide_ext (i ∈ l /\ hm_mem ph i = true) (i ∈ x :: l /\ hm_mem ph i = true))
      by (rewrite elem_of_cons; tauto).
    case_decide; [done|]. destruct (hm_mem ph x); [by rewrite lookup_insert_ne|done].
Qed.

Lemma sanitize_domain_assigned sc d :
  assigned_harts (sanitize_domain sc d).2 = assigned_harts d.
Proof. unfold sanitize_domain. by repeat case_match. Qed.

(** Replacing a domain's record without touching its harts. *)
Lemma upd_dom_inv st p d d' :
  assign_inv st -> doms st !! p = Some d -> assigned_harts d' = assigned_harts d ->
  assign_inv (upd_dom st p d').
Proof.
  intros Hinv Hp Ha.
  assert (forall q dq, <[p := d']> (doms st) !! q = Some dq ->
    exists d0, doms st !! q = Some d0 /\ assigned_harts dq = assigned_harts d0) as Hview.
  { intros q dq. destruct (decide (q = p)) as [->|].
    - rewrite lookup_insert_eq. intros [= <-]. eauto.
    - rewrite lookup_insert_ne by done. eauto. }
  constructor; cbn [upd_dom doms hart_domain domain_list].
  - intros q dq Hq. destruct (Hview q dq Hq) as (d0 & Hd0 & ->). by apply (ai_wf _ Hinv q).
  - intros q dq i Hq. destruct (Hview q dq Hq) as (d0 & Hd0 & ->). by apply (ai_mem _ Hinv q).
  - apply (ai_listed _ Hinv).
  - intros q Hq. destruct (decide (q = p)) as [->|].
    + rewrite lookup_insert_eq. by eauto.
    + rewrite lookup_insert_ne by done. by apply (ai_doms _ Hinv).
Qed.

(** A domain enters the list without harts. *)
Lemma enlist_inv st p d d' n fin :
  assign_inv st -> doms st !! p = Some d -> p ∉ domain_list st ->
  assigned_harts d' = sbi_hartmask_clear_all (assigned_harts d) ->
  assign_inv (mkDomState (<[p := d']> (doms st)) (domain_list st ++ [p]) n fin
                (domain_hart_ptr_offset st) (hart_domain st)).
Proof.
  intros Hinv Hp Hnl Ha.
  destruct (hm_clear_all_spec (assigned_harts d) (ai_wf _ Hinv p d Hp)) as [Hwf Hmem].
  constructor; cbn [doms hart_domain domain_list].
  - intros q dq. destruct (decide (q = p)) as [->|].
    + rewrite lookup_insert_eq. intros [= <-]. rewrite Ha. exact Hwf.
    + rewrite lookup_insert_ne by done. apply (ai_wf _ Hinv).
  - intros q dq i. destruct (decide (q = p)) as [->|].
    + rewrite lookup_insert_eq. intros [= <-] Hi. rewrite Ha, Hmem by done. split; [done|].
      intros Hh. by apply (ai_listed _ Hinv) in Hh.
    + rewrite lookup_insert_ne by done. apply (ai_mem _ Hinv).
  - intros i q Hq. apply elem_of_app. left. by apply (ai_listed _ Hinv i).
  - intros q Hq. destruct (decide (q = p)) as [->|].
    + rewrite lookup_insert_eq. by eauto.
    + rewrite lookup_insert_ne by done. apply (ai_doms _ Hinv). set_solver.
Qed.

(** ** Properties *)

(** C1: whatever regions without the firmware flag are added to the root domain
    after [sbi_domain_init], [sbi_domain_check_addr] refuses S and U mode every
    read, write or execution inside the firmware: firmware regions are sorted
    first, and sorting, pruning and merging keep them in place. *)
Theorem firmware_protected sc scr cold single env root st extra root' :
  fw_ok scr -> sbi_domain_init sc scr cold single env root 0 = (0, st) ->
  Forall (fun r => valid r /\ is_firmware (flags r) = false) extra ->
  (root ← doms st !! ROOT; root_add_all sc root extra) = Some (0, root') ->
  forall a mode af, fw_start scr <= a < fw_start scr + fw_size scr -> mode <> 3 -> access_rwx af <> 0 ->
    sbi_domain_check_addr (Some root') a mode af = false.
Proof.
  intros Hfw Hinit Hex Hadd a mode af Ha Hm Haf.
  destruct (init_fw_protected sc scr cold single env root st Hfw Hinit) as (d & regs & Hd & Hr & Hp).
  rewrite Hd in Hadd. cbn in Hadd.
  destruct (fw_protected_add_all _ _ sc extra d regs root' Hr Hp Hex Hadd) as (regs' & Hr' & Hp').
  cbn [sbi_domain_check_addr]. rewrite Hr'. by eapply fw_protected_check.
Qed.

(** A machine with three harts and the firmware at 2 GiB. *)
Definition sc_example : scratch_state := sbi_scratch_init plat_example scratch_boot.
Definition scr_example : sbi_scratch :=
  mkScratch 0x80000000 0x60000 0x40000 0 0 0x82200000 0x80200000 1 0 0 0 0 0 0 0.
Definition dom_blank : sbi_domain :=
  mkDomain 0 (mkHartmask [0; 0]) SPIN_LOCK_UNLOCKED None None 0 0 0 0 true true false.
Definition init_example : Z * domain_state :=
  sbi_domain_init sc_example scr_example 4 false (mkInitEnv 128 0 true true) dom_blank 0.

Lemma firmware_protected_witness :
  sbi_domain_check_addr
    (snd <$> (root ← doms init_example.2 !! ROOT;
              root_add_all sc_example root [mkReg 12 0x80001000 0x3f; mkReg 16 0x10000000 0x1b]))
    0x80001008 1 SBI_DOMAIN_WRITE = false.
Proof.
  set (add := root ← doms init_example.2 !! ROOT;
    root_add_all sc_example root [mkReg 12 0x80001000 0x3f; mkReg 16 0x10000000 0x1b]).
  destruct add as [[rc root']|] eqn:E.
  - assert (rc = 0) as -> by (vm_compute in E; congruence).
    apply (firmware_protected sc_example scr_example 4 false (mkInitEnv 128 0 true true) dom_blank
      init_example.2 [mkReg 12 0x80001000 0x3f; mkReg 16 0x10000000 0x1b] root').
    + constructor; split; vm_compute; congruence.
    + vm_compute. reflexivity.
    + repeat constructor; vm_compute; congruence.
    + exact E.
    + split; vm_compute; congruence.
    + lia.
    + vm_compute. congruence.
  - vm_compute in E. congruence.
Defined.

(** C14: registering a domain keeps every hart in exactly the domain its
    scratch slot names.  After success the listed domain owns the harts that are
    in both masks and every other hart stays where it was; after an error of the
    checks no hart has moved. *)
Theorem register_keeps_hart_assignment sc st cold p d ph regs mask :
  assign_inv st -> slots_ok sc st -> doms st !! p = Some d -> possible_harts d = Some ph -> hm_wf ph ->
  regions d = Some regs -> bases_ok regs -> hm_wf mask ->
  let '(rc, st') := sbi_domain_register sc st cold (Some p) (Some mask) 0 in
  assign_inv st' /\
  (rc = 0 -> p ∈ domain_list st' /\ forall i, 0 <= i < 128 ->
     hart_domain st' !! i = if hm_mem mask i && hm_mem ph i then Some p else hart_domain st !! i) /\
  (rc <> 0 -> hart_domain st' = hart_domain st).
Proof.
  intros Hinv [Hoff Hsl] Hp Hph Hwph Hr Hb Hwm. unfold sbi_domain_register.
  destruct (domain_finalized st); [done|]. case_bool_decide as Hnl; [done|]. rewrite Hp.
  pose proof (sanitize_domain_assigned sc d) as Has.
  destruct (sanitize_domain sc d) as [rc d1] eqn:Es. cbn [snd] in Has.
  destruct (truthy rc) eqn:Et.
  { split_and!; [by eapply upd_dom_inv|intros ->; done|done]. }
  assert (rc = 0) as -> by (unfold truthy in Et; lia).
  destruct (sanitize_domain_ok sc d d1 regs Hr Hb Es) as (_ & -> & (ph' & Hph' & Hvalid) & _).
  rewrite Hph in Hph'. injection Hph' as <-.
  change (truthy 0) with false. cbv iota.
  set (d2 := set_assigned _ _). set (st1 := mkDomState _ _ _ _ _ _).
  assert (assign_inv st1) as Hinv1 by (by apply (enlist_inv st p d d2)).
  assert (doms st1 !! p = Some d2) as Hp1 by exact (lookup_insert_eq (doms st) p d2).
  destruct (assign_loop_spec sc p cold (hartmask_indices mask) st1 d2 ph Hinv1) as (Hi & Hl & Hh).
  - by split.
  - cbn. set_solver.
  - done.
  - done.
  - intros i Hin. by apply elem_of_indices in Hin as [? _].
  - intros i Hi Hm. rewrite forallb_forall in Hvalid. apply Hvalid, list_elem_of_In. by apply elem_of_indices.
  - split_and!; [done| |done]. intros _. rewrite Hl. split; [cbn; set_solver|].
    intros i Hi'. rewrite Hh. change (hart_domain st1) with (hart_domain st).
    destruct (hm_mem mask i) eqn:Em, (hm_mem ph i) eqn:Ep; cbn [andb];
      first [rewrite decide_True by (rewrite elem_of_indices by done; done); done
            |rewrite decide_False by (rewrite elem_of_indices by done; intros [[_ ?] ?]; congruence); done].
Qed.

Lemma hm_empty_mem i : 0 <= i < 128 -> hm_mem (mkHartmask [0; 0]) i = false.
Proof.
  intros Hi. unfold hm_mem, bm_test, rd. cbn [hm_bits].
  assert (i / 64 = 0 \/ i / 64 = 1) as [-> | ->] by (Z.div_mod_to_equations; lia); apply Z.testbit_0_l.
Qed.

(** A domain that no hart runs yet. *)
Lemma fresh_inv p d off :
  assigned_harts d = mkHartmask [0; 0] -> assign_inv (mkDomState {[p := d]} [] 0 false off ∅).
Proof.
  intros Ha. constructor; cbn [doms hart_domain domain_list].
  - intros q dq [<- <-]%lookup_singleton_Some. rewrite Ha.
    split; [done|]. repeat constructor; unfold in_range; lia.
  - intros q dq i [<- <-]%lookup_singleton_Some Hi. rewrite Ha, hm_empty_mem, lookup_empty by done. done.
  - intros i q. by rewrite lookup_empty.
  - intros q Hq. by apply not_elem_of_nil in Hq.
Qed.

Lemma slots_example st : domain_hart_ptr_offset st <> 0 -> slots_ok sc_example st.
Proof.
  intros Hoff. split; [done|]. intros i Hi. unfold sbi_hartindex_valid in Hi.
  change (sbi_scratch_hart_count sc_example) with 3 in Hi.
  unfold sbi_hartindex_to_scratch, SBI_HARTMASK_MAX_BITS. rewrite (proj2 (Z.ltb_lt _ _)) by lia.
  assert (Z.to_nat i = 0%nat \/ Z.to_nat i = 1%nat \/ Z.to_nat i = 2%nat) as [-> | [-> | ->]] by lia;
    vm_compute; eauto.
Qed.

(** The second of three harts may run the domain. *)
Definition dom_example : sbi_domain :=
  mkDomain 0 (mkHartmask [0; 0]) SPIN_LOCK_UNLOCKED (Some (mkHartmask [6; 0]))
    (Some [mkReg 64 0 0x3f]) 2 0 0x80200000 1 true true true.
Definition st_example : domain_state := mkDomState {[5 := dom_example]} [] 0 false 128 ∅.

Lemma register_keeps_hart_assignment_witness :
  let '(rc, st') := sbi_domain_register sc_example st_example 4 (Some 5) (Some (mkHartmask [3; 0])) 0 in
  assign_inv st' /\
  (rc = 0 -> 5 ∈ domain_list st' /\ forall i, 0 <= i < 128 ->
     hart_domain st' !! i = if hm_mem (mkHartmask [3; 0]) i && hm_mem (mkHartmask [6; 0]) i then Some 5
                            else hart_domain st_example !! i) /\
  (rc <> 0 -> hart_domain st' = hart_domain st_example).
Proof.
  apply (register_keeps_hart_assignment sc_example st_example 4 5 dom_example (mkHartmask [6; 0])
    [mkReg 64 0 0x3f] (mkHartmask [3; 0])).
  - apply fresh_inv. reflexivity.
  - apply slots_example. vm_compute. congruence.
  - reflexivity.
  - reflexivity.
  - split; [reflexivity|]. repeat constructor; vm_compute; congruence.
  - reflexivity.
  - repeat constructor; vm_compute; congruence.
  - split; [reflexivity|]. repeat constructor; vm_compute; congruence.
Defined.

(** When the data of a new domain cannot be set up, [sbi_domain_register]
    takes the domain off the list again but leaves the harts it has assigned: a
    hart's slot then names a domain that is not registered. *)
Theorem register_failure_keeps_harts :
  let '(rc, st') := sbi_domain_register sc_example st_example 4 (Some 5) (Some (mkHartmask [3; 0])) SBI_ENOMEM in
  rc = SBI_ENOMEM /\ domain_list st' = [] /\ sbi_hartindex_to_domain sc_example st' 1 = Some 5 /\
  (sbi_domain_register sc_example st_example 4 (Some 5) (Some (mkHartmask [3; 0])) 0).1 = 0.
Proof. by vm_compute. Qed.

(** C22: [root_add_memregion] always ends.  It refuses a 33rd region; when it
    succeeds the regions are valid, sorted, at most 32, and for every set of
    flags the addresses under regions with such flags are those of the old
    regions and the new one together. *)
Theorem root_add_memregion_correct sc root regs reg :
  regions root = Some regs -> Forall valid regs -> StronglySorted le_reg regs -> valid reg ->
  exists rc root', root_add_memregion sc false root (Some reg) = Some (rc, root') /\
    (ROOT_REGION_MAX <= Z.of_nat (length regs) -> rc = SBI_EINVAL /\ root' = root) /\
    (rc = 0 -> exists regs', regions root' = Some regs' /\ Forall valid regs' /\
       StronglySorted le_reg regs' /\ Z.of_nat (length regs') <= ROOT_REGION_MAX /\
       forall P a, covered_by P regs' a = covered_by P (reg :: regs) a).
Proof.
  intros Hr Hv Hs Hreg.
  destruct (root_add_memregion_spec sc root regs reg Hr Hv Hs Hreg) as (rc & root' & E & Hfull & Hok).
  exists rc, root'. split_and!; [done|done|]. intros Hrc.
  destruct (Hok Hrc) as (regs' & Hr' & [M1 M2 _ M4 _] & Hlen). by exists regs'.
Qed.

Lemma root_add_memregion_correct_witness :
  exists rc root', root_add_memregion sc_example false
      (set_regions dom_example [mkReg 12 0x1000 0x1b; mkReg 64 0 0x3f]) (Some (mkReg 12 0x0 0x1b)) =
      Some (rc, root') /\ rc = 0 /\ regions root' = Some [mkReg 13 0 0x1b; mkReg 64 0 0x3f].
Proof.
  destruct (root_add_memregion_correct sc_example
    (set_regions dom_example [mkReg 12 0x1000 0x1b; mkReg 64 0 0x3f])
    [mkReg 12 0x1000 0x1b; mkReg 64 0 0x3f] (mkReg 12 0x0 0x1b)) as (rc & root' & E & _ & _).
  - reflexivity.
  - repeat constructor; vm_compute; congruence.
  - repeat constructor.
  - split; vm_compute; intuition congruence.
  - exists rc, root'. split; [exact E|]. vm_compute in E. injection E as <- <-. split; reflexivity.
Defined.
