(* ===== verification/Hsm.v ===== *)
(** * Hart state management (lib/sbi/sbi_hsm.c)

    The handlers that start, stop, suspend and resume harts, with the boot path
    of lib/sbi/sbi_init.c that a started or resumed hart runs through, and the
    start of domains (sbi_domain_startup of lib/sbi/sbi_domain.c).

    A handler is a [prog]: a tree of accesses to memory shared between harts,
    to the hart's own registers and of calls to the platform, ending in an
    outcome.  The same definition is run to its end by [run], for what a call
    does on its own, and stepped access by access in [hstep], where any number
    of harts interleave.  Platform calls answer what the environment likes.
    Accesses take effect in program order; the fences and the ordering of
    atomic_cmpxchg in the code are there for that. *)

From stdpp Require Import gmap.
From S2P Require Import Prelude Locks Bitops Bitmap Scratch Pmp Memregion Domain.
Local Open Scope Z_scope.

Abbreviation SBI_HSM_STATE_STARTED := 0.
Abbreviation SBI_HSM_STATE_STOPPED := 1.
Abbreviation SBI_HSM_STATE_START_PENDING := 2.
Abbreviation SBI_HSM_STATE_STOP_PENDING := 3.
Abbreviation SBI_HSM_STATE_SUSPENDED := 4.
Abbreviation SBI_HSM_STATE_RESUME_PENDING := 6.

Abbreviation SBI_HSM_SUSP_NON_RET_BIT := 0x80000000.
Abbreviation SBI_HSM_SUSP_PLAT_BASE := 0x10000000.
Abbreviation SBI_HSM_SUSPEND_RET_DEFAULT := 0.
Abbreviation SBI_HSM_SUSPEND_RET_PLATFORM := SBI_HSM_SUSP_PLAT_BASE.
Abbreviation SBI_HSM_SUSPEND_NON_RET_DEFAULT := SBI_HSM_SUSP_NON_RET_BIT.
Definition SBI_HSM_SUSPEND_NON_RET_PLATFORM : Z := Z.lor SBI_HSM_SUSP_NON_RET_BIT SBI_HSM_SUSP_PLAT_BASE.

(** The control registers the handlers touch. *)
Inductive csr : Type := CSR_MIE | CSR_MIP | CSR_MEDELEG | CSR_MIDELEG | CSR_MENVCFG.

#[export] Instance csr_eq_dec : EqDecision csr.
Proof. solve_decision. Defined.

Abbreviation MIP_SSIP := 0x2.
Abbreviation MIP_MSIP := 0x8.
Abbreviation MIP_STIP := 0x20.
Abbreviation MIP_MEIP := 0x800.

(** The three fields of a hart's scratch space that say where it goes next. *)
Inductive nfield : Type := NArg1 | NAddr | NMode.

#[export] Instance nfield_eq_dec : EqDecision nfield.
Proof. solve_decision. Defined.

(** One hart: its [sbi_hsm_data], the fields of its scratch space, its boot
    counters and its control registers. *)
Record hart := mkHart {
  h_state : Z; h_ticket : Z; h_suspend_type : Z; h_saved : csr -> Z;
  h_next : nfield -> Z; h_init : Z; h_entry : Z; h_csr : csr -> Z }.

Definition fupd {A B} `{EqDecision A} (f : A -> B) (a : A) (b : B) : A -> B :=
  fun x => if decide (x = a) then b else f x.

Definition set_state (v : Z) (h : hart) : hart :=
  mkHart v (h_ticket h) (h_suspend_type h) (h_saved h) (h_next h) (h_init h) (h_entry h) (h_csr h).
Definition set_ticket (v : Z) (h : hart) : hart :=
  mkHart (h_state h) v (h_suspend_type h) (h_saved h) (h_next h) (h_init h) (h_entry h) (h_csr h).
Definition set_susp (v : Z) (h : hart) : hart :=
  mkHart (h_state h) (h_ticket h) v (h_saved h) (h_next h) (h_init h) (h_entry h) (h_csr h).
Definition set_saved (r : csr) (v : Z) (h : hart) : hart :=
  mkHart (h_state h) (h_ticket h) (h_suspend_type h) (fupd (h_saved h) r v) (h_next h) (h_init h)
    (h_entry h) (h_csr h).
Definition set_next (f : nfield) (v : Z) (h : hart) : hart :=
  mkHart (h_state h) (h_ticket h) (h_suspend_type h) (h_saved h) (fupd (h_next h) f v) (h_init h)
    (h_entry h) (h_csr h).
Definition set_init (v : Z) (h : hart) : hart :=
  mkHart (h_state h) (h_ticket h) (h_suspend_type h) (h_saved h) (h_next h) v (h_entry h) (h_csr h).
Definition set_entry (v : Z) (h : hart) : hart :=
  mkHart (h_state h) (h_ticket h) (h_suspend_type h) (h_saved h) (h_next h) (h_init h) v (h_csr h).
Definition set_csr (r : csr) (v : Z) (h : hart) : hart :=
  mkHart (h_state h) (h_ticket h) (h_suspend_type h) (h_saved h) (h_next h) (h_init h) (h_entry h)
    (fupd (h_csr h) r v).

(** All harts, by index. *)
Definition hmem : Type := Z -> hart.
Definition on (t : Z) (f : hart -> hart) (s : hmem) : hmem := fupd s t (f (s t)).

(** ** Programs *)

(** Calls to the platform and to other parts of the firmware. *)
Inductive ext : Type :=
| EDevStart (hartid addr : Z) | EDevStop | EDevSuspend (type addr : Z) | EDevResume
| EIpiSend (i : Z) | EIpiClear | EWfi | ESystemSuspended | ESystemResume | EInit (stage : nat).

(** One access; [self] below is the hart that makes it. *)
Inductive op : Type :=
| OCasState (t old new : Z) | OReadState (t : Z)
| OCasTicket (t : Z) | OClearTicket (t : Z)
| OReadNext (f : nfield) | OWriteNext (t : Z) (f : nfield) (v : Z)
| OReadInit (t : Z) | OReadEntry (t : Z) | OIncInit | OIncEntry | ORevertEntry
| OSuspType (v : Z) | OReadSaved (r : csr) | OWriteSaved (r : csr) (v : Z)
| OReadCsr (r : csr) | OWriteCsr (r : csr) (v : Z) | OSetCsr (r : csr) (v : Z)
| OExt (e : ext).

(** How a piece of firmware ends on a hart. *)
Inductive outcome : Type :=
| Return (rc : Z)                   (* back to the supervisor *)
| Enter (arg1 addr mode : Z)        (* sbi_hart_switch_mode after a start *)
| Resume (arg1 addr mode : Z)       (* sbi_hart_switch_mode after a resume *)
| Warmboot                          (* jump to the warm boot entry point *)
| Wait (saved_mie : Z)              (* next iteration of the wait loop *)
| Hang.                             (* sbi_hart_hang *)

Inductive prog : Type :=
| Ret (o : outcome)
| Do (o : op) (k : Z -> prog).

Notation "x <- o ;; k" := (Do o (fun x => k)) (at level 100, o at next level, right associativity) : sbi_scope.
Notation "o ;;; k" := (Do o (fun _ => k)) (at level 100, right associativity) : sbi_scope.
Local Open Scope sbi_scope.
Local Open Scope Z_scope.

(** The result and the effect of an access; [ans] is the environment's answer. *)
Definition exec (self : Z) (o : op) (ans : Z) (s : hmem) : Z * hmem :=
  match o with
  | OCasState t old new =>
      let v := h_state (s t) in (v, if v =? old then on t (set_state new) s else s)
  | OReadState t => (h_state (s t), s)
  | OCasTicket t =>
      let v := h_ticket (s t) in (v, if v =? 0 then on t (set_ticket 1) s else s)
  | OClearTicket t => (0, on t (set_ticket 0) s)
  | OReadNext f => (h_next (s self) f, s)
  | OWriteNext t f v => (0, on t (set_next f v) s)
  | OReadInit t => (h_init (s t), s)
  | OReadEntry t => (h_entry (s t), s)
  | OIncInit => (0, on self (set_init (u64 (h_init (s self) + 1))) s)
  | OIncEntry => (0, on self (set_entry (u64 (h_entry (s self) + 1))) s)
  | ORevertEntry => (0, on self (set_entry (h_init (s self))) s)
  | OSuspType v => (0, on self (set_susp v) s)
  | OReadSaved r => (h_saved (s self) r, s)
  | OWriteSaved r v => (0, on self (set_saved r v) s)
  | OReadCsr r => (h_csr (s self) r, s)
  | OWriteCsr r v => (0, on self (set_csr r v) s)
  | OSetCsr r v => (0, on self (set_csr r (Z.lor (h_csr (s self) r) v)) s)
  | OExt e => (ans, s)
  end.

(** A call that comes back: the rest of the caller runs on its result. *)
Fixpoint call (p : prog) (k : Z -> prog) : prog :=
  match p with
  | Ret (Return rc) => k rc
  | Ret o => Ret o
  | Do o f => Do o (fun v => call (f v) k)
  end.

(** ** The handlers *)

(** Which operations the platform's hart state device has. *)
Record sbi_hsm_device := mkDev {
  d_hart_start : bool; d_hart_stop : bool; d_hart_suspend : bool; d_hart_resume : bool }.

(** What the handlers read and never change: the device, the tables of harts,
    the warm boot address, and the privileged version at least 1.12. *)
Record hsm_env := mkEnv {
  hsm_dev : option sbi_hsm_device; e_sc : scratch_state; warmboot_addr : Z; priv_1_12 : bool }.

Section Handlers.
Context (e : hsm_env).

Definition hsm_device_has_hart_hotplug : bool :=
  match hsm_dev e with Some d => d_hart_start d && d_hart_stop d | None => false end.

Definition hsm_device_has_hart_secondary_boot : bool :=
  match hsm_dev e with Some d => d_hart_start d && negb (d_hart_stop d) | None => false end.

Definition hsm_device_hart_start (hartid saddr : Z) (k : Z -> prog) : prog :=
  match hsm_dev e with
  | Some d => if d_hart_start d then Do (OExt (EDevStart hartid saddr)) k else k SBI_ENOTSUPP
  | None => k SBI_ENOTSUPP
  end.

Definition hsm_device_hart_stop (k : Z -> prog) : prog :=
  match hsm_dev e with
  | Some d => if d_hart_stop d then Do (OExt EDevStop) k else k SBI_ENOTSUPP
  | None => k SBI_ENOTSUPP
  end.

Definition hsm_device_hart_suspend (suspend_type addr : Z) (k : Z -> prog) : prog :=
  match hsm_dev e with
  | Some d => if d_hart_suspend d then Do (OExt (EDevSuspend suspend_type addr)) k else k SBI_ENOTSUPP
  | None => k SBI_ENOTSUPP
  end.

Definition hsm_device_hart_resume (k : prog) : prog :=
  match hsm_dev e with
  | Some d => if d_hart_resume d then OExt EDevResume ;;; k else k
  | None => k
  end.

Definition sbi_hsm_hart_change_state (t oldstate newstate : Z) (k : bool -> prog) : prog :=
  state <- OCasState t oldstate newstate ;; k (state =? oldstate).

(** [sbi_domain_is_assigned_hart] with its lock free. *)
Definition assigned (dom : option sbi_domain) (i : Z) : bool :=
  match dom with
  | Some d => truthy (sbi_hartmask_test_hartindex i (assigned_harts d))
  | None => false
  end.

Definition sbi_hsm_hart_get_state (dom : option sbi_domain) (hartid : Z) (k : Z -> prog) : prog :=
  let hartindex := sbi_hartid_to_hartindex (e_sc e) hartid in
  if negb (assigned dom hartindex) then k SBI_EINVAL
  else match sbi_hartindex_to_scratch (e_sc e) hartindex with
       | None => k SBI_EINVAL
       | Some _ => Do (OReadState hartindex) k
       end.

Definition hsm_start_ticket_acquire (t : Z) (k : bool -> prog) : prog :=
  v <- OCasTicket t ;; k (v =? 0).

Definition hsm_start_ticket_release (t : Z) (k : prog) : prog := OClearTicket t ;;; k.

Definition sbi_hsm_hart_start_finish (self : Z) : prog :=
  sbi_hsm_hart_change_state self SBI_HSM_STATE_START_PENDING SBI_HSM_STATE_STARTED (fun ok =>
  if negb ok then Ret Hang
  else
    next_arg1 <- OReadNext NArg1 ;;
    next_addr <- OReadNext NAddr ;;
    next_mode <- OReadNext NMode ;;
    hsm_start_ticket_release self
    (Ret (Enter next_arg1 next_addr next_mode))).

(** The stages of init_warm_startup between the wait and the end. *)
Fixpoint init_stages (n : nat) (k : prog) : prog :=
  match n with
  | O => k
  | S n => rc <- OExt (EInit n) ;; if truthy rc then Ret Hang else init_stages n k
  end.

(** One round of the loop of sbi_hsm_hart_wait, and what follows the loop. *)
Definition sbi_hsm_hart_wait (self saved_mie : Z) : prog :=
  state <- OReadState self ;;
  if state =? SBI_HSM_STATE_START_PENDING then
    OWriteCsr CSR_MIE saved_mie ;;;
    init_stages 12 (OIncInit ;;; sbi_hsm_hart_start_finish self)
  else if hsm_device_has_hart_hotplug then
    ORevertEntry ;;;
    hsm_device_hart_stop (fun _ => OExt EWfi ;;; Ret (Wait saved_mie))
  else OExt EWfi ;;; Ret (Wait saved_mie).

Definition init_warm_startup (self : Z) : prog :=
  OIncEntry ;;;
  saved_mie <- OReadCsr CSR_MIE ;;
  OSetCsr CSR_MIE (Z.lor MIP_MSIP MIP_MEIP) ;;;
  Ret (Wait saved_mie).

Definition sbi_hsm_hart_resume_start (self : Z) (k : prog) : prog :=
  sbi_hsm_hart_change_state self SBI_HSM_STATE_SUSPENDED SBI_HSM_STATE_RESUME_PENDING (fun ok =>
  if negb ok then Ret Hang
  else
    suspended <- OExt ESystemSuspended ;;
    if truthy suspended then OExt ESystemResume ;;; k else hsm_device_hart_resume k).

(** Saving and restoring, one register at a time. *)
Definition save_csr (r : csr) (mask : Z -> Z) (k : prog) : prog :=
  v <- OReadCsr r ;; OWriteSaved r (mask v) ;;; k.

Definition SMODE_MIP : Z := Z.lor MIP_SSIP MIP_STIP.

Definition sbi_hsm_suspend_non_ret_save (k : prog) : prog :=
  save_csr CSR_MIE id (save_csr CSR_MIP (fun v => Z.land v SMODE_MIP)
  (save_csr CSR_MEDELEG id (save_csr CSR_MIDELEG id
  (if priv_1_12 e then save_csr CSR_MENVCFG id k else k)))).

Definition restore_csr (r : csr) (k : prog) : prog := v <- OReadSaved r ;; OWriteCsr r v ;;; k.

Definition sbi_hsm_suspend_non_ret_restore (k : prog) : prog :=
  let rest := restore_csr CSR_MIDELEG (restore_csr CSR_MEDELEG (restore_csr CSR_MIE
    (v <- OReadSaved CSR_MIP ;; OSetCsr CSR_MIP (Z.land v SMODE_MIP) ;;; k))) in
  if priv_1_12 e then restore_csr CSR_MENVCFG rest else rest.

Definition sbi_hsm_hart_resume_finish (self : Z) : prog :=
  sbi_hsm_hart_change_state self SBI_HSM_STATE_RESUME_PENDING SBI_HSM_STATE_STARTED (fun ok =>
  if negb ok then Ret Hang
  else
    sbi_hsm_suspend_non_ret_restore
    (next_arg1 <- OReadNext NArg1 ;;
     next_addr <- OReadNext NAddr ;;
     next_mode <- OReadNext NMode ;;
     Ret (Resume next_arg1 next_addr next_mode))).

Definition init_warm_resume (self : Z) : prog :=
  sbi_hsm_hart_resume_start self
  (init_stages 2 (sbi_hsm_hart_resume_finish self)).

(** After wait_for_coldboot; [dom] is the domain of the hart. *)
Definition init_warmboot (dom : option sbi_domain) (self hartid : Z) : prog :=
  sbi_hsm_hart_get_state dom hartid (fun hstate =>
  if hstate <? 0 then Ret Hang
  else if hstate =? SBI_HSM_STATE_SUSPENDED then init_warm_resume self
  else OExt EIpiClear ;;; init_warm_startup self).

Definition sbi_hsm_exit (self : Z) : prog :=
  sbi_hsm_hart_change_state self SBI_HSM_STATE_STOP_PENDING SBI_HSM_STATE_STOPPED (fun ok =>
  if negb ok then Ret Hang
  else if hsm_device_has_hart_hotplug then
    hsm_device_hart_stop (fun rc => if negb (rc =? SBI_ENOTSUPP) then Ret Hang else Ret Warmboot)
  else Ret Warmboot).

(** sbi_exit: the exits of the other parts leave nothing modelled here. *)
Definition sbi_exit (self hartid : Z) : prog :=
  if negb (sbi_hartid_valid (e_sc e) hartid) then Ret Hang else sbi_hsm_exit self.

Definition sbi_hsm_hart_start (dom : option sbi_domain) (hartid saddr smode arg1 : Z) : prog :=
  let hartindex := sbi_hartid_to_hartindex (e_sc e) hartid in
  if negb (smode =? PRV_S) && negb (smode =? PRV_U) then Ret (Return SBI_EINVAL)
  else if (match dom with Some _ => negb (assigned dom hartindex) | None => false end)
  then Ret (Return SBI_EINVAL)
  else if (match dom with
           | Some _ => negb (sbi_domain_check_addr dom saddr smode SBI_DOMAIN_EXECUTE)
           | None => false
           end)
  then Ret (Return SBI_EINVALID_ADDR)
  else
  match sbi_hartindex_to_scratch (e_sc e) hartindex with
  | None => Ret (Return SBI_EINVAL)
  | Some _ =>
    hsm_start_ticket_acquire hartindex (fun got =>
    if negb got then Ret (Return SBI_EINVAL)
    else
      init_count <- OReadInit hartindex ;;
      entry_count <- OReadEntry hartindex ;;
      OWriteNext hartindex NArg1 arg1 ;;;
      OWriteNext hartindex NAddr saddr ;;;
      OWriteNext hartindex NMode smode ;;;
      hstate <- OCasState hartindex SBI_HSM_STATE_STOPPED SBI_HSM_STATE_START_PENDING ;;
      let err := fun rc => hsm_start_ticket_release hartindex (Ret (Return rc)) in
      if hstate =? SBI_HSM_STATE_STARTED then err SBI_EALREADY
      else if negb (hstate =? SBI_HSM_STATE_STOPPED) then err SBI_EINVAL
      else
        let kicked := fun rc =>
          if rc =? 0 then Ret (Return 0)
          else sbi_hsm_hart_change_state hartindex SBI_HSM_STATE_START_PENDING SBI_HSM_STATE_STOPPED
                 (fun _ => err rc) in
        if (hsm_device_has_hart_hotplug && (entry_count =? init_count)) ||
           (hsm_device_has_hart_secondary_boot && (init_count =? 0))
        then hsm_device_hart_start hartid (warmboot_addr e) kicked
        else Do (OExt (EIpiSend hartindex)) kicked)
  end.

Definition sbi_hsm_hart_stop (dom : option sbi_domain) (self hartid : Z) (exitnow : bool) : prog :=
  match dom with
  | None => Ret (Return SBI_EFAIL)
  | Some _ =>
    sbi_hsm_hart_change_state self SBI_HSM_STATE_STARTED SBI_HSM_STATE_STOP_PENDING (fun ok =>
    if negb ok then Ret (Return SBI_EFAIL)
    else if exitnow then sbi_exit self hartid
    else Ret (Return 0))
  end.

Definition non_retentive (suspend_type : Z) : bool :=
  truthy (Z.land suspend_type SBI_HSM_SUSP_NON_RET_BIT).

Definition sbi_hsm_hart_suspend (dom : option sbi_domain) (self suspend_type raddr rmode arg1 : Z) : prog :=
  match dom with
  | None => Ret (Return SBI_EFAIL)
  | Some _ =>
    if (SBI_HSM_SUSPEND_RET_DEFAULT <? suspend_type) && (suspend_type <? SBI_HSM_SUSPEND_RET_PLATFORM)
    then Ret (Return SBI_EINVAL)
    else if (SBI_HSM_SUSPEND_NON_RET_DEFAULT <? suspend_type) &&
            (suspend_type <? SBI_HSM_SUSPEND_NON_RET_PLATFORM)
    then Ret (Return SBI_EINVAL)
    else if non_retentive suspend_type && negb (rmode =? PRV_S) && negb (rmode =? PRV_U)
    then Ret (Return SBI_EFAIL)
    else if non_retentive suspend_type && negb (sbi_domain_check_addr dom raddr rmode SBI_DOMAIN_EXECUTE)
    then Ret (Return SBI_EINVALID_ADDR)
    else
      OWriteNext self NArg1 arg1 ;;;
      OWriteNext self NAddr raddr ;;;
      OWriteNext self NMode rmode ;;;
      sbi_hsm_hart_change_state self SBI_HSM_STATE_STARTED SBI_HSM_STATE_SUSPENDED (fun ok =>
      if negb ok then Ret (Return SBI_EFAIL)
      else
        OSuspType suspend_type ;;;
        let resumed := fun ret =>
          if (ret =? 0) && non_retentive suspend_type then Ret Warmboot
          else sbi_hsm_hart_change_state self SBI_HSM_STATE_SUSPENDED SBI_HSM_STATE_STARTED (fun ok =>
               if negb ok then Ret Hang else Ret (Return ret)) in
        let suspend :=
          hsm_device_hart_suspend suspend_type (warmboot_addr e) (fun ret =>
          if (ret =? SBI_ENOTSUPP) &&
             ((suspend_type =? SBI_HSM_SUSPEND_RET_DEFAULT) ||
              (suspend_type =? SBI_HSM_SUSPEND_NON_RET_DEFAULT))
          then OExt EWfi ;;; resumed 0
          else resumed ret) in
        if non_retentive suspend_type then sbi_hsm_suspend_non_ret_save suspend else suspend)
  end.

(** The loop of sbi_domain_startup over the registered domains. *)
Fixpoint startup_domains (st : domain_state) (self cold_hartid : Z) (l : list Z) : prog :=
  match l with
  | [] => Ret (Return 0)
  | p :: l =>
    let next := startup_domains st self cold_hartid l in
    match doms st !! p with
    | None => next
    | Some dom =>
      let dhart := sbi_hartid_to_hartindex (e_sc e) (boot_hartid dom) in
      if negb (sbi_hartindex_valid (e_sc e) dhart) then next
      else if (match possible_harts dom with
               | Some ph => negb (truthy (sbi_hartmask_test_hartindex dhart ph))
               | None => true
               end) then next
      else if negb (bool_decide (sbi_hartindex_to_domain (e_sc e) st dhart = Some p)) then next
      else if negb (assigned (Some dom) dhart) then next
      else if boot_hartid dom =? cold_hartid then
        OWriteNext self NAddr (dom_next_addr dom) ;;;
        OWriteNext self NMode (dom_next_mode dom) ;;;
        OWriteNext self NArg1 (dom_next_arg1 dom) ;;;
        next
      else
        call (sbi_hsm_hart_start None (boot_hartid dom) (dom_next_addr dom) (dom_next_mode dom)
                (dom_next_arg1 dom))
          (fun rc => if truthy rc then Ret (Return rc) else next)
    end
  end.

Definition sbi_domain_startup (st : domain_state) (self cold_hartid : Z) : prog :=
  if negb (domain_finalized st) then Ret (Return SBI_EINVAL)
  else startup_domains st self cold_hartid (domain_list st).
End Handlers.

(** sbi_hsm_init on the boot hart [self], once its memory is allocated. *)
Definition sbi_hsm_init (sc : scratch_state) (self : Z) (s : hmem) : hmem :=
  foldl (fun s i =>
    match sbi_hartindex_to_scratch sc i with
    | None => s
    | Some _ => on i (fun h => set_ticket 0 (set_state
        (if i =? self then SBI_HSM_STATE_START_PENDING else SBI_HSM_STATE_STOPPED) h)) s
    end) s (for_each_hartindex sc).

(** A hart that may be sent an IPI. *)
Definition interruptible (hstate : Z) : bool :=
  (hstate =? SBI_HSM_STATE_STARTED) || (hstate =? SBI_HSM_STATE_SUSPENDED) ||
  (hstate =? SBI_HSM_STATE_RESUME_PENDING).

Definition sbi_hsm_hart_state (sc : scratch_state) (s : hmem) (i : Z) : Z :=
  match sbi_hartindex_to_scratch sc i with Some _ => h_state (s i) | None => SBI_EINVAL end.

(** The loop over the harts of the mask. *)
Definition clear_uninterruptible (sc : scratch_state) (s : hmem) (mask : sbi_hartmask) : sbi_hartmask :=
  foldl (fun m i => if interruptible (sbi_hsm_hart_state sc s i) then m else sbi_hartmask_clear_hartindex i m)
    mask (hartmask_indices mask).

Definition sbi_hsm_hart_interruptible_mask (sc : scratch_state) (s : hmem) (dom : option sbi_domain)
    (mask : sbi_hartmask) : option (Z * sbi_hartmask * option sbi_domain) :=
  match sbi_domain_get_assigned_hartmask dom mask with
  | None => None
  | Some (ret, mask, dom) =>
      if truthy ret then Some (ret, mask, dom) else Some (0, clear_uninterruptible sc s mask, dom)
  end.

(** The device can be set once. *)
Definition sbi_hsm_set_device (cur dev : option sbi_hsm_device) : option sbi_hsm_device :=
  match dev, cur with Some _, None => dev | _, _ => cur end.

(** ** Running a program on its own *)

(** Runs a program on hart [self] with the platform's answers given by [env],
    to its outcome. *)
Fixpoint run (self : Z) (env : ext -> Z) (p : prog) (s : hmem) : outcome * hmem :=
  match p with
  | Ret o => (o, s)
  | Do o k =>
      let ans := match o with OExt x => env x | _ => 0 end in
      let '(v, s) := exec self o ans s in run self env (k v) s
  end.

(** ** What a call does on its own *)

Lemma fupd_eq {A B} `{EqDecision A} (f : A -> B) a b : fupd f a b a = b.
Proof. unfold fupd. by rewrite decide_True. Qed.

Lemma fupd_ne {A B} `{EqDecision A} (f : A -> B) a b x : x <> a -> fupd f a b x = f x.
Proof. intros. unfold fupd. by rewrite decide_False. Qed.

Lemma on_eq t f s : on t f s t = f (s t).
Proof. apply fupd_eq. Qed.

Lemma on_ne t f s i : i <> t -> on t f s i = s i.
Proof. apply fupd_ne. Qed.

(** The three fields of the scratch space after a call has filled them in. *)
Definition fill_next (arg1 addr mode : Z) (h : hart) : hart :=
  set_next NMode mode (set_next NAddr addr (set_next NArg1 arg1 h)).

Lemma fill_next_fields arg1 addr mode h :
  h_next (fill_next arg1 addr mode h) NArg1 = arg1 /\ h_next (fill_next arg1 addr mode h) NAddr = addr /\
  h_next (fill_next arg1 addr mode h) NMode = mode.
Proof. done. Qed.

(** The call that gets a started hart going. *)
Definition start_kick (e : hsm_env) (hartid : Z) (h : hart) : ext :=
  if (hsm_device_has_hart_hotplug e && (h_entry h =? h_init h)) ||
     (hsm_device_has_hart_secondary_boot e && (h_init h =? 0))
  then EDevStart hartid (warmboot_addr e)
  else EIpiSend (sbi_hartid_to_hartindex (e_sc e) hartid).

(** The checks of [sbi_hsm_hart_start] before it touches anything. *)
Definition start_refused (e : hsm_env) (dom : option sbi_domain) (hartid saddr smode : Z) : option Z :=
  let t := sbi_hartid_to_hartindex (e_sc e) hartid in
  if negb (smode =? PRV_S) && negb (smode =? PRV_U) then Some SBI_EINVAL
  else if bool_decide (dom <> None) && negb (assigned dom t) then Some SBI_EINVAL
  else if bool_decide (dom <> None) && negb (sbi_domain_check_addr dom saddr smode SBI_DOMAIN_EXECUTE)
  then Some SBI_EINVALID_ADDR
  else match sbi_hartindex_to_scratch (e_sc e) t with None => Some SBI_EINVAL | Some _ => None end.

Lemma start_unfold e dom hartid saddr smode arg1 :
  sbi_hsm_hart_start e dom hartid saddr smode arg1 =
  match start_refused e dom hartid saddr smode with
  | Some rc => Ret (Return rc)
  | None => sbi_hsm_hart_start e None hartid saddr smode arg1
  end.
Proof.
  unfold sbi_hsm_hart_start, start_refused. cbv zeta.
  destruct (negb (smode =? PRV_S) && negb (smode =? PRV_U)); [done|]. destruct dom as [d|].
  - rewrite bool_decide_true by done. cbn [andb].
    destruct (negb (assigned _ _)); [done|]. destruct (negb (sbi_domain_check_addr _ _ _ _)); [done|].
    by destruct (sbi_hartindex_to_scratch _ _).
  - cbn [andb bool_decide]. rewrite bool_decide_false by (by intros []). cbn [andb].
    by destruct (sbi_hartindex_to_scratch _ _).
Qed.

(** The device call is only made when the device can start harts. *)
Lemma start_kick_run e self env hartid h (k : Z -> prog) s :
  let t := sbi_hartid_to_hartindex (e_sc e) hartid in
  run self env
    (if (hsm_device_has_hart_hotplug e && (h_entry h =? h_init h)) ||
        (hsm_device_has_hart_secondary_boot e && (h_init h =? 0))
     then hsm_device_hart_start e hartid (warmboot_addr e) k else Do (OExt (EIpiSend t)) k) s =
  run self env (k (env (start_kick e hartid h))) s.
Proof.
  intros t. unfold start_kick. case_bool; [|done]. unfold hsm_device_hart_start,
    hsm_device_has_hart_hotplug, hsm_device_has_hart_secondary_boot in *.
  destruct (hsm_dev e) as [[[] ? ? ?]|]; simpl in *; done.
Qed.

(** What [sbi_hsm_hart_start] makes of the target hart, by its state. *)
Definition start_effect (rc arg1 saddr smode : Z) (h : hart) : hart :=
  let h' := fill_next arg1 saddr smode (set_ticket 1 h) in
  if h_state h =? SBI_HSM_STATE_STOPPED then
    if rc =? 0 then set_state SBI_HSM_STATE_START_PENDING h'
    else set_ticket 0 (set_state SBI_HSM_STATE_STOPPED (set_state SBI_HSM_STATE_START_PENDING h'))
  else set_ticket 0 h'.

Definition start_result (rc : Z) (h : hart) : Z :=
  if h_state h =? SBI_HSM_STATE_STARTED then SBI_EALREADY
  else if negb (h_state h =? SBI_HSM_STATE_STOPPED) then SBI_EINVAL
  else rc.

Lemma start_run e dom hartid saddr smode arg1 env self s :
  let t := sbi_hartid_to_hartindex (e_sc e) hartid in
  let rc := env (start_kick e hartid (s t)) in
  let '(o, s') := run self env (sbi_hsm_hart_start e dom hartid saddr smode arg1) s in
  match start_refused e dom hartid saddr smode with
  | Some err => o = Return err /\ s' = s
  | None =>
      if h_ticket (s t) =? 0 then
        o = Return (start_result rc (s t)) /\ s' t = start_effect rc arg1 saddr smode (s t) /\
        forall i, i <> t -> s' i = s i
      else o = Return SBI_EINVAL /\ s' = s
  end.
Proof.
  intros t rc. rewrite start_unfold.
  destruct (start_refused e dom hartid saddr smode) as [err|] eqn:Er; [done|].
  unfold start_refused in Er. unfold sbi_hsm_hart_start. cbv zeta.
  destruct (negb (smode =? PRV_S) && negb (smode =? PRV_U)); [done|].
  do 2 (match type of Er with context [if ?b then _ else _] => destruct b; [done|] end).
  fold t in Er |- *. destruct (sbi_hartindex_to_scratch (e_sc e) t); [|done]. clear Er.
  unfold hsm_start_ticket_acquire. cbn [run exec].
  destruct (h_ticket (s t) =? 0) eqn:Et; [|done]. cbn [negb run exec].
  set (s1 := on t (set_next NMode smode) _).
  assert (s1 t = fill_next arg1 saddr smode (set_ticket 1 (s t))) as H1 by (unfold s1; by rewrite !on_eq).
  assert (forall i, i <> t -> s1 i = s i) as H2 by (intros; unfold s1; by rewrite !on_ne).
  rewrite on_eq, H1. clearbody s1. cbn [h_entry h_init h_state fill_next set_next set_ticket].
  pose proof (start_kick_run e self env hartid (s t)) as HK. cbv zeta in HK. fold t rc in HK.
  unfold start_result, start_effect.
  destruct (h_state (s t) =? SBI_HSM_STATE_STARTED) eqn:E1.
  { apply Z.eqb_eq in E1. rewrite E1. cbn. split_and!; [done|by rewrite on_eq, H1|].
    intros i Hi. by rewrite on_ne, H2. }
  destruct (h_state (s t) =? SBI_HSM_STATE_STOPPED) eqn:E2; cbn [negb].
  - rewrite HK. destruct (rc =? 0) eqn:E3; cbn.
    + apply Z.eqb_eq in E3. rewrite E3. split_and!; [done|by rewrite on_eq, H1|].
      intros i Hi. by rewrite on_ne, H2.
    + rewrite !(on_eq t). cbn [h_state set_state]. rewrite ?Z.eqb_refl. split_and!; [done| |].
      * rewrite !on_eq. by rewrite H1.
      * intros i Hi. by rewrite !on_ne, H2.
  - cbn. split_and!; [done|by rewrite on_eq, H1|]. intros i Hi. by rewrite on_ne, H2.
Qed.




Lemma run_stages self env n k s :
  (forall m, (m < n)%nat -> env (EInit m) = 0) -> run self env (init_stages n k) s = run self env k s.
Proof.
  induction n as [|n IH]; intros H; [done|]. cbn [init_stages run exec]. rewrite H by lia. apply IH.
  intros m Hm. apply H. lia.
Qed.



(** ** Suspend and resume *)

(** The register a resumed hart ends up with. *)
Definition resumed_csr (e : hsm_env) (h : hart) (r : csr) : Z :=
  match r with
  | CSR_MIP => Z.lor (h_csr h CSR_MIP) (Z.land (h_saved h CSR_MIP) SMODE_MIP)
  | CSR_MENVCFG => if priv_1_12 e then h_saved h CSR_MENVCFG else h_csr h CSR_MENVCFG
  | r => h_saved h r
  end.

Lemma run_restore e self env k s :
  exists s', run self env (sbi_hsm_suspend_non_ret_restore e k) s = run self env k s' /\
    (forall i, i <> self -> s' i = s i) /\
    h_state (s' self) = h_state (s self) /\ h_ticket (s' self) = h_ticket (s self) /\
    h_next (s' self) = h_next (s self) /\ (forall r, h_csr (s' self) r = resumed_csr e (s self) r).
Proof.
  unfold sbi_hsm_suspend_non_ret_restore, restore_csr.
  destruct (priv_1_12 e) eqn:Ep; cbn [run exec]; eexists; (split; [reflexivity|]);
    (split; [intros i Hi; by rewrite !on_ne|]); rewrite !on_eq; cbn;
    (split_and!; [done..|]); intros r; unfold resumed_csr; rewrite Ep; by destruct r.
Qed.

(** A suspended hart that comes through warm boot. *)
Lemma run_resume e self env s :
  h_state (s self) = SBI_HSM_STATE_SUSPENDED -> env (EInit 0) = 0 -> env (EInit 1) = 0 ->
  exists s', run self env (init_warm_resume e self) s =
      (Resume (h_next (s self) NArg1) (h_next (s self) NAddr) (h_next (s self) NMode), s') /\
    (forall i, i <> self -> s' i = s i) /\ h_state (s' self) = SBI_HSM_STATE_STARTED /\
    h_ticket (s' self) = h_ticket (s self) /\ (forall r, h_csr (s' self) r = resumed_csr e (s self) r).
Proof.
  intros Hs H0 H1. unfold init_warm_resume, sbi_hsm_hart_resume_start, sbi_hsm_hart_change_state.
  cbn [run exec]. rewrite Hs. cbn [Z.eqb Pos.eqb negb]. set (s1 := on self _ s).
  assert (forall k, run self env (if truthy (env ESystemSuspended) then OExt ESystemResume ;;; k
    else hsm_device_hart_resume e k) s1 = run self env k s1) as Hr.
  { intros k. case_bool; [done|]. unfold hsm_device_hart_resume. destruct (hsm_dev e) as [[? ? ? []]|]; done. }
  rewrite ?Z.eqb_refl. cbn [negb run exec]. rewrite Hr.
  rewrite run_stages by (intros [|[|m]] ?; [done|done|lia]).
  unfold sbi_hsm_hart_resume_finish, sbi_hsm_hart_change_state. cbn [run exec].
  assert (h_state (s1 self) = SBI_HSM_STATE_RESUME_PENDING) as Hs1 by (unfold s1; by rewrite on_eq).
  rewrite Hs1, ?Z.eqb_refl. cbn [negb]. set (s2 := on self _ s1).
  assert (s2 self = set_state SBI_HSM_STATE_STARTED (set_state SBI_HSM_STATE_RESUME_PENDING (s self))) as E2
    by (unfold s2, s1; by rewrite !on_eq).
  edestruct (run_restore e self env) as (s3 & E & Ho & Hst & Htk & Hn & Hc). rewrite E. cbn [run exec].
  exists s3. rewrite Hn, Hst, Htk, E2. split_and!; try done.
  - intros i Hi. rewrite Ho by done. unfold s2, s1. by rewrite !on_ne.
  - intros r. rewrite Hc, E2. by destruct r.
Qed.

(** [sbi_hsm_hart_start] fills in the target's scratch space before it
    looks at the target's state.  Called on a suspended hart it returns
    [SBI_EINVAL], but the hart then resumes at the address, mode and argument
    of the call that failed. *)
Theorem failed_start_redirects_suspended_hart e dom hartid saddr smode arg1 env self s :
  let t := sbi_hartid_to_hartindex (e_sc e) hartid in
  start_refused e dom hartid saddr smode = None ->
  h_state (s t) = SBI_HSM_STATE_SUSPENDED -> h_ticket (s t) = 0 ->
  env (EInit 0) = 0 -> env (EInit 1) = 0 ->
  let '(o, s1) := run self env (sbi_hsm_hart_start e dom hartid saddr smode arg1) s in
  o = Return SBI_EINVAL /\ (run t env (init_warm_resume e t) s1).1 = Resume arg1 saddr smode.
Proof.
  intros t Hr Hs Ht H0 H1. pose proof (start_run e dom hartid saddr smode arg1 env self s) as Hrun.
  cbv zeta in Hrun. fold t in Hrun. rewrite Hr, Ht in Hrun.
  destruct (run self env _ s) as [o s1]. destruct Hrun as (-> & E & _).
  unfold start_result, start_effect in *. rewrite Hs in *. cbn in E. split; [done|].
  destruct (run_resume e t env s1) as (s' & Er & _); [by rewrite E|done..|].
  rewrite Er, E. done.
Qed.

(** What a non-retentive suspend leaves in the hart's saved registers. *)
Definition saved_csr (e : hsm_env) (h : hart) (r : csr) : Z :=
  match r with
  | CSR_MIP => Z.land (h_csr h CSR_MIP) SMODE_MIP
  | CSR_MENVCFG => if priv_1_12 e then h_csr h CSR_MENVCFG else h_saved h CSR_MENVCFG
  | r => h_csr h r
  end.

Lemma run_save e self env k s :
  exists s', run self env (sbi_hsm_suspend_non_ret_save e k) s = run self env k s' /\
    (forall i, i <> self -> s' i = s i) /\
    h_state (s' self) = h_state (s self) /\ h_next (s' self) = h_next (s self) /\
    (forall r, h_saved (s' self) r = saved_csr e (s self) r).
Proof.
  unfold sbi_hsm_suspend_non_ret_save, save_csr.
  destruct (priv_1_12 e) eqn:Ep; cbn [run exec]; eexists; (split; [reflexivity|]);
    (split; [intros i Hi; by rewrite !on_ne|]); rewrite !on_eq; cbn;
    (split_and!; [done..|]); intros r; unfold saved_csr; rewrite Ep; by destruct r.
Qed.

(** The suspend types the code accepts as non-retentive. *)
Definition non_ret_type (ty : Z) : Prop :=
  ty = SBI_HSM_SUSPEND_NON_RET_DEFAULT \/ SBI_HSM_SUSPEND_NON_RET_PLATFORM <= ty < 2 ^ 32.

Lemma non_ret_type_spec ty :
  non_ret_type ty ->
  (SBI_HSM_SUSPEND_RET_DEFAULT <? ty) && (ty <? SBI_HSM_SUSPEND_RET_PLATFORM) = false /\
  (SBI_HSM_SUSPEND_NON_RET_DEFAULT <? ty) && (ty <? SBI_HSM_SUSPEND_NON_RET_PLATFORM) = false /\
  non_retentive ty = true.
Proof.
  unfold non_ret_type, non_retentive. intros H.
  assert (2 ^ 31 <= ty < 2 ^ 32 /\ (ty = 2 ^ 31 \/ 2 ^ 31 + 2 ^ 28 <= ty)) as [Hr Hd].
  { destruct H as [->|H]; [vm_compute; intuition congruence|].
    change SBI_HSM_SUSPEND_NON_RET_PLATFORM with (2 ^ 31 + 2 ^ 28) in H. lia. }
  change SBI_HSM_SUSPEND_NON_RET_DEFAULT with (2 ^ 31). change SBI_HSM_SUSPEND_RET_DEFAULT with 0.
  change SBI_HSM_SUSPEND_NON_RET_PLATFORM with (2 ^ 31 + 2 ^ 28).
  change SBI_HSM_SUSPEND_RET_PLATFORM with (2 ^ 28). split_and!; [lia|lia|].
  unfold truthy. change SBI_HSM_SUSP_NON_RET_BIT with (2 ^ 31). apply negb_true_iff, Z.eqb_neq. intros H0.
  assert (Z.testbit (Z.land ty (2 ^ 31)) 31 = true) as Hb; [|by rewrite H0 in Hb].
  rewrite Z.land_spec, Z.pow2_bits_true by lia. rewrite andb_true_r.
  rewrite Z.testbit_odd, Z.shiftr_div_pow2 by lia.
  replace (ty / 2 ^ 31) with 1; [done|]. apply Z.div_unique with (ty - 2 ^ 31); lia.
Qed.

(** What the platform answers to a suspend request. *)
Definition suspend_answer (e : hsm_env) (env : ext -> Z) (ty : Z) : Z :=
  match hsm_dev e with
  | Some d => if d_hart_suspend d then env (EDevSuspend ty (warmboot_addr e)) else SBI_ENOTSUPP
  | None => SBI_ENOTSUPP
  end.

Lemma run_dev_suspend e self env ty k s :
  run self env (hsm_device_hart_suspend e ty (warmboot_addr e) k) s =
  run self env (k (suspend_answer e env ty)) s.
Proof. unfold hsm_device_hart_suspend, suspend_answer. destruct (hsm_dev e) as [[? ? [] ?]|]; done. Qed.

(** The request is granted, and the hart goes down with everything saved. *)
Lemma run_suspend e d self ty raddr rmode arg1 env s :
  h_state (s self) = SBI_HSM_STATE_STARTED -> non_ret_type ty -> rmode = PRV_S \/ rmode = PRV_U ->
  sbi_domain_check_addr (Some d) raddr rmode SBI_DOMAIN_EXECUTE = true ->
  suspend_answer e env ty = 0 \/
    (suspend_answer e env ty = SBI_ENOTSUPP /\ ty = SBI_HSM_SUSPEND_NON_RET_DEFAULT) ->
  exists s1, run self env (sbi_hsm_hart_suspend e (Some d) self ty raddr rmode arg1) s = (Warmboot, s1) /\
    (forall i, i <> self -> s1 i = s i) /\ h_state (s1 self) = SBI_HSM_STATE_SUSPENDED /\
    h_next (s1 self) NArg1 = arg1 /\ h_next (s1 self) NAddr = raddr /\ h_next (s1 self) NMode = rmode /\
    (forall r, h_saved (s1 self) r = saved_csr e (s self) r).
Proof.
  intros Hs Hty Hm Ha Hans. destruct (non_ret_type_spec ty Hty) as (T1 & T2 & T3).
  unfold sbi_hsm_hart_suspend. rewrite T1, T2, T3, Ha.
  replace (negb (rmode =? PRV_S) && negb (rmode =? PRV_U)) with false by (by destruct Hm as [-> | ->]).
  rewrite andb_true_l.
  replace (negb (rmode =? PRV_S) && negb (rmode =? PRV_U)) with false by (by destruct Hm as [-> | ->]).
  cbn [andb negb run exec]. unfold sbi_hsm_hart_change_state. cbn [run exec].
  rewrite !on_eq. cbn [h_state set_next]. rewrite Hs, ?Z.eqb_refl. cbn [negb run exec].
  set (s0 := on self (set_susp ty) _).
  assert (s0 self = set_susp ty (set_state SBI_HSM_STATE_SUSPENDED (fill_next arg1 raddr rmode (s self)))) as E0
    by (unfold s0; by rewrite !on_eq).
  edestruct (run_save e self env) as (s1 & E & Ho & Hst & Hn & Hsv). rewrite E.
  rewrite run_dev_suspend. exists s1. rewrite Hst, Hn, E0.
  split_and!; try done.
  - destruct Hans as [-> | [-> ->]]; done.
  - intros i Hi. rewrite Ho by done. unfold s0. by rewrite !on_ne.
  - intros r. rewrite Hsv, E0. by destruct r.
Qed.

(** The registers of a hart that has lost power. *)
Definition lose_csrs (lost : csr -> Z) (h : hart) : hart :=
  mkHart (h_state h) (h_ticket h) (h_suspend_type h) (h_saved h) (h_next h) (h_init h) (h_entry h) lost.

(** C27: a granted non-retentive suspend and the warm boot that follows
    bring the hart back at the address, mode and argument it asked for, in
    state STARTED, with its interrupt enables, delegation and environment
    registers as they were and its pending supervisor interrupts kept, whatever
    the registers held after power-up; no other hart is touched. *)
Theorem suspend_resume_roundtrip e d self hartid ty raddr rmode arg1 env s lost :
  h_state (s self) = SBI_HSM_STATE_STARTED -> non_ret_type ty -> rmode = PRV_S \/ rmode = PRV_U ->
  sbi_domain_check_addr (Some d) raddr rmode SBI_DOMAIN_EXECUTE = true ->
  suspend_answer e env ty = 0 \/
    (suspend_answer e env ty = SBI_ENOTSUPP /\ ty = SBI_HSM_SUSPEND_NON_RET_DEFAULT) ->
  sbi_hartid_to_hartindex (e_sc e) hartid = self -> assigned (Some d) self = true ->
  sbi_hartindex_to_scratch (e_sc e) self <> None -> env (EInit 0) = 0 -> env (EInit 1) = 0 ->
  exists s1 s2, run self env (sbi_hsm_hart_suspend e (Some d) self ty raddr rmode arg1) s = (Warmboot, s1) /\
    run self env (init_warmboot e (Some d) self hartid) (on self (lose_csrs lost) s1) =
      (Resume arg1 raddr rmode, s2) /\
    h_state (s2 self) = SBI_HSM_STATE_STARTED /\
    (forall r, r = CSR_MIE \/ r = CSR_MEDELEG \/ r = CSR_MIDELEG -> h_csr (s2 self) r = h_csr (s self) r) /\
    (priv_1_12 e = true -> h_csr (s2 self) CSR_MENVCFG = h_csr (s self) CSR_MENVCFG) /\
    h_csr (s2 self) CSR_MIP = Z.lor (lost CSR_MIP) (Z.land (h_csr (s self) CSR_MIP) SMODE_MIP) /\
    (forall i, i <> self -> s2 i = s i).
Proof.
  intros Hs Hty Hm Ha Hans Hid Has Hsc H0 H1.
  destruct (run_suspend e d self ty raddr rmode arg1 env s Hs Hty Hm Ha Hans)
    as (s1 & E1 & Ho & Hst & N1 & N2 & N3 & Hsv).
  set (s1' := on self (lose_csrs lost) s1).
  assert (s1' self = lose_csrs lost (s1 self)) as Es by (unfold s1'; by rewrite on_eq).
  destruct (run_resume e self env s1') as (s2 & E2 & Ho2 & Hst2 & _ & Hc); [by rewrite Es|done..|].
  rewrite Es in E2, Hc. cbn [h_next lose_csrs] in E2. rewrite N1, N2, N3 in E2.
  exists s1, s2. split_and!; [done| |done|..].
  - unfold init_warmboot, sbi_hsm_hart_get_state. rewrite Hid, Has. cbn [negb].
    destruct (sbi_hartindex_to_scratch (e_sc e) self); [|done]. cbn [run exec]. fold s1'. rewrite Es.
    cbn [h_state lose_csrs]. by rewrite Hst.
  - intros r [->|[->| ->]]; rewrite Hc; cbn; by rewrite Hsv.
  - intros Hp. rewrite Hc. cbn. rewrite Hp, Hsv. cbn. by rewrite Hp.
  - rewrite Hc. cbn. rewrite Hsv. cbn. by rewrite <- Z.land_assoc, Z.land_diag.
  - intros i Hi. rewrite Ho2 by done. unfold s1'. rewrite on_ne by done. by apply Ho.
Qed.

(** ** Harts side by side *)

(** The parameters of a start: argument, address, mode. *)
Definition params : Type := Z * Z * Z.

Inductive thread : Type :=
| TSuper                                  (* running the supervisor *)
| TRun (c : option params) (p : prog)     (* in the firmware; [c]: in a call to start a hart *)
| TOff                                    (* powered off by the platform *)
| THung.

(** Memory, what every hart is doing, the starts granted and the entries made,
    each with the hart concerned. *)
Record hsys := mkHsys {
  hm : hmem; thr : Z -> thread; starts : list (Z * params); entries : list (Z * params) }.

Section Interleaving.
Context (e : hsm_env) (answers : ext -> Z -> Prop).
Context (id_of : Z -> Z) (dom_of : Z -> option sbi_domain).
Context (with_suspend : bool).

Definition boot (i : Z) : prog := init_warmboot e (dom_of i) i (id_of i).

(** A start is granted when the state goes from STOPPED to START_PENDING. *)
Definition log_start (c : option params) (o : op) (v : Z) (l : list (Z * params)) : list (Z * params) :=
  match o, c with
  | OCasState t old new, Some x =>
      if (old =? SBI_HSM_STATE_STOPPED) && (new =? SBI_HSM_STATE_START_PENDING) && (v =? old)
      then l ++ [(t, x)] else l
  | _, _ => l
  end.

(** What a hart does after a piece of firmware has ended. *)
Definition after (i : Z) (o : outcome) : thread :=
  match o with
  | Return _ | Enter _ _ _ | Resume _ _ _ => TSuper
  | Warmboot => TRun None (boot i)
  | Wait m => TRun None (sbi_hsm_hart_wait e i m)
  | Hang => THung
  end.

Definition log_entry (i : Z) (o : outcome) (l : list (Z * params)) : list (Z * params) :=
  match o with Enter a1 ad md => l ++ [(i, (a1, ad, md))] | _ => l end.

Definition set_thr (s : hsys) (i : Z) (t : thread) : hsys :=
  mkHsys (hm s) (fupd (thr s) i t) (starts s) (entries s).

Inductive hstep : hsys -> hsys -> Prop :=
| hs_start s i dom hartid saddr smode arg1 :
    thr s i = TSuper ->
    hstep s (set_thr s i (TRun (Some (arg1, saddr, smode)) (sbi_hsm_hart_start e dom hartid saddr smode arg1)))
| hs_stop s i :
    thr s i = TSuper -> hstep s (set_thr s i (TRun None (sbi_hsm_hart_stop e (dom_of i) i (id_of i) true)))
| hs_suspend s i ty raddr rmode arg1 :
    with_suspend = true -> thr s i = TSuper ->
    hstep s (set_thr s i (TRun None (sbi_hsm_hart_suspend e (dom_of i) i ty raddr rmode arg1)))
| hs_op s i c o k ans v m :
    thr s i = TRun c (Do o k) -> (forall x, o = OExt x -> answers x ans) ->
    exec i o ans (hm s) = (v, m) ->
    hstep s (mkHsys m (fupd (thr s) i (TRun c (k v))) (log_start c o v (starts s)) (entries s))
| hs_out s i c o :
    thr s i = TRun c (Ret o) ->
    hstep s (mkHsys (hm s) (fupd (thr s) i (after i o)) (starts s) (log_entry i o (entries s)))
| hs_off s i c k :
    thr s i = TRun c (Do (OExt EDevStop) k) -> hstep s (set_thr s i TOff)
| hs_on s i : thr s i = TOff -> hstep s (set_thr s i (TRun None (boot i)))
| hs_reset s i c ty a k :
    thr s i = TRun c (Do (OExt (EDevSuspend ty a)) k) -> hstep s (set_thr s i (TRun None (boot i))).

(** Hart [b] runs the supervisor, the others wait to be started. *)
Definition hinit (b : Z) (s : hsys) : Prop :=
  starts s = [] /\ entries s = [] /\ thr s b = TSuper /\ h_state (hm s b) = SBI_HSM_STATE_STARTED /\
  (forall i, h_ticket (hm s i) = 0) /\
  (forall i, i <> b -> h_state (hm s i) = SBI_HSM_STATE_STOPPED /\
     ((exists m, thr s i = TRun None (Ret (Wait m))) \/ thr s i = THung)).

End Interleaving.

(** *** Ghost state *)

Inductive life : Type :=
| LRun                           (* up *)
| LDown                          (* down, perhaps already asked to start *)
| LUp                            (* has seen the request *)
| LRead (r : list (nfield * Z))  (* started, reading its parameters *)
| LEnter (x : params).           (* has given the ticket back *)

(** The life of a hart, and the ticket it holds with the fields it has filled in. *)
Record gst := mkG { lf : life; hd : option (Z * list (nfield * Z)) }.

Definition next_of (h : hart) : params := (h_next h NArg1, h_next h NAddr, h_next h NMode).

(** The entries of a log that concern hart [t]. *)
Definition log_of (t : Z) (l : list (Z * params)) : list params := (filter (fun p => p.1 = t) l).*2.

#[local] Arguments log_of : simpl never.

Definition knows (h : hart) (r : list (nfield * Z)) : Prop := Forall (fun p => h_next h p.1 = p.2) r.

Record world := mkW { w_mem : hmem; w_starts : list (Z * params); w_entries : list (Z * params) }.

Definition armed (G : Z -> gst) (W : world) (t : Z) : Prop :=
  h_ticket (w_mem W t) = 1 /\ (forall i w, hd (G i) <> Some (t, w)) /\
  log_of t (w_starts W) = log_of t (w_entries W) ++ [next_of (w_mem W t)].

Definition life_ok (G : Z -> gst) (W : world) (t : Z) : Prop :=
  let st := h_state (w_mem W t) in
  let settled := log_of t (w_starts W) = log_of t (w_entries W) in
  match lf (G t) with
  | LRun => st <> SBI_HSM_STATE_STOPPED /\ st <> SBI_HSM_STATE_START_PENDING /\ settled
  | LDown => (st = SBI_HSM_STATE_STOPPED /\ settled) \/ (st = SBI_HSM_STATE_START_PENDING /\ armed G W t)
  | LUp => st = SBI_HSM_STATE_START_PENDING /\ armed G W t
  | LRead r => st = SBI_HSM_STATE_STARTED /\ armed G W t /\ knows (w_mem W t) r
  | LEnter x => st = SBI_HSM_STATE_STARTED /\ log_of t (w_starts W) = log_of t (w_entries W) ++ [x]
  end.

Definition hold_ok (G : Z -> gst) (W : world) (i : Z) : Prop :=
  match hd (G i) with
  | None => True
  | Some (t, w) => h_ticket (w_mem W t) = 1 /\ knows (w_mem W t) w /\
                   (forall j w', hd (G j) = Some (t, w') -> j = i)
  end.

Record Inv (G : Z -> gst) (W : world) : Prop := {
  iv_life t : life_ok G W t; iv_hold i : hold_ok G W i }.

(** The invariant looks at states, tickets and next fields only. *)
Lemma inv_same G G' m m' st en :
  Inv G (mkW m st en) -> (forall j, G' j = G j) ->
  (forall t, h_state (m' t) = h_state (m t) /\ h_ticket (m' t) = h_ticket (m t) /\ h_next (m' t) = h_next (m t)) ->
  Inv G' (mkW m' st en).
Proof.
  intros [Hl Hh] HG Hm. split.
  - intros t. specialize (Hl t). destruct (Hm t) as (E1 & E2 & E3).
    unfold life_ok, armed, knows, next_of in *. cbn in *. rewrite HG, E1, E2, E3.
    destruct (lf (G t)); try done; setoid_rewrite HG; done.
  - intros i. specialize (Hh i). unfold hold_ok, knows in *. rewrite HG. destruct (hd (G i)) as [[t w]|]; [|done].
    cbn in *. destruct (Hm t) as (E1 & E2 & E3). rewrite E2, E3. setoid_rewrite HG. done.
Qed.

Lemma fupd_self {A B} `{EqDecision A} (f : A -> B) a x : fupd f a (f a) x = f x.
Proof. unfold fupd. by case_decide; subst. Qed.

(** Whoever holds the ticket of [t], [t] is not about to read its fields. *)
Lemma held_not_armed G W i t w : hd (G i) = Some (t, w) -> ~ armed G W t.
Proof. intros Hi (_ & Hn & _). by eapply Hn. Qed.

(** A hart whose parameters are not pending. *)
Lemma life_quiet G W t :
  life_ok G W t -> ~ armed G W t ->
  match lf (G t) with
  | LRun | LEnter _ => True
  | LDown => h_state (w_mem W t) = SBI_HSM_STATE_STOPPED /\ log_of t (w_starts W) = log_of t (w_entries W)
  | LUp | LRead _ => False
  end.
Proof. unfold life_ok. destruct (lf (G t)); tauto. Qed.

(** Tickets held in [G'] were held in [G]. *)
Definition no_new_holder (G G' : Z -> gst) (u : Z) : Prop :=
  forall j w, hd (G' j) = Some (u, w) -> exists w', hd (G j) = Some (u, w').

Definition same_hart (h h' : hart) : Prop :=
  h_state h' = h_state h /\ h_ticket h' = h_ticket h /\ h_next h' = h_next h.

(** A hart the step does not concern. *)
Lemma life_frame G W G' W' u :
  life_ok G W u -> lf (G' u) = lf (G u) -> same_hart (w_mem W u) (w_mem W' u) ->
  log_of u (w_starts W') = log_of u (w_starts W) -> log_of u (w_entries W') = log_of u (w_entries W) ->
  no_new_holder G G' u -> life_ok G' W' u.
Proof.
  intros Hl El (E1 & E2 & E3) L1 L2 Hn.
  assert (armed G W u -> armed G' W' u) as Ha.
  { intros (A1 & A2 & A3). unfold armed, next_of in *. rewrite E2, E3, L1, L2. split_and!; try done.
    intros j w Hj. destruct (Hn j w Hj) as [w' Hw]. by eapply A2. }
  unfold life_ok, knows in *. rewrite El, E1, E3, L1, L2. destruct (lf (G u)); naive_solver.
Qed.

Lemma hold_frame G W G' W' j :
  hold_ok G W j -> hd (G' j) = hd (G j) ->
  (forall t w, hd (G j) = Some (t, w) ->
     h_ticket (w_mem W' t) = h_ticket (w_mem W t) /\ h_next (w_mem W' t) = h_next (w_mem W t) /\
     no_new_holder G G' t) ->
  hold_ok G' W' j.
Proof.
  intros Hh E Hf. unfold hold_ok, knows in *. rewrite E. destruct (hd (G j)) as [[t w]|]; [|done].
  destruct (Hf t w eq_refl) as (E1 & E2 & Hn). rewrite E1, E2. destruct Hh as (? & ? & Hu).
  split_and!; try done. intros k w' Hk. destruct (Hn k w' Hk) as [w'' ?]. by eapply Hu.
Qed.

(** Giving up a ticket, or keeping the same one, makes no new holder. *)
Lemma no_new_release G i g' u : hd g' = None -> no_new_holder G (fupd G i g') u.
Proof.
  intros Hg j w. unfold fupd. case_decide; [by rewrite Hg|]. eauto.
Qed.

Lemma no_new_keep G i g' u t w w' :
  hd (G i) = Some (t, w) -> hd g' = Some (t, w') -> no_new_holder G (fupd G i g') u.
Proof.
  intros Hi Hg j x. unfold fupd. case_decide; [|eauto]. subst. rewrite Hg. intros [= -> ->]. eauto.
Qed.

Lemma no_new_other G i g' u t w : hd g' = Some (t, w) -> u <> t -> no_new_holder G (fupd G i g') u.
Proof.
  intros Hg Hu j x. unfold fupd. case_decide; [|eauto]. rewrite Hg. intros [= <- <-]. done.
Qed.

(** Two holders of different tickets. *)
Lemma other_ticket G W i j t t' w w' :
  Inv G W -> hd (G i) = Some (t, w) -> hd (G j) = Some (t', w') -> j <> i -> t' <> t.
Proof.
  intros Hi E1 E2 Hne ->. pose proof (iv_hold _ _ Hi i) as H. unfold hold_ok in H. rewrite E1 in H.
  destruct H as (_ & _ & Hu). by apply Hne, (Hu j w').
Qed.

Ltac mem_ne := cbn; rewrite ?on_ne by done.

(** [hsm_start_ticket_acquire] succeeds. *)
Lemma inv_acquire G m st en i t l :
  Inv G (mkW m st en) -> G i = mkG l None -> h_ticket (m t) = 0 ->
  Inv (fupd G i (mkG l (Some (t, [])))) (mkW (on t (set_ticket 1) m) st en).
Proof.
  intros Hinv Hg Ht. pose proof Hinv as [Hl Hh]. split.
  - intros u. assert (lf (fupd G i (mkG l (Some (t, []))) u) = lf (G u)) as El.
    { unfold fupd. case_decide; [by subst; rewrite Hg|done]. }
    destruct (decide (u = t)) as [->|Hu].
    + assert (~ armed G (mkW m st en) t) as Hna by (intros (H & _); cbn in H; lia).
      specialize (Hl t). pose proof (life_quiet _ _ _ Hl Hna) as Hq. unfold life_ok in *.
      rewrite El in *. cbn in *. rewrite on_eq. cbn. destruct (lf (G t)); tauto.
    + apply (life_frame G (mkW m st en)); [apply Hl|done|by mem_ne|done|done|by eapply no_new_other].
  - intros j. destruct (decide (j = i)) as [->|Hj].
    + unfold hold_ok. rewrite fupd_eq. cbn. rewrite on_eq. cbn. split_and!; [done|constructor|].
      intros k w'. unfold fupd. case_decide; [done|]. intros Hk. pose proof (Hh k) as Hk'.
      unfold hold_ok in Hk'. rewrite Hk in Hk'. destruct Hk' as (Hk' & _). cbn in Hk'. lia.
    + apply (hold_frame G (mkW m st en)); [apply Hh|by rewrite fupd_ne|]. intros t' w Hw.
      assert (t' <> t) as Hne. { intros ->. pose proof (Hh j) as Hj'. unfold hold_ok in Hj'. rewrite Hw in Hj'.
        destruct Hj' as (Hj' & _). cbn in Hj'. lia. }
      mem_ne. split_and!; [done..|]. by eapply no_new_other.
Qed.

Lemma knows_set f v h w : knows h w -> f ∉ w.*1 -> knows (set_next f v h) ((f, v) :: w).
Proof.
  intros Hk Hf. apply Forall_cons. split; [by cbn; rewrite fupd_eq|].
  unfold knows in *. rewrite Forall_forall in *. intros p Hp. cbn. rewrite fupd_ne; [by apply Hk|].
  intros He. apply Hf. rewrite <- He. by apply list_elem_of_fmap_2.
Qed.

(** The holder of the ticket fills in a field of the target. *)
Lemma inv_write G m st en i t l w f v :
  Inv G (mkW m st en) -> G i = mkG l (Some (t, w)) -> f ∉ w.*1 ->
  Inv (fupd G i (mkG l (Some (t, (f, v) :: w)))) (mkW (on t (set_next f v) m) st en).
Proof.
  intros Hinv Hg Hf. pose proof Hinv as [Hl Hh]. assert (hd (G i) = Some (t, w)) as Hd by by rewrite Hg. split.
  - intros u. assert (lf (fupd G i (mkG l (Some (t, (f, v) :: w))) u) = lf (G u)) as El.
    { unfold fupd. case_decide; [by subst; rewrite Hg|done]. }
    destruct (decide (u = t)) as [->|Hu].
    + pose proof (life_quiet _ _ _ (Hl t) (held_not_armed _ _ _ _ _ Hd)) as Hq. specialize (Hl t).
      unfold life_ok in *. rewrite El in *. cbn in *. rewrite on_eq. cbn. destruct (lf (G t)); tauto.
    + apply (life_frame G (mkW m st en)); [apply Hl|done|by mem_ne|done|done|by eapply no_new_keep].
  - intros j. destruct (decide (j = i)) as [->|Hj].
    + pose proof (Hh i) as Hi. unfold hold_ok in *. rewrite Hd in Hi. rewrite fupd_eq. cbn in *.
      rewrite on_eq. destruct Hi as (? & ? & Hu). split_and!; [done|by apply knows_set|].
      intros k w'. unfold fupd. case_decide; [done|]. apply Hu.
    + apply (hold_frame G (mkW m st en)); [apply Hh|by rewrite fupd_ne|]. intros t' w' Hw.
      pose proof (other_ticket _ _ _ _ _ _ _ _ Hinv Hd Hw Hj). mem_ne. split_and!; [done..|].
      by eapply no_new_keep.
Qed.

(** It gives the ticket back. *)
Lemma inv_release G m st en i t l w :
  Inv G (mkW m st en) -> G i = mkG l (Some (t, w)) ->
  Inv (fupd G i (mkG l None)) (mkW (on t (set_ticket 0) m) st en).
Proof.
  intros Hinv Hg. pose proof Hinv as [Hl Hh]. assert (hd (G i) = Some (t, w)) as Hd by by rewrite Hg. split.
  - intros u. assert (lf (fupd G i (mkG l None) u) = lf (G u)) as El.
    { unfold fupd. case_decide; [by subst; rewrite Hg|done]. }
    destruct (decide (u = t)) as [->|Hu].
    + pose proof (life_quiet _ _ _ (Hl t) (held_not_armed _ _ _ _ _ Hd)) as Hq. specialize (Hl t).
      unfold life_ok in *. rewrite El in *. cbn in *. rewrite on_eq. cbn. destruct (lf (G t)); tauto.
    + apply (life_frame G (mkW m st en)); [apply Hl|done|by mem_ne|done|done|by apply no_new_release].
  - intros j. destruct (decide (j = i)) as [->|Hj]; [unfold hold_ok; by rewrite fupd_eq|].
    apply (hold_frame G (mkW m st en)); [apply Hh|by rewrite fupd_ne|]. intros t' w' Hw.
    pose proof (other_ticket _ _ _ _ _ _ _ _ Hinv Hd Hw Hj). mem_ne. split_and!; [done..|].
    by apply no_new_release.
Qed.

Lemma log_of_app t l u x : log_of t (l ++ [(u, x)]) = if decide (u = t) then log_of t l ++ [x] else log_of t l.
Proof.
  unfold log_of. rewrite filter_app, fmap_app, filter_cons. cbn. case_decide; cbn; [done|].
  by rewrite app_nil_r.
Qed.

(** The state of a stopped hart goes to START_PENDING: the ticket passes to it. *)
Lemma inv_grant G m st en i t a1 ad md :
  Inv G (mkW m st en) -> G i = mkG LRun (Some (t, [(NMode, md); (NAddr, ad); (NArg1, a1)])) ->
  h_state (m t) = SBI_HSM_STATE_STOPPED ->
  Inv (fupd G i (mkG LRun None))
    (mkW (on t (set_state SBI_HSM_STATE_START_PENDING) m) (st ++ [(t, (a1, ad, md))]) en).
Proof.
  intros Hinv Hg Hst. pose proof Hinv as [Hl Hh].
  assert (hd (G i) = Some (t, [(NMode, md); (NAddr, ad); (NArg1, a1)])) as Hd by by rewrite Hg.
  split.
  - intros u. assert (lf (fupd G i (mkG LRun None) u) = lf (G u)) as El.
    { unfold fupd. case_decide; [by subst; rewrite Hg|done]. }
    destruct (decide (u = t)) as [->|Hu].
    + pose proof (life_quiet _ _ _ (Hl t) (held_not_armed _ _ _ _ _ Hd)) as Hq. specialize (Hl t).
      pose proof (Hh i) as Hi. unfold hold_ok in Hi. rewrite Hd in Hi. destruct Hi as (Htk & Hkn & Huq).
      unfold life_ok in *. rewrite El. cbn in *. rewrite on_eq. cbn.
      destruct (lf (G t)); try done; [by destruct Hl as (? & _)|..|destruct Hl as [Hl _]; by rewrite Hst in Hl].
      right. split; [done|]. unfold armed, next_of. cbn [w_mem w_starts w_entries].
      rewrite on_eq, log_of_app, decide_True by done. split_and!; [done| |].
      * intros j w. unfold fupd. case_decide; [done|]. intros Hj. by apply Huq in Hj.
      * apply Forall_cons in Hkn as [K1 [K2 [K3 _]%Forall_cons]%Forall_cons]. cbn in *.
        destruct Hq as [_ ->]. by rewrite K1, K2, K3.
    + apply (life_frame G (mkW m st en)); [apply Hl|done|by mem_ne| |done|by apply no_new_release].
      cbn. by rewrite log_of_app, decide_False.
  - intros j. destruct (decide (j = i)) as [->|Hj]; [unfold hold_ok; by rewrite fupd_eq|].
    apply (hold_frame G (mkW m st en)); [apply Hh|by rewrite fupd_ne|]. intros t' w' Hw.
    pose proof (other_ticket _ _ _ _ _ _ _ _ Hinv Hd Hw Hj). mem_ne. split_and!; [done..|].
    by apply no_new_release.
Qed.

(** A step of a hart on its own state, with the ticket of [i] as it was: [i]
    must be in order afterwards. *)
Lemma inv_own G m st en i g g' f :
  Inv G (mkW m st en) -> G i = g -> hd g = None -> hd g' = None ->
  h_ticket (f (m i)) = h_ticket (m i) -> h_next (f (m i)) = h_next (m i) ->
  life_ok (fupd G i g') (mkW (on i f m) st en) i ->
  Inv (fupd G i g') (mkW (on i f m) st en).
Proof.
  intros [Hl Hh] Hg Hd Hd' Ht Hn Hi. split.
  - intros u. destruct (decide (u = i)) as [->|Hu]; [done|].
    apply (life_frame G (mkW m st en)); [apply Hl|by rewrite fupd_ne|by mem_ne|done|done|by apply no_new_release].
  - intros j. destruct (decide (j = i)) as [->|Hj]; [unfold hold_ok; by rewrite fupd_eq, Hd'|].
    apply (hold_frame G (mkW m st en)); [apply Hh|by rewrite fupd_ne|]. intros t' w' Hw. cbn.
    split_and!; [| |by apply no_new_release]; (destruct (decide (t' = i)) as [->|]; [by rewrite on_eq|by rewrite on_ne]).
Qed.

Lemma armed_own G m st en i g' f :
  armed G (mkW m st en) i -> hd g' = None -> h_ticket (f (m i)) = h_ticket (m i) ->
  h_next (f (m i)) = h_next (m i) -> armed (fupd G i g') (mkW (on i f m) st en) i.
Proof.
  intros (A1 & A2 & A3) Hd Ht Hn. unfold armed, next_of in *. cbn in *. rewrite on_eq, Ht, Hn.
  split_and!; try done. intros j w. unfold fupd. case_decide; [by rewrite Hd|apply A2].
Qed.

(** A hart that is up changes its state to one that is neither STOPPED nor
    START_PENDING. *)
Lemma inv_up G m st en i v :
  Inv G (mkW m st en) -> G i = mkG LRun None ->
  v <> SBI_HSM_STATE_STOPPED -> v <> SBI_HSM_STATE_START_PENDING ->
  Inv (fupd G i (mkG LRun None)) (mkW (on i (set_state v) m) st en).
Proof.
  intros Hi Hg H1 H2. apply (inv_own _ _ _ _ _ _ _ _ Hi Hg); try done. pose proof (iv_life _ _ Hi i) as Hl.
  unfold life_ok in *. rewrite fupd_eq. rewrite Hg in Hl. cbn in *. rewrite on_eq. cbn. tauto.
Qed.

(** It stops. *)
Lemma inv_stop G m st en i :
  Inv G (mkW m st en) -> G i = mkG LRun None ->
  Inv (fupd G i (mkG LDown None)) (mkW (on i (set_state SBI_HSM_STATE_STOPPED) m) st en).
Proof.
  intros Hi Hg. apply (inv_own _ _ _ _ _ _ _ _ Hi Hg); try done. pose proof (iv_life _ _ Hi i) as Hl.
  unfold life_ok in *. rewrite fupd_eq. rewrite Hg in Hl. cbn in *. rewrite on_eq. cbn. tauto.
Qed.

(** Knowledge of a hart about itself changes, and nothing else. *)
Lemma inv_ghost G W i g' :
  Inv G W -> hd (G i) = None -> hd g' = None -> life_ok (fupd G i g') W i -> Inv (fupd G i g') W.
Proof.
  intros [Hl Hh] Hd Hd' Hi. split.
  - intros u. destruct (decide (u = i)) as [->|Hu]; [done|].
    apply (life_frame G W); [apply Hl|by rewrite fupd_ne|done|done|done|by apply no_new_release].
  - intros j. destruct (decide (j = i)) as [->|Hj]; [unfold hold_ok; by rewrite fupd_eq, Hd'|].
    apply (hold_frame G W); [apply Hh|by rewrite fupd_ne|]. intros t w Hw. split_and!; [done..|by apply no_new_release].
Qed.

Lemma armed_ghost G W i g' : armed G W i -> hd g' = None -> armed (fupd G i g') W i.
Proof.
  intros (A1 & A2 & A3) Hd. split_and!; try done. intros j w. unfold fupd. case_decide; [by rewrite Hd|apply A2].
Qed.

(** A waiting hart sees the request. *)
Lemma inv_see G W i :
  Inv G W -> G i = mkG LDown None -> h_state (w_mem W i) = SBI_HSM_STATE_START_PENDING ->
  Inv (fupd G i (mkG LUp None)) W.
Proof.
  intros Hi Hg Hs. apply inv_ghost; try done; [by rewrite Hg|]. pose proof (iv_life _ _ Hi i) as Hl.
  unfold life_ok in *. rewrite fupd_eq. rewrite Hg in Hl. cbn in *. split; [done|].
  apply armed_ghost; [|done]. destruct Hl as [[Hl _]|[_ ?]]; [by rewrite Hs in Hl|done].
Qed.

(** It becomes STARTED. *)
Lemma inv_started G m st en i :
  Inv G (mkW m st en) -> G i = mkG LUp None ->
  Inv (fupd G i (mkG (LRead []) None)) (mkW (on i (set_state SBI_HSM_STATE_STARTED) m) st en).
Proof.
  intros Hi Hg. apply (inv_own _ _ _ _ _ _ _ _ Hi Hg); try done. pose proof (iv_life _ _ Hi i) as Hl.
  unfold life_ok in *. rewrite fupd_eq. rewrite Hg in Hl. cbn in *. rewrite on_eq. cbn.
  destruct Hl as [_ Ha]. split_and!; [done|by apply (armed_own G)|constructor].
Qed.

(** It reads one of its fields. *)
Lemma inv_read G m st en i r f :
  Inv G (mkW m st en) -> G i = mkG (LRead r) None ->
  Inv (fupd G i (mkG (LRead ((f, h_next (m i) f) :: r)) None)) (mkW m st en).
Proof.
  intros Hi Hg. apply inv_ghost; try done; [by rewrite Hg|]. pose proof (iv_life _ _ Hi i) as Hl.
  unfold life_ok in *. rewrite fupd_eq. rewrite Hg in Hl. cbn in *. destruct Hl as (? & ? & ?).
  split_and!; [done|by apply armed_ghost|]. by apply Forall_cons.
Qed.

(** It gives its ticket back. *)
Lemma inv_give_back G m st en i a1 ad md :
  Inv G (mkW m st en) -> G i = mkG (LRead [(NMode, md); (NAddr, ad); (NArg1, a1)]) None ->
  Inv (fupd G i (mkG (LEnter (a1, ad, md)) None)) (mkW (on i (set_ticket 0) m) st en).
Proof.
  intros Hinv Hg. pose proof Hinv as [Hl Hh]. pose proof (Hl i) as Hi. unfold life_ok in Hi.
  rewrite Hg in Hi. cbn in Hi. destruct Hi as (Hst & (A1 & A2 & A3) & Hk).
  apply Forall_cons in Hk as [K1 [K2 [K3 _]%Forall_cons]%Forall_cons]. cbn in *. split.
  - intros u. destruct (decide (u = i)) as [->|Hu].
    + unfold life_ok. rewrite fupd_eq. cbn. rewrite on_eq. cbn. split; [done|].
      rewrite A3. unfold next_of. by rewrite K1, K2, K3.
    + apply (life_frame G (mkW m st en)); [apply Hl|by rewrite fupd_ne|by mem_ne|done|done|by apply no_new_release].
  - intros j. destruct (decide (j = i)) as [->|Hj]; [unfold hold_ok; by rewrite fupd_eq|].
    apply (hold_frame G (mkW m st en)); [apply Hh|by rewrite fupd_ne|]. intros t' w' Hw.
    assert (t' <> i) by (intros ->; by eapply A2). mem_ne. split_and!; [done..|by apply no_new_release].
Qed.

(** It enters the supervisor. *)
Lemma inv_enter G m st en i a1 ad md :
  Inv G (mkW m st en) -> G i = mkG (LEnter (a1, ad, md)) None ->
  Inv (fupd G i (mkG LRun None)) (mkW m st (en ++ [(i, (a1, ad, md))])).
Proof.
  intros Hinv Hg. pose proof Hinv as [Hl Hh]. split.
  - intros u. destruct (decide (u = i)) as [->|Hu].
    + specialize (Hl i). unfold life_ok in *. rewrite fupd_eq. rewrite Hg in Hl. cbn in *.
      rewrite log_of_app, decide_True by done. destruct Hl as [-> ->]. done.
    + apply (life_frame G (mkW m st en)); [apply Hl|by rewrite fupd_ne|done|done| |by apply no_new_release].
      cbn. by rewrite log_of_app, decide_False.
  - intros j. destruct (decide (j = i)) as [->|Hj]; [unfold hold_ok; by rewrite fupd_eq|].
    apply (hold_frame G (mkW m st en)); [apply Hh|by rewrite fupd_ne|]. intros t' w' Hw.
    split_and!; [done..|by apply no_new_release].
Qed.

(** *** Programs that keep the invariant *)

Section Safety.
Context (e : hsm_env) (answers : ext -> Z -> Prop).
Context (id_of : Z -> Z) (dom_of : Z -> option sbi_domain).
Hypothesis start_ok : forall hartid a v, answers (EDevStart hartid a) v -> v = 0.
Hypothesis ipi_ok : forall i v, answers (EIpiSend i) v -> v = 0.

Definition out_ok (g : gst) (o : outcome) : Prop :=
  match o with
  | Return _ => g = mkG LRun None
  | Enter a1 ad md => g = mkG (LEnter (a1, ad, md)) None
  | Resume _ _ _ => False
  | Warmboot | Wait _ => g = mkG LDown None
  | Hang => True
  end.

(** Hart [i], knowing [g], can run [p] whatever the others do in between. *)
Fixpoint safe (i : Z) (c : option params) (g : gst) (p : prog) : Prop :=
  match p with
  | Ret o => out_ok g o
  | Do o k =>
      (o = OExt EDevStop -> g = mkG LDown None) /\ (forall ty a, o <> OExt (EDevSuspend ty a)) /\
      forall G m st en ans v m', G i = g -> Inv G (mkW m st en) ->
        (forall x, o = OExt x -> answers x ans) -> exec i o ans m = (v, m') ->
        exists g', Inv (fupd G i g') (mkW m' (log_start c o v st) en) /\ safe i c g' (k v)
  end.

(** Accesses the invariant does not see. *)
Definition unseen (o : op) : bool :=
  match o with
  | OReadInit _ | OReadEntry _ | OIncInit | OIncEntry | ORevertEntry | OReadState _
  | OReadCsr _ | OWriteCsr _ _ | OSetCsr _ _ => true
  | OExt EDevStop | OExt (EDevSuspend _ _) => false
  | OExt _ => true
  | _ => false
  end.

Lemma inv_self G m st en i g : Inv G (mkW m st en) -> G i = g -> Inv (fupd G i g) (mkW m st en).
Proof. intros Hi <-. eapply inv_same; [exact Hi|apply fupd_self|done]. Qed.

Lemma exec_unseen i o ans m v m' :
  unseen o = true -> exec i o ans m = (v, m') -> forall t, same_hart (m t) (m' t).
Proof.
  intros Hu He t. unfold same_hart. destruct o; try done; cbn in He; simplify_eq; try done;
    (destruct (decide (t = i)) as [->|]; [by rewrite on_eq|by rewrite on_ne]).
Qed.

Lemma safe_unseen i c g o k : unseen o = true -> (forall v, safe i c g (k v)) -> safe i c g (Do o k).
Proof.
  intros Hu Hk. cbn [safe]. split; [by intros ->|]. split; [by intros ty a ->|].
  intros G m st en ans v m' Hg Hi _ He. exists g. split; [|apply Hk].
  replace (log_start c o v st) with st by (by destruct o).
  eapply inv_same; [exact Hi|intros j; rewrite <- Hg; apply fupd_self|]. by eapply exec_unseen.
Qed.

(** An answer of the platform. *)
Lemma safe_ext i c g x k :
  unseen (OExt x) = true -> (forall v, answers x v -> safe i c g (k v)) -> safe i c g (Do (OExt x) k).
Proof.
  intros Hu Hk. cbn [safe]. split; [by intros [= ->]|]. split; [by intros ty a [= ->]|].
  intros G m st en ans v m' Hg Hi Ha He. exists g. cbn in He. simplify_eq. split; [by apply inv_self|]. eauto.
Qed.

(** A compare and swap on the state that only logs when it starts a hart. *)
Lemma safe_cas i c g t old new k :
  (forall G m st en, G i = g -> Inv G (mkW m st en) ->
     (h_state (m t) = old -> exists g',
        Inv (fupd G i g') (mkW (on t (set_state new) m) (log_start c (OCasState t old new) old st) en) /\
        safe i c g' (k old)) /\
     (forall v, h_state (m t) = v -> v <> old -> safe i c g (k v))) ->
  safe i c g (Do (OCasState t old new) k).
Proof.
  intros H. cbn [safe]. split; [done|]. split; [done|]. intros G m st en ans v m' Hg Hi _ He.
  cbn in He. destruct (H G m st en Hg Hi) as [H1 H2]. destruct (h_state (m t) =? old) eqn:E; simplify_eq.
  - apply Z.eqb_eq in E. rewrite E. apply H1, E.
  - apply Z.eqb_neq in E. exists (G i). split; [|by apply (H2 _ eq_refl)].
    replace (log_start c _ _ st) with st; [by apply inv_self|]. unfold log_start. destruct c; [|done].
    rewrite (proj2 (Z.eqb_neq _ _) E). by rewrite andb_false_r.
Qed.

Abbreviation sf := safe.

Lemma safe_release i c t l w rc :
  out_ok (mkG l None) (Return rc) ->
  sf i c (mkG l (Some (t, w))) (hsm_start_ticket_release t (Ret (Return rc))).
Proof.
  intros Ho. cbn [hsm_start_ticket_release safe]. split; [done|]. split; [done|].
  intros G m st en ans v m' Hg Hi _ He. cbn in He. simplify_eq. exists (mkG l None).
  split; [|done]. by eapply inv_release.
Qed.

Lemma safe_write i c t l w f v k :
  f ∉ w.*1 -> sf i c (mkG l (Some (t, (f, v) :: w))) k ->
  sf i c (mkG l (Some (t, w))) (OWriteNext t f v ;;; k).
Proof.
  intros Hf Hk. cbn [safe]. split; [done|]. split; [done|].
  intros G m st en ans v' m' Hg Hi _ He. cbn in He. simplify_eq. eexists.
  split; [by eapply inv_write|done].
Qed.

(** After the grant only the platform is called. *)
Lemma safe_kick i c hartid t (b b' : bool) k :
  (forall v, v = 0 -> sf i c (mkG LRun None) (k v)) ->
  sf i c (mkG LRun None)
    (if (hsm_device_has_hart_hotplug e && b) || (hsm_device_has_hart_secondary_boot e && b')
     then hsm_device_hart_start e hartid (warmboot_addr e) k else Do (OExt (EIpiSend t)) k).
Proof.
  intros Hk. case_bool.
  - unfold hsm_device_hart_start, hsm_device_has_hart_hotplug, hsm_device_has_hart_secondary_boot in *.
    destruct (hsm_dev e) as [[[] ? ? ?]|]; cbn in E; try done.
    apply safe_ext; [done|]. intros v Hv. by apply Hk, (start_ok hartid (warmboot_addr e)).
  - apply safe_ext; [done|]. intros v Hv. by apply Hk, (ipi_ok t).
Qed.

Lemma safe_start i dom hartid saddr smode arg1 :
  sf i (Some (arg1, saddr, smode)) (mkG LRun None) (sbi_hsm_hart_start e dom hartid saddr smode arg1).
Proof.
  rewrite start_unfold. destruct (start_refused _ _ _ _ _); [done|]. unfold sbi_hsm_hart_start. cbv zeta.
  destruct (negb (smode =? PRV_S) && negb (smode =? PRV_U)); [done|].
  set (t := sbi_hartid_to_hartindex _ _). destruct (sbi_hartindex_to_scratch _ _); [|done].
  cbn [hsm_start_ticket_acquire safe]. split; [done|]. split; [done|].
  intros G m st en ans v m' Hg Hi _ He. cbn in He. destruct (h_ticket (m t) =? 0) eqn:Et; simplify_eq.
  2: { exists (mkG LRun None). split; [by apply inv_self|]. by rewrite Et. }
  apply Z.eqb_eq in Et. rewrite Et. cbn [Z.eqb negb]. exists (mkG LRun (Some (t, []))).
  split; [by apply inv_acquire|]. clear G m st en ans Hg Hi Et.
  apply safe_unseen; [done|]. intros ic. apply safe_unseen; [done|]. intros ec.
  apply safe_write; [set_solver|]. apply safe_write; [set_solver|]. apply safe_write; [set_solver|].
  apply safe_cas. intros G m st en Hg Hi. split.
  - intros Hs. exists (mkG LRun None). split; [by apply inv_grant|].
    change (SBI_HSM_STATE_STOPPED =? SBI_HSM_STATE_STARTED) with false. rewrite ?Z.eqb_refl. cbn [negb].
    apply safe_kick. by intros v ->.
  - intros v Hv Hne. destruct (v =? SBI_HSM_STATE_STARTED); [by apply safe_release|].
    rewrite (proj2 (Z.eqb_neq _ _) Hne). cbn [negb]. by apply safe_release.
Qed.
(** The platform's stop, only ever called by a hart that is down. *)
Lemma safe_dev_stop i c k :
  (forall v, sf i c (mkG LDown None) (k v)) -> sf i c (mkG LDown None) (hsm_device_hart_stop e k).
Proof.
  intros Hk. unfold hsm_device_hart_stop. destruct (hsm_dev e) as [[? [] ? ?]|]; [|apply Hk..].
  cbn [safe]. split; [done|]. split; [done|]. intros G m st en ans v m' Hg Hi _ He. cbn in He. simplify_eq.
  exists (G i). split; [by apply inv_self|]. rewrite Hg. apply Hk.
Qed.

Lemma safe_stop i dom hartid : sf i None (mkG LRun None) (sbi_hsm_hart_stop e dom i hartid true).
Proof.
  unfold sbi_hsm_hart_stop. destruct dom; [|done]. unfold sbi_hsm_hart_change_state. apply safe_cas.
  intros G m st en Hg Hi. split; [|by intros v _ Hne; rewrite (proj2 (Z.eqb_neq _ _) Hne)].
  intros _. exists (mkG LRun None). split; [by apply inv_up|]. rewrite ?Z.eqb_refl. cbn [negb].
  unfold sbi_exit. case_bool; [done|]. unfold sbi_hsm_exit, sbi_hsm_hart_change_state. apply safe_cas.
  clear G m st en Hg Hi. intros G m st en Hg Hi. split; [|by intros v _ Hne; rewrite (proj2 (Z.eqb_neq _ _) Hne)].
  intros _. exists (mkG LDown None). split; [by apply inv_stop|]. rewrite ?Z.eqb_refl. cbn [negb].
  case_bool; [|done]. apply safe_dev_stop. intros v. by case_bool.
Qed.

(** A compare and swap that a hart which is down cannot win. *)
Lemma safe_cas_lost i c t old new k :
  (forall G m st en, G i = mkG LDown None -> Inv G (mkW m st en) -> h_state (m t) <> old) ->
  (forall v, v <> old -> sf i c (mkG LDown None) (k v)) ->
  sf i c (mkG LDown None) (Do (OCasState t old new) k).
Proof.
  intros Hn Hk. apply safe_cas. intros G m st en Hg Hi. split.
  - intros Hs. by destruct (Hn G m st en Hg Hi).
  - intros v _ Hv. by apply Hk.
Qed.

Lemma down_state G m st en i v :
  G i = mkG LDown None -> Inv G (mkW m st en) ->
  v <> SBI_HSM_STATE_STOPPED -> v <> SBI_HSM_STATE_START_PENDING -> h_state (m i) <> v.
Proof.
  intros Hg Hi H1 H2 He. pose proof (iv_life _ _ Hi i) as Hl. unfold life_ok in Hl. rewrite Hg in Hl.
  cbn in Hl. rewrite He in Hl. tauto.
Qed.

Lemma safe_boot i dom hartid : sf i None (mkG LDown None) (init_warmboot e dom i hartid).
Proof.
  unfold init_warmboot, sbi_hsm_hart_get_state.
  assert (forall hstate, sf i None (mkG LDown None)
    (if hstate <? 0 then Ret Hang
     else if hstate =? SBI_HSM_STATE_SUSPENDED then init_warm_resume e i
     else OExt EIpiClear ;;; init_warm_startup i)) as Hk.
  { intros hstate. case_bool; [done|]. case_bool.
    - unfold init_warm_resume, sbi_hsm_hart_resume_start, sbi_hsm_hart_change_state.
      apply safe_cas_lost.
      + intros. by eapply down_state.
      + intros v Hv. by rewrite (proj2 (Z.eqb_neq _ _) Hv).
    - unfold init_warm_startup. do 4 (apply safe_unseen; [done|]; intros ?). done. }
  case_bool; [apply Hk|]. destruct (sbi_hartindex_to_scratch _ _); [|apply Hk].
  apply safe_unseen; [done|]. apply Hk.
Qed.

Lemma safe_stages i c g n k : sf i c g k -> sf i c g (init_stages n k).
Proof.
  intros Hk. induction n as [|n IH]; [done|]. cbn [init_stages]. apply safe_unseen; [done|].
  intros v. by case_bool.
Qed.

Lemma safe_read i c r f k :
  (forall v, sf i c (mkG (LRead ((f, v) :: r)) None) (k v)) -> sf i c (mkG (LRead r) None) (Do (OReadNext f) k).
Proof.
  intros Hk. cbn [safe]. split; [done|]. split; [done|]. intros G m st en ans v m' Hg Hi _ He. cbn in He.
  simplify_eq. eexists. split; [by apply inv_read|apply Hk].
Qed.

Lemma safe_start_finish i : sf i None (mkG LUp None) (sbi_hsm_hart_start_finish i).
Proof.
  unfold sbi_hsm_hart_start_finish, sbi_hsm_hart_change_state. apply safe_cas.
  intros G m st en Hg Hi. split; [|by intros v _ Hne; rewrite (proj2 (Z.eqb_neq _ _) Hne)].
  intros _. exists (mkG (LRead []) None). split; [by apply inv_started|]. rewrite ?Z.eqb_refl. cbn [negb].
  apply safe_read. intros a1. apply safe_read. intros ad. apply safe_read. intros md.
  cbn [hsm_start_ticket_release safe]. split; [done|]. split; [done|].
  clear. intros G m st en ans v m' Hg Hi _ He. cbn in He. simplify_eq. eexists.
  split; [by apply inv_give_back|]. done.
Qed.

Lemma safe_wait i mie : sf i None (mkG LDown None) (sbi_hsm_hart_wait e i mie).
Proof.
  cbn [sbi_hsm_hart_wait safe]. split; [done|]. split; [done|]. intros G m st en ans v m' Hg Hi _ He.
  cbn in He. simplify_eq. destruct (h_state (m' i) =? SBI_HSM_STATE_START_PENDING) eqn:E.
  - apply Z.eqb_eq in E. exists (mkG LUp None). split; [by apply inv_see|].
    apply safe_unseen; [done|]. intros _. apply safe_stages. apply safe_unseen; [done|]. intros _.
    apply safe_start_finish.
  - exists (mkG LDown None). split; [by apply inv_self|]. case_bool.
    + apply safe_unseen; [done|]. intros _. apply safe_dev_stop. intros _. by apply safe_unseen.
    + by apply safe_unseen.
Qed.
End Safety.

(** *** The system *)

Section System.
Context (e : hsm_env) (answers : ext -> Z -> Prop).
Context (id_of : Z -> Z) (dom_of : Z -> option sbi_domain).
Hypothesis start_ok : forall hartid a v, answers (EDevStart hartid a) v -> v = 0.
Hypothesis ipi_ok : forall i v, answers (EIpiSend i) v -> v = 0.

Definition tsafe (i : Z) (g : gst) (t : thread) : Prop :=
  match t with
  | TSuper => g = mkG LRun None
  | TRun c p => safe answers i c g p
  | TOff => g = mkG LDown None
  | THung => True
  end.

Definition sysinv (s : hsys) : Prop :=
  exists G, Inv G (mkW (hm s) (starts s) (entries s)) /\ forall i, tsafe i (G i) (thr s i).

(** One hart moves on and the others stay as they are. *)
Lemma sysinv_move (G : Z -> gst) s i g' t' m st en :
  (forall j, tsafe j (G j) (thr s j)) -> tsafe i g' t' ->
  Inv (fupd G i g') (mkW m st en) -> sysinv (mkHsys m (fupd (thr s) i t') st en).
Proof.
  intros Ht Hg Hi. exists (fupd G i g'). split; [done|]. cbn. intros j.
  destruct (decide (j = i)) as [->|Hj]; [by rewrite !fupd_eq|]. by rewrite !fupd_ne.
Qed.

Lemma sysinv_step s s' :
  sysinv s -> hstep e answers id_of dom_of false s s' -> sysinv s'.
Proof.
  intros (G & Hi & Ht) Hs. destruct Hs as
    [s i dom hartid saddr smode arg1 E|s i E|s i ty raddr rmode arg1 E0 E|s i c o k ans v m E Ha Hx
    |s i c o E|s i c k E|s i E|s i c ty a k E]; pose proof (Ht i) as Hti; rewrite E in Hti.
  - eapply sysinv_move; [done| |by apply inv_self]. cbn. by apply safe_start.
  - eapply sysinv_move; [done| |by apply inv_self]. cbn. by apply safe_stop.
  - done.
  - cbn in Hti. destruct Hti as (_ & _ & Hk).
    destruct (Hk G _ _ _ ans v m eq_refl Hi Ha Hx) as (g' & Hi' & Hs'). by eapply sysinv_move.
  - cbn in Hti. destruct o as [rc|a1 ad md|a1 ad md| |mie|]; cbn in Hti; try done;
      try (eapply sysinv_move; [done| |by apply inv_self]; cbn; done).
    + by eapply sysinv_move; [done| |by apply inv_enter].
    + eapply sysinv_move; [done| |by apply inv_self]. cbn. by apply safe_boot.
    + eapply sysinv_move; [done| |by apply inv_self]. cbn. by apply safe_wait.
  - destruct Hti as [Hd _]. eapply sysinv_move; [done| |by apply inv_self]. cbn. by apply Hd.
  - eapply sysinv_move; [done| |by apply inv_self]. cbn. by apply safe_boot.
  - destruct Hti as (_ & Hd & _). by destruct (Hd ty a).
Qed.

Lemma sysinv_init b s : hinit b s -> sysinv s.
Proof.
  intros (Hs & He & Hb & Hst & Htk & Ho).
  exists (fun i => if decide (i = b) then mkG LRun None else mkG LDown None). rewrite Hs, He. split.
  - split.
    + intros t. unfold life_ok. case_decide as Hd; cbn.
      * subst. by rewrite Hst.
      * destruct (Ho t Hd) as [-> _]. by left.
    + intros i. unfold hold_ok. by case_decide.
  - intros i. case_decide as Hd; [subst; by rewrite Hb|].
    destruct (Ho i Hd) as [_ [[m ->]| ->]]; done.
Qed.
End System.

(** C10: when harts start and stop each other in any interleaving, and
    the platform's calls to get a hart going succeed, every hart enters the
    supervisor once for each start that was granted to it, in order, with the
    argument, address and mode of that very call; at most one granted start is
    still on its way. *)
Theorem started_with_requested_parameters e answers id_of dom_of b s t :
  (forall hartid a v, answers (EDevStart hartid a) v -> v = 0) ->
  (forall i v, answers (EIpiSend i) v -> v = 0) ->
  reachable (hinit b) (hstep e answers id_of dom_of false) s ->
  log_of t (starts s) = log_of t (entries s) \/
  exists x, log_of t (starts s) = log_of t (entries s) ++ [x].
Proof.
  intros H1 H2 Hr.
  assert (sysinv answers s) as (G & Hi & _).
  { eapply invariant_reachable; [apply sysinv_init| |exact Hr]. intros. by eapply sysinv_step. }
  pose proof (iv_life _ _ Hi t) as Hl. unfold life_ok, armed in Hl. cbn in Hl.
  destruct (lf (G t)); destruct_and?; eauto.
  destruct Hl as [[_ ?]|(_ & _ & _ & ?)]; eauto.
Qed.

(** ** Examples *)

(** Hart [i] takes its next step, the platform answering zero. *)
Definition hexec1 (e : hsm_env) (id_of : Z -> Z) (dom_of : Z -> option sbi_domain) (i : Z) (s : hsys) : option hsys :=
  match thr s i with
  | TRun c (Do o k) =>
      let '(v, m) := exec i o 0 (hm s) in
      Some (mkHsys m (fupd (thr s) i (TRun c (k v))) (log_start c o v (starts s)) (entries s))
  | TRun c (Ret o) =>
      Some (mkHsys (hm s) (fupd (thr s) i (after e id_of dom_of i o)) (starts s) (log_entry i o (entries s)))
  | _ => None
  end.

Fixpoint hexec (e : hsm_env) (id_of : Z -> Z) (dom_of : Z -> option sbi_domain) (l : list Z) (s : hsys) : option hsys :=
  match l with
  | [] => Some s
  | i :: l => match hexec1 e id_of dom_of i s with Some s' => hexec e id_of dom_of l s' | None => None end
  end.

Lemma hexec_rtc e id_of dom_of ws l : forall s s',
  hexec e id_of dom_of l s = Some s' -> rtc (hstep e (fun _ v => v = 0) id_of dom_of ws) s s'.
Proof.
  induction l as [|i l IH]; intros s s' E; cbn in E; [by simplify_eq|].
  destruct (hexec1 e id_of dom_of i s) as [s1|] eqn:E1; [|done]. eapply rtc_l; [|by apply IH].
  unfold hexec1 in E1. destruct (thr s i) as [|c [o|o k]| |] eqn:Et; try done.
  - simplify_eq. by eapply hs_out.
  - destruct (exec i o 0 (hm s)) as [v m] eqn:Ee. simplify_eq. by eapply hs_op.
Qed.

Definition hsm_example : hsm_env := mkEnv None sc_example 0x80000000 true.
Definition id_example (i : Z) : Z := sbi_hartindex_to_hartid sc_example i.

Definition hart_example (st : Z) : hart :=
  mkHart st 0 0 (fun _ => 0) (fun _ => 0) 0 0 (fun r => match r with CSR_MIE => 0x222 | CSR_MIP => 0x2 | _ => 0xb109 end).

(** Hart 0 runs, harts 1 and 2 wait. *)
Definition sys_example : hsys :=
  mkHsys (fun i => hart_example (if i =? 0 then SBI_HSM_STATE_STARTED else SBI_HSM_STATE_STOPPED))
    (fun i => if i =? 0 then TSuper else if (i =? 1) || (i =? 2) then TRun None (Ret (Wait 0)) else THung) [] [].

(** Hart 0 starts the hart with id 2, which comes up. *)
Definition start_example : hsys :=
  set_thr sys_example 0
    (TRun (Some (5, 0x80200000, 1)) (sbi_hsm_hart_start hsm_example None 2 0x80200000 1 5)).

Definition start_schedule : list Z := replicate 9 0 ++ replicate 22 1.

Definition started_example : hsys :=
  default sys_example (hexec hsm_example id_example (fun _ => None) start_schedule start_example).

Lemma started_example_run :
  hexec hsm_example id_example (fun _ => None) start_schedule start_example = Some started_example.
Proof.
  assert (bool_decide (is_Some (hexec hsm_example id_example (fun _ => None) start_schedule start_example)) = true)
    as Hb by (vm_compute; reflexivity).
  apply bool_decide_eq_true in Hb as [s' Hs]. unfold started_example. by rewrite Hs.
Qed.

Lemma sys_example_init : hinit 0 sys_example.
Proof.
  do 5 (split; [done|]). intros i Hi. cbn. rewrite (proj2 (Z.eqb_neq i 0) Hi). split; [done|].
  destruct ((i =? 1) || (i =? 2)); [left; by exists 0|by right].
Qed.

Lemma started_with_requested_parameters_witness :
  log_of 1 (entries started_example) = [(5, 0x80200000, 1)] /\
  (log_of 1 (starts started_example) = log_of 1 (entries started_example) \/
   exists x, log_of 1 (starts started_example) = log_of 1 (entries started_example) ++ [x]).
Proof.
  split; [vm_compute; reflexivity|].
  apply (started_with_requested_parameters hsm_example (fun _ v => v = 0) id_example (fun _ => None) 0
    started_example 1).
  - intros hartid a v Hv. exact Hv.
  - intros i v Hv. exact Hv.
  - exists sys_example. split; [exact sys_example_init|].
    eapply rtc_l; [apply (hs_start _ _ _ _ _ sys_example 0 None 2 0x80200000 1 5); reflexivity|].
    apply (hexec_rtc _ _ _ _ start_schedule). exact started_example_run.
Defined.

(** A hart with id 2, suspended, and a request to start it. *)
Lemma failed_start_redirects_suspended_hart_witness :
  let '(o, s1) := run 0 (fun _ => 0) (sbi_hsm_hart_start hsm_example None 2 0x80400000 1 9)
                    (fun _ => hart_example SBI_HSM_STATE_SUSPENDED) in
  o = Return SBI_EINVAL /\ (run 1 (fun _ => 0) (init_warm_resume hsm_example 1) s1).1 = Resume 9 0x80400000 1.
Proof.
  apply (failed_start_redirects_suspended_hart hsm_example None 2 0x80400000 1 9 (fun _ => 0) 0
    (fun _ => hart_example SBI_HSM_STATE_SUSPENDED)).
  - vm_compute. reflexivity.
  - vm_compute. reflexivity.
  - vm_compute. reflexivity.
  - reflexivity.
  - reflexivity.
Defined.

Definition hsm_domain : sbi_domain :=
  mkDomain 0 (mkHartmask [7; 0]) SPIN_LOCK_UNLOCKED (Some (mkHartmask [7; 0]))
    (Some [mkReg 64 0 0x3f]) 4 0 0x80200000 1 true true true.

Lemma suspend_resume_roundtrip_witness :
  exists s1 s2,
    run 1 (fun _ => 0) (sbi_hsm_hart_suspend hsm_example (Some hsm_domain) 1 SBI_HSM_SUSPEND_NON_RET_DEFAULT
      0x80300000 1 3) (fun _ => hart_example SBI_HSM_STATE_STARTED) = (Warmboot, s1) /\
    run 1 (fun _ => 0) (init_warmboot hsm_example (Some hsm_domain) 1 2) (on 1 (lose_csrs (fun _ => 0)) s1) =
      (Resume 3 0x80300000 1, s2) /\
    h_csr (s2 1) CSR_MIP = 2.
Proof.
  destruct (suspend_resume_roundtrip hsm_example hsm_domain 1 2 SBI_HSM_SUSPEND_NON_RET_DEFAULT
    0x80300000 1 3 (fun _ => 0) (fun _ => hart_example SBI_HSM_STATE_STARTED) (fun _ => 0))
    as (s1 & s2 & H1 & H2 & _ & _ & _ & H3 & _).
  - reflexivity.
  - left. reflexivity.
  - left. reflexivity.
  - vm_compute. reflexivity.
  - right. split; reflexivity.
  - vm_compute. reflexivity.
  - vm_compute. reflexivity.
  - vm_compute. discriminate.
  - reflexivity.
  - reflexivity.
  - exists s1, s2. split; [exact H1|]. split; [exact H2|]. exact H3.
Defined.

