(* ===== verification/Ipi.v ===== *)
(** * Inter-processor interrupts (lib/sbi/sbi_ipi.c)

    The table of IPI events, the interrupt devices, the choice of the harts an
    IPI goes to, and the decoding of the events pending on a hart.  The handlers
    of one hart sending to another while others do the same are in file Tlb,
    which adds the remote fences that use them.

    An event's callbacks are named by [sbi_ipi_event_ops]: the two structures of
    sbi_ipi.c and the one of sbi_tlb.c.  The firmware's counters (sbi_pmu.c) are
    left out.  [ipi_targets_correct] says which harts are chosen. *)

From stdpp Require Import gmap.
From S2P Require Import Prelude Locks Bitops Bitmap Scratch Pmp Memregion Domain Hsm.
Local Open Scope Z_scope.

Abbreviation SBI_IPI_EVENT_MAX := 64.


(** struct sbi_ipi_device; [dev_id] tells devices apart. *)
Record sbi_ipi_device := mkIpiDev {
  dev_id : Z; rating : Z; has_ipi_send : bool; has_ipi_clear : bool }.

Inductive sbi_ipi_event_ops : Type := ipi_smode_ops | ipi_halt_ops | tlb_ops.

#[export] Instance sbi_ipi_event_ops_eq_dec : EqDecision sbi_ipi_event_ops.
Proof. solve_decision. Defined.

(** The file-scope variables. *)
Record ipi_state := mkIpi {
  ipi_ops_array : list (option sbi_ipi_event_ops);
  ipi_dev : option sbi_ipi_device;
  ipi_dev_node_list : list sbi_ipi_device;
  ipi_smode_event : Z; ipi_halt_event : Z; ipi_data_off : Z }.

(** Their initial values. *)
Definition ipi_boot : ipi_state :=
  mkIpi (replicate 64 None) None [] SBI_IPI_EVENT_MAX SBI_IPI_EVENT_MAX 0.

Definition set_ops (st : ipi_state) (a : list (option sbi_ipi_event_ops)) : ipi_state :=
  mkIpi a (ipi_dev st) (ipi_dev_node_list st) (ipi_smode_event st) (ipi_halt_event st) (ipi_data_off st).
Definition set_events (st : ipi_state) (smode halt off : Z) : ipi_state :=
  mkIpi (ipi_ops_array st) (ipi_dev st) (ipi_dev_node_list st) smode halt off.
Definition set_devs (st : ipi_state) (d : option sbi_ipi_device) (l : list sbi_ipi_device) : ipi_state :=
  mkIpi (ipi_ops_array st) d l (ipi_smode_event st) (ipi_halt_event st) (ipi_data_off st).

(** ** Events *)

Definition ops_at (st : ipi_state) (event : Z) : option sbi_ipi_event_ops :=
  default None (ipi_ops_array st !! Z.to_nat event).

(** The event's callbacks, as sbi_ipi_send and sbi_ipi_sync look them up. *)
Definition event_ops (st : ipi_state) (event : Z) : option sbi_ipi_event_ops :=
  if SBI_IPI_EVENT_MAX <=? event then None else ops_at st event.

(** The loop of sbi_ipi_event_create from index [i] on: the first free index. *)
Fixpoint free_event (a : list (option sbi_ipi_event_ops)) (i : Z) : option Z :=
  match a with
  | [] => None
  | None :: _ => Some i
  | Some _ :: a => free_event a (i + 1)
  end.

Definition sbi_ipi_event_create (st : ipi_state) (ops : option sbi_ipi_event_ops) : Z * ipi_state :=
  match ops with
  | None => (SBI_EINVAL, st)
  | Some _ =>
      match free_event (ipi_ops_array st) 0 with
      | Some i => (i, set_ops st (<[Z.to_nat i := ops]> (ipi_ops_array st)))
      | None => (SBI_ENOSPC, st)
      end
  end.

Definition sbi_ipi_event_destroy (st : ipi_state) (event : Z) : ipi_state :=
  if SBI_IPI_EVENT_MAX <=? event then st
  else set_ops st (<[Z.to_nat event := None]> (ipi_ops_array st)).

(** ** Devices *)

(** The harts that a device is told to interrupt, by device. *)
Definition sbi_ipi_raw_send (st : ipi_state) (hartindex : Z) (all_devices : bool) : Z * list (Z * Z) :=
  match ipi_dev st with
  | None => (SBI_EINVAL, [])
  | Some d =>
      if negb (has_ipi_send d) then (SBI_EINVAL, [])
      else if all_devices
      then (0, (fun e => (dev_id e, hartindex)) <$> filter (fun e => has_ipi_send e = true) (ipi_dev_node_list st))
      else (0, [(dev_id d, hartindex)])
  end.

(** The devices on which the hart clears its interrupt. *)
Definition sbi_ipi_raw_clear (st : ipi_state) (all_devices : bool) : list Z :=
  if all_devices then dev_id <$> filter (fun e => has_ipi_clear e = true) (ipi_dev_node_list st)
  else match ipi_dev st with
       | Some d => if has_ipi_clear d then [dev_id d] else []
       | None => []
       end.

(** [alloc_ok]: the list entry could be allocated. *)
Definition sbi_ipi_add_device (st : ipi_state) (dev : option sbi_ipi_device) (alloc_ok : bool) : ipi_state :=
  match dev with
  | None => st
  | Some d =>
      if negb alloc_ok then st
      else
        let best := match ipi_dev st with Some b => if rating b <? rating d then Some d else Some b | None => Some d end in
        set_devs st best (ipi_dev_node_list st ++ [d])
  end.

(** sbi_ipi_init up to the hart's own registers; [off] is what
    sbi_scratch_alloc_offset answers. *)
Definition sbi_ipi_init (st : ipi_state) (off : Z) (cold_boot : bool) : Z * ipi_state :=
  if cold_boot then
    if off =? 0 then (SBI_ENOMEM, set_events st (ipi_smode_event st) (ipi_halt_event st) 0)
    else
      let st := set_events st (ipi_smode_event st) (ipi_halt_event st) off in
      let '(ret, st) := sbi_ipi_event_create st (Some ipi_smode_ops) in
      if ret <? 0 then (ret, st)
      else
        let st := set_events st ret (ipi_halt_event st) off in
        let '(ret, st) := sbi_ipi_event_create st (Some ipi_halt_ops) in
        if ret <? 0 then (ret, st) else (0, set_events st (ipi_smode_event st) ret off)
  else if ipi_data_off st =? 0 then (SBI_ENOMEM, st)
  else if (SBI_IPI_EVENT_MAX <=? ipi_smode_event st) || (SBI_IPI_EVENT_MAX <=? ipi_halt_event st)
  then (SBI_ENOSPC, st)
  else (0, st).

(** ** The harts an IPI goes to *)

(** The loop of sbi_ipi_send_many over the bits of the caller's mask;
    sbi_hartmask_set_hartid takes the hart id as a 32-bit number. *)
Fixpoint hmask_loop (fuel : nat) (sc : scratch_state) (i hmask : Z) (m : sbi_hartmask) : sbi_hartmask :=
  match fuel with
  | O => m
  | S fuel =>
      if hmask =? 0 then m
      else
        let m := if truthy (Z.land hmask 1) then sbi_hartmask_set_hartid sc (u32 i) m else m in
        hmask_loop fuel sc (u64 (i + 1)) (Z.shiftr hmask 1) m
  end.

(** sbi_ipi_send_many up to the sending: a code to return at once, or the
    target harts.  [junk] is what the stack held in target_mask; the domain's
    lock is free unless the result is [None]. *)
Definition ipi_targets (sc : scratch_state) (hs : hmem) (dom : option sbi_domain) (junk : sbi_hartmask)
    (hmask hbase : Z) : option (Z + sbi_hartmask) :=
  if (hmask =? 0) && negb (hbase =? ULONG_MAX) then Some (inl 0)
  else
    match sbi_hsm_hart_interruptible_mask sc hs dom junk with
    | None => None
    | Some (rc, target_mask, _) =>
        if truthy rc then Some (inl rc)
        else if negb (hbase =? ULONG_MAX) then
          let count := sbi_popcount hmask in
          let tmp_mask := hmask_loop 64 sc hbase hmask (mkHartmask [0; 0]) in
          let target_mask := sbi_hartmask_and target_mask target_mask tmp_mask in
          if negb (sbi_hartmask_weight target_mask =? count) then Some (inl SBI_EINVAL)
          else Some (inr target_mask)
        else Some (inr target_mask)
    end.

(** ** Events are distinct and devices the best rated *)

Lemma free_event_spec a : forall i r,
  free_event a i = Some r ->
  i <= r < i + Z.of_nat (length a) /\ a !! Z.to_nat (r - i) = Some None /\
  forall k, i <= k < r -> exists o, a !! Z.to_nat (k - i) = Some (Some o).
Proof.
  induction a as [|[o|] a IH]; intros i r H; simpl in H; [done| |].
  - apply IH in H as (Hr & Hn & Hl). cbn [length].
    replace (r - i) with (Z.succ (r - (i + 1))) by lia. rewrite Z2Nat.inj_succ by lia.
    split; [lia|]. split; [exact Hn|]. intros k Hk.
    destruct (decide (k = i)) as [->|Hne]; [exists o; by rewrite Z.sub_diag|].
    replace (k - i) with (Z.succ (k - (i + 1))) by lia. rewrite Z2Nat.inj_succ by lia.
    apply Hl. lia.
  - simplify_eq. cbn [length]. rewrite Z.sub_diag. split; [lia|]. split; [done|]. lia.
Qed.

Lemma free_event_none a i : free_event a i = None -> Forall (fun o => o <> None) a.
Proof.
  revert i. induction a as [|[o|] a IH]; intros i H; simpl in H; [by constructor| |done].
  constructor; [done|]. by apply (IH (i + 1)).
Qed.

(** A created event is the least free one and no other event changes; without
    a free one nothing changes. *)
Lemma event_create_spec st o ret st' :
  length (ipi_ops_array st) = 64%nat ->
  sbi_ipi_event_create st (Some o) = (ret, st') ->
  length (ipi_ops_array st') = 64%nat /\
  ((ret = SBI_ENOSPC /\ st' = st /\ Forall (fun o => o <> None) (ipi_ops_array st)) \/
   (0 <= ret < SBI_IPI_EVENT_MAX /\ event_ops st ret = None /\ event_ops st' ret = Some o /\
    (forall e, 0 <= e -> e <> ret -> event_ops st' e = event_ops st e) /\
    forall e, 0 <= e < ret -> event_ops st e <> None)).
Proof.
  intros Hlen. unfold sbi_ipi_event_create. destruct (free_event _ 0) as [i|] eqn:E; intros; simplify_eq.
  - apply free_event_spec in E as (Hr & Hn & Hl). rewrite Z.sub_0_r in Hn.
    rewrite Hlen in Hr. cbn [ipi_ops_array set_ops]. rewrite length_insert. split; [done|]. right.
    unfold event_ops, ops_at in *. cbn [ipi_ops_array set_ops].
    rewrite (proj2 (Z.leb_gt 64 ret)) by lia.
    split; [lia|]. split; [by rewrite Hn|]. split; [by rewrite list_lookup_insert_eq by lia|]. split.
    + intros e He Hne. by rewrite list_lookup_insert_ne by lia.
    + intros e He. rewrite (proj2 (Z.leb_gt 64 e)) by lia.
      destruct (Hl e ltac:(lia)) as [o' Ho]. rewrite Z.sub_0_r in Ho. by rewrite Ho.
  - split; [done|]. left. split; [done|]. split; [done|]. by apply (free_event_none _ 0).
Qed.

(** The preferred device is among the registered ones, and none is rated
    higher. *)
Definition best_device (st : ipi_state) : Prop :=
  match ipi_dev st with
  | None => ipi_dev_node_list st = []
  | Some d => d ∈ ipi_dev_node_list st /\ Forall (fun e => rating e <= rating d) (ipi_dev_node_list st)
  end.

Lemma add_device_best st dev ok : best_device st -> best_device (sbi_ipi_add_device st dev ok).
Proof.
  unfold best_device, sbi_ipi_add_device. destruct dev as [d|]; [|done]. destruct ok; [|done].
  cbn [negb]. destruct (ipi_dev st) as [b|]; cbn [ipi_dev set_devs ipi_dev_node_list].
  - intros [Hin Hall]. case_bool; bool_to_prop; rewrite elem_of_app, Forall_app, Forall_singleton.
    + split; [right; by apply list_elem_of_singleton|]. split; [|lia].
      eapply Forall_impl; [exact Hall|]. cbn. lia.
    + split; [by left|]. split; [done|lia].
  - intros ->. cbn. rewrite Forall_singleton. split; [by apply list_elem_of_singleton|lia].
Qed.

(** ** Which harts are chosen *)

Lemma clear_loop sc hs l : forall m,
  hm_wf m -> Forall (fun i => 0 <= i) l ->
  let f := fun m i => if interruptible (sbi_hsm_hart_state sc hs i) then m else sbi_hartmask_clear_hartindex i m in
  hm_wf (foldl f m l) /\
  forall k, 0 <= k < 128 -> hm_mem (foldl f m l) k =
    hm_mem m k && negb (bool_decide (k ∈ l) && negb (interruptible (sbi_hsm_hart_state sc hs k))).
Proof.
  induction l as [|i l IH]; intros m Hm Hl; cbn zeta; cbn [foldl].
  { split; [done|]. intros k Hk. by rewrite andb_true_r. }
  apply Forall_cons in Hl as [Hi Hl].
  destruct (interruptible (sbi_hsm_hart_state sc hs i)) eqn:Ei.
  - destruct (IH m Hm Hl) as [Hw He]. split; [exact Hw|]. intros k Hk. rewrite He by done.
    destruct (decide (k = i)) as [->|Hne].
    + rewrite Ei. by rewrite !andb_false_r.
    + rewrite (bool_decide_ext (k ∈ l) (k ∈ i :: l)); [done|]. set_solver.
  - destruct (hm_clear_spec i m Hm Hi) as [Hw He].
    destruct (IH _ Hw Hl) as [Hw' He']. split; [exact Hw'|]. intros k Hk. rewrite He', He by done.
    destruct (Z.eqb_spec k i) as [->|Hne].
    + rewrite Ei, (bool_decide_eq_true_2 (i ∈ i :: l)) by left. cbn. by rewrite andb_false_r.
    + rewrite (bool_decide_ext (k ∈ l) (k ∈ i :: l)) by set_solver. done.
Qed.

Lemma clear_uninterruptible_spec sc hs m :
  hm_wf m -> hm_wf (clear_uninterruptible sc hs m) /\
  forall k, 0 <= k < 128 -> hm_mem (clear_uninterruptible sc hs m) k =
    hm_mem m k && interruptible (sbi_hsm_hart_state sc hs k).
Proof.
  intros Hm. destruct (clear_loop sc hs (hartmask_indices m) m Hm) as [Hw He].
  { apply Forall_forall. intros i Hi%elem_of_indices; [lia|done]. }
  split; [exact Hw|]. intros k Hk. unfold clear_uninterruptible. rewrite He by done.
  destruct (hm_mem m k) eqn:E; [|done]. rewrite !andb_true_l.
  rewrite bool_decide_eq_true_2 by (by apply elem_of_indices). rewrite andb_true_l. by rewrite negb_involutive.
Qed.

Lemma hartid_to_index_cases sc h :
  let r := sbi_hartid_to_hartindex sc h in
  (0 <= r /\ default INVALID_INDEX (hartindex_to_hartid_table sc !! Z.to_nat r) = h) \/ r = INVALID_INDEX.
Proof.
  cbv zeta. unfold sbi_hartid_to_hartindex, for_each_hartindex.
  destruct (decide (0 <= sbi_scratch_hart_count sc)) as [Hc|Hc]; [|right; by rewrite seqZ_nil by lia].
  pose proof (search_hartid_spec (hartindex_to_hartid_table sc) h (Z.to_nat (sbi_scratch_hart_count sc)) 0)
    as H. cbv zeta in H. rewrite Z2Nat.id in H by lia.
  destruct H as [(? & H & _)|[H _]]; [left; split; [lia|exact H]|by right].
Qed.

Lemma hartid_to_index_nonneg sc h : 0 <= sbi_hartid_to_hartindex sc h.
Proof. destruct (hartid_to_index_cases sc h) as [[? _]| ->]; [done|unfold INVALID_INDEX; lia]. Qed.

Lemma hartid_to_index_id sc h :
  sbi_hartid_to_hartindex sc h < 128 ->
  default INVALID_INDEX (hartindex_to_hartid_table sc !! Z.to_nat (sbi_hartid_to_hartindex sc h)) = h.
Proof.
  intros Hr. destruct (hartid_to_index_cases sc h) as [[_ H]|H]; [exact H|].
  rewrite H in Hr. unfold INVALID_INDEX in Hr. lia.
Qed.

(** The hart the [k]-th bit of the caller's mask names. *)
Definition named_hart (sc : scratch_state) (hbase k : Z) : Z := sbi_hartid_to_hartindex sc (u32 (hbase + k)).

Lemma named_hart_inj sc hbase j k :
  0 <= j < 64 -> 0 <= k < 64 -> named_hart sc hbase j < 128 ->
  named_hart sc hbase j = named_hart sc hbase k -> j = k.
Proof.
  intros Hj Hk Hr E. pose proof (hartid_to_index_id sc (u32 (hbase + j)) Hr) as H1.
  unfold named_hart in *. rewrite E in Hr. pose proof (hartid_to_index_id sc (u32 (hbase + k)) Hr) as H2.
  rewrite E, H2 in H1. unfold wrap in H1.
  assert ((hbase + k - (hbase + j)) mod 2 ^ 32 = 0) as Hd.
  { rewrite Zminus_mod, H1, Z.sub_diag. done. }
  apply Z.mod_divide in Hd as [q Hq]; lia.
Qed.

Lemma wrap_wrap_le v w x : 0 <= v <= w -> wrap v (wrap w x) = wrap v x.
Proof.
  intros H. unfold wrap. symmetry. rewrite <- (Z.mod_mod_divide x (2 ^ w) (2 ^ v)); [done|].
  exists (2 ^ (w - v)). rewrite <- Z.pow_add_r by lia. f_equal. lia.
Qed.

(** The bits of the caller's mask, in order. *)
Definition named_bits (hmask : Z) : list Z := filter (fun k => Z.testbit hmask k = true) (seqZ 0 64).

Lemma elem_of_named_bits hmask k : k ∈ named_bits hmask <-> 0 <= k < 64 /\ Z.testbit hmask k = true.
Proof. unfold named_bits. rewrite list_elem_of_filter, elem_of_seqZ. split; intros [? ?]; split; done || lia. Qed.

Lemma hmask_loop_spec sc n : forall i hmask m,
  hm_wf m -> 0 <= hmask < 2 ^ Z.of_nat n ->
  hm_wf (hmask_loop n sc i hmask m) /\
  forall k, 0 <= k < 128 -> (hm_mem (hmask_loop n sc i hmask m) k = true <->
    hm_mem m k = true \/ exists j, 0 <= j < Z.of_nat n /\ Z.testbit hmask j = true /\ named_hart sc i j = k).
Proof.
  induction n as [|n IH]; intros i hmask m Hm Hh; cbn [hmask_loop].
  { split; [done|]. intros k Hk. split; [by left|]. intros [?|(j & ? & _)]; [done|lia]. }
  destruct (Z.eqb_spec hmask 0) as [->|Hne].
  { split; [done|]. intros k Hk. split; [by left|]. intros [?|(j & _ & Hj & _)]; [done|].
    by rewrite Z.testbit_0_l in Hj. }
  set (m1 := if truthy (Z.land hmask 1) then _ else m).
  assert (Z.testbit hmask 0 = truthy (Z.land hmask 1)) as Hb0.
  { unfold truthy. change 1 with (Z.ones 1). rewrite Z.land_ones by lia. change (2 ^ 1) with 2.
    pose proof (Z.bit0_mod hmask) as H0. rewrite <- H0. by destruct (Z.testbit hmask 0). }
  assert (hm_wf m1 /\ forall k, 0 <= k < 128 -> (hm_mem m1 k = true <->
    hm_mem m k = true \/ (Z.testbit hmask 0 = true /\ named_hart sc i 0 = k))) as [Hw1 He1].
  { unfold m1. rewrite Hb0. destruct (truthy (Z.land hmask 1)).
    - unfold sbi_hartmask_set_hartid. unfold named_hart. rewrite Z.add_0_r.
      destruct (hm_set_spec _ m Hm (hartid_to_index_nonneg sc (u32 i))) as [Hw He].
      split; [exact Hw|]. intros k Hk. rewrite He by done.
      destruct (Z.eqb_spec k (sbi_hartid_to_hartindex sc (u32 i))); naive_solver.
    - split; [done|]. intros k Hk. naive_solver. }
  destruct (IH (u64 (i + 1)) (Z.shiftr hmask 1) m1 Hw1) as [Hw He].
  { rewrite Z.shiftr_div_pow2 by lia. rewrite Nat2Z.inj_succ, Z.pow_succ_r in Hh by lia.
    split; [apply Z.div_pos; lia|apply Z.div_lt_upper_bound; lia]. }
  split; [exact Hw|]. intros k Hk. rewrite He, He1 by done.
  assert (forall j, named_hart sc (u64 (i + 1)) j = named_hart sc i (j + 1)) as En.
  { intros j. unfold named_hart. f_equal.
    rewrite <- (wrap_add_l 32 (u64 (i + 1)) j), wrap_wrap_le, wrap_add_l by lia. f_equal. lia. }
  setoid_rewrite En. split.
  - intros [[?|[? ?]]|(j & Hj & Hb & Hn)]; [by left|right; exists 0; split_and!; done || lia|].
    right. exists (j + 1). rewrite Z.shiftr_spec in Hb by lia. split_and!; [lia|lia|done|done].
  - intros [?|(j & Hj & Hb & Hn)]; [by left; left|].
    destruct (decide (j = 0)) as [->|Hj0]; [left; right; done|]. right. exists (j - 1).
    rewrite Z.shiftr_spec by lia. replace (j - 1 + 1) with j by lia. split_and!; [lia|lia|done|done].
Qed.

(** A hart of the domain in a state that takes interrupts. *)
Definition available (sc : scratch_state) (hs : hmem) (d : sbi_domain) (i : Z) : bool :=
  (i <? 128) && hm_mem (assigned_harts d) i && interruptible (sbi_hsm_hart_state sc hs i).

Record domain_harts_ok (d : sbi_domain) : Prop := {
  dh_wf : hm_wf (assigned_harts d); dh_lock : lock_free (assigned_harts_lock d) }.

Lemma interruptible_mask_spec sc hs d junk :
  hm_wf junk -> domain_harts_ok d ->
  exists m d', sbi_hsm_hart_interruptible_mask sc hs (Some d) junk = Some (0, m, d') /\ hm_wf m /\
    forall k, 0 <= k < 128 -> hm_mem m k = available sc hs d k.
Proof.
  intros Hj [Hd Hl]. unfold sbi_hsm_hart_interruptible_mask, sbi_domain_get_assigned_hartmask.
  rewrite spin_lock_free by done. cbn [mbind option_bind].
  destruct (hm_copy_spec junk (assigned_harts d) Hj Hd) as [Hw He].
  destruct (clear_uninterruptible_spec sc hs _ Hw) as [Hw' He'].
  eexists _, _. split; [reflexivity|]. split; [exact Hw'|]. intros k Hk. rewrite He', He by done.
  unfold available. by rewrite (proj2 (Z.ltb_lt _ _)) by lia.
Qed.

Lemma ipi_targets_wf sc hs dom junk hmask hbase m :
  hm_wf junk -> in_range 64 hmask -> (forall d, dom = Some d -> domain_harts_ok d) ->
  ipi_targets sc hs dom junk hmask hbase = Some (inr m) -> hm_wf m.
Proof.
  intros Hj Hh Hd. unfold ipi_targets. case_bool; [done|].
  assert (forall rc m' d', sbi_hsm_hart_interruptible_mask sc hs dom junk = Some (rc, m', d') -> hm_wf m') as Hw.
  { intros rc m' d' Ei. destruct dom as [d|].
    - destruct (interruptible_mask_spec sc hs d junk Hj (Hd d eq_refl)) as (m1 & d1 & E1 & Hm & _).
      rewrite E1 in Ei. by simplify_eq.
    - unfold sbi_hsm_hart_interruptible_mask, sbi_domain_get_assigned_hartmask in Ei. cbn [truthy negb Z.eqb] in Ei.
      destruct (hm_clear_all_spec junk Hj) as [Hc _].
      destruct (clear_uninterruptible_spec sc hs _ Hc) as [Hw _]. by simplify_eq. }
  destruct (sbi_hsm_hart_interruptible_mask sc hs dom junk) as [[[rc m'] d']|]; [|done].
  specialize (Hw _ _ _ eq_refl). destruct (truthy rc); [done|]. destruct (negb (hbase =? ULONG_MAX)).
  - case_bool; intros; simplify_eq. assert (hm_wf (mkHartmask [0; 0])) as Hz
      by (split; [done|repeat constructor; unfold in_range; lia]).
    destruct (hmask_loop_spec sc 64 hbase hmask _ Hz Hh) as [Hl _].
    by destruct (hm_and_spec m' m' _ Hw Hw Hl).
  - intros. by simplify_eq.
Qed.

Lemma length_filter_lt {A} (P : A -> Prop) `{!forall x, Decision (P x)} (l : list A) :
  length (filter P l) = length l <-> Forall P l.
Proof.
  induction l as [|x l IH]; [split; [by constructor|done]|].
  rewrite filter_cons, Forall_cons. pose proof (length_filter P l) as Hle.
  case_decide; cbn [length]; [rewrite <- IH|]; split; intros; try lia; try (by destruct_and!).
  split; [done|lia].
Qed.

Lemma filter_all {A} (P : A -> Prop) `{!forall x, Decision (P x)} (l : list A) : Forall P l -> filter P l = l.
Proof. induction 1 as [|x l Hx Hl IH]; [done|]. by rewrite filter_cons, decide_True, IH by done. Qed.

(** The chosen harts are the images of the named bits that are available. *)
Lemma chosen_harts sc hs d hbase hmask m t :
  in_range 64 hmask -> hm_wf m -> (forall k, 0 <= k < 128 -> hm_mem m k = available sc hs d k) ->
  t = sbi_hartmask_and m m (hmask_loop 64 sc hbase hmask (mkHartmask [0; 0])) ->
  hm_wf t /\
  let l := named_hart sc hbase <$> filter (fun k => available sc hs d (named_hart sc hbase k) = true)
             (named_bits hmask) in
  NoDup l /\ hartmask_set t = list_to_set l.
Proof.
  intros Hh Hm He ->.
  assert (hm_wf (mkHartmask [0; 0])) as Hz by (split; [done|repeat constructor; unfold in_range; lia]).
  destruct (hmask_loop_spec sc 64 hbase hmask _ Hz Hh) as [Hw Hl].
  destruct (hm_and_spec m m _ Hm Hm Hw) as [Hwt Het]. split; [exact Hwt|]. cbv zeta. split.
  - apply NoDup_fmap_2_strong; [|apply NoDup_filter, NoDup_filter, NoDup_seqZ].
    intros j k [Hj Hjb]%list_elem_of_filter [_ Hkb]%list_elem_of_filter E.
    apply elem_of_named_bits in Hjb as [? _], Hkb as [? _].
    apply (named_hart_inj sc hbase); [lia|lia| |done]. unfold available in Hj. lia.
  - apply set_eq. intros i. rewrite elem_of_hartmask_set, elem_of_list_to_set, list_elem_of_fmap by done.
    setoid_rewrite list_elem_of_filter. setoid_rewrite elem_of_named_bits. split.
    + intros [Hi Ht]. rewrite Het, He in Ht by done. apply andb_prop in Ht as [Ha Hn].
      apply Hl in Hn as [Hn|(j & Hj & Hb & <-)]; [|by exists j|done].
      exfalso. revert Hn. unfold hm_mem, bm_test. cbn [hm_bits].
      replace (rd [0; 0] _) with 0; [by rewrite Z.testbit_0_l|].
      unfold rd. by destruct (Z.to_nat (i / 64)) as [|[|[|?]]].
    + intros (j & -> & Ha & Hj & Hb). pose proof (hartid_to_index_nonneg sc (u32 (hbase + j))) as H0.
      fold (named_hart sc hbase j) in H0.
      assert (0 <= named_hart sc hbase j < 128) as Hr by (unfold available in Ha; lia).
      split; [done|]. rewrite Het, He by done. rewrite Ha, andb_true_l. apply Hl; [done|]. right. by exists j.
Qed.

Lemma popcount_named hmask : in_range 64 hmask -> sbi_popcount hmask = Z.of_nat (length (named_bits hmask)).
Proof.
  intros Hh. rewrite popcount_spec, sum_bits by done. f_equal. unfold named_bits.
  apply (length_filter_fmap Z.of_nat (fun k => Z.testbit hmask (Z.of_nat k)) (Z.testbit hmask)). done.
Qed.

(** C33: an IPI goes to the harts the caller names, or, with the base at its
    maximum, to every hart of the domain; only harts that are assigned to the
    domain and in a state that takes interrupts are ever chosen, and naming any
    other hart is an error.  Hart ids count modulo 2^32. *)
Theorem ipi_targets_correct sc hs d junk hmask hbase :
  hm_wf junk -> domain_harts_ok d -> in_range 64 hmask -> in_range 64 hbase ->
  let r := ipi_targets sc hs (Some d) junk hmask hbase in
  (hbase <> ULONG_MAX -> hmask = 0 -> r = Some (inl 0)) /\
  (hbase = ULONG_MAX -> exists m, r = Some (inr m) /\ hm_wf m /\
     forall i, 0 <= i -> (i ∈ hartmask_set m <-> available sc hs d i = true)) /\
  (hbase <> ULONG_MAX -> hmask <> 0 ->
     (forall k, k ∈ named_bits hmask -> available sc hs d (named_hart sc hbase k) = true) ->
     exists m, r = Some (inr m) /\ hm_wf m /\
       hartmask_set m = list_to_set (named_hart sc hbase <$> named_bits hmask)) /\
  (hbase <> ULONG_MAX -> hmask <> 0 ->
     (exists k, k ∈ named_bits hmask /\ available sc hs d (named_hart sc hbase k) = false) ->
     r = Some (inl SBI_EINVAL)).
Proof.
  intros Hj Hd Hm Hb. cbv zeta.
  destruct (interruptible_mask_spec sc hs d junk Hj Hd) as (m & d' & E & Hw & He).
  unfold ipi_targets. rewrite E. cbn [truthy negb Z.eqb].
  split; [intros H1 ->; by rewrite (proj2 (Z.eqb_neq _ _) H1)|]. split.
  { intros ->. rewrite Z.eqb_refl. cbn [negb]. rewrite andb_false_r. exists m. split; [done|].
    split; [done|]. intros i Hi. rewrite elem_of_hartmask_set by done. split.
    - intros [Hr H]. by rewrite <- He.
    - intros H. assert (i < 128) by (unfold available in H; lia). rewrite He by lia. split; [lia|done]. }
  destruct (chosen_harts sc hs d hbase hmask m _ Hm Hw He eq_refl) as [Hwt [Hnd Hset]].
  set (t := sbi_hartmask_and m m _) in *.
  assert (sbi_hartmask_weight t = sbi_popcount hmask <->
    Forall (fun k => available sc hs d (named_hart sc hbase k) = true) (named_bits hmask)) as Hcount.
  { unfold sbi_hartmask_weight. rewrite bitmap_weight_spec by (apply Hwt || done).
    unfold SBI_HARTMASK_MAX_BITS. rewrite <- size_hartmask_set, Hset, size_list_to_set by done.
    rewrite length_fmap, popcount_named by done.
    rewrite Nat2Z.inj_iff. apply length_filter_lt. }
  split; intros H1 H2 Hall; rewrite (proj2 (Z.eqb_neq _ _) H2), (proj2 (Z.eqb_neq _ _) H1); cbn [negb andb].
  - assert (Forall (fun k => available sc hs d (named_hart sc hbase k) = true) (named_bits hmask)) as Hf
      by (by apply Forall_forall). rewrite (proj2 (Z.eqb_eq _ _) (proj2 Hcount Hf)). cbn [negb].
    exists t. split; [done|]. split; [done|]. rewrite Hset. do 2 f_equal.
    by apply filter_all.
  - destruct Hall as (k & Hk & Ha). rewrite (proj2 (Z.eqb_neq _ _)); [done|].
    intros Hw0. apply Hcount in Hw0. rewrite Forall_forall in Hw0. specialize (Hw0 k Hk). congruence.
Qed.

(** Harts 0 and 2 are started, hart 1 is stopped; the ids of the three are 4, 2
    and 7. *)
Definition hs_example : hmem := fun i =>
  hart_example (if i =? 1 then SBI_HSM_STATE_STOPPED else SBI_HSM_STATE_STARTED).

Lemma ipi_targets_correct_witness :
  (exists m, ipi_targets sc_example hs_example (Some hsm_domain) (mkHartmask [0; 0]) 9 4 = Some (inr m) /\
     hm_wf m /\ hartmask_set m = list_to_set (named_hart sc_example 4 <$> named_bits 9)) /\
  ipi_targets sc_example hs_example (Some hsm_domain) (mkHartmask [0; 0]) 5 2 = Some (inl SBI_EINVAL).
Proof.
  assert (hm_wf (mkHartmask [0; 0])) as Hz by (split; [done|repeat constructor; unfold in_range; lia]).
  assert (domain_harts_ok hsm_domain) as Hd.
  { split; [split; [done|repeat constructor; unfold in_range; cbn; lia]|apply lock_free_init]. }
  split.
  - apply (ipi_targets_correct sc_example hs_example hsm_domain (mkHartmask [0; 0]) 9 4);
      [exact Hz|exact Hd|unfold in_range; lia|unfold in_range; lia|discriminate|discriminate|].
    change (named_bits 9) with [0; 3]. intros k Hk.
    repeat (apply elem_of_cons in Hk as [->|Hk]; [vm_compute; reflexivity|]). by apply elem_of_nil in Hk.
  - apply (ipi_targets_correct sc_example hs_example hsm_domain (mkHartmask [0; 0]) 5 2);
      [exact Hz|exact Hd|unfold in_range; lia|unfold in_range; lia|discriminate|discriminate|].
    exists 0. split; [apply elem_of_named_bits; split; [lia|done]|vm_compute; reflexivity].
Defined.
