(* ===== verification/Tlb.v ===== *)
(** * Remote fences (lib/sbi/sbi_tlb.c, lib/sbi/sbi_ecall_rfence.c and the
    senders of lib/sbi/sbi_ipi.c)

    A supervisor asks its firmware to run a fence on other harts.  The request
    is queued in a FIFO of each target, merged with a queued one where the
    address ranges allow it, and an IPI tells the target; the sender waits
    until a counter of its own has gone down once per target.

    [hart_step] is the next access to shared memory of one hart, through
    sbi_tlb_request, sbi_ipi_send_many, sbi_ipi_send, tlb_update, tlb_sync and
    sbi_ipi_process; file Rfence interleaves the harts.  A call of the FIFO is one
    access: its lock makes it so (files Locks and Fifo), and [tlb_fifo_refines]
    relates the list of requests used here to the bytes in the FIFO.  Harts do
    not change their HSM state while fences run, except that a halted hart runs
    no more.  What each fence instruction flushes ([flushes]) is that of the
    privileged architecture manual.

    The contract of the call is in file Rfence; it needs address ranges that do
    not wrap and are not the (0, 0) form of a full flush ([tinfo_ok]). *)

From stdpp Require Import gmap.
From S2P Require Import Prelude Strings Locks Fifo Bitops Bitmap Scratch Pmp Memregion Domain Hsm Ipi.
Local Open Scope Z_scope.

Abbreviation PAGE_SIZE := 4096.
Abbreviation SBI_TLB_FLUSH_ALL := ULONG_MAX.

Abbreviation SBI_TLB_FENCE_I := 0.
Abbreviation SBI_TLB_SFENCE_VMA := 1.
Abbreviation SBI_TLB_SFENCE_VMA_ASID := 2.
Abbreviation SBI_TLB_HFENCE_GVMA_VMID := 3.
Abbreviation SBI_TLB_HFENCE_GVMA := 4.
Abbreviation SBI_TLB_HFENCE_VVMA_ASID := 5.
Abbreviation SBI_TLB_HFENCE_VVMA := 6.
Abbreviation SBI_TLB_TYPE_MAX := 7.

Abbreviation HGATP_VMID_SHIFT := 44.
Abbreviation HGATP_VMID_MASK := 0x03FFF00000000000.

Record sbi_tlb_info := mkTinfo {
  ti_start : Z; ti_size : Z; ti_asid : Z; ti_vmid : Z; ti_type : Z; ti_smask : sbi_hartmask }.

(** SBI_HARTMASK_INIT_EXCEPT. *)
Definition SBI_HARTMASK_INIT_EXCEPT (sc : scratch_state) (hartid : Z) : sbi_hartmask :=
  mkHartmask (bitmap_zero_except true [0; 0] (sbi_hartid_to_hartindex sc hartid) SBI_HARTMASK_MAX_BITS).

Definition SBI_TLB_INFO_INIT (sc : scratch_state) (start size asid vmid type src : Z) : sbi_tlb_info :=
  mkTinfo start size (u16 asid) (u16 vmid) type (SBI_HARTMASK_INIT_EXCEPT sc src).

(** ** Fences on one hart *)

(** The fence instructions; those on a guest's first stage act on the guest
    whose identifier [hgatp] holds at that time. *)
Inductive fence : Type :=
| FenceI
| SfenceAll | SfenceVa (va : Z) | SfenceAsid (asid : Z) | SfenceVaAsid (va asid : Z)
| HfenceGvmaAll | HfenceGvmaGpa (gpa : Z) | HfenceGvmaVmid (vmid : Z) | HfenceGvmaVmidGpa (gpa vmid : Z)
| HfenceVvmaAll (hgatp : Z) | HfenceVvmaVa (hgatp va : Z)
| HfenceVvmaAsid (hgatp asid : Z) | HfenceVvmaAsidVa (hgatp va asid : Z).

Definition flush_everything (ti : sbi_tlb_info) : bool :=
  ((ti_start ti =? 0) && (ti_size ti =? 0)) || (ti_size ti =? SBI_TLB_FLUSH_ALL).

(** The values of [i] in the loops over pages. *)
Fixpoint page_loop (fuel : nat) (size i : Z) : list Z :=
  match fuel with
  | O => []
  | S fuel => if i <? size then i :: page_loop fuel size (u64 (i + PAGE_SIZE)) else []
  end.

Definition page_offsets (size : Z) : list Z := page_loop (Z.to_nat (size / PAGE_SIZE + 1)) size 0.

(** The addresses [start + i] of the loops. *)
Definition flush_addrs (ti : sbi_tlb_info) : list Z :=
  (fun i => u64 (ti_start ti + i)) <$> page_offsets (ti_size ti).

Definition vmid_hgatp (ti : sbi_tlb_info) : Z := Z.land (shl64 (ti_vmid ti) HGATP_VMID_SHIFT) HGATP_VMID_MASK.

Definition sbi_tlb_local_hfence_vvma (ti : sbi_tlb_info) (hgatp : Z) : list fence * Z :=
  let saved := hgatp in
  let hgatp := vmid_hgatp ti in
  (if flush_everything ti then [HfenceVvmaAll hgatp] else HfenceVvmaVa hgatp <$> flush_addrs ti, saved).

Definition sbi_tlb_local_hfence_gvma (ti : sbi_tlb_info) : list fence :=
  if flush_everything ti then [HfenceGvmaAll]
  else (fun a => HfenceGvmaGpa (Z.shiftr a 2)) <$> flush_addrs ti.

Definition sbi_tlb_local_sfence_vma (ti : sbi_tlb_info) : list fence :=
  if flush_everything ti then [SfenceAll] else SfenceVa <$> flush_addrs ti.

Definition sbi_tlb_local_hfence_vvma_asid (ti : sbi_tlb_info) (hgatp : Z) : list fence * Z :=
  let saved := hgatp in
  let hgatp := vmid_hgatp ti in
  (if flush_everything ti then [HfenceVvmaAsid hgatp (ti_asid ti)]
   else (fun a => HfenceVvmaAsidVa hgatp a (ti_asid ti)) <$> flush_addrs ti, saved).

Definition sbi_tlb_local_hfence_gvma_vmid (ti : sbi_tlb_info) : list fence :=
  if flush_everything ti then [HfenceGvmaVmid (ti_vmid ti)]
  else (fun a => HfenceGvmaVmidGpa (Z.shiftr a 2) (ti_vmid ti)) <$> flush_addrs ti.

Definition sbi_tlb_local_sfence_vma_asid (ti : sbi_tlb_info) : list fence :=
  if flush_everything ti then [SfenceAsid (ti_asid ti)]
  else (fun a => SfenceVaAsid a (ti_asid ti)) <$> flush_addrs ti.

Definition sbi_tlb_local_fence_i (ti : sbi_tlb_info) : list fence := [FenceI].

(** The instructions executed and the new [hgatp]. *)
Definition tlb_entry_local_process (ti : sbi_tlb_info) (hgatp : Z) : list fence * Z :=
  let t := ti_type ti in
  if t =? SBI_TLB_FENCE_I then (sbi_tlb_local_fence_i ti, hgatp)
  else if t =? SBI_TLB_SFENCE_VMA then (sbi_tlb_local_sfence_vma ti, hgatp)
  else if t =? SBI_TLB_SFENCE_VMA_ASID then (sbi_tlb_local_sfence_vma_asid ti, hgatp)
  else if t =? SBI_TLB_HFENCE_GVMA_VMID then (sbi_tlb_local_hfence_gvma_vmid ti, hgatp)
  else if t =? SBI_TLB_HFENCE_GVMA then (sbi_tlb_local_hfence_gvma ti, hgatp)
  else if t =? SBI_TLB_HFENCE_VVMA_ASID then sbi_tlb_local_hfence_vvma_asid ti hgatp
  else if t =? SBI_TLB_HFENCE_VVMA then sbi_tlb_local_hfence_vvma ti hgatp
  else ([], hgatp).

(** ** Merging requests *)

Definition with_range (ti : sbi_tlb_info) (start size : Z) : sbi_tlb_info :=
  mkTinfo start size (ti_asid ti) (ti_vmid ti) (ti_type ti) (ti_smask ti).
Definition with_smask (ti : sbi_tlb_info) (m : sbi_hartmask) : sbi_tlb_info :=
  mkTinfo (ti_start ti) (ti_size ti) (ti_asid ti) (ti_vmid ti) (ti_type ti) m.

(** The answer and the updated queued request. *)
Definition tlb_range_check (curr next : sbi_tlb_info) : Z * sbi_tlb_info :=
  let next_end := u64 (ti_start next + ti_size next) in
  let curr_end := u64 (ti_start curr + ti_size curr) in
  let merged := sbi_hartmask_or (ti_smask curr) (ti_smask curr) (ti_smask next) in
  if (ti_start next <=? ti_start curr) && (curr_end <? next_end)
  then (SBI_FIFO_UPDATED, with_smask (with_range curr (ti_start next) (ti_size next)) merged)
  else if (ti_start curr <=? ti_start next) && (next_end <=? curr_end)
  then (SBI_FIFO_SKIP, with_smask curr merged)
  else (SBI_FIFO_UNCHANGED, curr).

Definition tlb_update_cb (next curr : sbi_tlb_info) : Z * sbi_tlb_info :=
  if (ti_type next =? SBI_TLB_SFENCE_VMA_ASID) && (ti_type curr =? SBI_TLB_SFENCE_VMA_ASID)
  then if ti_asid next =? ti_asid curr then tlb_range_check curr next else (SBI_FIFO_UNCHANGED, curr)
  else if (ti_type next =? SBI_TLB_SFENCE_VMA) && (ti_type curr =? SBI_TLB_SFENCE_VMA)
  then tlb_range_check curr next
  else (SBI_FIFO_UNCHANGED, curr).

(** sbi_fifo_inplace_update with [tlb_update_cb] on the queued requests. *)
Fixpoint tlb_inplace (next : sbi_tlb_info) (q : list sbi_tlb_info) : Z * list sbi_tlb_info :=
  match q with
  | [] => (SBI_FIFO_UNCHANGED, [])
  | curr :: q =>
      let '(ret, curr) := tlb_update_cb next curr in
      if (ret =? SBI_FIFO_SKIP) || (ret =? SBI_FIFO_UPDATED) then (ret, curr :: q)
      else let '(ret, q) := tlb_inplace next q in (ret, curr :: q)
  end.

(** sbi_fifo_enqueue without force. *)
Definition tlb_enqueue (cap : Z) (q : list sbi_tlb_info) (ti : sbi_tlb_info) : Z * list sbi_tlb_info :=
  if Z.of_nat (length q) =? cap then (SBI_ENOSPC, q) else (0, q ++ [ti]).

(** ** The calls of the supervisor *)

Abbreviation SBI_EXT_RFENCE_REMOTE_FENCE_I := 0.
Abbreviation SBI_EXT_RFENCE_REMOTE_SFENCE_VMA := 1.
Abbreviation SBI_EXT_RFENCE_REMOTE_SFENCE_VMA_ASID := 2.
Abbreviation SBI_EXT_RFENCE_REMOTE_HFENCE_GVMA_VMID := 3.
Abbreviation SBI_EXT_RFENCE_REMOTE_HFENCE_GVMA := 4.
Abbreviation SBI_EXT_RFENCE_REMOTE_HFENCE_VVMA_ASID := 5.
Abbreviation SBI_EXT_RFENCE_REMOTE_HFENCE_VVMA := 6.

(** sbi_ecall_rfence_handler up to its call of sbi_tlb_request: the code it
    returns, or the request. *)
Definition sbi_ecall_rfence_handler (sc : scratch_state) (misa_h : bool) (hgatp source_hart funcid a2 a3 a4 : Z) :
    Z + sbi_tlb_info :=
  let init := fun start size asid vmid type => inr (SBI_TLB_INFO_INIT sc start size asid vmid type source_hart) in
  let vmid := Z.shiftr (Z.land hgatp HGATP_VMID_MASK) HGATP_VMID_SHIFT in
  if (SBI_EXT_RFENCE_REMOTE_HFENCE_GVMA_VMID <=? funcid) && (funcid <=? SBI_EXT_RFENCE_REMOTE_HFENCE_VVMA) &&
     negb misa_h
  then inl SBI_ENOTSUPP
  else if funcid =? SBI_EXT_RFENCE_REMOTE_FENCE_I then init 0 0 0 0 SBI_TLB_FENCE_I
  else if funcid =? SBI_EXT_RFENCE_REMOTE_HFENCE_GVMA then init a2 a3 0 0 SBI_TLB_HFENCE_GVMA
  else if funcid =? SBI_EXT_RFENCE_REMOTE_HFENCE_GVMA_VMID then init a2 a3 0 a4 SBI_TLB_HFENCE_GVMA_VMID
  else if funcid =? SBI_EXT_RFENCE_REMOTE_HFENCE_VVMA then init a2 a3 0 vmid SBI_TLB_HFENCE_VVMA
  else if funcid =? SBI_EXT_RFENCE_REMOTE_HFENCE_VVMA_ASID then init a2 a3 a4 vmid SBI_TLB_HFENCE_VVMA_ASID
  else if funcid =? SBI_EXT_RFENCE_REMOTE_SFENCE_VMA then init a2 a3 0 0 SBI_TLB_SFENCE_VMA
  else if funcid =? SBI_EXT_RFENCE_REMOTE_SFENCE_VMA_ASID then init a2 a3 a4 0 SBI_TLB_SFENCE_VMA_ASID
  else inl SBI_ENOTSUPP.

(** sbi_tlb_request up to its call of sbi_ipi_send_many. *)
Definition sbi_tlb_request (tlb_range_flush_limit : Z) (ti : sbi_tlb_info) : Z + sbi_tlb_info :=
  if (ti_type ti <? 0) || (SBI_TLB_TYPE_MAX <=? ti_type ti) then inl SBI_EINVAL
  else inr (if tlb_range_flush_limit <? ti_size ti then with_range ti 0 SBI_TLB_FLUSH_ALL else ti).

(** ** Initialisation *)

(** The file-scope variables. *)
Record tlb_state := mkTlb {
  tlb_sync_off : Z; tlb_fifo_off : Z; tlb_fifo_mem_off : Z; tlb_event_nr : Z; tlb_flush_limit : Z }.

Definition tlb_boot : tlb_state := mkTlb 0 0 0 SBI_IPI_EVENT_MAX 0.

Abbreviation SBI_TLB_INFO_SIZE := 40.

(** The part of sbi_tlb_init for the boot hart or for the others; [o1], [o2] and
    [o3] are the offsets sbi_scratch_alloc_offset answers. *)
Definition tlb_init_boot (st : tlb_state) (ipi : ipi_state) (o1 o2 o3 limit : Z) (cold_boot : bool) :
    Z * tlb_state * ipi_state :=
  let off := fun a b c => mkTlb a b c (tlb_event_nr st) (tlb_flush_limit st) in
  if cold_boot then
    if o1 =? 0 then (SBI_ENOMEM, off o1 (tlb_fifo_off st) (tlb_fifo_mem_off st), ipi)
    else if o2 =? 0 then (SBI_ENOMEM, off o1 o2 (tlb_fifo_mem_off st), ipi)
    else if o3 =? 0 then (SBI_ENOMEM, off o1 o2 o3, ipi)
    else
      let '(ret, ipi) := sbi_ipi_event_create ipi (Some tlb_ops) in
      if ret <? 0 then (ret, off o1 o2 o3, ipi) else (0, mkTlb o1 o2 o3 ret limit, ipi)
  else if (tlb_sync_off st =? 0) || (tlb_fifo_off st =? 0) || (tlb_fifo_mem_off st =? 0) then (SBI_ENOMEM, st, ipi)
  else if SBI_IPI_EVENT_MAX <=? tlb_event_nr st then (SBI_ENOSPC, st, ipi)
  else (0, st, ipi).

(** The part for the hart itself: its FIFO memory, kept from an earlier boot
    ([tlb_mem] not 0) or allocated ([fresh], 0 if there is none); the counter
    and the FIFO it leaves. *)
Definition tlb_init_hart (tlb_mem fresh num_entries : Z) (bytes : list Z) : Z * option (Z * Z * sbi_fifo) :=
  let mem := if tlb_mem =? 0 then fresh else tlb_mem in
  if mem =? 0 then (SBI_ENOMEM, None)
  else (0, Some (mem, 0, sbi_fifo_init bytes (u16 num_entries) SBI_TLB_INFO_SIZE)).

Definition sbi_tlb_init (st : tlb_state) (ipi : ipi_state) (o1 o2 o3 limit : Z) (cold_boot : bool)
    (tlb_mem fresh num_entries : Z) (bytes : list Z) : Z * tlb_state * ipi_state * option (Z * Z * sbi_fifo) :=
  let '(ret, st, ipi) := tlb_init_boot st ipi o1 o2 o3 limit cold_boot in
  if negb (ret =? 0) then (ret, st, ipi, None)
  else let '(ret, h) := tlb_init_hart tlb_mem fresh num_entries bytes in (ret, st, ipi, h).

(** ** Harts side by side *)

(** What does not change while the harts run. *)
Record tlb_env := mkTenv {
  te_sc : scratch_state; te_ipi : ipi_state; te_hs : hmem; te_dom : Z -> option sbi_domain;
  tlb_fifo_num_entries : Z; tlb_event : Z; tlb_range_flush_limit : Z; te_misa_h : bool }.

(** A call of sbi_ipi_send_many: its arguments, the loop's variables and the
    result so far.  The last four record, for the statements below, the request
    as the supervisor made it, the harts chosen, those the request has been
    handed to, and how many fences each hart had run when the call began. *)
Record req := mkReq {
  rq_event : Z; rq_info : sbi_tlb_info; rq_mask : sbi_hartmask; rq_i : Z; rq_retry : bool; rq_rc : Z;
  rq_asked : sbi_tlb_info; rq_targets : sbi_hartmask; rq_sent : list Z; rq_snap : Z -> nat }.

Definition rq_loop (rq : req) (mask : sbi_hartmask) (i : Z) (retry : bool) : req :=
  mkReq (rq_event rq) (rq_info rq) mask i retry (rq_rc rq) (rq_asked rq) (rq_targets rq) (rq_sent rq) (rq_snap rq).
Definition rq_return (rq : req) (rc : Z) : req :=
  mkReq (rq_event rq) (rq_info rq) (rq_mask rq) (rq_i rq) (rq_retry rq) rc (rq_asked rq) (rq_targets rq)
    (rq_sent rq) (rq_snap rq).
Definition rq_handed (rq : req) : req :=
  mkReq (rq_event rq) (rq_info rq) (rq_mask rq) (rq_i rq) (rq_retry rq) (rq_rc rq) (rq_asked rq) (rq_targets rq)
    (rq_i rq :: rq_sent rq) (rq_snap rq).

(** Program points of the sender; [rq_i] is the hart it deals with. *)
Inductive spc : Type :=
| SHead        (* head of the loop over the target mask, up to the update callback *)
| SUpdate      (* tlb_update: sbi_fifo_inplace_update *)
| SEnqueue     (* tlb_update: sbi_fifo_enqueue *)
| SAdd         (* tlb_update: atomic_add_return of the sender's counter *)
| SType        (* sbi_ipi_send: __atomic_fetch_or of the target's ipi_type *)
| SRaw         (* sbi_ipi_send: sbi_ipi_raw_send *)
| SSync.       (* tlb_sync: atomic_read of the counter *)

(** Program points of tlb_process_once and tlb_entry_process. *)
Inductive ppc : Type :=
| PDequeue                            (* sbi_fifo_dequeue *)
| PFence (ti : sbi_tlb_info)          (* tlb_entry_local_process *)
| PSub (ti : sbi_tlb_info) (i : Z).   (* atomic_sub_return for hart [i] of the mask *)

(** Where tlb_process_once was called. *)
Inductive kont : Type :=
| KRetry (rq : req)                   (* tlb_update with the target's FIFO full *)
| KSync (rq : req)                    (* tlb_sync *)
| KIpi (ipi_type ipi_event : Z).      (* tlb_process, in the loop of sbi_ipi_process *)

Inductive thread : Type :=
| TSuper                              (* the supervisor runs *)
| TReq (rq : req) (pc : spc)
| TProc (k : kont) (p : ppc)
| TClear                              (* sbi_ipi_process: sbi_ipi_raw_clear *)
| TXchg                               (* sbi_ipi_process: take ipi_type *)
| TIpi (ipi_type ipi_event : Z)       (* its loop *)
| THalted.                            (* after sbi_ipi_process_halt *)

(** A hart's scratch data, its interrupt line, the supervisor's software
    interrupt, [hgatp], the fences it has run, and its program point. *)
Record thart := mkTh {
  t_fifo : list sbi_tlb_info; t_sync : Z; t_type : Z; t_irq : bool; t_ssip : bool; t_hgatp : Z;
  t_log : list fence; t_thr : thread }.

Definition th_fifo (q : list sbi_tlb_info) (h : thart) : thart :=
  mkTh q (t_sync h) (t_type h) (t_irq h) (t_ssip h) (t_hgatp h) (t_log h) (t_thr h).
Definition th_sync (d : Z) (h : thart) : thart :=
  mkTh (t_fifo h) (t_sync h + d) (t_type h) (t_irq h) (t_ssip h) (t_hgatp h) (t_log h) (t_thr h).
Definition th_type (v : Z) (h : thart) : thart :=
  mkTh (t_fifo h) (t_sync h) v (t_irq h) (t_ssip h) (t_hgatp h) (t_log h) (t_thr h).
Definition th_irq (b : bool) (h : thart) : thart :=
  mkTh (t_fifo h) (t_sync h) (t_type h) b (t_ssip h) (t_hgatp h) (t_log h) (t_thr h).
Definition th_ssip (b : bool) (h : thart) : thart :=
  mkTh (t_fifo h) (t_sync h) (t_type h) (t_irq h) b (t_hgatp h) (t_log h) (t_thr h).
Definition th_fence (r : list fence * Z) (h : thart) : thart :=
  mkTh (t_fifo h) (t_sync h) (t_type h) (t_irq h) (t_ssip h) r.2 (t_log h ++ r.1) (t_thr h).
Definition th_thr (t : thread) (h : thart) : thart :=
  mkTh (t_fifo h) (t_sync h) (t_type h) (t_irq h) (t_ssip h) (t_hgatp h) (t_log h) t.

(** All harts, and the calls that have returned. *)
Record tsys := mkTsys { th : Z -> thart; calls : list (Z * req) }.

Definition upd (s : tsys) (i : Z) (f : thart -> thart) : tsys := mkTsys (fupd (th s) i (f (th s i))) (calls s).
Definition goto (s : tsys) (i : Z) (t : thread) : tsys := upd s i (th_thr t).
Definition returned (s : tsys) (i : Z) (rq : req) : tsys := mkTsys (th s) (calls s ++ [(i, rq)]).

Section System.
Context (e : tlb_env).

(** The next hart of the mask from [from] on, as the mask iterators find it. *)
Definition next_target (m : sbi_hartmask) (from : Z) : Z :=
  find_next_bit (hm_bits m) SBI_HARTMASK_MAX_BITS from.
Definition first_target (m : sbi_hartmask) : Z := find_first_bit (hm_bits m) SBI_HARTMASK_MAX_BITS.

(** The end of the loop body when the target is done with, and when it has to
    be tried again. *)
Definition rq_done (rq : req) : req :=
  let mask := sbi_hartmask_clear_hartindex (rq_i rq) (rq_mask rq) in
  rq_loop rq mask (next_target mask (rq_i rq + 1)) (rq_retry rq).
Definition rq_again (rq : req) : req := rq_loop rq (rq_mask rq) (next_target (rq_mask rq) (rq_i rq + 1)) true.

(** After tlb_process_once, with what it returned. *)
Definition resume (k : kont) (worked : bool) : thread :=
  match k with
  | KRetry rq => TReq (rq_again rq) SHead
  | KSync rq => TReq rq SSync
  | KIpi ipi_type ipi_event => if worked then TProc k PDequeue else TIpi ipi_type ipi_event
  end.

Definition send_step (i : Z) (s : tsys) (rq : req) (pc : spc) : tsys :=
  let h := th s i in
  let r := rq_i rq in
  match pc with
  | SHead =>
      if r <? SBI_HARTMASK_MAX_BITS then
        match event_ops (te_ipi e) (rq_event rq), sbi_hartindex_to_scratch (te_sc e) r with
        | Some ops, Some _ =>
            let self := bool_decide (sbi_hartindex_to_scratch (te_sc e) i = sbi_hartindex_to_scratch (te_sc e) r) in
            match ops with
            | tlb_ops =>
                if sbi_hartindex_to_hartid (te_sc e) r =? sbi_hartindex_to_hartid (te_sc e) i
                then goto (upd s i (th_fence (tlb_entry_local_process (rq_info rq) (t_hgatp h)))) i
                       (TReq (rq_done (rq_handed rq)) SHead)
                else goto s i (TReq rq SUpdate)
            | ipi_halt_ops => goto s i (if self then TReq (rq_done rq) SHead else TReq rq SType)
            | ipi_smode_ops =>
                if self then goto (upd s i (th_ssip true)) i (TReq (rq_done rq) SHead)
                else goto s i (TReq rq SType)
            end
        | _, _ => goto s i (TReq (rq_return rq SBI_EINVAL) SSync)
        end
      else if rq_retry rq
      then goto s i (TReq (rq_loop rq (rq_mask rq) (first_target (rq_mask rq)) false) SHead)
      else goto s i (TReq (rq_return rq 0) SSync)
  | SUpdate =>
      let '(ret, q) := tlb_inplace (rq_info rq) (t_fifo (th s r)) in
      goto (upd s r (th_fifo q)) i
        (if ret =? SBI_FIFO_UNCHANGED then TReq rq SEnqueue else TReq (rq_handed rq) SAdd)
  | SEnqueue =>
      let '(ret, q) := tlb_enqueue (tlb_fifo_num_entries e) (t_fifo (th s r)) (rq_info rq) in
      goto (upd s r (th_fifo q)) i (if ret <? 0 then TProc (KRetry rq) PDequeue else TReq (rq_handed rq) SAdd)
  | SAdd => goto (upd s i (th_sync 1)) i (TReq rq SType)
  | SType =>
      let old := t_type (th s r) in
      goto (upd s r (th_type (Z.lor old (shl64 1 (rq_event rq))))) i
        (if old =? 0 then TReq rq SRaw else TReq (rq_done rq) SHead)
  | SRaw =>
      let '(rc, sent) := sbi_ipi_raw_send (te_ipi e) r false in
      let s := match sent with [] => s | _ => upd s r (th_irq true) end in
      goto s i (if rc <? 0 then TReq (rq_return rq rc) SSync else TReq (rq_done rq) SHead)
  | SSync =>
      match event_ops (te_ipi e) (rq_event rq) with
      | Some tlb_ops =>
          if 0 <? t_sync h then goto s i (TProc (KSync rq) PDequeue)
          else goto (returned s i rq) i TSuper
      | _ => goto (returned s i rq) i TSuper
      end
  end.

Definition proc_step (i : Z) (s : tsys) (k : kont) (p : ppc) : tsys :=
  let h := th s i in
  match p with
  | PDequeue =>
      match t_fifo h with
      | [] => goto s i (resume k false)
      | ti :: q => goto (upd s i (th_fifo q)) i (TProc k (PFence ti))
      end
  | PFence ti =>
      goto (upd s i (th_fence (tlb_entry_local_process ti (t_hgatp h)))) i
        (TProc k (PSub ti (first_target (ti_smask ti))))
  | PSub ti r =>
      if r <? SBI_HARTMASK_MAX_BITS then
        let s := match sbi_hartindex_to_scratch (te_sc e) r with Some _ => upd s r (th_sync (-1)) | None => s end in
        goto s i (TProc k (PSub ti (next_target (ti_smask ti) (r + 1))))
      else goto s i (resume k true)
  end.

(** The next access of hart [i]; [None]: it is not in the firmware. *)
Definition hart_step (i : Z) (s : tsys) : option tsys :=
  let h := th s i in
  match t_thr h with
  | TSuper | THalted => None
  | TReq rq pc => Some (send_step i s rq pc)
  | TProc k p => Some (proc_step i s k p)
  | TClear =>
      Some (goto (match sbi_ipi_raw_clear (te_ipi e) false with [] => s | _ => upd s i (th_irq false) end) i TXchg)
  | TXchg => Some (goto (upd s i (th_type 0)) i (TIpi (t_type h) 0))
  | TIpi ipi_type ipi_event =>
      if ipi_type =? 0 then Some (goto s i TSuper)
      else
        let next := TIpi (Z.shiftr ipi_type 1) (ipi_event + 1) in
        Some (if truthy (Z.land ipi_type 1) then
                match ops_at (te_ipi e) ipi_event with
                | Some ipi_smode_ops => goto (upd s i (th_ssip true)) i next
                | Some ipi_halt_ops => goto s i THalted
                | Some tlb_ops => goto s i (TProc (KIpi (Z.shiftr ipi_type 1) (ipi_event + 1)) PDequeue)
                | None => goto s i next
                end
              else goto s i next)
  end.

(** The start of a call with its targets chosen. *)
Definition start_send (i event : Z) (asked ti : sbi_tlb_info) (targets : sbi_hartmask) (s : tsys) : tsys :=
  goto s i (TReq (mkReq event ti targets (first_target targets) false 0 asked targets []
                    (fun j => length (t_log (th s j)))) SHead).

(** sbi_ecall_rfence_handler with arguments a0 to a4, until it starts to send
    or is refused. *)
Definition rfence_call (i funcid a0 a1 a2 a3 a4 : Z) (junk : sbi_hartmask) (s : tsys) : option tsys :=
  match sbi_ecall_rfence_handler (te_sc e) (te_misa_h e) (t_hgatp (th s i)) (sbi_hartindex_to_hartid (te_sc e) i)
          funcid a2 a3 a4 with
  | inl _ => Some s
  | inr asked =>
      match sbi_tlb_request (tlb_range_flush_limit e) asked with
      | inl _ => Some s
      | inr ti =>
          match ipi_targets (te_sc e) (te_hs e) (te_dom e i) junk a0 a1 with
          | None => None
          | Some (inl _) => Some s
          | Some (inr targets) => Some (start_send i (tlb_event e) asked ti targets s)
          end
      end
  end.

(** sbi_ipi_send_smode and sbi_ipi_send_halt; the data pointer is NULL. *)
Definition ipi_call (i event hmask hbase : Z) (junk : sbi_hartmask) (s : tsys) : option tsys :=
  let none := mkTinfo 0 0 0 0 0 (mkHartmask [0; 0]) in
  match ipi_targets (te_sc e) (te_hs e) (te_dom e i) junk hmask hbase with
  | None => None
  | Some (inl _) => Some s
  | Some (inr targets) => Some (start_send i event none none targets s)
  end.
End System.

(** ** What a request asks for *)

(** What a hart may hold: fetched instructions, a translation of the
    supervisor, a guest's second-stage and a guest's first-stage translation. *)
Inductive cached : Type :=
| CInsn
| CSuper (va asid : Z) (global : bool)
| CGuest (gpa vmid : Z)
| CVirt (va asid vmid : Z) (global : bool).

Definition page (a : Z) : Z := a / PAGE_SIZE.
Definition hgatp_vmid (hgatp : Z) : Z := Z.shiftr hgatp HGATP_VMID_SHIFT mod 2 ^ 14.

Definition flushes (f : fence) (c : cached) : bool :=
  match f, c with
  | FenceI, CInsn => true
  | SfenceAll, CSuper _ _ _ => true
  | SfenceVa a, CSuper va _ _ => page a =? page va
  | SfenceAsid s, CSuper _ asid global => (s =? asid) && negb global
  | SfenceVaAsid a s, CSuper va asid global => (page a =? page va) && (s =? asid) && negb global
  | HfenceGvmaAll, CGuest _ _ => true
  | HfenceGvmaGpa a, CGuest gpa _ => page (4 * a) =? page gpa
  | HfenceGvmaVmid v, CGuest _ vmid => v mod 2 ^ 14 =? vmid
  | HfenceGvmaVmidGpa a v, CGuest gpa vmid => (page (4 * a) =? page gpa) && (v mod 2 ^ 14 =? vmid)
  | HfenceVvmaAll h, CVirt _ _ vmid _ => hgatp_vmid h =? vmid
  | HfenceVvmaVa h a, CVirt va _ vmid _ => (hgatp_vmid h =? vmid) && (page a =? page va)
  | HfenceVvmaAsid h s, CVirt _ asid vmid global => (hgatp_vmid h =? vmid) && (s =? asid) && negb global
  | HfenceVvmaAsidVa h a s, CVirt va asid vmid global =>
      (hgatp_vmid h =? vmid) && (page a =? page va) && (s =? asid) && negb global
  | _, _ => false
  end.

(** The SBI contract of a request: a start and a size of zero, or the maximal
    size, mean every address. *)
Definition in_asked (ti : sbi_tlb_info) (x : Z) : bool :=
  flush_everything ti || ((ti_start ti <=? x) && (x <? ti_start ti + ti_size ti) && (x <? 2 ^ 64)).

Definition asked (ti : sbi_tlb_info) (c : cached) : bool :=
  let t := ti_type ti in
  match c with
  | CInsn => t =? SBI_TLB_FENCE_I
  | CSuper va asid global =>
      ((t =? SBI_TLB_SFENCE_VMA) || ((t =? SBI_TLB_SFENCE_VMA_ASID) && (ti_asid ti =? asid) && negb global)) &&
      in_asked ti va
  | CGuest gpa vmid =>
      ((t =? SBI_TLB_HFENCE_GVMA) || ((t =? SBI_TLB_HFENCE_GVMA_VMID) && (ti_vmid ti mod 2 ^ 14 =? vmid))) &&
      in_asked ti gpa
  | CVirt va asid vmid global =>
      ((t =? SBI_TLB_HFENCE_VVMA) || ((t =? SBI_TLB_HFENCE_VVMA_ASID) && (ti_asid ti =? asid) && negb global)) &&
      (ti_vmid ti mod 2 ^ 14 =? vmid) && in_asked ti va
  end.

Definition serves (ti req : sbi_tlb_info) : Prop := forall c, asked req c = true -> asked ti c = true.

(** The requests that may be merged. *)
Definition mergeable (ti : sbi_tlb_info) : bool :=
  (ti_type ti =? SBI_TLB_SFENCE_VMA) || (ti_type ti =? SBI_TLB_SFENCE_VMA_ASID).

(** Requests that are carried out in full: page-aligned, of a size the loop
    over pages can count, and, if they may be merged, in a range that ends in
    the address space and is not written (0, 0). *)
Record tinfo_ok (ti : sbi_tlb_info) : Prop := {
  tk_start : in_range 64 (ti_start ti);
  tk_page : ti_start ti mod PAGE_SIZE = 0;
  tk_size : 0 <= ti_size ti <= 2 ^ 64 - PAGE_SIZE \/ ti_size ti = SBI_TLB_FLUSH_ALL;
  tk_merge : mergeable ti = true ->
    ti_start ti + ti_size ti < 2 ^ 64 /\ ~ (ti_start ti = 0 /\ ti_size ti = 0);
  tk_vmid : in_range 16 (ti_vmid ti) }.

(** *** One hart carries out what is asked *)

Lemma page_loop_elem size fuel : forall i k,
  0 <= i -> 0 <= k -> i + PAGE_SIZE * k < size -> size <= 2 ^ 64 - PAGE_SIZE -> k < Z.of_nat fuel ->
  i + PAGE_SIZE * k ∈ page_loop fuel size i.
Proof.
  induction fuel as [|fuel IH]; intros i k Hi Hk Hlt Hs Hf; [lia|]. cbn [page_loop].
  rewrite (proj2 (Z.ltb_lt _ _)) by lia. destruct (decide (k = 0)) as [->|Hk0]; [rewrite Z.mul_0_r, Z.add_0_r; left|].
  right. rewrite wrap_id by lia.
  replace (i + 4096 * k) with (i + 4096 + 4096 * (k - 1)) by lia. apply IH; lia.
Qed.

Lemma flush_addrs_elem ti x :
  in_range 64 (ti_start ti) -> ti_start ti mod PAGE_SIZE = 0 -> ti_size ti <= 2 ^ 64 - PAGE_SIZE ->
  ti_start ti <= x < ti_start ti + ti_size ti -> x < 2 ^ 64 ->
  exists a, a ∈ flush_addrs ti /\ a mod PAGE_SIZE = 0 /\ page a = page x.
Proof.
  intros Hst Hp Hs Hx Hx64. unfold in_range in Hst. set (k := (x - ti_start ti) / PAGE_SIZE).
  assert (0 <= k /\ 4096 * k <= x - ti_start ti < 4096 * k + 4096) as [Hk0 Hk].
  { unfold k. Z.div_mod_to_equations; lia. }
  exists (ti_start ti + 4096 * k). split; [|split].
  - unfold flush_addrs. apply list_elem_of_fmap. exists (0 + 4096 * k). split.
    + rewrite wrap_id by lia. lia.
    + apply page_loop_elem; try lia.
      assert (k <= ti_size ti / 4096) by (apply Z.div_le_lower_bound; lia).
      rewrite Z2Nat.id; [lia|]. pose proof (Z.div_pos (ti_size ti) 4096). lia.
  - rewrite Z.mul_comm, Z.mod_add by lia. done.
  - unfold page. Z.div_mod_to_equations; lia.
Qed.

Lemma vmid_hgatp_spec ti : in_range 16 (ti_vmid ti) -> hgatp_vmid (vmid_hgatp ti) = ti_vmid ti mod 2 ^ 14.
Proof.
  unfold in_range. intros Hv. unfold hgatp_vmid, vmid_hgatp, shl64.
  rewrite Z.shiftl_mul_pow2, wrap_id by lia. rewrite Z.shiftr_land, Z.shiftr_div_pow2, Z.div_mul by lia.
  change (Z.shiftr 0x03FFF00000000000 44) with (Z.ones 14). rewrite Z.land_ones by lia.
  by rewrite Z.mod_mod by lia.
Qed.

(** The instructions executed flush whatever the request asks for. *)
Lemma local_process_flushes ti hgatp c :
  tinfo_ok ti -> asked ti c = true ->
  exists f, f ∈ (tlb_entry_local_process ti hgatp).1 /\ flushes f c = true.
Proof.
  intros [Hst Hp Hs Hm Hv] Ha.
  assert (forall x, in_asked ti x = true -> flush_everything ti = false ->
    exists a, a ∈ flush_addrs ti /\ a mod PAGE_SIZE = 0 /\ page a = page x) as Haddr.
  { intros x Hx Hf. unfold in_asked in Hx. rewrite Hf in Hx. cbn [orb] in Hx.
    assert (ti_size ti <> SBI_TLB_FLUSH_ALL) by (unfold flush_everything in Hf; lia).
    apply flush_addrs_elem; [done|done|lia|lia|lia]. }
  assert (forall a, a mod PAGE_SIZE = 0 -> 4 * Z.shiftr a 2 = a) as H4.
  { intros a Ha0. rewrite Z.shiftr_div_pow2 by lia. change (2 ^ 2) with 4.
    Z.div_mod_to_equations; lia. }
  pose proof (vmid_hgatp_spec ti Hv) as Hvm.
  unfold tlb_entry_local_process, asked in *.
  destruct (ti_type ti =? SBI_TLB_FENCE_I) eqn:E0;
    [|destruct (ti_type ti =? SBI_TLB_SFENCE_VMA) eqn:E1;
    [|destruct (ti_type ti =? SBI_TLB_SFENCE_VMA_ASID) eqn:E2;
    [|destruct (ti_type ti =? SBI_TLB_HFENCE_GVMA_VMID) eqn:E3;
    [|destruct (ti_type ti =? SBI_TLB_HFENCE_GVMA) eqn:E4;
    [|destruct (ti_type ti =? SBI_TLB_HFENCE_VVMA_ASID) eqn:E5;
    [|destruct (ti_type ti =? SBI_TLB_HFENCE_VVMA) eqn:E6]]]]]];
    destruct c; cbn [orb andb] in Ha; try done; cbn [fst];
    try lia;
    try (exists FenceI; split; [left|done]);
    unfold sbi_tlb_local_sfence_vma, sbi_tlb_local_sfence_vma_asid, sbi_tlb_local_hfence_gvma_vmid,
      sbi_tlb_local_hfence_gvma, sbi_tlb_local_hfence_vvma_asid, sbi_tlb_local_hfence_vvma; cbn [fst];
    (destruct (flush_everything ti) eqn:Ef;
     [eexists; split; [left|cbn; lia]
     |match type of Ha with context [in_asked ti ?x] =>
        destruct (Haddr x) as (a & Ha1 & Ha2 & Ha3); [lia|done|] end;
      eexists; split; [apply list_elem_of_fmap; exists a; split; [reflexivity|exact Ha1]|];
      cbn [flushes]; rewrite ?H4, ?Ha3 by done; lia]).
Qed.

(** *** Merging serves both requests *)

Lemma serves_refl ti : serves ti ti.
Proof. by intros c. Qed.

Lemma serves_trans a b c : serves a b -> serves b c -> serves a c.
Proof. intros H1 H2 x Hx. auto. Qed.

Lemma serves_with_smask ti m req : serves ti req -> serves (with_smask ti m) req.
Proof. intros H c Hc. exact (H c Hc). Qed.

Lemma range_check_spec curr next :
  tinfo_ok curr -> tinfo_ok next -> mergeable curr = true -> ti_type next = ti_type curr ->
  (ti_type curr = SBI_TLB_SFENCE_VMA_ASID -> ti_asid next = ti_asid curr) ->
  let '(ret, curr') := tlb_range_check curr next in
  (ret = SBI_FIFO_UNCHANGED /\ curr' = curr) \/
  ((ret = SBI_FIFO_SKIP \/ ret = SBI_FIFO_UPDATED) /\ tinfo_ok curr' /\ serves curr' curr /\ serves curr' next /\
   ti_smask curr' = sbi_hartmask_or (ti_smask curr) (ti_smask curr) (ti_smask next)).
Proof.
  intros Hc Hn Hm Et Ea. assert (mergeable next = true) as Hmn by (unfold mergeable in *; by rewrite Et).
  destruct (tk_merge curr Hc Hm) as [Hce Hc0]. destruct (tk_merge next Hn Hmn) as [Hne Hn0].
  pose proof (tk_start curr Hc) as Hcs. pose proof (tk_start next Hn) as Hns. unfold in_range in *.
  assert (0 <= ti_size curr) by (destruct (tk_size curr Hc) as [|]; unfold ULONG_MAX in *; lia).
  assert (0 <= ti_size next) by (destruct (tk_size next Hn) as [|]; unfold ULONG_MAX in *; lia).
  assert (forall a b : sbi_tlb_info, ti_type a = ti_type curr -> ti_type b = ti_type curr ->
    (ti_type curr = SBI_TLB_SFENCE_VMA_ASID -> ti_asid a = ti_asid b) ->
    (forall x, in_asked b x = true -> in_asked a x = true) -> serves a b) as Hserv.
  { intros a b Ta Tb Hab Hx c. unfold asked. rewrite Ta, Tb. unfold mergeable in Hm.
    destruct c as [|va asid g|gpa vmid|va asid vmid g]; [lia| |lia|lia].
    intros H'. apply andb_prop in H' as [H1 H2]. rewrite (Hx _ H2), andb_true_r.
    destruct (Z.eqb_spec (ti_type curr) 1) as [->|]; [done|]. cbn [orb] in *. rewrite Hab by lia. exact H1. }
  unfold tlb_range_check. rewrite !wrap_id by lia. case_bool; [|case_bool]; bool_to_prop.
  - right. split; [by right|]. split; [|split; [|split; [|done]]].
    + destruct Hn as [? ? ? ? ?], Hc as [? ? ? ? ?]. by split.
    + apply serves_with_smask, Hserv; cbn; [done|done|done|].
      intros x. unfold in_asked, flush_everything, ULONG_MAX. cbn. lia.
    + apply serves_with_smask, Hserv; cbn; [done|done|by intros ->%Ea|].
      intros x. unfold in_asked, flush_everything, ULONG_MAX. cbn. lia.
  - right. split; [by left|]. split; [|split; [|split; [|done]]].
    + destruct Hc. by split.
    + apply serves_with_smask, serves_refl.
    + apply serves_with_smask, Hserv; [done|done|by intros ->%Ea|].
      intros x. unfold in_asked, flush_everything, ULONG_MAX. lia.
  - by left.
Qed.

Lemma update_cb_spec next curr :
  tinfo_ok curr -> tinfo_ok next ->
  let '(ret, curr') := tlb_update_cb next curr in
  (ret = SBI_FIFO_UNCHANGED /\ curr' = curr) \/
  ((ret = SBI_FIFO_SKIP \/ ret = SBI_FIFO_UPDATED) /\ tinfo_ok curr' /\ serves curr' curr /\ serves curr' next /\
   ti_smask curr' = sbi_hartmask_or (ti_smask curr) (ti_smask curr) (ti_smask next)).
Proof.
  intros Hc Hn. unfold tlb_update_cb. repeat case_bool; bool_to_prop; destruct_and?; try (by left);
    apply range_check_spec; try done; unfold mergeable;
    lia.
Qed.

(** An in-place update changes nothing, or one queued request. *)
Lemma inplace_spec next q :
  tinfo_ok next -> Forall tinfo_ok q ->
  let '(ret, q') := tlb_inplace next q in
  (ret = SBI_FIFO_UNCHANGED /\ q' = q) \/
  (ret <> SBI_FIFO_UNCHANGED /\ exists l curr r curr', q = l ++ curr :: r /\ q' = l ++ curr' :: r /\
     tinfo_ok curr' /\ serves curr' curr /\ serves curr' next /\
     ti_smask curr' = sbi_hartmask_or (ti_smask curr) (ti_smask curr) (ti_smask next)).
Proof.
  intros Hn Hq. induction Hq as [|curr q Hc Hq IH]; [by left|]. cbn [tlb_inplace].
  pose proof (update_cb_spec next curr Hc Hn) as Hu.
  destruct (tlb_update_cb next curr) as [ret curr']. destruct Hu as [[-> ->]|(Hret & Hrest)].
  - cbn [Z.eqb Pos.eqb orb].
    destruct (tlb_inplace next q) as [ret q'].
    destruct IH as [[-> ->]|(Hret & l & c & r & c' & -> & -> & Hrest)]; [by left|].
    right. split; [done|]. by exists (curr :: l), c, r, c'.
  - assert ((ret =? SBI_FIFO_SKIP) || (ret =? SBI_FIFO_UPDATED) = true) as ->
      by (destruct Hret as [-> | ->]; done).
    right. split; [by destruct Hret as [-> | ->]|]. by exists [], curr, q, curr'.
Qed.

(** ** Requests in memory *)

(** struct sbi_tlb_info on a 64-bit machine: 40 bytes. *)
Definition tlb_bytes (ti : sbi_tlb_info) : list Z :=
  le_bytes 8 (ti_start ti) ++ le_bytes 8 (ti_size ti) ++ le_bytes 2 (ti_asid ti) ++ le_bytes 2 (ti_vmid ti) ++
  le_bytes 4 (ti_type ti) ++ le_bytes 8 (rd (hm_bits (ti_smask ti)) 0) ++ le_bytes 8 (rd (hm_bits (ti_smask ti)) 1).

Definition tlb_read (l : list Z) : sbi_tlb_info :=
  mkTinfo (le_value (slice 0 8 l)) (le_value (slice 8 8 l)) (le_value (slice 16 2 l)) (le_value (slice 18 2 l))
    (le_value (slice 20 4 l)) (mkHartmask [le_value (slice 24 8 l); le_value (slice 32 8 l)]).

(** tlb_update_cb on the records in the FIFO. *)
Definition tlb_update_cb_mem (inp data : list Z) : Z * list Z :=
  let '(ret, curr) := tlb_update_cb (tlb_read inp) (tlb_read data) in (ret, tlb_bytes curr).

(** The fields have values of their types. *)
Record tinfo_typed (ti : sbi_tlb_info) : Prop := {
  ty_start : in_range 64 (ti_start ti);
  ty_size : in_range 64 (ti_size ti);
  ty_asid : in_range 16 (ti_asid ti);
  ty_vmid : in_range 16 (ti_vmid ti);
  ty_type : in_range 32 (ti_type ti);
  ty_smask : hm_wf (ti_smask ti) }.

Lemma tlb_bytes_length ti : length (tlb_bytes ti) = 40%nat.
Proof. unfold tlb_bytes. by rewrite !length_app, !le_bytes_length. Qed.

Lemma tlb_roundtrip ti : tinfo_typed ti -> tlb_read (tlb_bytes ti) = ti.
Proof.
  intros [H1 H2 H3 H4 H5 [Hl Hw]]. destruct ti as [start size asid vmid type [bits]].
  cbn [ti_start ti_size ti_asid ti_vmid ti_type ti_smask hm_bits] in *.
  destruct bits as [|w0 [|w1 [|? ?]]]; try done. apply Forall_cons in Hw as [Hw0 [Hw1 _]%Forall_cons].
  unfold in_range in *. unfold tlb_bytes. cbn [ti_start ti_size ti_asid ti_vmid ti_type ti_smask hm_bits].
  change (rd [w0; w1] 0) with w0. change (rd [w0; w1] 1) with w1.
  rewrite <- (le_roundtrip 8 start) at 2 by lia. rewrite <- (le_roundtrip 8 size) at 2 by lia.
  rewrite <- (le_roundtrip 2 asid) at 2 by lia. rewrite <- (le_roundtrip 2 vmid) at 2 by lia.
  rewrite <- (le_roundtrip 4 type) at 2 by lia. rewrite <- (le_roundtrip 8 w0) at 2 by lia.
  rewrite <- (le_roundtrip 8 w1) at 2 by lia. reflexivity.
Qed.

Lemma update_cb_typed next curr :
  tinfo_typed next -> tinfo_typed curr -> tinfo_typed (tlb_update_cb next curr).2.
Proof.
  intros [] []. unfold tlb_update_cb, tlb_range_check.
  assert (hm_wf (sbi_hartmask_or (ti_smask curr) (ti_smask curr) (ti_smask next))) by (by apply hm_or_spec).
  repeat case_bool; by split.
Qed.

Lemma update_mem next curr :
  tinfo_typed next -> tinfo_typed curr ->
  tlb_update_cb_mem (tlb_bytes next) (tlb_bytes curr) =
  ((tlb_update_cb next curr).1, tlb_bytes (tlb_update_cb next curr).2).
Proof.
  intros Hn Hc. unfold tlb_update_cb_mem. rewrite !tlb_roundtrip by done. by destruct (tlb_update_cb next curr).
Qed.

Lemma inplace_mem next q ret :
  tinfo_typed next -> Forall tinfo_typed q -> (q = [] -> ret = SBI_FIFO_UNCHANGED) ->
  update_list tlb_update_cb_mem (tlb_bytes next) ret (tlb_bytes <$> q) =
    ((tlb_inplace next q).1, tlb_bytes <$> (tlb_inplace next q).2) /\
  Forall tinfo_typed (tlb_inplace next q).2.
Proof.
  intros Hn Hq. revert ret. induction Hq as [|curr q Hc Hq IH]; intros ret Hret; cbn [tlb_inplace update_list fmap list_fmap].
  { by rewrite Hret. }
  rewrite update_mem by done. pose proof (update_cb_typed next curr Hn Hc) as Hty.
  assert ((tlb_update_cb next curr).1 = SBI_FIFO_SKIP \/ (tlb_update_cb next curr).1 = SBI_FIFO_UPDATED \/
    (tlb_update_cb next curr).1 = SBI_FIFO_UNCHANGED) as Hcode.
  { unfold tlb_update_cb, tlb_range_check. repeat case_bool; auto. }
  destruct (tlb_update_cb next curr) as [r curr']. cbn [fst snd] in *. case_bool; [split; [done|by constructor]|].
  destruct (IH r) as [Eq Hall]; [|rewrite Eq; destruct (tlb_inplace next q); split; [done|by constructor]].
  intros _. lia.
Qed.

(** C32: the requests in a hart's FIFO are what the list of requests says.
    While the bytes of a FIFO hold a list of requests, merging a request into
    it (with the callback reading and writing the records in place), queueing
    one and taking one return and leave what the same steps on the list do; so
    the harts may be modelled with lists of requests. *)
Theorem tlb_fifo_refines cap f q ti buf :
  fifo_rel cap 40 f (tlb_bytes <$> q) -> Forall tinfo_typed q -> tinfo_typed ti -> length buf = 40%nat ->
  (exists f', sbi_fifo_inplace_update (Some f) (Some (tlb_bytes ti)) tlb_update_cb_mem =
       Some ((tlb_inplace ti q).1, Some f') /\
     fifo_rel cap 40 f' (tlb_bytes <$> (tlb_inplace ti q).2) /\ Forall tinfo_typed (tlb_inplace ti q).2) /\
  (exists f', sbi_fifo_enqueue (Some f) (Some (tlb_bytes ti)) false = Some ((tlb_enqueue cap q ti).1, Some f') /\
     fifo_rel cap 40 f' (tlb_bytes <$> (tlb_enqueue cap q ti).2) /\ Forall tinfo_typed (tlb_enqueue cap q ti).2) /\
  exists f' l, sbi_fifo_dequeue (Some f) (Some buf) =
       Some ((match q with [] => SBI_ENOENT | _ => 0 end), Some l, Some f') /\
     fifo_rel cap 40 f' (tlb_bytes <$> tail q) /\ (forall t0 q', q = t0 :: q' -> tlb_read l = t0).
Proof.
  intros Hr Hq Ht Hb. split; [|split].
  - destruct (inplace_mem ti q SBI_FIFO_UNCHANGED Ht Hq) as [Eu Hall]; [done|].
    destruct (fifo_step_rel cap 40 f _ (OpUpdate (tlb_bytes ti) tlb_update_cb_mem) Hr) as (f' & Es & Hr').
    { intros e0 _. unfold tlb_update_cb_mem. destruct (tlb_update_cb _ _). apply tlb_bytes_length. }
    cbn [fifo_step queue_step] in Es, Hr'. rewrite Eu in Es, Hr'. cbn [fst snd] in Es, Hr'. exists f'. split; [|done].
    destruct (sbi_fifo_inplace_update _ _ _) as [[r ?]|]; cbn in Es; by simplify_eq.
  - destruct (fifo_step_rel cap 40 f _ (OpEnqueue (tlb_bytes ti) false) Hr (tlb_bytes_length ti)) as (f' & Es & Hr').
    exists f'. cbn [fifo_step queue_step] in Es, Hr'. rewrite length_fmap in Es, Hr'. unfold tlb_enqueue.
    destruct (sbi_fifo_enqueue _ _ _) as [[r ?]|]; [|done]. cbn in Es.
    destruct (Z.of_nat (length q) =? cap); cbn [fst snd] in *; simplify_eq; [done|].
    rewrite fmap_app. split_and!; [done|done|]. apply Forall_app. split; [done|by constructor].
  - destruct (fifo_step_rel cap 40 f _ (OpDequeue buf) Hr Hb) as (f' & Es & Hr').
    cbn [fifo_step queue_step] in Es, Hr'. exists f'.
    destruct (sbi_fifo_dequeue _ _) as [[[r ?] ?]|]; [|done]. cbn in Es.
    destruct q as [|t0 q]; cbn in *; simplify_eq; eexists; (split_and!; [done|done|]); [done|].
    intros t0' q' [= <- <-]. apply tlb_roundtrip. by apply Forall_cons in Hq as [? _].
Qed.

Lemma tlb_fifo_refines_witness :
  let t0 := mkTinfo 0x1000 0x1000 7 0 SBI_TLB_SFENCE_VMA_ASID (mkHartmask [1; 0]) in
  let ti := mkTinfo 0x1000 0x3000 7 0 SBI_TLB_SFENCE_VMA_ASID (mkHartmask [4; 0]) in
  exists f', sbi_fifo_inplace_update (Some (mkFifo (tlb_bytes t0 ++ replicate 40 0) SPIN_LOCK_UNLOCKED 40 2 1 0))
      (Some (tlb_bytes ti)) tlb_update_cb_mem = Some (SBI_FIFO_UPDATED, Some f') /\
    fifo_rel 2 40 f' [tlb_bytes (mkTinfo 0x1000 0x3000 7 0 SBI_TLB_SFENCE_VMA_ASID (mkHartmask [5; 0]))].
Proof.
  intros t0 ti. assert (tinfo_typed t0 /\ tinfo_typed ti) as [H0 Hi].
  { split; split; cbn; unfold in_range; try lia;
      split; try done; repeat constructor; unfold in_range; lia. }
  destruct (tlb_fifo_refines 2 (mkFifo (tlb_bytes t0 ++ replicate 40 0) SPIN_LOCK_UNLOCKED 40 2 1 0) [t0] ti
    (replicate 40 0)) as [(f' & E & Hr & _) _]; [|by constructor|done|done|by exists f'].
  split; [split; cbn; try lia; done|by apply lock_free_init|done|done|vm_compute; reflexivity].
Defined.
