(* ===== verification/Rfence.v ===== *)
(** * Remote fences are complete

    The harts of file Tlb interleaved access by access ([tstep]), and the
    contract of a remote fence: when the call returns 0, every target has
    flushed whatever the request asks for, since the call began.

    The invariant follows each request from the sender to every target.  The
    entries of a target's FIFO and the one it is working on are its [items]; a
    sender waits for the items that carry it in their mask ([view]).  There is
    at most one of them per target ([pair_ok]), it serves the request, and the
    sender's counter is their number ([counter_ok]). *)

From stdpp Require Import gmap.
From S2P Require Import Prelude Strings Locks Fifo Bitops Bitmap Scratch Pmp Memregion Domain Hsm Ipi Tlb.
Local Open Scope Z_scope.

(** A hart with a scratch space. *)
Definition valid (e : tlb_env) (i : Z) : Prop := 0 <= i < 128 /\ sbi_hartindex_to_scratch (te_sc e) i <> None.

(** The steps of the system; [ok] restricts what supervisors ask for. *)
Inductive tstep (e : tlb_env) (ok : sbi_tlb_info -> Prop) : tsys -> tsys -> Prop :=
| ts_rfence i funcid a0 a1 a2 a3 a4 junk asked ti s s' :
    valid e i -> t_thr (th s i) = TSuper -> hm_wf junk -> in_range 64 a0 ->
    sbi_ecall_rfence_handler (te_sc e) (te_misa_h e) (t_hgatp (th s i)) (sbi_hartindex_to_hartid (te_sc e) i)
      funcid a2 a3 a4 = inr asked ->
    sbi_tlb_request (tlb_range_flush_limit e) asked = inr ti -> ok ti ->
    rfence_call e i funcid a0 a1 a2 a3 a4 junk s = Some s' ->
    tstep e ok s s'
| ts_ipi i event hmask hbase junk s s' :
    valid e i -> t_thr (th s i) = TSuper -> hm_wf junk -> in_range 64 hmask ->
    event_ops (te_ipi e) event <> Some tlb_ops ->
    ipi_call e i event hmask hbase junk s = Some s' ->
    tstep e ok s s'
| ts_irq i s :
    valid e i -> t_thr (th s i) = TSuper -> t_irq (th s i) = true ->
    tstep e ok s (goto s i TClear)
| ts_run i s s' : valid e i -> hart_step e i s = Some s' -> tstep e ok s s'.

Definition idle_hart (hgatp : Z) : thart := mkTh [] 0 0 false false hgatp [] TSuper.

Definition tinit (s : tsys) : Prop := calls s = [] /\ forall i, exists hgatp, th s i = idle_hart hgatp.

(** ** Items *)

(** A request a target has still to deal with: the least hart of its mask that
    has not been told, and whether the fences have been run. *)
Record item := mkItem { it_info : sbi_tlb_info; it_from : Z; it_fenced : bool }.

Definition current (t : thread) : list item :=
  match t with
  | TProc _ (PFence ti) => [mkItem ti 0 false]
  | TProc _ (PSub ti i) => [mkItem ti i true]
  | _ => []
  end.

Definition items (h : thart) : list item :=
  current (t_thr h) ++ ((fun ti => mkItem ti 0 false) <$> t_fifo h).

(** Hart [s] waits for the item. *)
Definition waits (s : Z) (it : item) : bool := hm_mem (ti_smask (it_info it)) s && (it_from it <=? s).

Definition view (s : Z) (h : thart) : list item := filter (fun it => waits s it = true) (items h).

(** ** What a sender is owed *)

Inductive phase : Type := PhLoop | PhSend | PhAdd | PhHand | PhEnd.

Definition pc_phase (pc : spc) : phase :=
  match pc with SHead => PhLoop | SUpdate | SEnqueue => PhSend | SAdd => PhAdd | SType | SRaw => PhHand | SSync => PhEnd end.

Definition thr_req (t : thread) : option (req * phase) :=
  match t with
  | TReq rq pc => Some (rq, pc_phase pc)
  | TProc (KRetry rq) _ => Some (rq, PhSend)
  | TProc (KSync rq) _ => Some (rq, PhEnd)
  | _ => None
  end.

(** The request hart [T] owes the sender, with the length of its log before. *)
Definition duty (t : thread) (T : Z) : option (sbi_tlb_info * nat) :=
  match thr_req t with
  | Some (rq, _) => if decide (T ∈ rq_sent rq) then Some (rq_asked rq, rq_snap rq T) else None
  | None => None
  end.

(** The fences run after the first [n] flush what [ti] asks for. *)
Definition fulfilled (ti : sbi_tlb_info) (n : nat) (h : thart) : Prop :=
  forall c, asked ti c = true -> exists f, f ∈ drop n (t_log h) /\ flushes f c = true.

Definition pair_ok (s : Z) (d : option (sbi_tlb_info * nat)) (h : thart) : Prop :=
  match d with
  | None => view s h = []
  | Some (ti, n) =>
      (view s h = [] /\ fulfilled ti n h) \/
      exists it, view s h = [it] /\ serves (it_info it) ti /\ (it_fenced it = true -> fulfilled ti n h)
  end.

(** ** Counting *)

Definition pend (s : Z) (h : thart) : Z := Z.of_nat (length (view s h)).

Definition pend_sum (s : Z) (th : Z -> thart) : Z := foldr (fun T a => pend s (th T) + a) 0 (seqZ 0 128).

(** A request handed over that the sender has not counted yet. *)
Definition uncounted (t : thread) : Z := match thr_req t with Some (_, PhAdd) => 1 | _ => 0 end.

Lemma sum_change (f g : Z -> Z) (r d : Z) (l : list Z) :
  NoDup l -> r ∈ l -> (forall T, T ∈ l -> T <> r -> g T = f T) -> g r = f r + d ->
  foldr (fun T a => g T + a) 0 l = foldr (fun T a => f T + a) 0 l + d.
Proof.
  intros Hnd. revert r. induction Hnd as [|x l Hx Hnd IH]; intros r Hr Hne Hd; [by apply elem_of_nil in Hr|].
  cbn [foldr]. apply elem_of_cons in Hr as [<-|Hr].
  - rewrite Hd. assert (foldr (fun T a => g T + a) 0 l = foldr (fun T a => f T + a) 0 l) as ->; [|lia].
    clear -Hne Hx. assert (forall T, T ∈ l -> g T = f T) as H by (intros T HT; apply Hne; [by right|by intros ->]).
    clear -H. induction l as [|y l IH]; [done|]. cbn. rewrite H by left. rewrite IH; [done|].
    intros T HT. apply H. by right.
  - rewrite (IH r Hr); [|intros T HT; apply Hne; by right|done].
    rewrite (Hne x); [lia|left|by intros ->].
Qed.

Lemma pend_sum_change s th th' r d :
  0 <= r < 128 -> (forall T, T <> r -> pend s (th' T) = pend s (th T)) -> pend s (th' r) = pend s (th r) + d ->
  pend_sum s th' = pend_sum s th + d.
Proof.
  intros Hr Hne Hd. apply (sum_change (fun T => pend s (th T)) (fun T => pend s (th' T)) r d).
  - apply NoDup_seqZ.
  - apply elem_of_seqZ. lia.
  - intros T _ HT. by apply Hne.
  - done.
Qed.

Lemma pend_sum_same s th th' :
  (forall T, pend s (th' T) = pend s (th T)) -> pend_sum s th' = pend_sum s th.
Proof. intros H. rewrite (pend_sum_change s th th' 0 0); [lia|lia|auto|]. rewrite H. lia. Qed.

Lemma pend_sum_zero s th :
  (forall T, 0 <= T < 128 -> view s (th T) = []) -> pend_sum s th = 0.
Proof.
  intros H. unfold pend_sum. assert (forall T, T ∈ seqZ 0 128 -> view s (th T) = []) as Hl
    by (intros T HT%elem_of_seqZ; apply H; lia).
  revert Hl. generalize (seqZ 0 128) as l. induction l as [|x l IH]; intros Hl; [done|]. cbn [foldr].
  rewrite IH by (intros T HT; apply Hl; by right). unfold pend. rewrite Hl by left. done.
Qed.

Lemma pend_sum_nonpos s th :
  pend_sum s th <= 0 -> forall T, 0 <= T < 128 -> view s (th T) = [].
Proof.
  unfold pend_sum. intros H T HT.
  assert (forall l, 0 <= foldr (fun T a => pend s (th T) + a) 0 l) as Hpos.
  { induction l as [|x l IH]; cbn [foldr]; [lia|]. assert (0 <= pend s (th x)) by (unfold pend; lia). lia. }
  assert (T ∈ seqZ 0 128) as Hin by (apply elem_of_seqZ; lia). revert H Hin. generalize (seqZ 0 128) as l.
  induction l as [|x l IH]; intros H Hin; [by apply elem_of_nil in Hin|]. cbn [foldr] in H.
  specialize (Hpos l). assert (0 <= pend s (th x)) by (unfold pend; lia).
  apply elem_of_cons in Hin as [->|Hin]; [|apply IH; [lia|done]].
  apply nil_length_inv. assert (pend s (th x) = 0) as Hx by lia. unfold pend in Hx. lia.
Qed.

(** ** The invariant *)

Record item_ok (e : tlb_env) (it : item) : Prop := {
  ik_info : tinfo_ok (it_info it);
  ik_mask : hm_wf (ti_smask (it_info it));
  ik_valid : forall k, 0 <= k < 128 -> hm_mem (ti_smask (it_info it)) k = true -> valid e k;
  ik_new : it_fenced it = false -> it_from it = 0;
  ik_from : it_fenced it = true -> 0 <= it_from it <= 128 /\
    (it_from it < 128 -> hm_mem (ti_smask (it_info it)) (it_from it) = true) }.

(** A remote fence of hart [s] in its loop. *)
Record rfence_ok (s : Z) (rq : req) (ph : phase) : Prop := {
  ro_mask : hm_wf (rq_mask rq);
  ro_info : tinfo_ok (rq_info rq);
  ro_smask : hm_wf (ti_smask (rq_info rq)) /\
    forall k, 0 <= k < 128 -> hm_mem (ti_smask (rq_info rq)) k = (k =? s);
  ro_serves : serves (rq_info rq) (rq_asked rq);
  ro_sent : forall T, T ∈ rq_sent rq -> 0 <= T < 128;
  (* the hart at hand is in the mask, and so is every hart not dealt with *)
  ro_at : ph <> PhEnd -> 0 <= rq_i rq <= 128 /\ (rq_i rq < 128 -> hm_mem (rq_mask rq) (rq_i rq) = true);
  ro_here : ph = PhSend \/ ph = PhAdd \/ ph = PhHand -> rq_i rq < 128;
  ro_handed : ph = PhAdd \/ ph = PhHand -> rq_i rq ∈ rq_sent rq;
  ro_fresh : ph <> PhEnd -> forall T, T ∈ rq_sent rq -> hm_mem (rq_mask rq) T = true ->
    T = rq_i rq /\ (ph = PhAdd \/ ph = PhHand);
  ro_cover : ph <> PhEnd -> forall T, T ∈ hartmask_set (rq_targets rq) ->
    T ∈ rq_sent rq \/ (0 <= T < 128 /\ hm_mem (rq_mask rq) T = true);
  ro_order : ph <> PhEnd -> rq_retry rq = false -> forall T, 0 <= T < 128 -> hm_mem (rq_mask rq) T = true ->
    rq_i rq <= T;
  ro_end : ph = PhEnd -> rq_rc rq = 0 -> forall T, T ∈ hartmask_set (rq_targets rq) -> T ∈ rq_sent rq }.

Definition req_ok (e : tlb_env) (s : Z) (t : thread) : Prop :=
  match thr_req t with
  | None => True
  | Some (rq, ph) =>
      if decide (event_ops (te_ipi e) (rq_event rq) = Some tlb_ops) then rfence_ok s rq ph
      else rq_sent rq = [] /\ ph <> PhSend /\ ph <> PhAdd
  end.

Definition snap_ok (th : Z -> thart) (t : thread) : Prop :=
  match thr_req t with
  | None => True
  | Some (rq, _) => forall T, (rq_snap rq T <= length (t_log (th T)))%nat
  end.

Record inv (e : tlb_env) (s : tsys) : Prop := {
  i_items : forall T, 0 <= T < 128 -> Forall (item_ok e) (items (th s T));
  i_req : forall i, 0 <= i < 128 -> req_ok e i (t_thr (th s i)) /\ snap_ok (th s) (t_thr (th s i));
  i_pair : forall i T, 0 <= i < 128 -> 0 <= T < 128 -> pair_ok i (duty (t_thr (th s i)) T) (th s T);
  i_count : forall i, 0 <= i < 128 ->
    t_sync (th s i) = pend_sum i (th s) - uncounted (t_thr (th s i));
  i_calls : forall i rq, (i, rq) ∈ calls s -> event_ops (te_ipi e) (rq_event rq) = Some tlb_ops ->
    rq_rc rq = 0 -> forall T, T ∈ hartmask_set (rq_targets rq) -> fulfilled (rq_asked rq) (rq_snap rq T) (th s T) }.

Record env_ok (e : tlb_env) : Prop := {
  eo_index : forall i, valid e i -> sbi_hartid_to_hartindex (te_sc e) (sbi_hartindex_to_hartid (te_sc e) i) = i;
  eo_event : event_ops (te_ipi e) (tlb_event e) = Some tlb_ops;
  eo_dom : forall i d, te_dom e i = Some d -> domain_harts_ok d }.

(** *** Frames *)

Lemma fulfilled_grows ti n h h' l : t_log h' = t_log h ++ l -> fulfilled ti n h -> fulfilled ti n h'.
Proof.
  intros E H c Hc. destruct (H c Hc) as (f & Hf & Hfl). exists f. split; [|done].
  rewrite E, drop_app. apply elem_of_app. by left.
Qed.

Lemma fulfilled_new ti n h h' l :
  t_log h' = t_log h ++ l -> (n <= length (t_log h))%nat ->
  (forall c, asked ti c = true -> exists f, f ∈ l /\ flushes f c = true) -> fulfilled ti n h'.
Proof.
  intros E Hn H c Hc. destruct (H c Hc) as (f & Hf & Hfl). exists f. split; [|done].
  rewrite E, drop_app_le by done. apply elem_of_app. by right.
Qed.

(** Two harts that differ in nothing the invariant looks at. *)
Definition same_hart (h h' : thart) : Prop :=
  t_fifo h' = t_fifo h /\ t_sync h' = t_sync h /\ t_log h' = t_log h.

Lemma th_upd s i f j : th (upd s i f) j = if decide (j = i) then f (th s i) else th s j.
Proof. done. Qed.

Lemma pair_ok_same s d h h' :
  items h' = items h -> t_log h' = t_log h -> pair_ok s d h -> pair_ok s d h'.
Proof.
  intros Ei El. unfold pair_ok, view, fulfilled. by rewrite Ei, El.
Qed.

Lemma pend_same s h h' : items h' = items h -> pend s h' = pend s h.
Proof. intros E. unfold pend, view. by rewrite E. Qed.

(** A step of hart [i] that moves it to [t'] and changes no item, log or
    counter. *)
Lemma inv_quiet e s s' i t' :
  0 <= i < 128 -> inv e s ->
  (forall j, same_hart (th s j) (th s' j)) ->
  (forall j, j <> i -> t_thr (th s' j) = t_thr (th s j)) ->
  t_thr (th s' i) = t' ->
  (forall j rq, (j, rq) ∈ calls s' -> (j, rq) ∈ calls s \/
     (event_ops (te_ipi e) (rq_event rq) = Some tlb_ops -> rq_rc rq = 0 ->
      forall T, T ∈ hartmask_set (rq_targets rq) -> fulfilled (rq_asked rq) (rq_snap rq T) (th s T))) ->
  items (th s' i) = items (th s i) ->
  (forall T, 0 <= T < 128 ->
     duty t' T = duty (t_thr (th s i)) T \/ (duty t' T = None /\ view i (th s T) = [])) ->
  uncounted t' = uncounted (t_thr (th s i)) ->
  req_ok e i t' -> snap_ok (th s) t' -> inv e s'.
Proof.
  intros Hi [I1 I2 I3 I4 I5] Hsame Hthr Ht Hcalls Hitems Hduty Hunc Hreq Hsnap.
  assert (forall j, items (th s' j) = items (th s j)) as Eit.
  { intros j. destruct (decide (j = i)) as [->|Hne]; [done|]. unfold items.
    destruct (Hsame j) as (-> & _). by rewrite Hthr. }
  assert (forall t, snap_ok (th s) t -> snap_ok (th s') t) as Hsn.
  { intros t. unfold snap_ok. destruct (thr_req t) as [[rq ph]|]; [|done]. intros H T.
    destruct (Hsame T) as (_ & _ & ->). apply H. }
  split.
  - intros T HT. rewrite Eit. by apply I1.
  - intros j Hj. destruct (decide (j = i)) as [->|Hne]; [rewrite Ht; by split; [|apply Hsn]|].
    rewrite Hthr by done. destruct (I2 j Hj). by split; [|apply Hsn].
  - intros j T Hj HT. apply (pair_ok_same _ _ (th s T)); [by rewrite Eit|by destruct (Hsame T) as (_ & _ & ->)|].
    destruct (decide (j = i)) as [->|Hne]; [|rewrite Hthr by done; by apply I3].
    rewrite Ht. destruct (Hduty T HT) as [->|[-> Hno]]; [by apply I3|exact Hno].
  - intros j Hj. destruct (Hsame j) as (_ & -> & _). rewrite I4 by done. f_equal.
    + symmetry. apply pend_sum_same. intros T. by apply pend_same.
    + destruct (decide (j = i)) as [->|Hne]; [by rewrite Ht|by rewrite Hthr].
  - intros j rq Hin Hev Hrc T HT.
    apply (fulfilled_grows _ _ (th s T) _ []); [by destruct (Hsame T) as (_ & _ & ->); rewrite app_nil_r|].
    destruct (Hcalls j rq Hin) as [Hin'|H]; [by apply (I5 j)|by apply H].
Qed.

Lemma snap_ok_grows th th' t :
  (forall T, exists l, t_log (th' T) = t_log (th T) ++ l) -> snap_ok th t -> snap_ok th' t.
Proof.
  intros Hl. unfold snap_ok. destruct (thr_req t) as [[rq ph]|]; [|done]. intros H T.
  destruct (Hl T) as [l ->]. rewrite length_app. specialize (H T). lia.
Qed.

Lemma pair_ok_grows s d h h' l :
  items h' = items h -> t_log h' = t_log h ++ l -> pair_ok s d h -> pair_ok s d h'.
Proof.
  intros Ei El. unfold pair_ok, view. rewrite Ei. destruct d as [[ti n]|]; [|done].
  intros [[Hv Hf]|(it & Hv & Hs & Hf)].
  - left. split; [done|]. by eapply fulfilled_grows.
  - right. exists it. split; [done|]. split; [done|]. intros Hx. eapply fulfilled_grows; [done|auto].
Qed.

(** A step of hart [i] that moves it to [t'] and may change the items and the
    log of hart [r]. *)
Lemma inv_change e s s' i r t' :
  0 <= i < 128 -> 0 <= r < 128 -> inv e s ->
  (forall j, j <> i -> t_thr (th s' j) = t_thr (th s j)) -> t_thr (th s' i) = t' ->
  (forall T, exists l, t_log (th s' T) = t_log (th s T) ++ l) ->
  (forall T, T <> r -> items (th s' T) = items (th s T)) ->
  calls s' = calls s ->
  Forall (item_ok e) (items (th s' r)) -> req_ok e i t' -> snap_ok (th s) t' ->
  (forall T, 0 <= T < 128 -> T <> r -> duty t' T = duty (t_thr (th s i)) T) ->
  (forall j, 0 <= j < 128 -> pair_ok j (duty (t_thr (th s' j)) r) (th s' r)) ->
  (forall j, 0 <= j < 128 ->
     t_sync (th s' j) + uncounted (t_thr (th s' j)) - pend j (th s' r) =
     t_sync (th s j) + uncounted (t_thr (th s j)) - pend j (th s r)) ->
  inv e s'.
Proof.
  intros Hi Hr [I1 I2 I3 I4 I5] Hthr Ht Hlog Hit Hcalls Hitr Hreq Hsnap Hduty Hpair Hcount. split.
  - intros T HT. destruct (decide (T = r)) as [->|Hne]; [done|]. rewrite Hit by done. by apply I1.
  - intros j Hj. destruct (decide (j = i)) as [->|Hne].
    + rewrite Ht. split; [done|]. by apply (snap_ok_grows (th s)).
    + rewrite Hthr by done. destruct (I2 j Hj). split; [done|]. by apply (snap_ok_grows (th s)).
  - intros j T Hj HT. destruct (decide (T = r)) as [->|Hne]; [by apply Hpair|].
    destruct (Hlog T) as [l Hl]. apply (pair_ok_grows _ _ (th s T) _ l); [by apply Hit|done|].
    destruct (decide (j = i)) as [->|Hji]; [rewrite Ht, Hduty by done|rewrite Hthr by done]; by apply I3.
  - intros j Hj. specialize (Hcount j Hj). rewrite I4 in Hcount by done.
    rewrite (pend_sum_change j (th s) (th s') r (pend j (th s' r) - pend j (th s r))); [lia|done| |lia].
    intros T HT. apply pend_same. by apply Hit.
  - intros j rq Hin Hev Hrc T HT. rewrite Hcalls in Hin. destruct (Hlog T) as [l Hl].
    apply (fulfilled_grows _ _ (th s T) _ l); [done|]. by apply (I5 j).
Qed.

(** *** Senders *)

Lemma rfence_req e s rq ph t :
  thr_req t = Some (rq, ph) -> event_ops (te_ipi e) (rq_event rq) = Some tlb_ops ->
  req_ok e s t <-> rfence_ok s rq ph.
Proof. intros E Hev. unfold req_ok. rewrite E, decide_True by done. done. Qed.

(** Position after the hart at hand has been dealt with. *)
Lemma next_target_spec m i :
  hm_wf m -> 0 <= i < 128 ->
  let r := next_target m (i + 1) in
  i < r <= 128 /\ (r < 128 -> hm_mem m r = true) /\
  forall k, i < k < 128 -> hm_mem m k = true -> r <= k.
Proof.
  intros Hm Hi. cbv zeta.
  destruct (find_next_bit_least (hm_bits m) 128 (i + 1)) as (Hl & Hr & Ht); [apply Hm|unfold in_range; lia|lia|].
  change (find_next_bit (hm_bits m) 128 (i + 1)) with (next_target m (i + 1)) in *.
  split; [lia|]. split; [exact Ht|]. intros k Hk Hb.
  destruct (decide (next_target m (i + 1) <= k)) as [|Hn]; [done|].
  unfold hm_mem in Hb. rewrite Hl in Hb by lia. done.
Qed.

Lemma first_target_spec m :
  hm_wf m -> let r := first_target m in
  0 <= r <= 128 /\ (r < 128 -> hm_mem m r = true) /\ forall k, 0 <= k < 128 -> hm_mem m k = true -> r <= k.
Proof.
  intros Hm. cbv zeta.
  destruct (find_first_bit_least (hm_bits m) 128) as (Hl & Hr & Ht); [apply Hm|unfold in_range; lia|].
  change (find_first_bit (hm_bits m) 128) with (first_target m) in *.
  split; [lia|]. split; [exact Ht|]. intros k Hk Hb.
  destruct (decide (first_target m <= k)) as [|Hn]; [done|].
  unfold hm_mem in Hb. rewrite Hl in Hb by lia. done.
Qed.

(** Uses the facts about a request that hold before its end, and closes those
    that carry over. *)
Ltac facts H :=
  destruct H as [ro_mask0 ro_info0 ro_smask0 ro_serves0 ro_sent0 ro_at0 ro_here0 ro_handed0 ro_fresh0
    ro_cover0 ro_order0 ro_end0];
  repeat match goal with X : _ <> PhEnd -> _ |- _ => specialize (X ltac:(discriminate)) end.

Ltac facts_hold :=
  cbn [rq_done rq_again rq_return rq_handed rq_loop rq_info rq_asked rq_mask rq_i rq_sent rq_targets rq_retry rq_rc];
  try assumption;
  try (intros [X|X]; discriminate X); try (intros [X|[X|X]]; discriminate X);
  try (intros X; (discriminate X || (exfalso; by apply X)));
  try (intros _; assumption).

Section Sender.
Context (s : Z) (rq : req).

Lemma loop_send : rfence_ok s rq PhLoop -> rq_i rq < 128 -> rfence_ok s rq PhSend.
Proof.
  intros H Hi. facts H. split; facts_hold. intros _ T HT Hm.
  destruct (ro_fresh0 T HT Hm) as [_ [?|?]]; done.
Qed.

Lemma send_handed : rfence_ok s rq PhSend -> rfence_ok s (rq_handed rq) PhAdd.
Proof.
  intros H. facts H. specialize (ro_here0 ltac:(by left)). destruct ro_at0 as [Hi0 Hi].
  split; facts_hold.
  - intros T [->|HT]%elem_of_cons; [lia|auto].
  - intros _. by split.
  - intros _. left.
  - intros _ T [->|HT]%elem_of_cons Hm; [split; [done|by left]|].
    destruct (ro_fresh0 T HT Hm) as [_ [?|?]]; done.
  - intros _ T HT. destruct (ro_cover0 T HT); [left; by right|by right].
Qed.

Lemma add_hand : rfence_ok s rq PhAdd -> rfence_ok s rq PhHand.
Proof.
  intros H. facts H. specialize (ro_here0 ltac:(right; by left)). specialize (ro_handed0 ltac:(by left)).
  split; facts_hold. intros _ T HT Hm.
  destruct (ro_fresh0 T HT Hm) as [? _]. split; [done|by right].
Qed.

Lemma hand_done : rfence_ok s rq PhHand -> rfence_ok s (rq_done rq) PhLoop.
Proof.
  intros H. facts H. specialize (ro_here0 ltac:(right; by right)). specialize (ro_handed0 ltac:(by right)).
  destruct ro_at0 as [Hi0 _].
  destruct (hm_clear_spec (rq_i rq) (rq_mask rq) ro_mask0 ltac:(lia)) as [Hw Hc].
  pose proof (next_target_spec _ (rq_i rq) Hw ltac:(lia)) as (Hn1 & Hn2 & Hn3).
  split; facts_hold.
  - intros _. split; [lia|exact Hn2].
  - intros _ T HT Hm. rewrite Hc in Hm by auto. apply andb_prop in Hm as [Hne Hm].
    destruct (ro_fresh0 T HT Hm) as [-> _]. by rewrite Z.eqb_refl in Hne.
  - intros _ T HT. destruct (ro_cover0 T HT) as [?|[HT' Hm]]; [by left|].
    destruct (decide (T = rq_i rq)) as [->|Hne]; [by left|]. right. split; [done|].
    rewrite Hc, Hm by done. rewrite (proj2 (Z.eqb_neq _ _)) by done. done.
  - intros _ Hr T HT Hm. pose proof Hm as Hm'. rewrite Hc in Hm by done. apply andb_prop in Hm as [Hne Hm].
    pose proof (ro_order0 Hr T HT Hm) as Hle.
    assert (T <> rq_i rq) by (intros ->; by rewrite Z.eqb_refl in Hne).
    apply Hn3; [lia|exact Hm'].
Qed.

Lemma send_again : rfence_ok s rq PhSend -> rfence_ok s (rq_again rq) PhLoop.
Proof.
  intros H. facts H. specialize (ro_here0 ltac:(by left)). destruct ro_at0 as [Hi0 _].
  pose proof (next_target_spec _ (rq_i rq) ro_mask0 ltac:(lia)) as (Hn1 & Hn2 & Hn3).
  split; facts_hold.
  - intros _. split; [lia|exact Hn2].
  - intros _ T HT Hm. destruct (ro_fresh0 T HT Hm) as [_ [?|?]]; done.
  - intros _ X. discriminate X.
Qed.

Lemma loop_restart :
  rfence_ok s rq PhLoop -> rfence_ok s (rq_loop rq (rq_mask rq) (first_target (rq_mask rq)) false) PhLoop.
Proof.
  intros H. facts H. pose proof (first_target_spec _ ro_mask0) as (Hn1 & Hn2 & Hn3).
  split; facts_hold.
  - intros _. by split.
  - intros _ T HT Hm. destruct (ro_fresh0 T HT Hm) as [_ [?|?]]; done.
  - intros _ _. exact Hn3.
Qed.

Lemma loop_end :
  rfence_ok s rq PhLoop -> 128 <= rq_i rq -> rq_retry rq = false -> rfence_ok s (rq_return rq 0) PhEnd.
Proof.
  intros H Hi Hr. facts H. split; facts_hold.
  intros _ _ T HT. destruct (ro_cover0 T HT) as [?|[HT' Hm]]; [done|].
  pose proof (ro_order0 Hr T HT' Hm). lia.
Qed.

Lemma fail_end ph rc : rfence_ok s rq ph -> rc <> 0 -> rfence_ok s (rq_return rq rc) PhEnd.
Proof.
  intros H Hrc. destruct H. split; facts_hold. intros _ X. by apply Hrc in X.
Qed.
End Sender.

(** *** Moves *)

(** [s0] differs from [s] at most in interrupt flags and [hgatp]. *)
Definition flags_only (s s0 : tsys) : Prop :=
  calls s0 = calls s /\
  forall j, same_hart (th s j) (th s0 j) /\ t_thr (th s0 j) = t_thr (th s j).

Lemma flags_refl s : flags_only s s.
Proof. done. Qed.

Lemma flags_upd s i f :
  same_hart (th s i) (f (th s i)) -> t_thr (f (th s i)) = t_thr (th s i) -> flags_only s (upd s i f).
Proof.
  intros H H'. split; [done|]. intros j. rewrite th_upd. case_decide as E; [by subst|done].
Qed.

Lemma inv_goto e s s0 i t' :
  0 <= i < 128 -> inv e s -> flags_only s s0 ->
  current t' = current (t_thr (th s i)) ->
  (forall T, duty t' T = duty (t_thr (th s i)) T) ->
  uncounted t' = uncounted (t_thr (th s i)) ->
  req_ok e i t' -> snap_ok (th s) t' -> inv e (goto s0 i t').
Proof.
  intros Hi Hinv [Hc Hf] Hcur Hduty Hunc Hreq Hsnap.
  apply (inv_quiet e s _ i t'); try done.
  - intros j. unfold goto. rewrite th_upd. destruct (Hf j) as [Hs _].
    case_decide as E; [|done]. subst. exact Hs.
  - intros j Hj. unfold goto. rewrite th_upd, decide_False by done. apply Hf.
  - unfold goto. by rewrite th_upd, decide_True.
  - intros j rq. cbn [goto upd calls]. rewrite Hc. by left.
  - unfold goto. rewrite th_upd, decide_True by done. destruct (Hf i) as [(E & _) _].
    unfold items. cbn [th_thr t_thr t_fifo]. by rewrite E, Hcur.
  - intros T _. by left.
Qed.

(** Requests that are the same to those who serve them. *)
Definition rq_alike (rq rq' : req) : Prop :=
  rq_event rq' = rq_event rq /\ rq_sent rq' = rq_sent rq /\ rq_asked rq' = rq_asked rq /\ rq_snap rq' = rq_snap rq.

Lemma duty_alike t t' rq ph rq' ph' T :
  thr_req t = Some (rq, ph) -> thr_req t' = Some (rq', ph') -> rq_alike rq rq' -> duty t' T = duty t T.
Proof. intros E E' (_ & Es & Ea & En). unfold duty. by rewrite E, E', Es, Ea, En. Qed.

Lemma snap_alike th t t' rq ph rq' ph' :
  thr_req t = Some (rq, ph) -> thr_req t' = Some (rq', ph') -> rq_snap rq' = rq_snap rq ->
  snap_ok th t -> snap_ok th t'.
Proof. intros E E' En. unfold snap_ok. by rewrite E, E', En. Qed.

Lemma req_ok_move e i t t' rq ph rq' ph' :
  thr_req t = Some (rq, ph) -> thr_req t' = Some (rq', ph') -> rq_alike rq rq' -> req_ok e i t ->
  (event_ops (te_ipi e) (rq_event rq) = Some tlb_ops -> rfence_ok i rq ph -> rfence_ok i rq' ph') ->
  (event_ops (te_ipi e) (rq_event rq) <> Some tlb_ops -> ph' <> PhSend /\ ph' <> PhAdd) ->
  req_ok e i t'.
Proof.
  intros E E' (Ev & Es & _) H Ht Hn. unfold req_ok in *. rewrite E in H. rewrite E', Ev, Es.
  case_decide; [by apply Ht|]. split; [apply H|by apply Hn].
Qed.

(** A sender moves on without handing anything over. *)
Lemma inv_sender e s s0 i t t' rq ph rq' ph' :
  0 <= i < 128 -> inv e s -> flags_only s s0 -> t_thr (th s i) = t ->
  thr_req t = Some (rq, ph) -> thr_req t' = Some (rq', ph') -> rq_alike rq rq' ->
  current t' = current t -> ph <> PhAdd -> ph' <> PhAdd ->
  (event_ops (te_ipi e) (rq_event rq) = Some tlb_ops -> rfence_ok i rq ph -> rfence_ok i rq' ph') ->
  (event_ops (te_ipi e) (rq_event rq) <> Some tlb_ops -> ph' <> PhSend) ->
  inv e (goto s0 i t').
Proof.
  intros Hi Hinv Hf Ht E E' Ha Hc Hp Hp' Hr Hn. destruct (i_req e s Hinv i Hi) as [Hreq Hsnap]. rewrite Ht in *.
  apply (inv_goto e s); rewrite ?Ht; try done.
  - intros T. by apply (duty_alike _ _ rq ph rq' ph').
  - unfold uncounted. rewrite E, E'. by destruct ph, ph'.
  - apply (req_ok_move e i t t' rq ph rq' ph'); try done. intros X. split; [by apply Hn|done].
  - apply (snap_alike _ t t' rq ph rq' ph'); try done. apply Ha.
Qed.

(** A hart outside any request moves on. *)
Lemma inv_other e s s0 i t' :
  0 <= i < 128 -> inv e s -> flags_only s s0 ->
  thr_req (t_thr (th s i)) = None -> thr_req t' = None -> current t' = current (t_thr (th s i)) ->
  inv e (goto s0 i t').
Proof.
  intros Hi Hinv Hf E E' Hc. apply (inv_goto e s); try done.
  - intros T. unfold duty. by rewrite E, E'.
  - unfold uncounted. by rewrite E, E'.
  - unfold req_ok. by rewrite E'.
  - unfold snap_ok. by rewrite E'.
Qed.

(** *** Handing a request over *)

Lemma duty_handed rq ph ph' t t' T :
  thr_req t = Some (rq, ph) -> thr_req t' = Some (rq_handed rq, ph') -> T <> rq_i rq -> duty t' T = duty t T.
Proof.
  intros E E' HT. unfold duty. rewrite E, E'. cbn [rq_handed rq_sent rq_asked rq_snap].
  repeat case_decide; set_solver.
Qed.

Lemma duty_handed_here rq ph' t' :
  thr_req t' = Some (rq_handed rq, ph') -> duty t' (rq_i rq) = Some (rq_asked rq, rq_snap rq (rq_i rq)).
Proof. intros E'. unfold duty. rewrite E', decide_True by left. done. Qed.

(** Nothing is owed yet by a hart still in the mask. *)
Lemma not_yet_sent i rq ph t :
  thr_req t = Some (rq, ph) -> rfence_ok i rq ph -> ph = PhLoop \/ ph = PhSend -> rq_i rq < 128 ->
  duty t (rq_i rq) = None.
Proof.
  intros E H Hph Hlt. unfold duty. rewrite E. rewrite decide_False; [done|]. intros Hin.
  assert (ph <> PhEnd) as Hne by (by destruct Hph as [-> | ->]).
  destruct (ro_at i rq ph H Hne) as [_ Hm].
  destruct (ro_fresh i rq ph H Hne _ Hin (Hm Hlt)) as [_ [-> | ->]]; by destruct Hph.
Qed.

Lemma inv_hand_over e s i r rq pc q' :
  0 <= i < 128 -> inv e s -> t_thr (th s i) = TReq rq pc -> pc_phase pc = PhSend ->
  event_ops (te_ipi e) (rq_event rq) = Some tlb_ops -> r = rq_i rq ->
  let h := th_fifo q' (th s r) in
  Forall (item_ok e) (items h) ->
  (view i (th s r) = [] -> exists it, view i h = [it] /\ serves (it_info it) (rq_info rq) /\ it_fenced it = false) ->
  (forall j, 0 <= j < 128 -> j <> i -> pend j h = pend j (th s r) /\
     forall d, pair_ok j d (th s r) -> pair_ok j d h) ->
  inv e (goto (upd s r (th_fifo q')) i (TReq (rq_handed rq) SAdd)).
Proof.
  intros Hi Hinv Ht Hpc Hev -> h Hok Hself Hother. set (r := rq_i rq) in *.
  destruct (i_req e s Hinv i Hi) as [Hreq Hsnap].
  assert (thr_req (t_thr (th s i)) = Some (rq, PhSend)) as E by (rewrite Ht; cbn; by rewrite Hpc).
  pose proof (proj1 (rfence_req e i rq PhSend _ E Hev) Hreq) as Hrf.
  pose proof (ro_here i rq _ Hrf ltac:(by left)) as Hlt.
  destruct (ro_at i rq _ Hrf ltac:(done)) as [Hr0 _].
  pose proof (not_yet_sent i rq PhSend _ E Hrf ltac:(by right) Hlt) as Hnone. fold r in Hnone.
  set (t' := TReq (rq_handed rq) SAdd). set (s' := goto _ i t').
  assert (thr_req t' = Some (rq_handed rq, PhAdd)) as E' by done.
  assert (forall T, T <> r -> items (th s' T) = items (th s T)) as Hit.
  { intros T HT. unfold s', goto. rewrite !th_upd. case_decide as D; [subst T|by rewrite decide_False].
    rewrite decide_False by done. unfold items. cbn. by rewrite Ht. }
  assert (items (th s' r) = items h) as Hitr.
  { unfold s', goto. rewrite !th_upd. case_decide as D.
    - rewrite <- D, decide_True by done. unfold h, items. cbn. rewrite D, Ht. done.
    - by rewrite decide_True. }
  assert (forall j, t_log (th s' j) = t_log (th s j) /\ t_sync (th s' j) = t_sync (th s j)) as Hlog.
  { intros j. unfold s', goto. rewrite !th_upd. repeat case_decide; subst; done. }
  assert (forall j, j <> i -> t_thr (th s' j) = t_thr (th s j)) as Hthr.
  { intros j Hj. unfold s', goto. rewrite !th_upd, decide_False by done. case_decide; subst; done. }
  assert (t_thr (th s' i) = t') as Hti by (unfold s', goto; by rewrite th_upd, decide_True).
  pose proof (i_pair e s Hinv i r Hi ltac:(lia)) as Hpi. rewrite Hnone in Hpi. cbn in Hpi.
  destruct (Hself Hpi) as (it & Hv & Hs & Hfe).
  assert (forall j, view j (th s' r) = view j h) as Hview by (intros j; unfold view; by rewrite Hitr).
  apply (inv_change e s s' i r t'); try done.
  - lia.
  - intros T. exists []. rewrite app_nil_r. apply Hlog.
  - by rewrite Hitr.
  - rewrite (rfence_req e i _ _ _ E' Hev). by apply send_handed.
  - by apply (snap_alike _ (t_thr (th s i)) t' rq PhSend (rq_handed rq) PhAdd).
  - intros T _ HT. by apply (duty_handed rq PhSend PhAdd).
  - intros j Hj. destruct (decide (j = i)) as [->|Hne].
    + rewrite Hti, (duty_handed_here rq PhAdd) by done. right. exists it. rewrite Hview. split; [done|]. split.
      * apply (serves_trans _ (rq_info rq)); [done|]. apply Hrf.
      * by rewrite Hfe.
    + rewrite Hthr by done. destruct (Hother j Hj Hne) as [_ Hd].
      apply (pair_ok_same j _ h); [done|apply Hlog|]. apply Hd. apply (i_pair e s Hinv j r); [done|lia].
  - intros j Hj. rewrite (proj2 (Hlog j)). rewrite (pend_same j h (th s' r)) by done.
    destruct (decide (j = i)) as [->|Hne].
    + rewrite Hti, Ht. unfold uncounted. rewrite E'. cbn [thr_req]. rewrite Hpc.
      unfold pend. rewrite Hv, Hpi. cbn. lia.
    + rewrite Hthr by done. destruct (Hother j Hj Hne) as [-> _]. done.
Qed.

Lemma view_mid j h A x B :
  items h = A ++ x :: B ->
  view j h = filter (fun it => waits j it = true) A ++ (if waits j x then [x] else []) ++
             filter (fun it => waits j it = true) B.
Proof.
  intros E. unfold view. rewrite E, filter_app, filter_cons. f_equal.
  by destruct (waits j x).
Qed.

(** One item replaced by another that serves it and has the same waiters. *)
Lemma pend_replace j h h' A x x' B :
  items h = A ++ x :: B -> items h' = A ++ x' :: B -> waits j x' = waits j x -> pend j h' = pend j h.
Proof.
  intros E E' Hw. unfold pend. rewrite (view_mid j h A x B), (view_mid j h' A x' B) by done. rewrite Hw.
  rewrite !length_app. by destruct (waits j x).
Qed.

Lemma pair_replace j d h h' A x x' B l :
  items h = A ++ x :: B -> items h' = A ++ x' :: B -> t_log h' = t_log h ++ l ->
  waits j x' = waits j x -> serves (it_info x') (it_info x) ->
  (forall ti n, d = Some (ti, n) -> serves (it_info x) ti -> (it_fenced x = true -> fulfilled ti n h) ->
     it_fenced x' = true -> fulfilled ti n h') ->
  pair_ok j d h -> pair_ok j d h'.
Proof.
  intros E E' El Hw Hs Hf. pose proof (view_mid j h A x B E) as Hv. pose proof (view_mid j h' A x' B E') as Hv'.
  rewrite Hw in Hv'. destruct (waits j x) eqn:Ew.
  - unfold pair_ok. rewrite Hv, Hv'. destruct d as [[ti n]|].
    + intros [[Hn _]|(it & Hit & Hsv & Hfe)].
      { exfalso. symmetry in Hn. by apply app_cons_not_nil in Hn. }
      apply app_singleton in Hit as [[HA HB]|[_ HB]]; [|done]. injection HB as Hx HnB. subst it. rewrite HA, HnB.
      right. exists x'. split; [done|]. split; [by apply (serves_trans _ (it_info x))|].
      by apply (Hf ti n).
    + intros Hn. exfalso. symmetry in Hn. by apply app_cons_not_nil in Hn.
  - assert (view j h' = view j h) as Heq by (rewrite Hv, Hv'; done).
    unfold pair_ok. rewrite Heq. destruct d as [[ti n]|]; [|done].
    intros [[Hn Hu]|(it & Hit & Hsv & Hfe)].
    + left. split; [done|]. by apply (fulfilled_grows _ _ h _ l).
    + right. exists it. split; [done|]. split; [done|]. intros X. apply (fulfilled_grows _ _ h _ l); auto.
Qed.

Lemma waits_new j ti : 0 <= j -> waits j (mkItem ti 0 false) = hm_mem (ti_smask ti) j.
Proof. intros Hj. unfold waits. cbn. by rewrite (proj2 (Z.leb_le 0 j)), andb_true_r. Qed.

Section Steps.
Context (e : tlb_env) (He : env_ok e).

Lemma item_ok_new i rq :
  valid e i -> rfence_ok i rq PhSend -> item_ok e (mkItem (rq_info rq) 0 false).
Proof.
  intros Hi H. destruct (ro_smask i rq _ H) as [Hw Hm]. split; try done; [apply H|].
  intros k Hk Hb. rewrite Hm in Hb by done. apply Z.eqb_eq in Hb. by subst k.
Qed.

Lemma item_ok_merged i rq c c' :
  valid e i -> rfence_ok i rq PhSend -> item_ok e (mkItem c 0 false) -> tinfo_ok c' ->
  ti_smask c' = sbi_hartmask_or (ti_smask c) (ti_smask c) (ti_smask (rq_info rq)) ->
  item_ok e (mkItem c' 0 false) /\
  forall k, 0 <= k < 128 -> hm_mem (ti_smask c') k = hm_mem (ti_smask c) k || (k =? i).
Proof.
  intros Hi H Hc Hc' Hs. destruct (ro_smask i rq _ H) as [Hw Hm].
  destruct (hm_or_spec (ti_smask c) (ti_smask c) _ (ik_mask e _ Hc) (ik_mask e _ Hc) Hw) as [Hwo Hor].
  rewrite Hs. split.
  - split; cbn; rewrite ?Hs; try done. intros k Hk Hb. rewrite Hor in Hb by done.
    apply orb_prop in Hb as [Hb|Hb]; [by apply (ik_valid e _ Hc)|].
    rewrite Hm in Hb by done. apply Z.eqb_eq in Hb. by subst k.
  - intros k Hk. rewrite Hor, Hm by done. done.
Qed.

Lemma step_update s i rq :
  valid e i -> inv e s -> t_thr (th s i) = TReq rq SUpdate -> inv e (send_step e i s rq SUpdate).
Proof.
  intros Hv Hinv Ht. pose proof (proj1 Hv) as Hi. destruct (i_req e s Hinv i Hi) as [Hreq _].
  assert (event_ops (te_ipi e) (rq_event rq) = Some tlb_ops /\ rfence_ok i rq PhSend) as [Hev Hrf].
  { unfold req_ok in Hreq. rewrite Ht in Hreq. cbn in Hreq. case_decide; [done|]. by destruct Hreq as (_ & ? & _). }
  pose proof (ro_here i rq _ Hrf ltac:(by left)) as Hlt. destruct (ro_at i rq _ Hrf ltac:(done)) as [Hr0 _].
  set (r := rq_i rq) in *. pose proof (i_items e s Hinv r ltac:(lia)) as Hitems.
  assert (Forall tinfo_ok (t_fifo (th s r))) as Hq.
  { unfold items in Hitems. apply Forall_app in Hitems as [_ Hitems]. rewrite Forall_fmap in Hitems.
    eapply Forall_impl; [exact Hitems|]. intros ti Hti. apply Hti. }
  unfold send_step. fold r. pose proof (inplace_spec (rq_info rq) _ (ro_info i rq _ Hrf) Hq) as Hsp.
  destruct (tlb_inplace (rq_info rq) (t_fifo (th s r))) as [ret q'].
  destruct Hsp as [[-> ->]|(Hret & l & c & rr & c' & Eq & -> & Hc' & Hsc & Hsn & Hsm)].
  - apply (inv_sender e s _ i (TReq rq SUpdate) _ rq PhSend rq PhSend); try done.
    by apply flags_upd.
  - rewrite (proj2 (Z.eqb_neq _ _) Hret).
    set (A := current (t_thr (th s r)) ++ ((fun ti => mkItem ti 0 false) <$> l)).
    set (B := (fun ti => mkItem ti 0 false) <$> rr).
    assert (items (th s r) = A ++ mkItem c 0 false :: B) as E1.
    { unfold items, A. rewrite Eq, fmap_app. cbn. by rewrite app_assoc. }
    assert (items (th_fifo (l ++ c' :: rr) (th s r)) = A ++ mkItem c' 0 false :: B) as E2.
    { unfold items, A. cbn. rewrite fmap_app. cbn. by rewrite app_assoc. }
    rewrite E1, Forall_app, Forall_cons in Hitems. destruct Hitems as (HA & Hc & HB).
    destruct (item_ok_merged i rq c c' Hv Hrf Hc Hc' Hsm) as [Hok Hmem].
    apply (inv_hand_over e s i r rq SUpdate); try done.
    + rewrite E2, Forall_app, Forall_cons. done.
    + intros Hnil. rewrite (view_mid i _ A _ B E1) in Hnil. apply app_eq_nil in Hnil as [HnA Hnil].
      apply app_eq_nil in Hnil as [_ HnB]. exists (mkItem c' 0 false). split; [|done].
      rewrite (view_mid i _ A _ B E2), HnA, HnB, waits_new, Hmem, Z.eqb_refl, orb_true_r by lia. done.
    + intros j Hj Hne.
      assert (waits j (mkItem c' 0 false) = waits j (mkItem c 0 false)) as Hw.
      { rewrite !waits_new, Hmem by lia. rewrite (proj2 (Z.eqb_neq _ _)) by done. by rewrite orb_false_r. }
      split; [by apply (pend_replace j _ _ A (mkItem c 0 false) (mkItem c' 0 false) B)|].
      intros d. apply (pair_replace j d _ _ A (mkItem c 0 false) (mkItem c' 0 false) B []); try done.
      by rewrite app_nil_r.
Qed.

Lemma step_enqueue s i rq :
  valid e i -> inv e s -> t_thr (th s i) = TReq rq SEnqueue -> inv e (send_step e i s rq SEnqueue).
Proof.
  intros Hv Hinv Ht. pose proof (proj1 Hv) as Hi. destruct (i_req e s Hinv i Hi) as [Hreq _].
  assert (event_ops (te_ipi e) (rq_event rq) = Some tlb_ops /\ rfence_ok i rq PhSend) as [Hev Hrf].
  { unfold req_ok in Hreq. rewrite Ht in Hreq. cbn in Hreq. case_decide; [done|]. by destruct Hreq as (_ & ? & _). }
  pose proof (ro_here i rq _ Hrf ltac:(by left)) as Hlt. destruct (ro_at i rq _ Hrf ltac:(done)) as [Hr0 _].
  set (r := rq_i rq) in *. pose proof (i_items e s Hinv r ltac:(lia)) as Hitems.
  unfold send_step. fold r. unfold tlb_enqueue. case_bool; cbn [Z.ltb SBI_ENOSPC].
  - apply (inv_sender e s _ i (TReq rq SEnqueue) _ rq PhSend rq PhSend); try done.
    by apply flags_upd.
  - set (new := mkItem (rq_info rq) 0 false).
    assert (items (th_fifo (t_fifo (th s r) ++ [rq_info rq]) (th s r)) = items (th s r) ++ [new]) as E2.
    { unfold items. cbn. by rewrite fmap_app, app_assoc. }
    assert (forall j, 0 <= j < 128 -> waits j new = (j =? i)) as Hw.
    { intros j Hj. unfold new. rewrite waits_new by lia. by apply (ro_smask i rq _ Hrf). }
    apply (inv_hand_over e s i r rq SEnqueue); try done.
    + rewrite E2, Forall_app, Forall_singleton. split; [done|]. by apply (item_ok_new i).
    + intros Hnil. exists new. split; [|split; [apply serves_refl|done]].
      unfold view in *. rewrite E2, filter_app, Hnil. rewrite filter_cons, Hw, Z.eqb_refl by done. done.
    + intros j Hj Hne.
      assert (view j (th_fifo (t_fifo (th s r) ++ [rq_info rq]) (th s r)) = view j (th s r)) as Hview.
      { unfold view. rewrite E2, filter_app, filter_cons, Hw by done. rewrite (proj2 (Z.eqb_neq _ _)) by done.
        cbn. by rewrite app_nil_r. }
      split; [unfold pend; by rewrite Hview|]. intros d. unfold pair_ok. by rewrite Hview.
Qed.
(** The sender is its own target: it runs the fences itself. *)
Lemma step_self s i rq :
  valid e i -> inv e s -> t_thr (th s i) = TReq rq SHead -> rq_i rq = i ->
  event_ops (te_ipi e) (rq_event rq) = Some tlb_ops ->
  inv e (goto (upd s i (th_fence (tlb_entry_local_process (rq_info rq) (t_hgatp (th s i))))) i
           (TReq (rq_done (rq_handed rq)) SHead)).
Proof.
  intros Hv Hinv Ht Hri Hev. pose proof (proj1 Hv) as Hi. destruct (i_req e s Hinv i Hi) as [Hreq Hsnap].
  assert (thr_req (t_thr (th s i)) = Some (rq, PhLoop)) as E by (by rewrite Ht).
  pose proof (proj1 (rfence_req e i rq PhLoop _ E Hev) Hreq) as Hrf.
  pose proof (not_yet_sent i rq PhLoop _ E Hrf ltac:(by left) ltac:(lia)) as Hnone. rewrite Hri in Hnone.
  pose proof (i_pair e s Hinv i i Hi Hi) as Hpi. rewrite Hnone in Hpi. cbn in Hpi.
  set (t' := TReq _ SHead). set (fs := tlb_entry_local_process _ _). set (s' := goto _ i t').
  assert (thr_req t' = Some (rq_done (rq_handed rq), PhLoop)) as E' by done.
  assert (forall T, duty t' T = duty (TReq (rq_handed rq) SAdd) T) as Hd by done.
  assert (forall j, items (th s' j) = items (th s j) /\ t_sync (th s' j) = t_sync (th s j)) as Hit.
  { intros j. unfold s', goto. rewrite !th_upd. case_decide; [subst j|done].
    rewrite decide_True by done. unfold items. cbn. by rewrite Ht. }
  assert (t_log (th s' i) = t_log (th s i) ++ fs.1) as Hlogi.
  { unfold s', goto. by rewrite !th_upd, !decide_True. }
  assert (forall j, j <> i -> th s' j = th s j) as Hj.
  { intros j Hne. unfold s', goto. by rewrite !th_upd, !decide_False. }
  assert (t_thr (th s' i) = t') as Hti by (unfold s', goto; by rewrite th_upd, decide_True).
  apply (inv_change e s s' i i t'); try done.
  - intros j Hne. by rewrite Hj.
  - intros T. destruct (decide (T = i)) as [->|Hne]; [by exists fs.1|].
    exists []. by rewrite Hj, app_nil_r.
  - intros T _. apply Hit.
  - rewrite (proj1 (Hit i)). by apply (i_items e s Hinv).
  - rewrite (rfence_req e i _ _ _ E' Hev). apply hand_done, add_hand, send_handed, loop_send; [done|lia].
  - by apply (snap_alike _ (t_thr (th s i)) t' rq PhLoop (rq_done (rq_handed rq)) PhLoop).
  - intros T _ HT. rewrite Hd. apply (duty_handed rq PhLoop PhAdd); [done|done|by rewrite Hri].
  - intros j Hjr. destruct (decide (j = i)) as [->|Hne].
    + rewrite Hti, Hd. rewrite <- Hri at 2. rewrite (duty_handed_here rq PhAdd) by done.
      left. split; [unfold view; by rewrite (proj1 (Hit i))|].
      apply (fulfilled_new _ _ (th s i) _ fs.1); [done| |].
      * unfold snap_ok in Hsnap. rewrite E in Hsnap. rewrite Hri. apply Hsnap.
      * intros c Hc. apply local_process_flushes; [apply Hrf|]. by apply Hrf.
    + rewrite Hj by done. apply (pair_ok_grows j _ (th s i) _ fs.1); [apply Hit|done|].
      by apply (i_pair e s Hinv).
  - intros j Hjr. rewrite (proj2 (Hit j)), (pend_same j (th s i) (th s' i)) by apply Hit.
    destruct (decide (j = i)) as [->|Hne]; [by rewrite Hti, Ht|by rewrite Hj].
Qed.

Lemma step_head s i rq :
  valid e i -> inv e s -> t_thr (th s i) = TReq rq SHead -> inv e (send_step e i s rq SHead).
Proof.
  intros Hv Hinv Ht. pose proof (proj1 Hv) as Hi. unfold send_step.
  assert (forall s0 t' rq' ph', flags_only s s0 -> thr_req t' = Some (rq', ph') -> rq_alike rq rq' ->
    current t' = [] -> ph' <> PhAdd ->
    (event_ops (te_ipi e) (rq_event rq) = Some tlb_ops -> rfence_ok i rq PhLoop -> rfence_ok i rq' ph') ->
    (event_ops (te_ipi e) (rq_event rq) <> Some tlb_ops -> ph' <> PhSend) -> inv e (goto s0 i t')) as Hmove.
  { intros s0 t' rq' ph' Hf E Ha Hc Hp Hr Hn.
    by apply (inv_sender e s s0 i (TReq rq SHead) t' rq PhLoop rq' ph'). }
  destruct (rq_i rq <? SBI_HARTMASK_MAX_BITS) eqn:Hlt; unfold SBI_HARTMASK_MAX_BITS in Hlt; bool_to_prop.
  - destruct (event_ops (te_ipi e) (rq_event rq)) as [ops|] eqn:Hev;
      [|apply (Hmove s _ (rq_return rq SBI_EINVAL) PhEnd); done].
    destruct (sbi_hartindex_to_scratch (te_sc e) (rq_i rq)) as [sp|] eqn:Hsp;
      [|apply (Hmove s _ (rq_return rq SBI_EINVAL) PhEnd); try done; intros _ Hrf; by apply (fail_end i rq PhLoop)].
    destruct ops.
    + case_match; [|apply (Hmove s _ rq PhHand); try done].
      apply (Hmove _ _ (rq_done rq) PhLoop); try done. by apply flags_upd.
    + case_match; [apply (Hmove s _ (rq_done rq) PhLoop)|apply (Hmove s _ rq PhHand)]; done.
    + case_bool; bool_to_prop.
      * apply step_self; try done. destruct (i_req e s Hinv i Hi) as [Hreq _]. rewrite Ht in Hreq.
        pose proof (proj1 (rfence_req e i rq PhLoop (TReq rq SHead) eq_refl Hev) Hreq) as Hrf.
        destruct (ro_at i rq _ Hrf ltac:(done)) as [Hr0 _].
        rewrite <- (eo_index e He (rq_i rq)); [|split; [lia|by rewrite Hsp]].
        match goal with X : sbi_hartindex_to_hartid _ (rq_i rq) = _ |- _ => rewrite X end.
        by apply (eo_index e He).
      * apply (Hmove s _ rq PhSend); try done. intros _ Hrf. by apply loop_send.
  - destruct (rq_retry rq) eqn:Hr.
    + apply (Hmove s _ (rq_loop rq (rq_mask rq) (first_target (rq_mask rq)) false) PhLoop); try done.
      intros _. apply loop_restart.
    + apply (Hmove s _ (rq_return rq 0) PhEnd); try done. intros _ Hrf. apply loop_end; [done|lia|done].
Qed.

Lemma step_add s i rq :
  valid e i -> inv e s -> t_thr (th s i) = TReq rq SAdd -> inv e (send_step e i s rq SAdd).
Proof.
  intros Hv Hinv Ht. pose proof (proj1 Hv) as Hi. destruct (i_req e s Hinv i Hi) as [Hreq Hsnap].
  unfold send_step. set (t' := TReq rq SType). set (s' := goto _ i t').
  assert (forall j, items (th s' j) = items (th s j) /\ t_log (th s' j) = t_log (th s j)) as Hit.
  { intros j. unfold s', goto. rewrite !th_upd. case_decide; [subst j|done].
    rewrite decide_True by done. unfold items. cbn. by rewrite Ht. }
  assert (forall j, j <> i -> th s' j = th s j) as Hj.
  { intros j Hne. unfold s', goto. by rewrite !th_upd, !decide_False. }
  assert (t_thr (th s' i) = t' /\ t_sync (th s' i) = t_sync (th s i) + 1) as [Hti Hsi].
  { unfold s', goto. by rewrite !th_upd, !decide_True. }
  apply (inv_change e s s' i i t'); try done.
  - intros j Hne. by rewrite Hj.
  - intros T. exists []. rewrite app_nil_r. apply Hit.
  - intros T _. apply Hit.
  - rewrite (proj1 (Hit i)). by apply (i_items e s Hinv).
  - rewrite Ht in Hreq. unfold req_ok in *. cbn in *. case_decide; [by apply add_hand|].
    by destruct Hreq as (_ & _ & ?).
  - rewrite Ht in Hsnap. exact Hsnap.
  - intros T _ _. by rewrite Ht.
  - intros j Hjr. apply (pair_ok_same j _ (th s i)); [apply Hit|apply Hit|].
    destruct (decide (j = i)) as [->|Hne].
    + rewrite Hti. pose proof (i_pair e s Hinv i i Hi Hi) as Hp. by rewrite Ht in Hp.
    + rewrite Hj by done. by apply (i_pair e s Hinv).
  - intros j Hjr. rewrite (pend_same j (th s i) (th s' i)) by apply Hit.
    destruct (decide (j = i)) as [->|Hne]; [rewrite Hti, Hsi, Ht; unfold uncounted; cbn; lia|by rewrite Hj].
Qed.

Lemma step_type s i rq :
  valid e i -> inv e s -> t_thr (th s i) = TReq rq SType -> inv e (send_step e i s rq SType).
Proof.
  intros Hv Hinv Ht. unfold send_step.
  destruct (t_type (th s (rq_i rq)) =? 0).
  - apply (inv_sender e s _ i (TReq rq SType) _ rq PhHand rq PhHand); try done; [apply Hv|by apply flags_upd].
  - apply (inv_sender e s _ i (TReq rq SType) _ rq PhHand (rq_done rq) PhLoop); try done;
      [apply Hv|by apply flags_upd|]. intros _. apply hand_done.
Qed.

Lemma step_raw s i rq :
  valid e i -> inv e s -> t_thr (th s i) = TReq rq SRaw -> inv e (send_step e i s rq SRaw).
Proof.
  intros Hv Hinv Ht. unfold send_step.
  destruct (sbi_ipi_raw_send (te_ipi e) (rq_i rq) false) as [rc sent].
  assert (flags_only s (match sent with [] => s | _ => upd s (rq_i rq) (th_irq true) end)) as Hf.
  { destruct sent; [done|by apply flags_upd]. }
  destruct (Z.ltb_spec rc 0).
  - apply (inv_sender e s _ i (TReq rq SRaw) _ rq PhHand (rq_return rq rc) PhEnd); try done; [apply Hv|].
    intros _ Hrf. apply (fail_end i rq PhHand); [done|lia].
  - apply (inv_sender e s _ i (TReq rq SRaw) _ rq PhHand (rq_done rq) PhLoop); try done; [apply Hv|].
    intros _. apply hand_done.
Qed.

Lemma step_return s i rq :
  valid e i -> inv e s -> t_thr (th s i) = TReq rq SSync ->
  event_ops (te_ipi e) (rq_event rq) <> Some tlb_ops \/ t_sync (th s i) <= 0 ->
  inv e (goto (returned s i rq) i TSuper).
Proof.
  intros Hv Hinv Ht Hdone. pose proof (proj1 Hv) as Hi. destruct (i_req e s Hinv i Hi) as [Hreq _].
  assert (forall T, 0 <= T < 128 -> view i (th s T) = []) as Hnone.
  { intros T HT. destruct Hdone as [Hev|Hs].
    - unfold req_ok in Hreq. rewrite Ht in Hreq. cbn in Hreq. rewrite decide_False in Hreq by done.
      pose proof (i_pair e s Hinv i T Hi HT) as Hp. unfold duty in Hp. rewrite Ht in Hp. cbn in Hp.
      rewrite decide_False in Hp by (destruct Hreq as [-> _]; apply not_elem_of_nil). exact Hp.
    - pose proof (i_count e s Hinv i Hi) as Hc. rewrite Ht in Hc. unfold uncounted in Hc. cbn in Hc.
      apply (pend_sum_nonpos i (th s)); [lia|done]. }
  apply (inv_quiet e s _ i TSuper); try done.
  - intros j. unfold goto. rewrite th_upd. case_decide as E; [|done]. by subst.
  - intros j Hj. unfold goto. by rewrite th_upd, decide_False.
  - unfold goto. by rewrite th_upd, decide_True.
  - intros j rq'. cbn [goto upd returned calls]. intros [?|Hin]%elem_of_app; [by left|].
    apply list_elem_of_singleton in Hin. simplify_eq. right. intros Hev Hrc T HT.
    pose proof (proj1 (rfence_req e i rq PhEnd (TReq rq SSync) eq_refl Hev) ltac:(by rewrite <- Ht)) as Hrf.
    pose proof (ro_end i rq _ Hrf eq_refl Hrc T HT) as Hin. pose proof (ro_sent i rq _ Hrf T Hin) as HT'.
    pose proof (i_pair e s Hinv i T Hi HT') as Hp. unfold duty in Hp. rewrite Ht in Hp. cbn in Hp.
    rewrite decide_True in Hp by done. destruct Hp as [[_ Hp]|(it & Hp & _)]; [done|].
    by rewrite Hnone in Hp.
  - unfold goto. rewrite th_upd, decide_True by done. unfold items. cbn. by rewrite Ht.
  - intros T HT. right. split; [done|by apply Hnone].
  - rewrite Ht. done.
Qed.

Lemma step_sync s i rq :
  valid e i -> inv e s -> t_thr (th s i) = TReq rq SSync -> inv e (send_step e i s rq SSync).
Proof.
  intros Hv Hinv Ht. unfold send_step.
  destruct (event_ops (te_ipi e) (rq_event rq)) as [[]|] eqn:Hev;
    try (apply step_return; try done; left; by rewrite Hev).
  destruct (Z.ltb_spec 0 (t_sync (th s i))).
  - apply (inv_sender e s s i (TReq rq SSync) _ rq PhEnd rq PhEnd); try done. apply Hv.
  - apply step_return; try done. by right.
Qed.

(** *** Targets *)

Lemma thr_req_proc k p p' : thr_req (TProc k p') = thr_req (TProc k p).
Proof. by destruct k. Qed.

Lemma duty_proc k p p' T : duty (TProc k p') T = duty (TProc k p) T.
Proof. unfold duty. by rewrite (thr_req_proc k p p'). Qed.

Lemma uncounted_proc k p : uncounted (TProc k p) = 0.
Proof. by destruct k. Qed.

Lemma proc_req_ok i k p p' : req_ok e i (TProc k p) -> req_ok e i (TProc k p').
Proof. unfold req_ok. by rewrite (thr_req_proc k p p'). Qed.

Lemma proc_snap_ok th0 k p p' : snap_ok th0 (TProc k p) -> snap_ok th0 (TProc k p').
Proof. unfold snap_ok. by rewrite (thr_req_proc k p p'). Qed.

Lemma resume_ok i k p b T th0 :
  req_ok e i (TProc k p) -> snap_ok th0 (TProc k p) ->
  req_ok e i (resume k b) /\ snap_ok th0 (resume k b) /\ current (resume k b) = [] /\
  uncounted (resume k b) = 0 /\ duty (resume k b) T = duty (TProc k p) T.
Proof.
  intros Hr Hs. destruct k as [rq|rq|ty ev]; cbn [resume]; try done; [|by destruct b].
  split; [|done]. apply (req_ok_move e i (TProc (KRetry rq) p) _ rq PhSend (rq_again rq) PhLoop); try done.
  intros _. apply send_again.
Qed.

(** A hart works on its items: only its own change, and counters. *)
Lemma inv_work s s' i k p t' :
  0 <= i < 128 -> inv e s -> t_thr (th s i) = TProc k p -> t_thr (th s' i) = t' -> calls s' = calls s ->
  (forall j, j <> i -> t_thr (th s' j) = t_thr (th s j) /\ items (th s' j) = items (th s j) /\
     t_log (th s' j) = t_log (th s j)) ->
  (exists l, t_log (th s' i) = t_log (th s i) ++ l) ->
  Forall (item_ok e) (items (th s' i)) -> req_ok e i t' -> snap_ok (th s) t' ->
  uncounted t' = 0 -> (forall T, duty t' T = duty (TProc k p) T) ->
  (forall j d, 0 <= j < 128 -> pair_ok j d (th s i) ->
     (forall ti n, d = Some (ti, n) -> (n <= length (t_log (th s i)))%nat) -> pair_ok j d (th s' i)) ->
  (forall j, 0 <= j < 128 -> t_sync (th s' j) - pend j (th s' i) = t_sync (th s j) - pend j (th s i)) ->
  inv e s'.
Proof.
  intros Hi Hinv Ht Ht' Hc Hother Hlog Hok Hreq Hsnap Hunc Hduty Hpair Hcount.
  apply (inv_change e s s' i i t'); try done.
  - intros j Hj. apply Hother, Hj.
  - intros T. destruct (decide (T = i)) as [->|Hne]; [done|]. exists []. rewrite app_nil_r. by apply Hother.
  - intros T HT. by apply Hother.
  - intros T _ _. by rewrite Ht, Hduty.
  - intros j Hj.
    assert (duty (t_thr (th s' j)) i = duty (t_thr (th s j)) i) as Hd.
    { destruct (decide (j = i)) as [->|Hne]; [by rewrite Ht', Ht, Hduty|]. by rewrite (proj1 (Hother j Hne)). }
    rewrite Hd. apply Hpair; [done|by apply (i_pair e s Hinv)|].
    intros ti n E. destruct (i_req e s Hinv j Hj) as [_ Hs]. unfold duty in E. unfold snap_ok in Hs.
    destruct (thr_req (t_thr (th s j))) as [[rq ph]|]; [|done]. case_decide; [|done]. simplify_eq. apply Hs.
  - intros j Hj. specialize (Hcount j Hj).
    assert (uncounted (t_thr (th s' j)) = uncounted (t_thr (th s j))) as ->; [|lia].
    destruct (decide (j = i)) as [->|Hne]; [by rewrite Ht', Ht, Hunc, uncounted_proc|].
    by rewrite (proj1 (Hother j Hne)).
Qed.

Lemma step_dequeue s i k :
  valid e i -> inv e s -> t_thr (th s i) = TProc k PDequeue -> inv e (proc_step e i s k PDequeue).
Proof.
  intros Hv Hinv Ht. pose proof (proj1 Hv) as Hi. destruct (i_req e s Hinv i Hi) as [Hreq Hsnap]. rewrite Ht in *.
  unfold proc_step. destruct (t_fifo (th s i)) as [|ti q] eqn:Eq.
  - pose proof (fun T => resume_ok i k PDequeue false T (th s) Hreq Hsnap) as Hres.
    apply (inv_goto e s s); rewrite ?Ht, ?uncounted_proc; try done; try apply (Hres 0).
    intros T. apply (Hres T).
  - set (t' := TProc k (PFence ti)). set (s' := goto _ i t').
    assert (items (th s' i) = items (th s i)) as Hit.
    { unfold s', goto. rewrite !th_upd, !decide_True by done. unfold items. cbn. by rewrite Ht, Eq. }
    assert (forall j, j <> i -> th s' j = th s j) as Hj.
    { intros j Hne. unfold s', goto. by rewrite !th_upd, !decide_False. }
    assert (t_thr (th s' i) = t' /\ t_log (th s' i) = t_log (th s i) /\ t_sync (th s' i) = t_sync (th s i))
      as (Hti & Hlog & Hsync) by (unfold s', goto; by rewrite !th_upd, !decide_True).
    apply (inv_work s s' i k PDequeue t'); try done.
    + intros j Hne. by rewrite Hj.
    + exists []. by rewrite Hlog, app_nil_r.
    + rewrite Hit. by apply (i_items e s Hinv).
    + apply uncounted_proc.
    + intros j d Hjr Hp _. by apply (pair_ok_same j d (th s i)).
    + intros j Hjr. rewrite (pend_same j (th s i)) by done.
      destruct (decide (j = i)) as [->|Hne]; [by rewrite Hsync|by rewrite Hj].
Qed.

Lemma step_fence s i k ti :
  valid e i -> inv e s -> t_thr (th s i) = TProc k (PFence ti) -> inv e (proc_step e i s k (PFence ti)).
Proof.
  intros Hv Hinv Ht. pose proof (proj1 Hv) as Hi. destruct (i_req e s Hinv i Hi) as [Hreq Hsnap]. rewrite Ht in *.
  unfold proc_step. set (f := first_target (ti_smask ti)). set (fs := tlb_entry_local_process ti _).
  set (t' := TProc k (PSub ti f)). set (s' := goto _ i t').
  set (B := (fun ti => mkItem ti 0 false) <$> t_fifo (th s i)).
  assert (items (th s i) = [] ++ mkItem ti 0 false :: B) as E1 by (unfold items; by rewrite Ht).
  assert (items (th s' i) = [] ++ mkItem ti f true :: B) as E2.
  { unfold s', goto. by rewrite !th_upd, !decide_True. }
  assert (forall j, j <> i -> th s' j = th s j) as Hj.
  { intros j Hne. unfold s', goto. by rewrite !th_upd, !decide_False. }
  assert (t_thr (th s' i) = t' /\ t_log (th s' i) = t_log (th s i) ++ fs.1 /\ t_sync (th s' i) = t_sync (th s i))
    as (Hti & Hlog & Hsync) by (unfold s', goto; by rewrite !th_upd, !decide_True).
  pose proof (i_items e s Hinv i Hi) as Hitems. rewrite E1 in Hitems. apply Forall_cons in Hitems as [Hok HB].
  pose proof (first_target_spec _ (ik_mask e _ Hok)) as (Hf1 & Hf2 & Hf3). cbn [it_info] in Hf1, Hf2, Hf3.
  fold f in Hf1, Hf2, Hf3.
  assert (forall j, 0 <= j < 128 -> waits j (mkItem ti f true) = waits j (mkItem ti 0 false)) as Hw.
  { intros j Hjr. unfold waits. cbn. destruct (hm_mem (ti_smask ti) j) eqn:Em; [|done].
    specialize (Hf3 j Hjr Em). lia. }
  apply (inv_work s s' i k (PFence ti) t'); try done.
  - intros j Hne. by rewrite Hj.
  - by exists fs.1.
  - rewrite E2. apply Forall_cons. split; [|done]. destruct Hok. by split.
  - apply uncounted_proc.
  - intros j d Hjr Hp Hn. revert Hp.
    apply (pair_replace j d _ _ [] (mkItem ti 0 false) (mkItem ti f true) B fs.1); try done; [by apply Hw|apply serves_refl|].
    intros ti' n -> Hs _ _. apply (fulfilled_new _ _ (th s i) _ fs.1); [done|by apply (Hn ti')|].
    intros c Hc. apply local_process_flushes; [apply Hok|by apply Hs].
  - intros j Hjr. rewrite (pend_replace j (th s i) (th s' i) [] (mkItem ti 0 false) (mkItem ti f true) B) by auto.
    destruct (decide (j = i)) as [->|Hne]; [by rewrite Hsync|by rewrite Hj].
Qed.

(** A hart is told about an item whose fences have been run, or the item goes. *)
Lemma pair_told j d h h' x X B :
  items h = x :: B -> items h' = X ++ B -> filter (fun it => waits j it = true) X = [] ->
  t_log h' = t_log h -> it_fenced x = true -> pair_ok j d h -> pair_ok j d h'.
Proof.
  intros E E' HX El Hf. pose proof (view_mid j h [] x B E) as Hv. cbn [app] in Hv.
  assert (view j h' = filter (fun it => waits j it = true) B) as Hv'.
  { unfold view. by rewrite E', filter_app, HX. }
  assert (forall ti n, fulfilled ti n h -> fulfilled ti n h') as Hful by (unfold fulfilled; by rewrite El).
  unfold pair_ok. rewrite Hv, Hv'. destruct (waits j x); cbn [app filter] in *; destruct d as [[ti n]|]; try done.
  - intros [[Hn _]|(it & Hit & Hsv & Hfe)]; [done|]. cbn in Hit. injection Hit as <- HB. left. split; [exact HB|auto].
  - intros [[Hn Hx]|(it & Hit & Hsv & Hfe)]; [left; auto|]. right. exists it. auto.
Qed.

Lemma pend_told j h h' x X B :
  items h = x :: B -> items h' = X ++ B -> filter (fun it => waits j it = true) X = [] ->
  pend j h' = pend j h - (if waits j x then 1 else 0).
Proof.
  intros E E' HX. unfold pend. rewrite (view_mid j h [] x B E). unfold view. rewrite E', filter_app, HX.
  destruct (waits j x); cbn; lia.
Qed.

Lemma step_told s i k ti r :
  valid e i -> inv e s -> t_thr (th s i) = TProc k (PSub ti r) -> r < 128 -> inv e (proc_step e i s k (PSub ti r)).
Proof.
  intros Hv Hinv Ht Hlt. pose proof (proj1 Hv) as Hi. destruct (i_req e s Hinv i Hi) as [Hreq Hsnap]. rewrite Ht in *.
  set (B := (fun ti => mkItem ti 0 false) <$> t_fifo (th s i)).
  assert (items (th s i) = mkItem ti r true :: B) as E1 by (unfold items; by rewrite Ht).
  pose proof (i_items e s Hinv i Hi) as Hitems. rewrite E1 in Hitems. apply Forall_cons in Hitems as [Hok HB].
  destruct (ik_from e _ Hok eq_refl) as [Hr Hmem]. cbn [it_info it_from] in Hr, Hmem.
  unfold proc_step, SBI_HARTMASK_MAX_BITS. rewrite (proj2 (Z.ltb_lt r 128)) by done.
  specialize (Hmem Hlt). assert (valid e r) as Hvr by (apply (ik_valid e _ Hok); [lia|done]).
  destruct (sbi_hartindex_to_scratch (te_sc e) r) eqn:Esc; [|by destruct Hvr]. clear Esc.
  destruct (next_target_spec (ti_smask ti) r (ik_mask e _ Hok)) as (Hn1 & Hn2 & Hn3); [lia|].
  set (n := next_target (ti_smask ti) (r + 1)) in *. set (t' := TProc k (PSub ti n)). set (s' := goto _ i t').
  assert (forall j, t_log (th s' j) = t_log (th s j) /\ t_fifo (th s' j) = t_fifo (th s j) /\
    t_sync (th s' j) = t_sync (th s j) - (if decide (j = r) then 1 else 0) /\
    t_thr (th s' j) = if decide (j = i) then t' else t_thr (th s j)) as Hj.
  { intros j. unfold s', goto. rewrite !th_upd. repeat case_decide; subst; cbn; split_and!; try done; lia. }
  assert (items (th s' i) = mkItem ti n true :: B) as E2.
  { unfold items. destruct (Hj i) as (_ & -> & _ & ->). by rewrite decide_True. }
  assert (forall j, 0 <= j < 128 -> waits j (mkItem ti n true) = waits j (mkItem ti r true) && negb (j =? r)) as Hw.
  { intros j Hjr. unfold waits. cbn. destruct (hm_mem (ti_smask ti) j) eqn:Em; [|done]. cbn [andb].
    destruct (decide (r < j)) as [Hrj|]; [specialize (Hn3 j ltac:(lia) Em)|]; lia. }
  apply (inv_work s s' i k (PSub ti r) t'); try done.
  - destruct (Hj i) as (_ & _ & _ & ->). by rewrite decide_True.
  - intros j Hne. unfold items. destruct (Hj j) as (-> & -> & _ & ->). by rewrite decide_False.
  - exists []. rewrite app_nil_r. apply Hj.
  - rewrite E2. apply Forall_cons. split; [|done]. destruct Hok. split; try done. intros _. cbn in *. split; [lia|done].
  - apply uncounted_proc.
  - intros j d Hjr Hp _. destruct (decide (j = r)) as [->|Hne].
    + apply (pair_told r d (th s i) (th s' i) (mkItem ti r true) [mkItem ti n true] B); try done; [|by apply Hj].
      rewrite filter_cons_False; [done|]. rewrite Hw by done. lia.
    + revert Hp. apply (pair_replace j d _ _ [] (mkItem ti r true) (mkItem ti n true) B []); try done.
      { rewrite app_nil_r. apply Hj. } { rewrite Hw by done. lia. } { apply serves_refl. }
      intros ti' n' _ _ Hf _. apply (fulfilled_grows _ _ (th s i) _ []); [rewrite app_nil_r; apply Hj|by apply Hf].
  - intros j Hjr. destruct (Hj j) as (_ & _ & -> & _). case_decide as Ejr.
    + subst j. rewrite (pend_told r (th s i) (th s' i) (mkItem ti r true) [mkItem ti n true] B); try done.
      { assert (waits r (mkItem ti r true) = true) as -> by (unfold waits; cbn; rewrite Hmem; lia). lia. }
      rewrite filter_cons_False; [done|]. rewrite Hw by done. lia.
    + rewrite (pend_replace j (th s i) (th s' i) [] (mkItem ti r true) (mkItem ti n true) B); try done; [lia|].
      rewrite Hw by done. lia.
Qed.

Lemma step_gone s i k ti r :
  valid e i -> inv e s -> t_thr (th s i) = TProc k (PSub ti r) -> 128 <= r -> inv e (proc_step e i s k (PSub ti r)).
Proof.
  intros Hv Hinv Ht Hge. pose proof (proj1 Hv) as Hi. destruct (i_req e s Hinv i Hi) as [Hreq Hsnap]. rewrite Ht in *.
  set (B := (fun ti => mkItem ti 0 false) <$> t_fifo (th s i)).
  assert (items (th s i) = mkItem ti r true :: B) as E1 by (unfold items; by rewrite Ht).
  pose proof (i_items e s Hinv i Hi) as Hitems. rewrite E1 in Hitems. apply Forall_cons in Hitems as [Hok HB].
  unfold proc_step, SBI_HARTMASK_MAX_BITS. rewrite (proj2 (Z.ltb_ge r 128)) by done.
  pose proof (fun T => resume_ok i k (PSub ti r) true T (th s) Hreq Hsnap) as Hres.
  set (s' := goto s i (resume k true)).
  assert (forall j, 0 <= j < 128 -> waits j (mkItem ti r true) = false) as Hw by (intros; unfold waits; cbn; lia).
  assert (forall j, t_log (th s' j) = t_log (th s j) /\ t_fifo (th s' j) = t_fifo (th s j) /\
    t_sync (th s' j) = t_sync (th s j) /\
    t_thr (th s' j) = if decide (j = i) then resume k true else t_thr (th s j)) as Hj.
  { intros j. unfold s', goto. rewrite !th_upd. by case_decide; subst. }
  assert (items (th s' i) = [] ++ B) as E2.
  { unfold items. destruct (Hj i) as (_ & -> & _ & ->). rewrite decide_True by done.
    destruct (Hres 0) as (_ & _ & -> & _). done. }
  apply (inv_work s s' i k (PSub ti r) (resume k true)); try done; try apply (Hres 0).
  - destruct (Hj i) as (_ & _ & _ & ->). by rewrite decide_True.
  - intros j Hne. unfold items. destruct (Hj j) as (-> & -> & _ & ->). by rewrite decide_False.
  - exists []. rewrite app_nil_r. apply Hj.
  - by rewrite E2.
  - intros T. apply (Hres T).
  - intros j d Hjr Hp _. apply (pair_told j d (th s i) (th s' i) (mkItem ti r true) [] B); try done. apply Hj.
  - intros j Hjr. destruct (Hj j) as (_ & _ & -> & _).
    rewrite (pend_told j (th s i) (th s' i) (mkItem ti r true) [] B), Hw by done. lia.
Qed.

(** *** Calls *)

(** The request of a call: its mask is the caller, and it serves what the
    supervisor asks for. *)
Lemma init_except_spec sc i :
  0 <= i < 128 -> sbi_hartid_to_hartindex sc (sbi_hartindex_to_hartid sc i) = i ->
  let m := SBI_HARTMASK_INIT_EXCEPT sc (sbi_hartindex_to_hartid sc i) in
  hm_wf m /\ forall k, 0 <= k < 128 -> hm_mem m k = (k =? i).
Proof.
  intros Hi E. cbv zeta. unfold SBI_HARTMASK_INIT_EXCEPT, SBI_HARTMASK_MAX_BITS, bitmap_zero_except. rewrite E.
  rewrite (proj2 (Z.ltb_lt i 128)) by lia.
  assert (hm_wf (mkHartmask [0; 0])) as H0 by (split; [done|]; repeat constructor; unfold in_range; lia).
  destruct (hm_set_spec i (mkHartmask [0; 0]) H0 ltac:(lia)) as [Hw Hm].
  unfold sbi_hartmask_set_hartindex, SBI_HARTMASK_MAX_BITS in Hw, Hm. rewrite (proj2 (Z.ltb_lt i 128)) in Hw, Hm by lia.
  split; [exact Hw|]. intros k Hk. specialize (Hm k Hk).
  assert (hm_mem (mkHartmask [0; 0]) k = false) as Hz.
  { destruct (hm_clear_all_spec (mkHartmask [0; 0]) H0) as [_ Hc]. by apply (Hc k). }
  rewrite Hz, orb_false_r in Hm. exact Hm.
Qed.

Lemma handler_smask sc misa_h hgatp hartid funcid a2 a3 a4 ti :
  sbi_ecall_rfence_handler sc misa_h hgatp hartid funcid a2 a3 a4 = inr ti ->
  ti_smask ti = SBI_HARTMASK_INIT_EXCEPT sc hartid.
Proof. unfold sbi_ecall_rfence_handler. repeat case_bool; intros ?; by simplify_eq. Qed.

Lemma request_serves limit req ti :
  sbi_tlb_request limit req = inr ti -> ti_smask ti = ti_smask req /\ serves ti req.
Proof.
  unfold sbi_tlb_request. case_bool; [done|]. intros [= <-]. case_bool; [|split; [done|apply serves_refl]].
  split; [done|]. intros c. unfold asked.
  assert (forall x, in_asked (with_range req 0 SBI_TLB_FLUSH_ALL) x = true) as Hx.
  { intros x. unfold in_asked, flush_everything. cbn. by rewrite Z.eqb_refl, orb_true_r. }
  destruct c; cbn; rewrite ?Hx, ?andb_true_r; intros Ha; lia.
Qed.

Lemma step_start s i event req ti targets :
  valid e i -> inv e s -> t_thr (th s i) = TSuper -> hm_wf targets ->
  (event_ops (te_ipi e) event = Some tlb_ops ->
   tinfo_ok ti /\ serves ti req /\ hm_wf (ti_smask ti) /\
   forall k, 0 <= k < 128 -> hm_mem (ti_smask ti) k = (k =? i)) ->
  inv e (start_send i event req ti targets s).
Proof.
  intros Hv Hinv Ht Hm Hev. unfold start_send. apply (inv_goto e s s); rewrite ?Ht; try done; [apply Hv| |].
  - unfold req_ok. cbn. case_decide as E; [|done]. destruct (Hev E) as (Hok & Hs & Hw & Hk).
    destruct (first_target_spec targets Hm) as (F1 & F2 & F3).
    split; cbn; try done.
    + intros T HT. by apply elem_of_nil in HT.
    + by intros [|[|]].
    + by intros [|].
    + intros _ T HT. by apply elem_of_nil in HT.
    + intros _ T HT. right. by apply elem_of_hartmask_set.
  - unfold snap_ok. cbn. lia.
Qed.

(** *** All steps *)

Lemma step_send s i rq pc :
  valid e i -> inv e s -> t_thr (th s i) = TReq rq pc -> inv e (send_step e i s rq pc).
Proof.
  destruct pc; auto using step_head, step_update, step_enqueue, step_add, step_type, step_raw, step_sync.
Qed.

Lemma step_proc s i k p :
  valid e i -> inv e s -> t_thr (th s i) = TProc k p -> inv e (proc_step e i s k p).
Proof.
  destruct p as [|ti|ti r]; auto using step_dequeue, step_fence.
  intros. destruct (Z.lt_ge_cases r 128); auto using step_told, step_gone.
Qed.

Lemma step_hart s s' i : valid e i -> inv e s -> hart_step e i s = Some s' -> inv e s'.
Proof.
  intros Hv Hinv. pose proof (proj1 Hv) as Hi. unfold hart_step.
  destruct (t_thr (th s i)) as [|rq pc|k p| | |ty ev|] eqn:Ht; intros H; simplify_eq.
  - by apply step_send.
  - by apply step_proc.
  - apply (inv_other e s); rewrite ?Ht; try done. case_match; [done|by apply flags_upd].
  - apply (inv_other e s); rewrite ?Ht; try done. by apply flags_upd.
  - destruct (ty =? 0); simplify_eq; [apply (inv_other e s); by rewrite ?Ht|].
    destruct (truthy (Z.land ty 1)); [|apply (inv_other e s); by rewrite ?Ht].
    destruct (ops_at (te_ipi e) ev) as [[]|]; apply (inv_other e s); rewrite ?Ht; try done. by apply flags_upd.
Qed.

Lemma step_inv s s' : inv e s -> tstep e tinfo_ok s s' -> inv e s'.
Proof.
  intros Hinv Hstep. destruct Hstep as [i funcid a0 a1 a2 a3 a4 junk req ti s s' Hv Ht Hj Ha0 Eh Er Hok Hc
    |i event hmask hbase junk s s' Hv Ht Hj Hh Hev Hc|i s Hv Ht Hirq|i s s' Hv Hs].
  - unfold rfence_call in Hc. rewrite Eh, Er in Hc.
    destruct (ipi_targets _ _ _ _ _ _) as [[rc|targets]|] eqn:Et; simplify_eq; [done|].
    destruct (request_serves _ _ _ Er) as [Em Hserves].
    destruct (init_except_spec (te_sc e) i (proj1 Hv) (eo_index e He i Hv)) as [Hw Hk].
    apply step_start; try done; [by eapply ipi_targets_wf, Et; [..|apply (eo_dom e He)]|].
    intros _. rewrite Em, (handler_smask _ _ _ _ _ _ _ _ _ Eh). done.
  - unfold ipi_call in Hc.
    destruct (ipi_targets _ _ _ _ _ _) as [[rc|targets]|] eqn:Et; simplify_eq; [done|].
    apply step_start; try done. by eapply ipi_targets_wf, Et; [..|apply (eo_dom e He)].
  - apply (inv_other e s); rewrite ?Ht; try done. apply Hv.
  - by apply (step_hart s s' i).
Qed.

Lemma inv_init s : tinit s -> inv e s.
Proof.
  intros [Hc Hs]. assert (forall T, items (th s T) = []) as Hno.
  { intros T. by destruct (Hs T) as [h ->]. }
  assert (forall i T, view i (th s T) = []) as Hview by (intros i T; unfold view; by rewrite Hno).
  split.
  - intros T _. by rewrite Hno.
  - intros i _. by destruct (Hs i) as [h ->].
  - intros i T _ _. destruct (Hs i) as [h ->]. apply Hview.
  - intros i _. destruct (Hs i) as [h ->]. cbn. rewrite (pend_sum_same i (fun _ => idle_hart h)); [done|].
    intros T. unfold pend. by rewrite Hview.
  - intros i rq Hin. rewrite Hc in Hin. by apply elem_of_nil in Hin.
Qed.

Lemma inv_reach s s' : inv e s -> rtc (tstep e tinfo_ok) s s' -> inv e s'.
Proof. intros H Hr. induction Hr as [|x y z Hxy _ IH]; [done|]. apply IH. by apply (step_inv x). Qed.
End Steps.

(** ** From the call to its return *)

(** What stays the same from the call to its return. *)
Definition same_call (rq rq' : req) : Prop :=
  rq_event rq' = rq_event rq /\ rq_asked rq' = rq_asked rq /\ rq_targets rq' = rq_targets rq /\
  rq_snap rq' = rq_snap rq.

(** Hart [i] moves: the others stay where they are; a call under way goes on
    or returns. *)
Definition move_shape (i : Z) (s s' : tsys) : Prop :=
  (forall j, j <> i -> t_thr (th s' j) = t_thr (th s j)) /\
  (exists rq ph, thr_req (t_thr (th s i)) = Some (rq, ph) /\ calls s' = calls s ++ [(i, rq)]) \/
  (forall j, j <> i -> t_thr (th s' j) = t_thr (th s j)) /\ calls s' = calls s /\
  (forall rq ph, thr_req (t_thr (th s i)) = Some (rq, ph) ->
     exists rq' ph', thr_req (t_thr (th s' i)) = Some (rq', ph') /\ same_call rq rq').

Lemma move_goto i s s0 t' :
  calls s0 = calls s -> (forall j, t_thr (th s0 j) = t_thr (th s j)) ->
  (forall rq ph, thr_req (t_thr (th s i)) = Some (rq, ph) ->
     exists rq' ph', thr_req t' = Some (rq', ph') /\ same_call rq rq') ->
  move_shape i s (goto s0 i t').
Proof.
  intros Hc Hj Hr. right. split_and!; [|done|].
  - intros j Hne. unfold goto. rewrite th_upd, decide_False by done. apply Hj.
  - intros rq ph E. unfold goto. rewrite th_upd, decide_True by done. by apply (Hr rq ph).
Qed.

Lemma thr_upd s i f j : (forall h, t_thr (f h) = t_thr h) -> t_thr (th (upd s i f) j) = t_thr (th s j).
Proof. intros H. rewrite th_upd. case_decide; [subst; apply H|done]. Qed.

Ltac move_on Ht :=
  apply move_goto; [repeat case_match; done|intros ?; repeat case_match; rewrite ?thr_upd; done|];
  let E := fresh in intros ? ? E; rewrite Ht in E; cbn in E; simplify_eq;
  repeat case_match; try done; do 2 eexists; (split; [reflexivity|done]).

Lemma send_shape e i s rq pc : t_thr (th s i) = TReq rq pc -> move_shape i s (send_step e i s rq pc).
Proof.
  intros Ht.
  assert (move_shape i s (goto (returned s i rq) i TSuper)) as Hret.
  { left. split; [|exists rq, (pc_phase pc); by rewrite Ht].
    intros j Hne. unfold goto. by rewrite th_upd, decide_False. }
  unfold send_step. destruct pc; try by move_on Ht.
  - case_bool; [|case_bool; move_on Ht].
    destruct (event_ops (te_ipi e) (rq_event rq)) as [[]|], (sbi_hartindex_to_scratch (te_sc e) (rq_i rq));
      try (case_bool; move_on Ht); move_on Ht.
  - destruct (tlb_inplace _ _) as [ret q]. move_on Ht.
  - destruct (tlb_enqueue _ _ _) as [ret q]. move_on Ht.
  - destruct (sbi_ipi_raw_send _ _ _) as [rc [|x sent]]; move_on Ht.
  - destruct (event_ops (te_ipi e) (rq_event rq)) as [[]|]; try done. case_bool; [move_on Ht|done].
Qed.

Lemma proc_shape e i s k p : t_thr (th s i) = TProc k p -> move_shape i s (proc_step e i s k p).
Proof.
  intros Ht.
  assert (forall s0 t', calls s0 = calls s -> (forall j, t_thr (th s0 j) = t_thr (th s j)) ->
    t' = resume k true \/ t' = resume k false \/ (exists p', t' = TProc k p') -> move_shape i s (goto s0 i t')) as Hm.
  { intros s0 t' Hc Hj Hor. apply move_goto; [done|done|]. intros rq ph E. rewrite Ht in E.
    destruct k; [..|done]; cbn in E; simplify_eq; destruct Hor as [->|[->|[p' ->]]]; cbn;
      do 2 eexists; split; try reflexivity; done. }
  unfold proc_step. destruct p as [|ti|ti r].
  - destruct (t_fifo (th s i)); apply Hm; try done; eauto. intros j. by rewrite thr_upd.
  - apply Hm; try done; eauto. intros j. by rewrite thr_upd.
  - case_bool; apply Hm; try done; eauto; case_match; try done. intros j. by rewrite thr_upd.
Qed.

Lemma step_shape e s s' : tstep e tinfo_ok s s' -> s' = s \/ exists i, valid e i /\ move_shape i s s'.
Proof.
  intros Hstep. destruct Hstep as [i funcid a0 a1 a2 a3 a4 junk req ti s s' Hv Ht Hj Ha0 Eh Er Hok Hc
    |i event hmask hbase junk s s' Hv Ht Hj Hh Hev Hc|i s Hv Ht Hirq|i s s' Hv Hs].
  - unfold rfence_call in Hc. rewrite Eh, Er in Hc.
    destruct (ipi_targets _ _ _ _ _ _) as [[rc|targets]|]; simplify_eq; [by left|].
    right. exists i. split; [done|]. unfold start_send. move_on Ht.
  - unfold ipi_call in Hc. destruct (ipi_targets _ _ _ _ _ _) as [[rc|targets]|]; simplify_eq; [by left|].
    right. exists i. split; [done|]. unfold start_send. move_on Ht.
  - right. exists i. split; [done|]. move_on Ht.
  - right. exists i. split; [done|]. revert Hs. unfold hart_step.
    destruct (t_thr (th s i)) as [|rq pc|k p| | |ty ev|] eqn:Ht; intros H; simplify_eq.
    + by apply send_shape.
    + by apply proc_shape.
    + move_on Ht.
    + move_on Ht.
    + case_bool; simplify_eq; [move_on Ht|].
      case_bool; [destruct (ops_at (te_ipi e) ev) as [[]|]|]; move_on Ht.
Qed.

(** The calls of hart [i] that have returned, oldest first. *)
Definition calls_of (i : Z) (s : tsys) : list req := snd <$> filter (fun c => c.1 = i) (calls s).

(** Where the call [rq] of hart [i], made in [s], has got to. *)
Definition under_way (i : Z) (rq : req) (s s' : tsys) : Prop :=
  (calls_of i s' = calls_of i s /\
   exists rq' ph, thr_req (t_thr (th s' i)) = Some (rq', ph) /\ same_call rq rq') \/
  exists rq' l, calls_of i s' = calls_of i s ++ rq' :: l /\ same_call rq rq'.

Lemma calls_of_app i j rq s s' :
  calls s' = calls s ++ [(j, rq)] -> calls_of i s' = calls_of i s ++ (if decide (j = i) then [rq] else []).
Proof.
  intros E. unfold calls_of. rewrite E, filter_app, fmap_app, filter_cons. cbn. by case_decide.
Qed.

Lemma same_call_trans a b c : same_call a b -> same_call b c -> same_call a c.
Proof. unfold same_call. intros (-> & -> & -> & ->). intros (-> & -> & -> & ->). done. Qed.

Lemma under_way_step e i rq s s1 s2 :
  tstep e tinfo_ok s1 s2 -> under_way i rq s s1 -> under_way i rq s s2.
Proof.
  intros Hstep H. destruct (step_shape e s1 s2 Hstep) as [->|(j & _ & Hm)]; [done|].
  destruct H as [(Hc & rq' & ph & E & Hs)|(rq' & l & Hc & Hs)].
  - destruct Hm as [[Hj (rq'' & ph'' & E'' & Hc'')]|(Hj & Hc' & Hr)].
    + pose proof (calls_of_app i j rq'' s1 s2 Hc'') as Hc2. rewrite Hc in Hc2. case_decide as Eji.
      * subst j. rewrite E in E''. simplify_eq. right. by exists rq'', [].
      * left. rewrite app_nil_r in Hc2. split; [done|]. rewrite Hj by done. eauto.
    + left. split; [rewrite <- Hc; unfold calls_of; by rewrite Hc'|]. destruct (decide (j = i)) as [->|Hne].
      * destruct (Hr rq' ph E) as (rq2 & ph2 & E2 & Hs2). exists rq2, ph2. split; [done|]. by apply (same_call_trans _ rq').
      * rewrite Hj by done. eauto.
  - right. destruct Hm as [[_ (rq'' & ph'' & _ & Hc'')]|(_ & Hc' & _)].
    + exists rq', (l ++ (if decide (j = i) then [rq''] else [])). split; [|done].
      rewrite (calls_of_app i j rq'' s1 s2 Hc''), Hc. by rewrite <- app_assoc.
    + exists rq', l. split; [|done]. rewrite <- Hc. unfold calls_of. by rewrite Hc'.
Qed.

(** Hart [i] makes a remote fence call: the request and the harts it is for. *)
Inductive rfence_made (e : tlb_env) (ok : sbi_tlb_info -> Prop) (i : Z) (req : sbi_tlb_info)
    (targets : sbi_hartmask) (s : tsys) : tsys -> Prop :=
| made_intro funcid a0 a1 a2 a3 a4 junk ti :
    valid e i -> t_thr (th s i) = TSuper -> hm_wf junk -> in_range 64 a0 ->
    sbi_ecall_rfence_handler (te_sc e) (te_misa_h e) (t_hgatp (th s i)) (sbi_hartindex_to_hartid (te_sc e) i)
      funcid a2 a3 a4 = inr req ->
    sbi_tlb_request (tlb_range_flush_limit e) req = inr ti -> ok ti ->
    ipi_targets (te_sc e) (te_hs e) (te_dom e i) junk a0 a1 = Some (inr targets) ->
    rfence_made e ok i req targets s (start_send i (tlb_event e) req ti targets s).

(** The call that began in [s] has returned [rc] in [s']. *)
Definition call_returned (i : Z) (s s' : tsys) (rc : Z) : Prop :=
  exists rq l, calls_of i s' = calls_of i s ++ rq :: l /\ rq_rc rq = rc.

Lemma made_step e ok i req targets s s' : rfence_made e ok i req targets s s' -> tstep e ok s s'.
Proof.
  intros [funcid a0 a1 a2 a3 a4 junk ti Hv Ht Hj Ha Eh Er Hok Et].
  eapply (ts_rfence e ok i funcid a0 a1 a2 a3 a4 junk); try done.
  unfold rfence_call. by rewrite Eh, Er, Et.
Qed.

(** C11: a remote fence is complete when its call returns.  Harts run side
    by side, access by access, with any number of fences and interrupts under
    way.  Hart [i] asks a set of harts for a fence, and the call returns 0.
    Then for every entry [c] the request names, every hart of the set has
    executed, since the call began, a fence instruction that drops [c]; this
    holds for requests merged into an entry queued by another hart, for those
    that found the FIFO full, and for the caller itself. *)
Theorem remote_fence_complete e s0 s1 s2 s3 i req targets T c :
  env_ok e -> tinit s0 -> rtc (tstep e tinfo_ok) s0 s1 ->
  rfence_made e tinfo_ok i req targets s1 s2 -> rtc (tstep e tinfo_ok) s2 s3 -> call_returned i s2 s3 0 ->
  T ∈ hartmask_set targets -> asked req c = true ->
  exists f, f ∈ drop (length (t_log (th s1 T))) (t_log (th s3 T)) /\ flushes f c = true.
Proof.
  intros He H0 Hr1 Hmade Hr2 (rq & l & Hl & Hrc) HT Hc.
  assert (inv e s3) as Hinv.
  { apply (inv_reach e He s2); [|done]. apply (step_inv e He s1); [|by eapply made_step].
    by apply (inv_reach e He s0); [apply inv_init|]. }
  destruct Hmade as [funcid a0 a1 a2 a3 a4 junk ti Hv Ht Hj Ha Eh Er Hok Et].
  set (s2 := start_send i _ _ _ _ _) in *. set (rq0 := mkReq (tlb_event e) ti targets (first_target targets) false 0
    req targets [] (fun j => length (t_log (th s1 j)))).
  assert (under_way i rq0 s2 s3) as Hway.
  { assert (under_way i rq0 s2 s2) as Hst.
    { left. split; [done|]. exists rq0, PhLoop. split; [|done].
      unfold s2, start_send, goto. by rewrite th_upd, decide_True. }
    revert Hst. clear -Hr2. generalize s2 at 1 3 as s. induction Hr2 as [|x y z Hxy _ IH]; intros s Hst; [done|].
    apply IH. by apply (under_way_step e i rq0 s x y). }
  destruct Hway as [[Hn _]|(rq' & l' & Hl' & Ev & Ea & Eg & Es)].
  { rewrite Hn in Hl. apply (f_equal length) in Hl. rewrite length_app in Hl. cbn in Hl. lia. }
  rewrite Hl in Hl'. apply app_inv_head in Hl'. injection Hl' as <- <-.
  assert ((i, rq) ∈ calls s3) as Hin.
  { assert (rq ∈ calls_of i s3) as Hx by (rewrite Hl; apply elem_of_app; right; left).
    apply list_elem_of_fmap in Hx as ([j q] & -> & Hx). by apply list_elem_of_filter in Hx as [<- Hx]. }
  pose proof (i_calls e s3 Hinv i rq Hin) as Hful. rewrite Ev, Ea, Eg, Es in Hful.
  exact (Hful (eo_event e He) Hrc T HT c Hc).
Qed.

(** *** Runs given by a list of moves *)

Inductive move : Type := MRun (i : Z) | MIrq (i : Z).

Definition mover (m : move) : Z := match m with MRun i | MIrq i => i end.

Definition play (e : tlb_env) (s : tsys) (m : move) : option tsys :=
  match m with
  | MRun i => hart_step e i s
  | MIrq i =>
      match t_thr (th s i), t_irq (th s i) with
      | TSuper, true => Some (goto s i TClear)
      | _, _ => None
      end
  end.

Fixpoint plays (e : tlb_env) (s : tsys) (ms : list move) : option tsys :=
  match ms with
  | [] => Some s
  | m :: ms => match play e s m with Some s => plays e s ms | None => None end
  end.

Lemma plays_run e ok ms s s' :
  Forall (fun m => valid e (mover m)) ms -> plays e s ms = Some s' -> rtc (tstep e ok) s s'.
Proof.
  intros Hv. revert s. induction Hv as [|m ms Hm _ IH]; intros s H; cbn [plays] in H; [by simplify_eq|].
  destruct (play e s m) as [s1|] eqn:E; [|done]. apply rtc_l with s1; [|by apply IH].
  destruct m as [i|i]; cbn in *; [by apply (ts_run e ok i)|].
  destruct (t_thr (th s i)) eqn:Et; try done. destruct (t_irq (th s i)) eqn:Ei; [|done]. simplify_eq.
  by apply ts_irq.
Qed.

(** A run by moves whose result is given with a default. *)
Lemma plays_default e ok ms s s' :
  Forall (fun m => valid e (mover m)) ms -> bool_decide (is_Some (plays e s ms)) = true ->
  rtc (tstep e ok) s (default s' (plays e s ms)).
Proof.
  intros Hv [s1 Hs]%bool_decide_eq_true. rewrite Hs. by apply (plays_run e ok ms).
Qed.

(** Three harts with ids 4, 2 and 7; hart 1 is stopped.  Event 0 is for the
    supervisor, 1 halts and 2 is the TLB's. *)
Definition ipi_example : ipi_state :=
  mkIpi (Some ipi_smode_ops :: Some ipi_halt_ops :: Some tlb_ops :: replicate 61 None)
    (Some (mkIpiDev 0 100 true true)) [] 0 1 0.

Definition env_example : tlb_env :=
  mkTenv sc_example ipi_example hs_example (fun _ => Some hsm_domain) 8 2 65536 false.

Definition tsys_example : tsys := mkTsys (fun _ => idle_hart 0) [].

(** Hart 0 fences pages 1 and 2 on harts 0 and 2. *)
Definition request_example : sbi_tlb_info := mkTinfo 4096 8192 0 0 SBI_TLB_SFENCE_VMA (mkHartmask [1; 0]).
Definition call_example : tsys := start_send 0 2 request_example request_example (mkHartmask [5; 0]) tsys_example.

Definition moves_example : list move :=
  replicate 10 (MRun 0) ++ MIrq 2 :: replicate 11 (MRun 2) ++ [MRun 0].

Lemma env_example_valid i : valid env_example i <-> i = 0 \/ i = 1 \/ i = 2.
Proof.
  split; [|by intros [->|[->| ->]]]. intros [Hi Hs].
  assert (Forall (fun i => match sbi_hartindex_to_scratch sc_example i with None => true | _ => i <? 3 end = true)
    (seqZ 0 128)) as Hall by (repeat (constructor; [vm_compute; reflexivity|]); constructor).
  rewrite Forall_forall in Hall. specialize (Hall i ltac:(apply elem_of_seqZ; lia)).
  cbn [te_sc env_example] in Hs. destruct (sbi_hartindex_to_scratch sc_example i); [lia|done].
Qed.

Lemma env_example_ok : env_ok env_example.
Proof.
  split; [|done|].
  - intros i Hv. apply env_example_valid in Hv as [->|[->| ->]]; vm_compute; reflexivity.
  - intros i d [= <-]. split; [split; [done|repeat constructor; unfold in_range; cbn; lia]|apply lock_free_init].
Qed.

Definition run_example : tsys := default tsys_example (plays env_example call_example moves_example).

Lemma call_example_made : rfence_made env_example tinfo_ok 0 request_example (mkHartmask [5; 0]) tsys_example call_example.
Proof.
  apply (made_intro env_example tinfo_ok 0 request_example (mkHartmask [5; 0]) tsys_example 1 9 4 4096 8192 0
    (mkHartmask [0; 0]) request_example); try (vm_compute; reflexivity).
  - apply env_example_valid. lia.
  - split; [done|repeat constructor; unfold in_range; lia].
  - unfold in_range. lia.
  - split; cbn; unfold in_range; [lia|done|lia|intros _; lia|lia].
Qed.

Ltac valid_moves := repeat (constructor; [apply env_example_valid; vm_compute; lia|]); constructor.

Lemma run_example_steps : rtc (tstep env_example tinfo_ok) call_example run_example.
Proof. apply plays_default; [valid_moves|vm_compute; reflexivity]. Qed.

Lemma remote_fence_complete_witness :
  exists f, f ∈ drop 0 (t_log (th run_example 2)) /\ flushes f (CSuper 0x2abc 7 false) = true.
Proof.
  apply (remote_fence_complete env_example tsys_example tsys_example call_example run_example 0
    request_example (mkHartmask [5; 0]) 2).
  - apply env_example_ok.
  - split; [done|]. intros i. by exists 0.
  - apply rtc_refl.
  - apply call_example_made.
  - apply run_example_steps.
  - exists (default (mkReq 0 request_example (mkHartmask [0; 0]) 0 false 1 request_example (mkHartmask [0; 0]) []
      (fun _ => O)) (head (calls_of 0 run_example))), []. split; vm_compute; reflexivity.
  - apply elem_of_list_to_set, list_elem_of_In. vm_compute. auto.
  - vm_compute. reflexivity.
Defined.

(** ** Fences that are lost *)

Definition all_started : hmem := fun _ => hart_example SBI_HSM_STATE_STARTED.
Definition lost_env : tlb_env := mkTenv sc_example ipi_example all_started (fun _ => Some hsm_domain) 8 2 65536 false.

(** Hart 0 fences page 0 on hart 2 and waits. *)
Definition lost_first : sbi_tlb_info := mkTinfo 0 4096 0 0 SBI_TLB_SFENCE_VMA (mkHartmask [1; 0]).
Definition lost_waiting : tsys :=
  default tsys_example (plays lost_env (start_send 0 2 lost_first lost_first (mkHartmask [4; 0]) tsys_example)
    (replicate 7 (MRun 0))).

(** Hart 1 asks hart 2 to flush everything; hart 2 takes its interrupt. *)
Definition lost_second : sbi_tlb_info := mkTinfo 0 0 0 0 SBI_TLB_SFENCE_VMA (mkHartmask [2; 0]).
Definition lost_call : tsys := start_send 1 2 lost_second lost_second (mkHartmask [4; 0]) lost_waiting.
Definition lost_moves : list move := replicate 5 (MRun 1) ++ MIrq 2 :: replicate 12 (MRun 2) ++ [MRun 1].
Definition lost_end : tsys := default tsys_example (plays lost_env lost_call lost_moves).

Lemma lost_env_ok : env_ok lost_env.
Proof. destruct env_example_ok as [H1 H2 H3]. split; [exact H1|exact H2|exact H3]. Qed.

(** The call of a full flush can return without the flush.  The
    supervisor interface writes a full flush as start 0 and size 0.  When an
    entry queued on the target starts at 0, tlb_range_check takes the request
    for an empty range inside it and drops it: the call returns 0, and the
    target has not dropped a translation the request names. *)
Theorem remote_fence_lost :
  exists e s0 s1 s2 s3 i req targets T c,
    env_ok e /\ tinit s0 /\ rtc (tstep e (fun _ => True)) s0 s1 /\
    rfence_made e (fun _ => True) i req targets s1 s2 /\ rtc (tstep e (fun _ => True)) s2 s3 /\
    call_returned i s2 s3 0 /\ T ∈ hartmask_set targets /\
    ti_start req = 0 /\ ti_size req = 0 /\ asked req c = true /\
    Forall (fun f => flushes f c = false) (drop (length (t_log (th s1 T))) (t_log (th s3 T))).
Proof.
  assert (hm_wf (mkHartmask [0; 0])) as Hz by (split; [done|repeat constructor; unfold in_range; lia]).
  exists lost_env, tsys_example, lost_waiting, lost_call, lost_end, 1, lost_second, (mkHartmask [4; 0]), 2,
    (CSuper 0x5000 0 false).
  split_and!.
  - apply lost_env_ok.
  - split; [done|]. intros i. by exists 0.
  - apply rtc_l with (start_send 0 2 lost_first lost_first (mkHartmask [4; 0]) tsys_example).
    + apply (made_step lost_env _ 0 lost_first (mkHartmask [4; 0])).
      apply (made_intro lost_env _ 0 lost_first (mkHartmask [4; 0]) tsys_example 1 1 7 0 4096 0 (mkHartmask [0; 0]));
        try done; vm_compute; reflexivity.
    + apply plays_default; [valid_moves|vm_compute; reflexivity].
  - apply (made_intro lost_env _ 1 lost_second (mkHartmask [4; 0]) lost_waiting 1 1 7 0 0 0 (mkHartmask [0; 0]));
      try done; vm_compute; reflexivity.
  - apply plays_default; [valid_moves|vm_compute; reflexivity].
  - exists (default (mkReq 0 lost_first (mkHartmask [0; 0]) 0 false 1 lost_first (mkHartmask [0; 0]) []
      (fun _ => O)) (head (calls_of 1 lost_end))), []. split; vm_compute; reflexivity.
  - apply elem_of_list_to_set, list_elem_of_In. vm_compute. auto.
  - done.
  - done.
  - vm_compute. reflexivity.
  - vm_compute. repeat constructor.
Qed.
