(* ===== verification/Wake.v ===== *)
(** * Remote fences do not lose wake-ups

    A sender of a remote fence waits until its counter is down to zero.  Its
    targets are interrupted only when their [ipi_type] was zero, and they clear
    the interrupt before they take [ipi_type] (sbi_ipi_send, sbi_ipi_process).
    The invariant [wake] shows that this never loses an interrupt: a hart with
    requests in its FIFO will look at it, and a hart with events in [ipi_type]
    is or will be interrupted. *)

From stdpp Require Import gmap.
From S2P Require Import Prelude Strings Locks Fifo Bitops Bitmap Scratch Pmp Memregion Domain Hsm Ipi Tlb Rfence.
Local Open Scope Z_scope.

(** The TLB's event has one number, and the device interrupts harts. *)
Record wake_env (e : tlb_env) : Prop := {
  we_event : 0 <= tlb_event e < 64;
  we_ops : ops_at (te_ipi e) (tlb_event e) = Some tlb_ops;
  we_one : forall ev, event_ops (te_ipi e) ev = Some tlb_ops -> ev = tlb_event e;
  we_send : exists d, ipi_dev (te_ipi e) = Some d /\ has_ipi_send d = true }.

(** A hart at [t] will set the TLB's event of hart [T], will interrupt hart
    [T], will work on its own FIFO, and is about to take its events. *)
Definition adds (e : tlb_env) (t : thread) (T : Z) : bool :=
  match t with
  | TReq rq SAdd | TReq rq SType => (rq_i rq =? T) && (rq_event rq =? tlb_event e)
  | _ => false
  end.

Definition raises (t : thread) (T : Z) : bool :=
  match t with TReq rq SRaw => rq_i rq =? T | _ => false end.

Definition works (e : tlb_env) (t : thread) : bool :=
  match t with
  | TProc (KIpi _ _) _ | THalted => true
  | TIpi ty ev => (ev <=? tlb_event e) && Z.testbit ty (tlb_event e - ev)
  | _ => false
  end.

Definition takes (t : thread) : bool := match t with TClear | TXchg => true | _ => false end.

Record wake (e : tlb_env) (s : tsys) : Prop := {
  w_fifo : forall T, t_fifo (th s T) = [] \/ Z.testbit (t_type (th s T)) (tlb_event e) = true \/
    works e (t_thr (th s T)) = true \/ exists j, valid e j /\ adds e (t_thr (th s j)) T = true;
  w_type : forall T, t_type (th s T) = 0 \/ t_irq (th s T) = true \/ takes (t_thr (th s T)) = true \/
    exists j, valid e j /\ raises (t_thr (th s j)) T = true }.

(** What a move of hart [i] to [t'] has to keep. *)
Record keeps (e : tlb_env) (i : Z) (s s' : tsys) (t' : thread) : Prop := {
  k_thr : forall j, j <> i -> t_thr (th s' j) = t_thr (th s j);
  k_at : t_thr (th s' i) = t';
  k_fifo : forall T, t_fifo (th s T) = [] -> t_fifo (th s' T) = [] \/ adds e t' T = true;
  k_bit : forall T, Z.testbit (t_type (th s T)) (tlb_event e) = true ->
    Z.testbit (t_type (th s' T)) (tlb_event e) = true \/ (T = i /\ works e t' = true);
  k_adds : forall T, adds e (t_thr (th s i)) T = true ->
    adds e t' T = true \/ Z.testbit (t_type (th s' T)) (tlb_event e) = true;
  k_works : works e (t_thr (th s i)) = true -> works e t' = true \/ t_fifo (th s' i) = [];
  k_type : forall T, t_type (th s T) = 0 -> t_type (th s' T) = 0 \/ raises t' T = true;
  k_irq : forall T, t_irq (th s T) = true -> t_irq (th s' T) = true \/ (T = i /\ takes t' = true);
  k_takes : takes (t_thr (th s i)) = true -> takes t' = true \/ t_type (th s' i) = 0;
  k_raises : forall T, raises (t_thr (th s i)) T = true -> raises t' T = true \/ t_irq (th s' T) = true }.

Lemma wake_keeps e i s s' t' : valid e i -> wake e s -> keeps e i s s' t' -> wake e s'.
Proof.
  intros Hv [Wf Wt] [Kt Ka Kf Kb Kad Kw Kty Ki Ktk Kr]. split.
  - intros T. destruct (Wf T) as [H|[H|[H|(j & Hj & H)]]].
    + destruct (Kf T H) as [|H']; [by left|]. do 3 right. exists i. by rewrite Ka.
    + destruct (Kb T H) as [|[-> H']]; [by right; left|]. do 2 right. left. by rewrite Ka.
    + destruct (decide (T = i)) as [->|Hne].
      * destruct (Kw H) as [H'|]; [|by left]. do 2 right. left. by rewrite Ka.
      * do 2 right. left. by rewrite Kt.
    + destruct (decide (j = i)) as [->|Hne].
      * destruct (Kad T H) as [H'|]; [|by right; left]. do 3 right. exists i. by rewrite Ka.
      * do 3 right. exists j. by rewrite Kt.
  - intros T. destruct (Wt T) as [H|[H|[H|(j & Hj & H)]]].
    + destruct (Kty T H) as [|H']; [by left|]. do 3 right. exists i. by rewrite Ka.
    + destruct (Ki T H) as [|[-> H']]; [by right; left|]. do 2 right. left. by rewrite Ka.
    + destruct (decide (T = i)) as [->|Hne].
      * destruct (Ktk H) as [H'|]; [|by left]. do 2 right. left. by rewrite Ka.
      * do 2 right. left. by rewrite Kt.
    + destruct (decide (j = i)) as [->|Hne].
      * destruct (Kr T H) as [H'|]; [|by right; left]. do 3 right. exists i. by rewrite Ka.
      * do 3 right. exists j. by rewrite Kt.
Qed.

(** A move that changes no event or interrupt. *)
Lemma keeps_goto e i s s0 t' :
  (forall j, t_type (th s0 j) = t_type (th s j) /\ t_irq (th s0 j) = t_irq (th s j) /\
     t_thr (th s0 j) = t_thr (th s j)) ->
  (forall T, t_fifo (th s T) = [] -> t_fifo (th s0 T) = [] \/ adds e t' T = true) ->
  (forall T, adds e (t_thr (th s i)) T = true -> adds e t' T = true) ->
  (works e (t_thr (th s i)) = true -> works e t' = true \/ t_fifo (th s0 i) = []) ->
  (takes (t_thr (th s i)) = true -> takes t' = true) ->
  (forall T, raises (t_thr (th s i)) T = false) -> keeps e i s (goto s0 i t') t'.
Proof.
  intros Hs Hf Ha Hw Ht Hr.
  assert (forall j, t_fifo (th (goto s0 i t') j) = t_fifo (th s0 j) /\ t_type (th (goto s0 i t') j) = t_type (th s j) /\
     t_irq (th (goto s0 i t') j) = t_irq (th s j)) as Hj.
  { intros j. destruct (Hs j) as (H1 & H2 & _). unfold goto. rewrite th_upd. by case_decide; subst. }
  split.
  - intros j Hne. unfold goto. rewrite th_upd, decide_False by done. apply Hs.
  - unfold goto. by rewrite th_upd, decide_True.
  - intros T H. destruct (Hj T) as (-> & _). by apply Hf.
  - intros T H. destruct (Hj T) as (_ & -> & _). by left.
  - intros T H. left. by apply Ha.
  - intros H. destruct (Hj i) as (-> & _). by apply Hw.
  - intros T H. destruct (Hj T) as (_ & -> & _). by left.
  - intros T H. destruct (Hj T) as (_ & _ & ->). by left.
  - intros H. left. by apply Ht.
  - intros T H. by rewrite Hr in H.
Qed.

(** Shorthand for moves that leave all FIFOs alone, too. *)
Lemma keeps_quiet e i s s0 t' :
  (forall j, t_type (th s0 j) = t_type (th s j) /\ t_irq (th s0 j) = t_irq (th s j) /\
     t_thr (th s0 j) = t_thr (th s j) /\ t_fifo (th s0 j) = t_fifo (th s j)) ->
  (forall T, adds e (t_thr (th s i)) T = true -> adds e t' T = true) ->
  (works e (t_thr (th s i)) = true -> works e t' = true \/ t_fifo (th s0 i) = []) ->
  (takes (t_thr (th s i)) = true -> takes t' = true) ->
  (forall T, raises (t_thr (th s i)) T = false) -> keeps e i s (goto s0 i t') t'.
Proof.
  intros Hs. apply keeps_goto; [intros j; by destruct (Hs j) as (? & ? & ? & _)|].
  intros T H. left. by destruct (Hs T) as (_ & _ & _ & ->).
Qed.

Lemma untouched s i f :
  t_type (f (th s i)) = t_type (th s i) -> t_irq (f (th s i)) = t_irq (th s i) ->
  t_thr (f (th s i)) = t_thr (th s i) -> t_fifo (f (th s i)) = t_fifo (th s i) ->
  forall j, t_type (th (upd s i f) j) = t_type (th s j) /\ t_irq (th (upd s i f) j) = t_irq (th s j) /\
     t_thr (th (upd s i f) j) = t_thr (th s j) /\ t_fifo (th (upd s i f) j) = t_fifo (th s j).
Proof. intros H1 H2 H3 H4 j. rewrite th_upd. by case_decide; subst. Qed.

Section Moves.
Context (e : tlb_env) (He : env_ok e) (We : wake_env e).

Ltac quiet Ht := apply keeps_quiet; rewrite ?Ht; try done; by apply untouched.

Lemma keeps_head s i rq :
  t_thr (th s i) = TReq rq SHead -> exists t', keeps e i s (send_step e i s rq SHead) t'.
Proof.
  intros Ht. unfold send_step. case_bool; [|case_bool; eexists; quiet Ht].
  destruct (event_ops (te_ipi e) (rq_event rq)) as [[]|], (sbi_hartindex_to_scratch (te_sc e) (rq_i rq));
    try (case_bool; eexists; quiet Ht); eexists; quiet Ht.
Qed.

Lemma inplace_nil next q : q = [] -> (tlb_inplace next q).2 = [].
Proof. by intros ->. Qed.

(** Handing a request over. *)
Lemma keeps_hand s i rq pc t' q :
  t_thr (th s i) = TReq rq pc -> pc = SUpdate \/ pc = SEnqueue ->
  (t_fifo (th s (rq_i rq)) = [] -> q = [] \/ adds e t' (rq_i rq) = true) ->
  keeps e i s (goto (upd s (rq_i rq) (th_fifo q)) i t') t'.
Proof.
  intros Ht Hpc Hq. apply keeps_goto.
  - intros j. rewrite th_upd. by case_decide; subst.
  - intros T H. rewrite th_upd. case_decide; [subst; by apply Hq|by left].
  - intros T. rewrite Ht. by destruct Hpc as [->| ->].
  - by rewrite Ht.
  - by rewrite Ht.
  - intros T. rewrite Ht. by destruct Hpc as [->| ->].
Qed.

Lemma keeps_type s i rq :
  t_thr (th s i) = TReq rq SType -> exists t', keeps e i s (send_step e i s rq SType) t'.
Proof.
  intros Ht. unfold send_step. set (r := rq_i rq). set (old := t_type (th s r)).
  set (t' := if old =? 0 then _ else _). exists t'. set (s' := goto _ i t').
  assert (works e t' = false /\ takes t' = false) as [Hw Htk] by (unfold t'; by destruct (old =? 0)).
  assert (forall j, t_thr (th s' j) = (if decide (j = i) then t' else t_thr (th s j)) /\
    t_fifo (th s' j) = t_fifo (th s j) /\ t_irq (th s' j) = t_irq (th s j) /\
    t_type (th s' j) = if decide (j = r) then Z.lor old (shl64 1 (rq_event rq)) else t_type (th s j)) as Hj.
  { intros j. unfold s', goto. rewrite !th_upd. by repeat case_decide; subst. }
  split; rewrite ?Ht; try done.
  - intros j Hne. destruct (Hj j) as (-> & _). by rewrite decide_False.
  - destruct (Hj i) as (-> & _). by rewrite decide_True.
  - intros T H. destruct (Hj T) as (_ & -> & _). by left.
  - intros T H. destruct (Hj T) as (_ & _ & _ & ->). left. case_decide; [subst T|done].
    fold old in H. by rewrite Z.lor_spec, H.
  - intros T H. right. cbn in H. destruct (Hj T) as (_ & _ & _ & ->). rewrite decide_True by (unfold r; lia).
    assert (rq_event rq = tlb_event e) as -> by lia. pose proof (we_event e We) as Hw0.
    rewrite Z.lor_spec, shl64_1, Z.pow2_bits_true by lia. apply orb_true_r.
  - intros T H. destruct (Hj T) as (_ & _ & _ & ->). case_decide as E; [|by left]. subst T. right.
    unfold t', old. rewrite H. cbn. apply Z.eqb_refl.
  - intros T H. destruct (Hj T) as (_ & _ & -> & _). by left.
Qed.

Lemma keeps_raw s i rq :
  t_thr (th s i) = TReq rq SRaw -> exists t', keeps e i s (send_step e i s rq SRaw) t'.
Proof.
  intros Ht. unfold send_step. destruct (we_send e We) as (d & Ed & Hd).
  unfold sbi_ipi_raw_send. rewrite Ed, Hd. cbn [negb Z.ltb Z.compare].
  set (t' := TReq (rq_done rq) SHead). exists t'. set (s' := goto _ i t').
  assert (forall j, t_thr (th s' j) = (if decide (j = i) then t' else t_thr (th s j)) /\
    t_fifo (th s' j) = t_fifo (th s j) /\ t_type (th s' j) = t_type (th s j) /\
    t_irq (th s' j) = if decide (j = rq_i rq) then true else t_irq (th s j)) as Hj.
  { intros j. unfold s', goto. rewrite !th_upd. by repeat case_decide; subst. }
  split; rewrite ?Ht; try done.
  - intros j Hne. destruct (Hj j) as (-> & _). by rewrite decide_False.
  - destruct (Hj i) as (-> & _). by rewrite decide_True.
  - intros T H. destruct (Hj T) as (_ & -> & _). by left.
  - intros T H. destruct (Hj T) as (_ & _ & -> & _). by left.
  - intros T H. destruct (Hj T) as (_ & _ & -> & _). by left.
  - intros T H. destruct (Hj T) as (_ & _ & _ & ->). left. by case_decide.
  - intros T H. cbn in H. right. destruct (Hj T) as (_ & _ & _ & ->). rewrite decide_True; [done|lia].
Qed.

Lemma keeps_send s i rq pc :
  valid e i -> inv e s -> t_thr (th s i) = TReq rq pc -> exists t', keeps e i s (send_step e i s rq pc) t'.
Proof.
  intros Hv Hinv Ht. destruct (i_req e s Hinv i (proj1 Hv)) as [Hreq _].
  assert (pc_phase pc = PhSend -> rq_event rq = tlb_event e) as Hev.
  { intros Hp. apply (we_one e We). unfold req_ok in Hreq. rewrite Ht in Hreq. cbn in Hreq. rewrite Hp in Hreq.
    case_decide; [done|]. by destruct Hreq as (_ & ? & _). }
  destruct pc; [by apply keeps_head|..].
  - unfold send_step. destruct (tlb_inplace _ _) as [ret q] eqn:Eq. eexists. apply (keeps_hand s i rq SUpdate); [done|by left|].
    intros Hn. left. pose proof (inplace_nil (rq_info rq) _ Hn) as Hq. by rewrite Eq in Hq.
  - unfold send_step, tlb_enqueue. case_bool; cbn [Z.ltb SBI_ENOSPC]; eexists; apply (keeps_hand s i rq SEnqueue);
      try done; try (by right); [by left|]. right. cbn. rewrite Z.eqb_refl. rewrite Hev by done. by rewrite Z.eqb_refl.
  - eexists. quiet Ht.
  - by apply keeps_type.
  - by apply keeps_raw.
  - unfold send_step. destruct (event_ops (te_ipi e) (rq_event rq)) as [[]|]; try (eexists; quiet Ht).
    case_bool; eexists; quiet Ht.
Qed.

Lemma keeps_proc s i k p :
  t_thr (th s i) = TProc k p -> exists t', keeps e i s (proc_step e i s k p) t'.
Proof.
  intros Ht.
  assert (forall s0 t', (forall j, t_type (th s0 j) = t_type (th s j) /\ t_irq (th s0 j) = t_irq (th s j) /\
     t_thr (th s0 j) = t_thr (th s j)) -> (forall T, t_fifo (th s T) = [] -> t_fifo (th s0 T) = []) ->
     t' = resume k true \/ (exists p', t' = TProc k p') \/ (t' = resume k false /\ t_fifo (th s0 i) = []) ->
     keeps e i s (goto s0 i t') t') as Hm.
  { intros s0 t' Hs Hf Ht'. apply keeps_goto; rewrite ?Ht; try done.
    - intros T H. left. by apply Hf.
    - destruct k; try done. intros _. destruct Ht' as [->|[[p' ->]|[-> H]]]; [by left|by left|by right]. }
  unfold proc_step. destruct p as [|ti|ti r].
  - destruct (t_fifo (th s i)) eqn:Eq; eexists; apply Hm; try done; eauto.
    + intros j. rewrite th_upd. by case_decide; subst.
    + intros T H. rewrite th_upd. case_decide; [subst; congruence|done].
  - eexists. apply Hm; eauto; intros j; rewrite th_upd; case_decide; subst; done.
  - case_bool; eexists; apply Hm; eauto.
    + intros j. case_match; [rewrite th_upd; by case_decide; subst|done].
    + intros T H. case_match; [rewrite th_upd; by case_decide; subst|done].
Qed.

(** The loop of sbi_ipi_process does not skip the TLB's event. *)
Lemma works_shift ty ev :
  (ev =? tlb_event e) = false \/ truthy (Z.land ty 1) = false ->
  works e (TIpi ty ev) = true -> works e (TIpi (Z.shiftr ty 1) (ev + 1)) = true.
Proof.
  cbn. intros Hor Hw. apply andb_prop in Hw as [Hle Hb].
  assert (ev <> tlb_event e) as Hne.
  { intros ->. rewrite Z.sub_diag in Hb. destruct Hor as [H|H]; [lia|].
    assert (Z.testbit (Z.land ty 1) 0 = true) as Hc by (by rewrite Z.land_spec, Hb).
    unfold truthy in H. assert (Z.land ty 1 = 0) as E by lia. by rewrite E in Hc. }
  rewrite Z.shiftr_spec by lia. replace (tlb_event e - (ev + 1) + 1) with (tlb_event e - ev) by lia. rewrite Hb. lia.
Qed.

(** The start of sbi_ipi_process. *)
Lemma keeps_clear s i :
  t_thr (th s i) = TClear ->
  keeps e i s (goto (match sbi_ipi_raw_clear (te_ipi e) false with [] => s | _ => upd s i (th_irq false) end) i TXchg)
    TXchg.
Proof.
  intros Ht. set (s' := goto _ i TXchg).
  assert (forall j, t_thr (th s' j) = (if decide (j = i) then TXchg else t_thr (th s j)) /\
    t_fifo (th s' j) = t_fifo (th s j) /\ t_type (th s' j) = t_type (th s j) /\
    (j <> i -> t_irq (th s' j) = t_irq (th s j))) as Hj.
  { intros j. unfold s', goto. case_match; rewrite !th_upd; by repeat case_decide; subst. }
  split; rewrite ?Ht; try done; try (by left).
  - intros j Hne. destruct (Hj j) as (-> & _). by rewrite decide_False.
  - destruct (Hj i) as (-> & _). by rewrite decide_True.
  - intros T H. destruct (Hj T) as (_ & -> & _). by left.
  - intros T H. destruct (Hj T) as (_ & _ & -> & _). by left.
  - intros T H. destruct (Hj T) as (_ & _ & -> & _). by left.
  - intros T H. destruct (decide (T = i)) as [->|Hne]; [by right|]. left.
    destruct (Hj T) as (_ & _ & _ & E). by rewrite E.
Qed.

Lemma keeps_xchg s i :
  t_thr (th s i) = TXchg ->
  keeps e i s (goto (upd s i (th_type 0)) i (TIpi (t_type (th s i)) 0)) (TIpi (t_type (th s i)) 0).
Proof.
  intros Ht. set (t' := TIpi _ _). set (s' := goto _ i t').
  assert (forall j, t_thr (th s' j) = (if decide (j = i) then t' else t_thr (th s j)) /\
    t_fifo (th s' j) = t_fifo (th s j) /\ t_irq (th s' j) = t_irq (th s j) /\
    t_type (th s' j) = if decide (j = i) then 0 else t_type (th s j)) as Hj.
  { intros j. unfold s', goto. rewrite !th_upd. by repeat case_decide; subst. }
  pose proof (we_event e We) as Hev. split; rewrite ?Ht; try done.
  - intros j Hne. destruct (Hj j) as (-> & _). by rewrite decide_False.
  - destruct (Hj i) as (-> & _). by rewrite decide_True.
  - intros T H. destruct (Hj T) as (_ & -> & _). by left.
  - intros T H. destruct (Hj T) as (_ & _ & _ & ->). case_decide; [subst T|by left]. right. split; [done|].
    unfold t'. cbn [works]. rewrite Z.sub_0_r, H. lia.
  - intros T H. destruct (Hj T) as (_ & _ & _ & ->). left. by case_decide.
  - intros T H. destruct (Hj T) as (_ & _ & -> & _). by left.
  - intros _. right. destruct (Hj i) as (_ & _ & _ & ->). by rewrite decide_True.
Qed.

Lemma keeps_ipi s s' i ty ev :
  t_thr (th s i) = TIpi ty ev -> hart_step e i s = Some s' -> exists t', keeps e i s s' t'.
Proof.
  intros Ht. unfold hart_step. rewrite Ht. destruct (Z.eqb_spec ty 0) as [->|Hne].
  { intros [= <-]. eexists. apply keeps_quiet; rewrite ?Ht; try done. cbn. rewrite Z.testbit_0_l, andb_false_r. done. }
  intros [= <-]. assert (truthy (Z.land ty 1) = false \/ ops_at (te_ipi e) ev <> Some tlb_ops ->
    works e (TIpi ty ev) = true -> works e (TIpi (Z.shiftr ty 1) (ev + 1)) = true) as Hw.
  { intros [H|H]; apply works_shift; [by right|left]. apply Z.eqb_neq. intros ->. apply H, We. }
  destruct (truthy (Z.land ty 1)) eqn:Eb.
  - destruct (ops_at (te_ipi e) ev) as [[]|] eqn:Eo; eexists; apply keeps_quiet; rewrite ?Ht; try done;
      try (by apply untouched); try (intros H; left; apply Hw; [by right|exact H]); by left.
  - eexists. apply keeps_quiet; rewrite ?Ht; try done. intros H. left. apply Hw; [by left|exact H].
Qed.

Lemma step_wake s s' : inv e s -> wake e s -> tstep e tinfo_ok s s' -> wake e s'.
Proof.
  intros Hinv Hw Hstep.
  destruct Hstep as [i funcid a0 a1 a2 a3 a4 junk req ti s s' Hv Ht Hj Ha0 Eh Er Hok Hc
    |i event hmask hbase junk s s' Hv Ht Hj Hh Hev Hc|i s Hv Ht Hirq|i s s' Hv Hs].
  - unfold rfence_call in Hc. rewrite Eh, Er in Hc.
    destruct (ipi_targets _ _ _ _ _ _) as [[rc|targets]|]; simplify_eq; [done|].
    eapply (wake_keeps e i s); [done|done|]. quiet Ht.
  - unfold ipi_call in Hc. destruct (ipi_targets _ _ _ _ _ _) as [[rc|targets]|]; simplify_eq; [done|].
    eapply (wake_keeps e i s); [done|done|]. quiet Ht.
  - eapply (wake_keeps e i s); [done|done|]. quiet Ht.
  - assert (exists t', keeps e i s s' t') as [t' Hk]; [|by apply (wake_keeps e i s s' t')].
    destruct (t_thr (th s i)) as [|rq pc|k p| | |ty ev|] eqn:Ht;
      [..|by apply (keeps_ipi s s' i ty ev)|]; unfold hart_step in Hs; rewrite Ht in Hs; simplify_eq.
    + by apply keeps_send.
    + by apply keeps_proc.
    + eexists. by apply keeps_clear.
    + eexists. by apply keeps_xchg.
Qed.

Lemma wake_init s : tinit s -> wake e s.
Proof.
  intros [_ Hs]. split; intros T; left; by destruct (Hs T) as [h ->].
Qed.

Lemma wake_reach s s' : inv e s -> wake e s -> rtc (tstep e tinfo_ok) s s' -> wake e s'.
Proof.
  intros Hi Hw Hr. induction Hr as [|x y z Hxy _ IH]; [done|].
  apply IH; [by apply (step_inv e He x)|by apply (step_wake x)].
Qed.
End Moves.

(** C31: no wake-up is lost.  While a call of a remote fence waits, some hart
    still owes it an answer.  A hart that owes one, and runs the supervisor,
    has its interrupt pending, or another hart is between handing it the
    request and raising the interrupt. *)
Theorem remote_fence_wakes e s0 s i rq :
  env_ok e -> wake_env e -> tinit s0 -> rtc (tstep e tinfo_ok) s0 s ->
  valid e i -> t_thr (th s i) = TReq rq SSync -> 0 < t_sync (th s i) ->
  (exists T, 0 <= T < 128 /\ view i (th s T) <> []) /\
  forall T, view i (th s T) <> [] -> t_thr (th s T) = TSuper ->
    t_irq (th s T) = true \/
    exists j rq' pc, valid e j /\ t_thr (th s j) = TReq rq' pc /\ (pc = SAdd \/ pc = SType \/ pc = SRaw) /\ rq_i rq' = T.
Proof.
  intros He We H0 Hr Hv Ht Hs.
  assert (inv e s) as Hinv by (by apply (inv_reach e He s0); [apply inv_init|]).
  assert (wake e s) as [Wf Wt] by (apply (wake_reach e He We s0); [by apply inv_init|by apply wake_init|done]).
  split.
  - destruct (decide (Exists (fun T => view i (th s T) <> []) (seqZ 0 128))) as [Hex|Hno].
    + apply Exists_exists in Hex as (T & HT & H). exists T. split; [|done]. apply elem_of_seqZ in HT. lia.
    + exfalso. apply not_Exists_Forall in Hno; [|apply _]. rewrite Forall_forall in Hno.
      rewrite (i_count e s Hinv i (proj1 Hv)), Ht in Hs. cbn in Hs.
      assert (pend_sum i (th s) = 0) as E; [|lia]. apply (pend_sum_zero i (th s)). intros T HT.
      destruct (view i (th s T)) eqn:Ev; [done|]. exfalso. apply (Hno T); [apply elem_of_seqZ; lia|by rewrite Ev].
  - intros T Hview HT.
    assert (t_fifo (th s T) <> []) as Hf.
    { intros E. apply Hview. unfold view, items. by rewrite E, HT. }
    assert (t_type (th s T) <> 0 -> t_irq (th s T) = true \/ exists j, valid e j /\ raises (t_thr (th s j)) T = true) as Hirq.
    { intros H. destruct (Wt T) as [?|[?|[Hk|?]]]; [done|by left| |by right]. by rewrite HT in Hk. }
    destruct (Wf T) as [?|[Hb|[Hk|(j & Hj & Ha)]]]; [done| |by rewrite HT in Hk|].
    + destruct Hirq as [?|(j & Hj & Ha)]; [intros E; by rewrite E, Z.testbit_0_l in Hb|by left|]. right.
      destruct (t_thr (th s j)) as [|rq' []| | | | |] eqn:Ej; try done. exists j, rq', SRaw. cbn in Ha.
      split_and!; auto. lia.
    + right. destruct (t_thr (th s j)) as [|rq' []| | | | |] eqn:Ej; try done; cbn in Ha;
        eexists j, rq', _; split_and!; try done; auto; lia.
Qed.

(** What the boot hart's initialisation leaves, with a device that can send. *)
Lemma boot_events d off o1 o2 o3 limit :
  off <> 0 -> o1 <> 0 -> o2 <> 0 -> o3 <> 0 ->
  let '(r1, ipi) := sbi_ipi_init (sbi_ipi_add_device ipi_boot (Some d) true) off true in
  let '(r2, st, ipi) := tlb_init_boot tlb_boot ipi o1 o2 o3 limit true in
  r1 = 0 /\ r2 = 0 /\ st = mkTlb o1 o2 o3 2 limit /\
  ipi = mkIpi (Some ipi_smode_ops :: Some ipi_halt_ops :: Some tlb_ops :: replicate 61 None) (Some d) [d] 0 1 off.
Proof.
  intros Hoff H1 H2 H3. unfold sbi_ipi_init, tlb_init_boot.
  rewrite (proj2 (Z.eqb_neq off 0)), (proj2 (Z.eqb_neq o1 0)), (proj2 (Z.eqb_neq o2 0)), (proj2 (Z.eqb_neq o3 0)) by done.
  done.
Qed.

Lemma boot_wakes e d off l :
  te_ipi e = mkIpi (Some ipi_smode_ops :: Some ipi_halt_ops :: Some tlb_ops :: replicate 61 None) (Some d) l 0 1 off ->
  tlb_event e = 2 -> has_ipi_send d = true -> wake_env e.
Proof.
  intros Ei Ee Hd. split; rewrite ?Ei, ?Ee; [lia|done| |by eexists].
  intros ev. unfold event_ops. case_bool; [done|]. unfold ops_at. cbn [ipi_ops_array].
  destruct (Z.to_nat ev) as [|[|[|n]]] eqn:En; [done|done|lia|]. cbn [lookup list_lookup default].
  destruct (replicate 61 None !! n) eqn:El; [|done]. apply lookup_replicate in El as [-> _]. done.
Qed.

(** What the theorem below needs of the events and the device is set up by the
    boot hart, and the other harts' calls find it. *)
Lemma boot_establishes e d off o1 o2 o3 limit :
  off <> 0 -> o1 <> 0 -> o2 <> 0 -> o3 <> 0 -> has_ipi_send d = true ->
  let '(r1, ipi) := sbi_ipi_init (sbi_ipi_add_device ipi_boot (Some d) true) off true in
  let '(r2, st, ipi) := tlb_init_boot tlb_boot ipi o1 o2 o3 limit true in
  r1 = 0 /\ r2 = 0 /\
  (te_ipi e = ipi -> tlb_event e = tlb_event_nr st -> wake_env e /\ event_ops (te_ipi e) (tlb_event e) = Some tlb_ops) /\
  (sbi_ipi_init ipi 0 false).1 = 0 /\ tlb_init_boot st ipi 0 0 0 0 false = (0, st, ipi).
Proof.
  intros Hoff H1 H2 H3 Hd. pose proof (boot_events d off o1 o2 o3 limit Hoff H1 H2 H3) as Hb.
  destruct (sbi_ipi_init _ off true) as [r1 ipi]. destruct (tlb_init_boot tlb_boot _ _ _ _ _ _) as [[r2 st] ipi'].
  destruct Hb as (-> & -> & -> & ->). split_and!; [done|done| | |].
  - intros Ei Ee. split; [by apply (boot_wakes e d off [d])|]. by rewrite Ei, Ee.
  - unfold sbi_ipi_init. cbn [ipi_data_off]. by rewrite (proj2 (Z.eqb_neq off 0)).
  - unfold tlb_init_boot. cbn [tlb_sync_off tlb_fifo_off tlb_fifo_mem_off].
    by rewrite (proj2 (Z.eqb_neq o1 0)), (proj2 (Z.eqb_neq o2 0)), (proj2 (Z.eqb_neq o3 0)).
Qed.

Lemma env_example_wakes : wake_env env_example.
Proof. by apply (boot_wakes env_example (mkIpiDev 0 100 true true) 0 []). Qed.

(** The caller of [call_example] waits; hart 2 has not taken its interrupt. *)
Definition waiting_example : tsys := default tsys_example (plays env_example call_example (replicate 8 (MRun 0))).

Lemma remote_fence_wakes_witness :
  (exists T, 0 <= T < 128 /\ view 0 (th waiting_example T) <> []) /\
  forall T, view 0 (th waiting_example T) <> [] -> t_thr (th waiting_example T) = TSuper ->
    t_irq (th waiting_example T) = true \/
    exists j rq' pc, valid env_example j /\ t_thr (th waiting_example j) = TReq rq' pc /\
      (pc = SAdd \/ pc = SType \/ pc = SRaw) /\ rq_i rq' = T.
Proof.
  apply (remote_fence_wakes env_example tsys_example waiting_example 0
    (match t_thr (th waiting_example 0) with TReq rq _ => rq | _ =>
       mkReq 0 request_example (mkHartmask [0; 0]) 0 false 1 request_example (mkHartmask [0; 0]) [] (fun _ => O) end)).
  - apply env_example_ok.
  - apply env_example_wakes.
  - split; [done|]. intros i. by exists 0.
  - apply rtc_l with call_example; [exact (made_step env_example tinfo_ok 0 _ _ _ _ call_example_made)|].
    apply plays_default; [valid_moves|vm_compute; reflexivity].
  - apply env_example_valid. lia.
  - vm_compute. reflexivity.
  - vm_compute. reflexivity.
Defined.
