(* ===== verification/Trap.v ===== *)
(** * Traps and their redirection (lib/sbi/sbi_trap.c, the trap entry of
    firmware/fw_base.S, and the trap unit of Spike)

    A trap from a lower privilege mode that the firmware does not handle itself
    is passed on to the supervisor, or to a guest of it, by [sbi_trap_redirect].
    The hardware is that of Spike: processor_t::take_trap, the status registers
    of csrs.cc and the mret instruction.

    [redirect_is_delegation] states the contract: entering the firmware,
    redirecting and leaving with mret has the effect of the trap having been
    delegated.  [redirect_keeps_spelp] shows the one case in which it has not.
    Machine words have 64 bits; harts have user and supervisor mode and are not
    in debug mode. *)

From S2P Require Import Prelude Bitops Pmp.
Local Open Scope Z_scope.

(** ** Registers *)

Inductive mfield : Type :=
| SIE | MIE | SPIE | UBE | MPIE | SPP | FS | XS | VS | MPP | MPRV | SUM | MXR | TVM | TW | TSR | SPELP | SDT
| UXL | SXL | SBE | MBE | GVA | MPV | MPELP | MDT | SD.

(** MSTATUS_SIE and the others; SSTATUS_SIE and the like are the same masks. *)
Definition MSTATUS (f : mfield) : Z :=
  match f with
  | SIE => 0x2 | MIE => 0x8 | SPIE => 0x20 | UBE => 0x40 | MPIE => 0x80 | SPP => 0x100 | MPP => 0x1800
  | FS => 0x6000 | XS => 0x18000 | VS => 0x600 | MPRV => 0x20000 | SUM => 0x40000 | MXR => 0x80000
  | TVM => 0x100000 | TW => 0x200000 | TSR => 0x400000 | SPELP => 0x800000 | SDT => 0x1000000
  | UXL => 0x300000000 | SXL => 0xc00000000 | SBE => 0x1000000000 | MBE => 0x2000000000 | GVA => 0x4000000000
  | MPV => 0x8000000000 | MPELP => 0x20000000000 | MDT => 0x40000000000 | SD => 0x8000000000000000
  end.

Abbreviation HSTATUS_SPVP := 0x100.
Abbreviation HSTATUS_SPV := 0x80.
Abbreviation HSTATUS_GVA := 0x40.
Abbreviation HSTATUS_HUPMM := 0x0003000000000000.
Abbreviation MTVEC_MODE := 3.

(** Registers of a mode that takes exceptions. *)
Record xcsr := mkX { x_tvec : Z; x_cause : Z; x_epc : Z; x_tval : Z }.

Record mcsr := mkM { mstatus : Z; m_x : xcsr; mtval2 : Z; mtinst : Z; medeleg : Z }.

Record hcsr := mkH { hstatus : Z; htval : Z; htinst : Z; hedeleg : Z }.

Record cpu := mkCpu {
  c_pc : Z; c_prv : Z; c_v : bool; c_elp : bool; c_m : mcsr; c_s : xcsr; c_h : hcsr; c_vsstatus : Z; c_vs : xcsr }.

(** The extensions of the hart, what menvcfg, henvcfg and hstatus allow, and
    whether landing pads are on in a mode (ZICFILP_xLPE). *)
Record isa := mkIsa {
  has_h : bool; has_page : bool; has_fs : bool; has_xs : bool; has_vs : bool; has_zicfilp : bool;
  has_ssdbltrp : bool; has_smdbltrp : bool; has_zca : bool; m_dte : bool; h_dte : bool;
  hstatus_mask : Z; lpe : bool -> Z -> bool }.

(** ** The hardware: status registers *)

Definition low_bit (mask : Z) : Z := Z.land mask (not_w 64 (shl64 mask 1)).
Definition get_field (reg mask : Z) : Z := Z.land reg mask / low_bit mask.
Definition set_field (reg mask val : Z) : Z :=
  Z.lor (Z.land reg (not_w 64 mask)) (Z.land (u64 (val * low_bit mask)) mask).

Definition when (b : bool) (m : Z) : Z := if b then m else 0.

(** (old & ~mask) | (val & mask) *)
Definition masked_write (mask old val : Z) : Z := Z.lor (Z.land old (not_w 64 mask)) (Z.land val mask).

Section Hardware.
Context (e : isa).

Definition sstatus_write_mask : Z :=
  Z.lor (MSTATUS SIE) (Z.lor (MSTATUS SPIE) (Z.lor (MSTATUS SPP) (Z.lor (when (has_page e) (Z.lor (MSTATUS SUM) (MSTATUS MXR)))
  (Z.lor (when (has_fs e) (MSTATUS FS)) (Z.lor (when (has_xs e) (MSTATUS XS)) (Z.lor (when (has_vs e) (MSTATUS VS))
  (Z.lor (when (has_zicfilp e) (MSTATUS SPELP)) (when (has_ssdbltrp e) (MSTATUS SDT))))))))).

Definition sstatus_read_mask : Z :=
  Z.lor sstatus_write_mask (Z.lor (MSTATUS UBE) (Z.lor (MSTATUS UXL) (MSTATUS SD))).

Definition adjust_sd (val : Z) : Z :=
  if (Z.land val (MSTATUS FS) =? MSTATUS FS) || (Z.land val (MSTATUS VS) =? MSTATUS VS) ||
     (Z.land val (MSTATUS XS) =? MSTATUS XS)
  then Z.lor val (MSTATUS SD) else Z.land val (not_w 64 (MSTATUS SD)).

(** The masks without SDT when double traps are off. *)
Definition adj_mask (mask : Z) (dte : bool) : Z := Z.land mask (not_w 64 (when (negb dte) (MSTATUS SDT))).

Definition clear_if (cond target val : Z) : Z :=
  if truthy (Z.land val cond) then Z.land val (not_w 64 target) else val.

Definition vsstatus_write (old val : Z) : Z :=
  adjust_sd (clear_if (MSTATUS SDT) (MSTATUS SIE) (masked_write (adj_mask sstatus_write_mask (h_dte e)) old val)).
Definition vsstatus_read (val : Z) : Z := Z.land val (adj_mask sstatus_read_mask (h_dte e)).

Definition mstatus_read (val : Z) : Z := Z.land val (not_w 64 (when (negb (m_dte e)) (MSTATUS SDT))).

Definition mstatus_mask : Z :=
  Z.lor (adj_mask sstatus_write_mask (m_dte e)) (Z.lor (MSTATUS MIE) (Z.lor (MSTATUS MPIE) (Z.lor (MSTATUS MPRV)
  (Z.lor (MSTATUS MPP) (Z.lor (MSTATUS TW) (Z.lor (MSTATUS TSR) (Z.lor (when (has_page e) (MSTATUS TVM))
  (Z.lor (when (has_h e) (MSTATUS GVA)) (Z.lor (when (has_h e) (MSTATUS MPV)) (Z.lor (when (has_smdbltrp e) (MSTATUS MDT))
  (when (has_zicfilp e) (Z.lor (MSTATUS MPELP) (MSTATUS SPELP))))))))))))).

Definition legalize_privilege (p : Z) : Z := if p =? 2 then PRV_U else p.

Definition mstatus_write (old val : Z) : Z :=
  let val := set_field val (MSTATUS MPP) (legalize_privilege (get_field val (MSTATUS MPP))) in
  adjust_sd (clear_if (MSTATUS SDT) (MSTATUS SIE) (clear_if (MSTATUS MDT) (MSTATUS MIE) (masked_write mstatus_mask old val))).

Definition sstatus_write (old val : Z) : Z :=
  mstatus_write old (clear_if (MSTATUS SDT) (MSTATUS SIE)
    (masked_write (adj_mask sstatus_write_mask (m_dte e)) (mstatus_read old) val)).
Definition sstatus_read (val : Z) : Z := Z.land (mstatus_read val) (adj_mask sstatus_read_mask (m_dte e)).

Definition hstatus_write (old val : Z) : Z :=
  let pmm := get_field val HSTATUS_HUPMM in
  masked_write (hstatus_mask e) old (set_field val HSTATUS_HUPMM (if pmm =? 1 then 0 else pmm)).

Definition epc_write (val : Z) : Z := Z.land val (not_w 64 1).
Definition epc_read (val : Z) : Z := Z.land val (not_w 64 (if has_zca e then 0 else 2)).

(** ** The hardware: taking an exception and mret *)

Record trap_t := mkTrap { t_cause : Z; t_tval : Z; t_tval2 : Z; t_tinst : Z; t_gva : bool }.

Definition set_privilege (c : cpu) (pc prv : Z) (v elp : bool) : cpu :=
  let prv := legalize_privilege prv in
  mkCpu pc prv (v && negb (prv =? PRV_M)) elp (c_m c) (c_s c) (c_h c) (c_vsstatus c) (c_vs c).
Definition with_m (c : cpu) (m : mcsr) : cpu :=
  mkCpu (c_pc c) (c_prv c) (c_v c) (c_elp c) m (c_s c) (c_h c) (c_vsstatus c) (c_vs c).
Definition with_mstatus (c : cpu) (v : Z) : cpu :=
  with_m c (mkM v (m_x (c_m c)) (mtval2 (c_m c)) (mtinst (c_m c)) (medeleg (c_m c))).

(** The registers of the mode that takes the exception. *)
Definition take_x (x : xcsr) (cause epc tval : Z) : xcsr := mkX (x_tvec x) cause (epc_write epc) tval.

(** SPIE, SPP, SIE, SPELP and SDT of the mode that takes it. *)
Definition take_status (s prv : Z) (elp dte : bool) : Z :=
  let s := set_field s (MSTATUS SPIE) (get_field s (MSTATUS SIE)) in
  let s := set_field s (MSTATUS SPP) prv in
  let s := set_field s (MSTATUS SIE) 0 in
  let s := set_field s (MSTATUS SPELP) (Z.b2z elp) in
  if dte then set_field s (MSTATUS SDT) 1 else s.

Definition take_vs (c : cpu) (t : trap_t) : cpu :=
  let s := take_status (vsstatus_read (c_vsstatus c)) (c_prv c) (c_elp c) (m_dte e && h_dte e) in
  set_privilege (mkCpu (c_pc c) (c_prv c) (c_v c) (c_elp c) (c_m c) (c_s c) (c_h c) (vsstatus_write (c_vsstatus c) s)
      (take_x (c_vs c) (t_cause t) (c_pc c) (t_tval t)))
    (Z.land (x_tvec (c_vs c)) (not_w 64 1)) PRV_S true false.

Definition take_hstatus (s prv : Z) (v gva : bool) : Z :=
  let s := if v then set_field s HSTATUS_SPVP prv else s in
  let s := set_field s HSTATUS_SPV (Z.b2z v) in
  set_field s HSTATUS_GVA (Z.b2z gva).

Definition take_hs (c : cpu) (t : trap_t) : cpu :=
  let m := c_m c in
  let s := take_status (sstatus_read (mstatus m)) (c_prv c) (c_elp c) (m_dte e) in
  let hs := if has_h e then hstatus_write (hstatus (c_h c)) (take_hstatus (hstatus (c_h c)) (c_prv c) (c_v c) (t_gva t))
            else hstatus (c_h c) in
  set_privilege (mkCpu (c_pc c) (c_prv c) (c_v c) (c_elp c)
      (mkM (sstatus_write (mstatus m) s) (m_x m) (mtval2 m) (mtinst m) (medeleg m))
      (take_x (c_s c) (t_cause t) (c_pc c) (t_tval t)) (mkH hs (t_tval2 t) (t_tinst t) (hedeleg (c_h c)))
      (c_vsstatus c) (c_vs c))
    (Z.land (x_tvec (c_s c)) (not_w 64 1)) PRV_S false false.

(** MDT, MPIE, MPP, MIE, MPV, GVA and MPELP. *)
Definition take_mstatus (s prv : Z) (v gva elp : bool) : Z :=
  let s := if has_smdbltrp e then set_field s (MSTATUS MDT) 1 else s in
  let s := set_field s (MSTATUS MPIE) (get_field s (MSTATUS MIE)) in
  let s := set_field s (MSTATUS MPP) prv in
  let s := set_field s (MSTATUS MIE) 0 in
  let s := set_field s (MSTATUS MPV) (Z.b2z v) in
  let s := set_field s (MSTATUS GVA) (Z.b2z gva) in
  set_field s (MSTATUS MPELP) (Z.b2z elp).

(** [None]: critical error.  Without Smrnmi.  On a double trap of the supervisor
    CAUSE_DOUBLE_TRAP (16) is reported and the cause goes to mtval2. *)
Definition take_m (c : cpu) (t : trap_t) (supv_double_trap : bool) : option cpu :=
  let m := c_m c in
  let s := mstatus_read (mstatus m) in
  if has_smdbltrp e && truthy (get_field s (MSTATUS MDT)) then None
  else
    let s := take_mstatus s (c_prv c) (c_v c) (t_gva t) (c_elp c) in
    Some (set_privilege (with_m c (mkM (mstatus_write (mstatus m) s) (take_x (m_x m) (if supv_double_trap then 16 else t_cause t) (c_pc c) (t_tval t))
            (if supv_double_trap then t_cause t else t_tval2 t) (t_tinst t) (medeleg m)))
          (Z.land (x_tvec (m_x m)) (not_w 64 1)) PRV_M false false).

(** processor_t::take_trap for an exception (the top bit of the cause is 0). *)
Definition take_trap (c : cpu) (t : trap_t) : option cpu :=
  let bit := t_cause t in
  let low := c_prv c <=? PRV_S in
  let vsdeleg := if c_v c && low then Z.land (medeleg (c_m c)) (hedeleg (c_h c)) else 0 in
  let hsdeleg := if low then medeleg (c_m c) else 0 in
  let test := fun d => (bit <? 64) && truthy (Z.land (Z.shiftr d bit) 1) in
  let handler := if test vsdeleg then vsstatus_read (c_vsstatus c) else sstatus_read (mstatus (c_m c)) in
  let supv_double_trap := low && (test vsdeleg || test hsdeleg) && truthy (get_field handler (MSTATUS SDT)) in
  if supv_double_trap then take_m c t true
  else if low && test vsdeleg then Some (take_vs c t)
  else if low && test hsdeleg then Some (take_hs c t)
  else take_m c t false.

(** MPRV, MIE, MPIE, MPP, MPV, MPELP, MDT and SDT. *)
Definition mret_mstatus (s prev_prv prev_virt : Z) : Z :=
  let s := if prev_prv =? PRV_M then s else set_field s (MSTATUS MPRV) 0 in
  let s := set_field s (MSTATUS MIE) (get_field s (MSTATUS MPIE)) in
  let s := set_field s (MSTATUS MPIE) 1 in
  let s := set_field s (MSTATUS MPP) PRV_U in
  let s := set_field s (MSTATUS MPV) 0 in
  let s := set_field s (MSTATUS MPELP) 0 in
  let s := set_field s (MSTATUS MDT) 0 in
  if (prev_prv =? PRV_U) || (truthy prev_virt && negb (prev_prv =? PRV_M)) then set_field s (MSTATUS SDT) 0 else s.

Definition mret (c : cpu) : cpu :=
  let m := c_m c in
  let s := mstatus_read (mstatus m) in
  let prev_prv := get_field s (MSTATUS MPP) in
  let prev_virt := get_field s (MSTATUS MPV) in
  let elp := if has_zicfilp e && lpe e (truthy prev_virt) prev_prv then truthy (get_field s (MSTATUS MPELP)) else c_elp c in
  let vss := if truthy prev_virt && (prev_prv =? PRV_U)
             then vsstatus_write (c_vsstatus c) (Z.land (vsstatus_read (c_vsstatus c)) (not_w 64 (MSTATUS SDT)))
             else c_vsstatus c in
  set_privilege (mkCpu (c_pc c) (c_prv c) (c_v c) (c_elp c)
      (mkM (mstatus_write (mstatus m) (mret_mstatus s prev_prv prev_virt)) (m_x m) (mtval2 m) (mtinst m) (medeleg m))
      (c_s c) (c_h c) vss (c_vs c))
    (epc_read (x_epc (m_x m))) prev_prv (truthy prev_virt) elp.

(** ** The firmware *)

(** The registers of the trap context that matter here. *)
Record sbi_trap_regs := mkRegs { r_mepc : Z; r_mstatus : Z }.
Record sbi_trap_info := mkInfo { cause : Z; tval : Z; tval2 : Z; tinst : Z; gva : Z }.

(** TRAP_SAVE_MEPC_MSTATUS and TRAP_SAVE_INFO, for harts with and without the
    hypervisor extension.  TRAP_SAVE_INFO ends by clearing MDT, which is left out:
    the mstatus saved here is written back by [trap_leave] before its mret, which
    clears MDT. *)
Definition trap_enter (c : cpu) : sbi_trap_regs * sbi_trap_info :=
  let m := c_m c in
  (mkRegs (epc_read (x_epc (m_x m))) (mstatus_read (mstatus m)),
   if has_h e
   then mkInfo (x_cause (m_x m)) (x_tval (m_x m)) (mtval2 m) (mtinst m)
          (Z.land (Z.shiftr (mstatus_read (mstatus m)) 38) 1)
   else mkInfo (x_cause (m_x m)) (x_tval (m_x m)) 0 0 0).

(** TRAP_RESTORE_MEPC_MSTATUS and mret. *)
Definition trap_leave (c : cpu) (regs : sbi_trap_regs) : cpu :=
  let m := c_m c in
  mret (with_m c (mkM (mstatus_write (mstatus m) (r_mstatus regs))
                    (mkX (x_tvec (m_x m)) (x_cause (m_x m)) (epc_write (r_mepc regs)) (x_tval (m_x m)))
                    (mtval2 m) (mtinst m) (medeleg m))).

Definition sbi_regs_from_virt (regs : sbi_trap_regs) : bool := truthy (Z.land (r_mstatus regs) (MSTATUS MPV)).
Definition sbi_mstatus_prev_mode (s : Z) : Z := Z.shiftr (Z.land s (MSTATUS MPP)) 11.

(** x &= ~mask; x |= val *)
Definition put (x mask val : Z) : Z := Z.lor (Z.land x (not_w 64 mask)) val.

(** SPP, SPIE and SIE of the mode that gets the trap. *)
Definition redirect_status (s prev_mode : Z) : Z :=
  let s := Z.land s (not_w 64 (MSTATUS SPP)) in
  let s := if prev_mode =? PRV_S then Z.lor s (MSTATUS SPP) else s in
  let s := Z.land s (not_w 64 (MSTATUS SPIE)) in
  let s := if truthy (Z.land s (MSTATUS SIE)) then Z.lor s (MSTATUS SPIE) else s in
  Z.land s (not_w 64 (MSTATUS SIE)).

Definition redirect_hstatus (s prev_mode : Z) (prev_virt : bool) (gva : Z) : Z :=
  let s := if prev_virt then put s HSTATUS_SPVP (if prev_mode =? PRV_S then HSTATUS_SPVP else 0) else s in
  let s := put s HSTATUS_SPV (if prev_virt then HSTATUS_SPV else 0) in
  put s HSTATUS_GVA (if truthy gva then HSTATUS_GVA else 0).

(** MPELP, MPV and MPP. *)
Definition redirect_mode (s : Z) (next_virt : bool) : Z :=
  let s := if has_zicfilp e then Z.land s (not_w 64 (MSTATUS MPELP)) else s in
  let s := put s (MSTATUS MPV) (if next_virt then MSTATUS MPV else 0) in
  put s (MSTATUS MPP) (Z.shiftl PRV_S 11).

Definition sbi_trap_redirect (c : cpu) (regs : sbi_trap_regs) (trap : sbi_trap_info) : Z * sbi_trap_regs * cpu :=
  let prev_virt := sbi_regs_from_virt regs in
  let prev_mode := sbi_mstatus_prev_mode (r_mstatus regs) in
  if negb (prev_mode =? PRV_S) && negb (prev_mode =? PRV_U) then (SBI_ENOTSUPP, regs, c)
  else
    let s := r_mstatus regs in
    let elp := has_zicfilp e && truthy (Z.land s (MSTATUS MPELP)) in
    let next_virt := has_h e && prev_virt && (cause trap <? 64) &&
                     truthy (Z.land (hedeleg (c_h c)) (shl64 1 (cause trap))) in
    let h := if has_h e && negb next_virt
             then mkH (hstatus_write (hstatus (c_h c)) (redirect_hstatus (hstatus (c_h c)) prev_mode prev_virt (gva trap)))
                    (tval2 trap) (tinst trap) (hedeleg (c_h c))
             else c_h c in
    let s := redirect_mode s next_virt in
    if next_virt then
      let vs := vsstatus_read (c_vsstatus c) in
      let vs := if elp then Z.lor vs (MSTATUS SPELP) else vs in
      (0, mkRegs (Z.land (x_tvec (c_vs c)) (not_w 64 MTVEC_MODE)) s,
       mkCpu (c_pc c) (c_prv c) (c_v c) (c_elp c) (c_m c) (c_s c) h (vsstatus_write (c_vsstatus c) (redirect_status vs prev_mode))
         (mkX (x_tvec (c_vs c)) (cause trap) (epc_write (r_mepc regs)) (tval trap)))
    else
      let s := redirect_status s prev_mode in
      let s := if elp then Z.lor s (MSTATUS SPELP) else s in
      (0, mkRegs (Z.land (x_tvec (c_s c)) (not_w 64 MTVEC_MODE)) s,
       mkCpu (c_pc c) (c_prv c) (c_v c) (c_elp c) (c_m c)
         (mkX (x_tvec (c_s c)) (cause trap) (epc_write (r_mepc regs)) (tval trap)) h (c_vsstatus c) (c_vs c)).

(** A trap the firmware passes on: entry, redirection, return. *)
Definition firmware_redirects (c : cpu) : Z * cpu :=
  let '(regs, info) := trap_enter c in
  let '(rc, regs, c) := sbi_trap_redirect c regs info in
  (rc, trap_leave c regs).
End Hardware.

(** ** Words bit by bit *)

Lemma tb_when b m n : Z.testbit (when b m) n = b && Z.testbit m n.
Proof. destruct b; [done|apply Z.testbit_0_l]. Qed.

Lemma tb_pow2 k n : 0 <= k -> 0 <= n -> Z.testbit (2 ^ k) n = (n =? k).
Proof.
  intros Hk Hn. destruct (Z.eqb_spec n k) as [->|Hne]; [by apply Z.pow2_bits_true|by apply Z.pow2_bits_false].
Qed.

Lemma tb_masked mask old v n :
  0 <= n < 64 ->
  Z.testbit (masked_write mask old v) n = if Z.testbit mask n then Z.testbit v n else Z.testbit old n.
Proof.
  intros Hn. unfold masked_write. rewrite Z.lor_spec, !Z.land_spec, testbit_not_w by lia.
  destruct (Z.testbit mask n), (Z.testbit old n), (Z.testbit v n); done.
Qed.

(** A mask of one bit, and the operations on it. *)
Definition one_bit (mask k : Z) : Prop := mask = 2 ^ k /\ low_bit mask = 2 ^ k /\ 0 <= k < 64.

Lemma get_bit mask k x : one_bit mask k -> get_field x mask = Z.b2z (Z.testbit x k).
Proof.
  intros (-> & E & Hk). unfold get_field. rewrite E. destruct (Z.testbit x k) eqn:Eb.
  - replace (Z.land x (2 ^ k)) with (2 ^ k); [apply Z.div_same; pose proof (pow2_pos k); lia|].
    apply Z.bits_inj'. intros n Hn. rewrite Z.land_spec, tb_pow2 by lia.
    destruct (Z.eqb_spec n k) as [->|]; [by rewrite Eb|by rewrite andb_false_r].
  - pose proof (truthy_bit x k ltac:(lia)) as Ht. rewrite Eb in Ht. unfold truthy in Ht.
    assert (Z.land x (2 ^ k) = 0) as -> by lia. apply Z.div_0_l. pose proof (pow2_pos k). lia.
Qed.

Lemma tb_set mask k x v n :
  one_bit mask k -> 0 <= v < 2 -> 0 <= n < 64 ->
  Z.testbit (set_field x mask v) n = if n =? k then v =? 1 else Z.testbit x n.
Proof.
  intros (-> & E & Hk) Hv Hn. unfold set_field. rewrite E, Z.lor_spec, !Z.land_spec, testbit_not_w, tb_pow2 by lia.
  destruct (Z.eqb_spec n k) as [->|]; [|by rewrite !andb_false_r, andb_true_r, orb_false_r].
  rewrite andb_false_r, andb_true_r, testbit_wrap by lia. cbn [orb].
  assert (v = 0 \/ v = 1) as [->|Hv1] by lia; [by rewrite Z.mul_0_l, Z.testbit_0_l|].
  subst v. rewrite Z.mul_1_l. apply Z.pow2_bits_true. lia.
Qed.

Lemma tb_put k x (b : bool) n :
  0 <= k < 64 -> 0 <= n < 64 ->
  Z.testbit (put x (2 ^ k) (if b then 2 ^ k else 0)) n = if n =? k then b else Z.testbit x n.
Proof.
  intros Hk Hn. unfold put. rewrite Z.lor_spec, Z.land_spec, testbit_not_w, tb_pow2 by lia.
  destruct (Z.eqb_spec n k) as [->|]; rewrite ?andb_false_r, ?andb_true_r; cbn [orb].
  - destruct b; [apply Z.pow2_bits_true; lia|apply Z.testbit_0_l].
  - destruct b; rewrite ?Z.testbit_0_l, ?tb_pow2 by lia; [|apply orb_false_r].
    rewrite (proj2 (Z.eqb_neq n k)) by done. apply orb_false_r.
Qed.

Lemma tb_clear_if i j v n :
  0 <= i -> 0 <= j -> 0 <= n < 64 ->
  Z.testbit (clear_if (2 ^ i) (2 ^ j) v) n = Z.testbit v n && negb ((n =? j) && Z.testbit v i).
Proof.
  intros Hi Hj Hn. unfold clear_if. rewrite truthy_bit by done. destruct (Z.testbit v i).
  - rewrite Z.land_spec, testbit_not_w, tb_pow2 by lia. by rewrite andb_true_r.
  - by rewrite andb_false_r, andb_true_r.
Qed.

(** Two neighbouring bits are set. *)
Lemma both_bits x k :
  0 <= k -> (Z.land x (3 * 2 ^ k) =? 3 * 2 ^ k) = Z.testbit x k && Z.testbit x (k + 1).
Proof.
  intros Hk. assert (forall n, 0 <= n -> Z.testbit (3 * 2 ^ k) n = (n =? k) || (n =? k + 1)) as Hb.
  { intros n Hn. replace (3 * 2 ^ k) with (Z.lor (2 ^ k) (2 ^ (k + 1))).
    - by rewrite Z.lor_spec, !tb_pow2 by lia.
    - rewrite <- Z.add_nocarry_lor; [rewrite Z.pow_add_r by lia; lia|].
      apply Z.bits_inj'. intros n' Hn'. rewrite Z.land_spec, !tb_pow2, Z.testbit_0_l by lia. lia. }
  destruct (Z.eqb_spec (Z.land x (3 * 2 ^ k)) (3 * 2 ^ k)) as [E|E].
  - pose proof (f_equal (fun z => Z.testbit z k) E) as E1. pose proof (f_equal (fun z => Z.testbit z (k + 1)) E) as E2.
    cbn beta in E1, E2. rewrite Z.land_spec, Hb, Z.eqb_refl in E1 by lia.
    rewrite Z.land_spec, Hb, Z.eqb_refl, orb_true_r in E2 by lia. cbn [orb] in E1.
    rewrite andb_true_r in E1, E2. by rewrite E1, E2.
  - destruct (Z.testbit x k) eqn:E1; [|done]. destruct (Z.testbit x (k + 1)) eqn:E2; [|done]. destruct E.
    apply Z.bits_inj'. intros n Hn. rewrite Z.land_spec, Hb by done.
    destruct (Z.eqb_spec n k) as [->|]; [by rewrite E1|]. destruct (Z.eqb_spec n (k + 1)) as [->|]; [by rewrite E2|].
    apply andb_false_r.
Qed.

(** Bit 63 says whether one of the other state fields is dirty. *)
Definition dirty (b : Z -> bool) : bool := (b 13 && b 14) || (b 9 && b 10) || (b 15 && b 16).

Lemma tb_adjust v n :
  0 <= n < 64 -> Z.testbit (adjust_sd v) n = if n =? 63 then dirty (Z.testbit v) else Z.testbit v n.
Proof.
  intros Hn. unfold adjust_sd, dirty.
  change (MSTATUS FS) with (3 * 2 ^ 13). change (MSTATUS VS) with (3 * 2 ^ 9). change (MSTATUS XS) with (3 * 2 ^ 15).
  rewrite !both_bits by lia. change (MSTATUS SD) with (2 ^ 63). cbn [Z.add Pos.add Pos.succ].
  destruct (_ || _) eqn:Ed.
  - rewrite Z.lor_spec, tb_pow2 by lia. destruct (n =? 63); [apply orb_true_r|apply orb_false_r].
  - rewrite Z.land_spec, testbit_not_w, tb_pow2 by lia. destruct (n =? 63); [apply andb_false_r|apply andb_true_r].
Qed.

(** ** Status registers bit by bit *)

(** The position of a field of one bit. *)
Definition mpos (f : mfield) : Z :=
  match f with
  | SIE => 1 | MIE => 3 | SPIE => 5 | UBE => 6 | MPIE => 7 | SPP => 8 | MPRV => 17 | SUM => 18 | MXR => 19
  | TVM => 20 | TW => 21 | TSR => 22 | SPELP => 23 | SDT => 24 | SBE => 36 | MBE => 37 | GVA => 38 | MPV => 39
  | MPELP => 41 | MDT => 42 | SD => 63
  | MPP | FS | XS | VS | UXL | SXL => 64
  end.

Lemma ob f : mpos f <> 64 -> one_bit (MSTATUS f) (mpos f).
Proof. destruct f; intros H; try done; (split; [reflexivity|split; [vm_compute; reflexivity|cbn; lia]]). Qed.

Lemma tb_setf f x v n :
  mpos f <> 64 -> 0 <= v < 2 -> 0 <= n < 64 ->
  Z.testbit (set_field x (MSTATUS f) v) n = if n =? mpos f then v =? 1 else Z.testbit x n.
Proof. intros Hf. apply tb_set. by apply ob. Qed.

Lemma get_f f x : mpos f <> 64 -> get_field x (MSTATUS f) = Z.b2z (Z.testbit x (mpos f)).
Proof. intros Hf. apply get_bit. by apply ob. Qed.

(** The field MPP. *)
Lemma mpp_bits x : Z.land x (MSTATUS MPP) / 2 ^ 11 = Z.b2z (Z.testbit x 11) + 2 * Z.b2z (Z.testbit x 12).
Proof.
  change (MSTATUS MPP) with (Z.shiftl (Z.ones 2) 11).
  rewrite <- Z.shiftr_div_pow2, Z.shiftr_land, Z.shiftr_shiftl_l, Z.sub_diag, Z.shiftl_0_r, Z.land_ones by lia.
  rewrite !Z.testbit_spec', Z.shiftr_div_pow2 by lia. Z.div_mod_to_equations. lia.
Qed.

Lemma get_mpp x : get_field x (MSTATUS MPP) = Z.b2z (Z.testbit x 11) + 2 * Z.b2z (Z.testbit x 12).
Proof. apply mpp_bits. Qed.

Lemma prev_mode_bits x : sbi_mstatus_prev_mode x = Z.b2z (Z.testbit x 11) + 2 * Z.b2z (Z.testbit x 12).
Proof. unfold sbi_mstatus_prev_mode. rewrite Z.shiftr_div_pow2 by lia. apply mpp_bits. Qed.

Lemma tb_mpp n : 0 <= n -> Z.testbit (MSTATUS MPP) n = (n =? 11) || (n =? 12).
Proof.
  intros Hn. change (MSTATUS MPP) with (Z.lor (2 ^ 11) (2 ^ 12)). by rewrite Z.lor_spec, !tb_pow2 by lia.
Qed.

Lemma tb_set_mpp x p n :
  0 <= p < 4 -> 0 <= n < 64 ->
  Z.testbit (set_field x (MSTATUS MPP) p) n =
  if n =? 11 then Z.testbit p 0 else if n =? 12 then Z.testbit p 1 else Z.testbit x n.
Proof.
  intros Hp Hn. unfold set_field. change (low_bit (MSTATUS MPP)) with (2 ^ 11).
  rewrite Z.lor_spec, !Z.land_spec, testbit_not_w, tb_mpp, testbit_wrap by lia.
  rewrite <- Z.shiftl_mul_pow2 by lia.
  destruct (Z.eqb_spec n 11) as [->|]; [rewrite Z.shiftl_spec, andb_false_r, andb_true_r by lia; done|].
  destruct (Z.eqb_spec n 12) as [->|]; [rewrite Z.shiftl_spec, andb_false_r, andb_true_r by lia; done|].
  by rewrite !andb_false_r, andb_true_r, orb_false_r.
Qed.

Lemma b2z_eq1 (b : bool) : (Z.b2z b =? 1) = b.
Proof. by destruct b. Qed.

Lemma b2z_bound (b : bool) : 0 <= Z.b2z b < 2.
Proof. destruct b; cbn; lia. Qed.

Ltac at_bits n l :=
  lazymatch l with
  | ?k :: ?l => destruct (Z.eqb_spec n k) as [->|]; [|at_bits n l]
  | _ => idtac
  end.

Ltac set_bits :=
  repeat first
    [rewrite tb_setf by (try apply b2z_bound; done || lia) | rewrite tb_set_mpp by (unfold PRV_U; lia)
    | rewrite get_f by done | rewrite b2z_eq1];
  cbn [mpos].

Lemma tb_land_not k x n : 0 <= k -> 0 <= n < 64 -> Z.testbit (Z.land x (not_w 64 (2 ^ k))) n = Z.testbit x n && negb (n =? k).
Proof. intros Hk Hn. by rewrite Z.land_spec, testbit_not_w, tb_pow2 by lia. Qed.

Lemma tb_lor_bit k x n : 0 <= k -> 0 <= n -> Z.testbit (Z.lor x (2 ^ k)) n = Z.testbit x n || (n =? k).
Proof. intros Hk Hn. by rewrite Z.lor_spec, tb_pow2 by lia. Qed.

Lemma tb_redirect_status s mode n :
  0 <= n < 64 ->
  Z.testbit (redirect_status s mode) n =
  if n =? 1 then false else if n =? 5 then Z.testbit s 1 else if n =? 8 then mode =? 1 else Z.testbit s n.
Proof.
  intros Hn. unfold redirect_status, PRV_S. change (MSTATUS SPP) with (2 ^ 8). change (MSTATUS SPIE) with (2 ^ 5).
  change (MSTATUS SIE) with (2 ^ 1). rewrite truthy_bit by lia.
  destruct (mode =? 1); rewrite !tb_land_not, ?tb_lor_bit, ?tb_land_not by lia;
    cbn [Z.eqb Pos.eqb negb]; rewrite ?orb_false_r, ?andb_true_r;
    destruct (Z.testbit s 1) eqn:E1; rewrite ?tb_lor_bit, ?tb_land_not, ?tb_lor_bit, ?tb_land_not by lia;
    at_bits n [1; 5; 8]; cbn [Z.eqb Pos.eqb negb]; rewrite ?andb_true_r, ?orb_false_r, ?andb_false_r, ?orb_true_r, ?E1; done.
Qed.

Lemma tb_take_status s prv elp n :
  0 <= prv <= 1 -> 0 <= n < 64 ->
  Z.testbit (take_status s prv elp false) n =
  if n =? 23 then elp else if n =? 1 then false else if n =? 8 then prv =? 1 else if n =? 5 then Z.testbit s 1 else Z.testbit s n.
Proof. intros Hp Hn. unfold take_status. set_bits. at_bits n [23; 1; 8; 5]; done. Qed.

Lemma read_writable mask n :
  0 <= n < 64 -> Z.testbit (adj_mask mask false) n = Z.testbit mask n && negb (n =? 24).
Proof.
  intros Hn. unfold adj_mask. cbn [negb when]. change (MSTATUS SDT) with (2 ^ 24). by apply tb_land_not.
Qed.

Section Bits.
Context (e : isa) (Hm : m_dte e = false).

Definition sm (n : Z) : bool := Z.testbit (adj_mask (sstatus_write_mask e) false) n.
Definition wm (n : Z) : bool := Z.testbit (mstatus_mask e) n.

Ltac mask_bit :=
  unfold wm, sm, mstatus_mask, adj_mask, sstatus_write_mask; rewrite ?Hm;
  repeat first [rewrite Z.lor_spec|rewrite Z.land_spec|rewrite tb_when|rewrite testbit_not_w by lia];
  cbn -[andb orb]; rewrite ?andb_false_r, ?andb_true_r; cbn [orb andb];
  repeat (rewrite ?orb_false_r, ?orb_true_r, ?andb_false_r, ?andb_true_r; cbn [orb andb]); rewrite ?orb_diag; reflexivity.

Lemma sm_facts :
  sm 1 = true /\ sm 5 = true /\ sm 8 = true /\ sm 23 = has_zicfilp e /\ sm 24 = false /\ sm 3 = false /\ sm 42 = false /\
  sm 12 = false /\ sm 63 = false.
Proof. split_and!; mask_bit. Qed.

Lemma wm_facts :
  wm 1 = true /\ wm 5 = true /\ wm 8 = true /\ wm 23 = has_zicfilp e /\ wm 24 = false /\ wm 3 = true /\
  wm 7 = true /\ wm 11 = true /\ wm 12 = true /\ wm 17 = true /\ wm 38 = has_h e /\ wm 39 = has_h e /\
  wm 41 = has_zicfilp e /\ wm 42 = has_smdbltrp e /\ wm 63 = false.
Proof. split_and!; mask_bit. Qed.

Lemma fs_facts : sm 13 = has_fs e /\ sm 14 = has_fs e /\ wm 13 = has_fs e /\ wm 14 = has_fs e.
Proof. split_and!; mask_bit. Qed.

Lemma tb_mread x n : 0 <= n < 64 -> Z.testbit (mstatus_read e x) n = Z.testbit x n && negb (n =? 24).
Proof.
  intros Hn. unfold mstatus_read. rewrite Hm. cbn [negb when]. change (MSTATUS SDT) with (2 ^ 24).
  by rewrite Z.land_spec, testbit_not_w, tb_pow2 by lia.
Qed.

(** The word before the status bit SD is computed. *)
Definition wnew (old v : Z) (n : Z) : bool :=
  if wm n then (if n =? 12 then Z.testbit v 12 && Z.testbit v 11 else Z.testbit v n) else Z.testbit old n.

Lemma tb_mwrite old v n :
  0 <= n < 64 -> Z.testbit old 24 = false ->
  Z.testbit (mstatus_write e old v) n =
  if n =? 63 then dirty (wnew old v) else wnew old v n && negb ((n =? 3) && wnew old v 42).
Proof.
  intros Hn H24. unfold mstatus_write. rewrite tb_adjust by done.
  set (v' := set_field v _ _). assert (forall k, 0 <= k < 64 ->
    Z.testbit (masked_write (mstatus_mask e) old v') k = wnew old v k) as Hw.
  { intros k Hk. rewrite tb_masked by done. fold (wm k). unfold wnew. destruct (wm k); [|done].
    unfold v'. rewrite get_mpp. rewrite tb_set_mpp; [|unfold legalize_privilege, PRV_U; case_bool; destruct (Z.testbit v 11), (Z.testbit v 12); cbn; lia|done].
    destruct (Z.eqb_spec k 11) as [->|]; [|destruct (Z.eqb_spec k 12) as [->|]; [|done]];
      unfold legalize_privilege, PRV_U; destruct (Z.testbit v 11), (Z.testbit v 12); done. }
  change (MSTATUS SDT) with (2 ^ 24). change (MSTATUS SIE) with (2 ^ 1). change (MSTATUS MDT) with (2 ^ 42).
  change (MSTATUS MIE) with (2 ^ 3).
  assert (forall k, 0 <= k < 64 -> Z.testbit (clear_if (2 ^ 24) (2 ^ 1) (clear_if (2 ^ 42) (2 ^ 3)
    (masked_write (mstatus_mask e) old v'))) k = wnew old v k && negb ((k =? 3) && wnew old v 42)) as Hb.
  { intros k Hk. rewrite !tb_clear_if, !Hw by lia. destruct wm_facts as (_ & _ & _ & _ & W24 & _).
    assert (wnew old v 24 = false) as -> by (unfold wnew; by rewrite W24).
    rewrite andb_false_l, andb_false_r. cbn [negb]. by rewrite andb_true_r. }
  destruct (n =? 63); [|by apply Hb]. unfold dirty. rewrite !Hb by lia. cbn [Z.eqb Pos.eqb andb negb]. by rewrite !andb_true_r.
Qed.

(** The word written on a trap to machine mode. *)
Lemma tb_take_m m prv v gva elp n :
  0 <= prv <= 1 -> 0 <= n < 64 ->
  Z.testbit (take_mstatus e (mstatus_read e m) prv v gva elp) n =
  if n =? 41 then elp else if n =? 38 then gva else if n =? 39 then v else if n =? 3 then false
  else if n =? 11 then prv =? 1 else if n =? 12 then false else if n =? 7 then Z.testbit m 3
  else if n =? 42 then has_smdbltrp e || Z.testbit m 42 else Z.testbit m n && negb (n =? 24).
Proof.
  intros Hp Hn. unfold take_mstatus. set_bits.
  assert (Z.testbit prv 0 = (prv =? 1) /\ Z.testbit prv 1 = false) as [-> ->].
  { assert (prv = 0 \/ prv = 1) as [-> | ->] by lia; done. }
  at_bits n [41; 38; 39; 3; 11; 12]; try done.
  destruct (has_smdbltrp e); set_bits; rewrite ?tb_mread by lia.
  - at_bits n [7; 42]; [|done|done]. cbn [Z.eqb Pos.eqb negb]. by rewrite andb_true_r.
  - at_bits n [7; 42]; [| |done]; cbn [Z.eqb Pos.eqb negb orb]; by rewrite andb_true_r.
Qed.

(** mstatus after a trap to machine mode. *)
Lemma mstatus_after_trap m prv v gva elp n :
  0 <= prv <= 1 -> 0 <= n < 64 -> Z.testbit m 24 = false -> Z.testbit m 42 = false ->
  Z.testbit (mstatus_write e m (take_mstatus e (mstatus_read e m) prv v gva elp)) n =
  if n =? 63 then dirty (Z.testbit m)
  else if n =? 41 then (if has_zicfilp e then elp else Z.testbit m 41)
  else if n =? 38 then (if has_h e then gva else Z.testbit m 38)
  else if n =? 39 then (if has_h e then v else Z.testbit m 39) else if n =? 3 then false
  else if n =? 11 then prv =? 1 else if n =? 12 then false else if n =? 7 then Z.testbit m 3
  else if n =? 42 then has_smdbltrp e else Z.testbit m n.
Proof.
  intros Hp Hn H24 H42. rewrite tb_mwrite by done.
  assert (forall k, 0 <= k < 64 -> wnew m (take_mstatus e (mstatus_read e m) prv v gva elp) k =
    if k =? 41 then (if has_zicfilp e then elp else Z.testbit m 41)
    else if k =? 38 then (if has_h e then gva else Z.testbit m 38)
    else if k =? 39 then (if has_h e then v else Z.testbit m 39) else if k =? 3 then false
    else if k =? 11 then prv =? 1 else if k =? 12 then false else if k =? 7 then Z.testbit m 3
    else if k =? 42 then has_smdbltrp e else Z.testbit m k) as Hw.
  { intros k Hk. unfold wnew. clear H24. rewrite !tb_take_m by lia.
    destruct wm_facts as (W1 & W5 & W8 & W23 & W24 & W3 & W7 & W11 & W12 & W17 & W38 & W39 & W41 & W42 & W63).
    at_bits k [41; 38; 39; 3; 11; 12; 7; 42; 24]; rewrite ?W41, ?W38, ?W39, ?W3, ?W11, ?W12, ?W7, ?W42, ?W24, ?H42;
      cbn [Z.eqb Pos.eqb]; try done.
    - by destruct (has_smdbltrp e).
    - cbn [negb]. rewrite andb_true_r. by destruct (wm k). }
  unfold dirty. rewrite !Hw by lia. cbn [Z.eqb Pos.eqb]. destruct (n =? 63); [done|].
  at_bits n [41; 38; 39; 3]; cbn [Z.eqb Pos.eqb andb negb]; by rewrite ?andb_true_r.
Qed.

Lemma tb_redirect_mode s nv n :
  0 <= n < 64 ->
  Z.testbit (redirect_mode e s nv) n =
  if n =? 11 then true else if n =? 12 then false else if n =? 39 then nv
  else if n =? 41 then negb (has_zicfilp e) && Z.testbit s 41 else Z.testbit s n.
Proof.
  intros Hn. unfold redirect_mode. change (MSTATUS MPV) with (2 ^ 39). change (MSTATUS MPELP) with (2 ^ 41).
  unfold put at 1. rewrite Z.lor_spec, Z.land_spec, testbit_not_w, tb_mpp, tb_put by lia.
  change (Z.shiftl PRV_S 11) with (2 ^ 11). rewrite tb_pow2 by lia.
  at_bits n [11; 12; 39]; cbn [Z.eqb Pos.eqb orb negb]; rewrite ?andb_false_r, ?andb_true_r, ?orb_false_r; try done.
  destruct (has_zicfilp e); cbn [negb andb]; [|by at_bits n [41]].
  rewrite tb_land_not by lia. at_bits n [41]; cbn [negb]; by rewrite ?andb_false_r, ?andb_true_r.
Qed.

(** The word mret writes when it returns to a lower mode. *)
Lemma tb_mret m p pv n :
  0 <= p <= 1 -> 0 <= n < 64 ->
  Z.testbit (mret_mstatus (mstatus_read e m) p (Z.b2z pv)) n =
  if (n =? 42) || (n =? 41) || (n =? 39) || (n =? 11) || (n =? 12) || (n =? 17) || (n =? 24) then false
  else if n =? 7 then true else if n =? 3 then Z.testbit m 7 else Z.testbit m n.
Proof.
  intros Hp Hn. unfold mret_mstatus. rewrite (proj2 (Z.eqb_neq p PRV_M)) by (unfold PRV_M; lia).
  assert (Z.testbit PRV_U 0 = false /\ Z.testbit PRV_U 1 = false) as [U0 U1] by done.
  destruct ((p =? PRV_U) || _); set_bits; rewrite ?U0, ?U1, ?tb_mread by lia; cbn [Z.eqb Pos.eqb negb]; rewrite ?andb_true_r;
    at_bits n [42; 41; 39; 11; 12; 17; 24; 7; 3]; cbn [Z.eqb Pos.eqb orb negb]; rewrite ?andb_true_r, ?andb_false_r; done.
Qed.

Definition m_only (n : Z) : bool :=
  (n =? 7) || (n =? 11) || (n =? 12) || (n =? 17) || (n =? 38) || (n =? 39) || (n =? 41) || (n =? 42).

(** mstatus after the firmware has written [r] and returned to a lower mode,
    but for the fields of machine mode. *)
Lemma mstatus_after_return m r p pv n :
  0 <= p <= 1 -> 0 <= n < 64 -> m_only n = false -> Z.testbit m 24 = false ->
  (has_smdbltrp e = false -> Z.testbit m 42 = false) ->
  Z.testbit (mstatus_write e (mstatus_write e m r) (mret_mstatus (mstatus_read e (mstatus_write e m r)) p (Z.b2z pv))) n =
  if n =? 63 then dirty (wnew m r) else if n =? 3 then Z.testbit r 7 else wnew m r n.
Proof.
  intros Hp Hn Hex H24 H42. set (m2 := mstatus_write e m r).
  destruct (wm_facts) as (W1 & W5 & W8 & W23 & W24 & W3 & W7 & W11 & W12 & W17 & W38 & W39 & W41 & W42 & W63).
  assert (forall k, 0 <= k < 63 -> k <> 3 -> Z.testbit m2 k = wnew m r k) as Hm2.
  { intros k Hk Hk3. unfold m2. clear - Hm Hk Hk3 H24. rewrite tb_mwrite by (done || lia).
    rewrite (proj2 (Z.eqb_neq k 63)), (proj2 (Z.eqb_neq k 3)) by lia. cbn [andb negb]. by rewrite andb_true_r. }
  assert (Z.testbit m2 24 = false) as M24 by (rewrite Hm2 by done; unfold wnew; by rewrite W24).
  assert (forall k, 0 <= k < 64 -> wnew m2 (mret_mstatus (mstatus_read e m2) p (Z.b2z pv)) k =
    if wm k then (if (k =? 42) || (k =? 41) || (k =? 39) || (k =? 11) || (k =? 12) || (k =? 17) || (k =? 24) then false
      else if k =? 7 then true else if k =? 3 then Z.testbit m2 7 else Z.testbit m2 k) else Z.testbit m2 k) as Hw.
  { intros k Hk. clear - Hk Hm Hp. unfold wnew. rewrite !tb_mret by lia. at_bits k [12]; [|done]. by destruct (wm 12). }
  clear - Hn Hex H24 H42 Hm Hm2 M24 Hw W3 W7 W42. rewrite tb_mwrite by done. unfold dirty.
  rewrite !Hw by (exact Hn || (clear; lia)). cbn [Z.eqb Pos.eqb orb].
  assert (forall k, (if wm k then Z.testbit m2 k else Z.testbit m2 k) = Z.testbit m2 k) as Hsame by (intros k; by destruct (wm k)).
  rewrite !Hsame. at_bits n [63; 3].
  - by rewrite !Hm2 by (clear; lia).
  - cbn [andb]. rewrite W3, W42, Hm2 by (clear; lia). unfold wnew at 1. rewrite W7. cbn [Z.eqb Pos.eqb].
    destruct (has_smdbltrp e) eqn:Es; [cbn [negb]; by rewrite andb_true_r|]. rewrite Hm2 by (clear; lia). unfold wnew.
    rewrite W42, H42 by done. cbn [negb]. by rewrite andb_true_r.
  - cbn [andb negb]. rewrite andb_true_r. unfold m_only in Hex.
    at_bits n [42; 41; 39; 11; 12; 17; 24; 7]; try done; [|].
    + cbn [orb]. rewrite M24. rewrite Hm2 in M24 by (clear; lia). by destruct (wm 24).
    + cbn [orb]. rewrite Hsame. clear W3 W7 W42 Hex M24. apply Hm2; lia.
Qed.

(** What supervisor mode writes of its own word. *)
Lemma tb_status_word s0 s n :
  0 <= n < 64 -> Z.testbit s0 24 = false ->
  Z.testbit (clear_if (MSTATUS SDT) (MSTATUS SIE) (masked_write (adj_mask (sstatus_write_mask e) false) s0 s)) n =
  if sm n then Z.testbit s n else Z.testbit s0 n.
Proof.
  intros Hn H0. change (MSTATUS SDT) with (2 ^ 24). change (MSTATUS SIE) with (2 ^ 1).
  rewrite tb_clear_if, !tb_masked by lia. fold (sm 24) (sm n). destruct sm_facts as (_ & _ & _ & _ & -> & _).
  rewrite H0, andb_false_r. cbn [negb]. by rewrite andb_true_r.
Qed.

Lemma sm_readable n : 0 <= n < 64 -> sm n = true -> Z.testbit (adj_mask (sstatus_read_mask e) false) n = true.
Proof.
  intros Hn. unfold sm. rewrite !read_writable by done. unfold sstatus_read_mask. rewrite !Z.lor_spec.
  intros [-> ->]%andb_prop. done.
Qed.

(** mstatus after a trap delegated to supervisor mode. *)
Lemma mstatus_delegated m prv elp n :
  0 <= prv <= 1 -> 0 <= n < 64 -> m_only n = false -> Z.testbit m 24 = false -> Z.testbit m 42 = false ->
  Z.testbit (sstatus_write e m (take_status (sstatus_read e m) prv elp false)) n =
  if n =? 63 then dirty (Z.testbit m) else if n =? 1 then false else if n =? 5 then Z.testbit m 1
  else if n =? 8 then prv =? 1 else if n =? 23 then (if has_zicfilp e then elp else Z.testbit m 23) else Z.testbit m n.
Proof.
  intros Hp Hn Hex H24 H42. unfold sstatus_write. rewrite Hm. set (w := clear_if _ _ _).
  assert (forall k, 0 <= k < 64 -> Z.testbit w k = if sm k then Z.testbit (take_status (sstatus_read e m) prv elp false) k
    else Z.testbit m k && negb (k =? 24)) as Hw.
  { intros k Hk. unfold w. rewrite tb_status_word; [|done|by rewrite tb_mread, H24 by lia]. by rewrite tb_mread. }
  assert (forall k, 0 <= k < 64 -> sm k = true -> Z.testbit (sstatus_read e m) k = Z.testbit m k) as Hr.
  { intros k Hk Hs. unfold sstatus_read. rewrite Hm, Z.land_spec, sm_readable, tb_mread, andb_true_r by done.
    at_bits k [24]; [by rewrite H24|apply andb_true_r]. }
  assert (forall k, 0 <= k < 64 -> k <> 12 -> wnew m w k = if k =? 1 then false else if k =? 5 then Z.testbit m 1
    else if k =? 8 then prv =? 1 else if k =? 23 then (if has_zicfilp e then elp else Z.testbit m 23) else Z.testbit m k) as Hn'.
  { intros k Hk H12. unfold wnew. rewrite (proj2 (Z.eqb_neq k 12)), Hw, tb_take_status by done.
    destruct sm_facts as (S1 & S5 & S8 & S23 & S24 & _). destruct wm_facts as (W1 & W5 & W8 & W23 & W24 & _).
    at_bits k [1; 5; 8; 23; 24]; rewrite ?S1, ?S5, ?S8, ?S23, ?S24, ?W1, ?W5, ?W8, ?W23, ?W24;
      cbn [Z.eqb Pos.eqb]; rewrite ?Hr by (done || (clear; lia)); try done; [by destruct (has_zicfilp e)|].
    destruct (sm k) eqn:Es; [rewrite Hr by done|cbn [negb]; rewrite andb_true_r]; by destruct (wm k). }
  rewrite tb_mwrite by done. unfold dirty.
  rewrite (Hn' 9), (Hn' 10), (Hn' 13), (Hn' 14), (Hn' 15), (Hn' 16), (Hn' 42) by (clear; lia).
  cbn [Z.eqb Pos.eqb]. rewrite H42, andb_false_r.
  cbn [negb]. rewrite andb_true_r. destruct (n =? 63); [done|]. apply Hn'; [done|]. intros ->. done.
Qed.
End Bits.

(** ** Redirection and delegation *)

Lemma deleg_bit d k : 0 <= k -> truthy (Z.land (Z.shiftr d k) 1) = Z.testbit d k.
Proof. intros Hk. change 1 with (2 ^ 0). rewrite truthy_bit, Z.shiftr_spec by lia. by rewrite Z.add_0_l. Qed.

Lemma one_bit_hstatus : one_bit HSTATUS_SPVP 8 /\ one_bit HSTATUS_SPV 7 /\ one_bit HSTATUS_GVA 6.
Proof. split_and!; (split; [reflexivity|split; [vm_compute; reflexivity|lia]]). Qed.

Lemma set_range x mask v : in_range 64 x -> in_range 64 (set_field x mask v).
Proof. intros Hx. apply lor_range; [lia|by apply land_range|]. apply land_range; [lia|by apply wrap_range]. Qed.

Lemma put_range x mask v : in_range 64 x -> in_range 64 v -> in_range 64 (put x mask v).
Proof. intros Hx Hv. apply lor_range; [lia|by apply land_range|done]. Qed.

Lemma hstatus_words s prv v g :
  in_range 64 s -> 0 <= prv <= 1 ->
  redirect_hstatus s prv v (Z.b2z g) = take_hstatus s prv v g.
Proof.
  intros Hs Hp. destruct one_bit_hstatus as (O1 & O2 & O3).
  assert (in_range 64 HSTATUS_SPVP /\ in_range 64 HSTATUS_SPV /\ in_range 64 HSTATUS_GVA /\ in_range 64 0) as (R1 & R2 & R3 & R4)
    by (unfold in_range; lia).
  apply (word_eq_bits 64); [lia| | |].
  - unfold redirect_hstatus. destruct v, (prv =? PRV_S), (truthy (Z.b2z g)); auto using put_range.
  - unfold take_hstatus. destruct v; auto using set_range.
  - intros n Hn. unfold redirect_hstatus, take_hstatus.
    change HSTATUS_SPVP with (2 ^ 8) in *. change HSTATUS_SPV with (2 ^ 7) in *. change HSTATUS_GVA with (2 ^ 6) in *.
    assert (truthy (Z.b2z g) = g) as -> by (by destruct g).
    rewrite tb_put, (tb_set _ 6) by (done || lia || apply b2z_bound). at_bits n [6]; [by rewrite b2z_eq1|].
    rewrite tb_put, (tb_set _ 7) by (done || lia || apply b2z_bound). at_bits n [7]; [by rewrite b2z_eq1|].
    destruct v; [|done]. rewrite tb_put, (tb_set _ 8) by (done || lia). unfold PRV_S. by at_bits n [8].
Qed.

(** A hart in a lower mode, with legal register contents. *)
Record cpu_ok (e : isa) (c : cpu) : Prop := {
  co_prv : 0 <= c_prv c <= 1;
  co_v : c_v c = true -> has_h e = true;
  co_elp : c_elp c = true -> has_zicfilp e = true;
  co_pc : epc_write (c_pc c) = c_pc c /\ epc_read e (c_pc c) = c_pc c;
  co_mstatus : in_range 64 (mstatus (c_m c)) /\ adjust_sd (mstatus (c_m c)) = mstatus (c_m c);
  co_sdt : Z.testbit (mstatus (c_m c)) 24 = false;
  co_mdt : Z.testbit (mstatus (c_m c)) 42 = false;
  co_mpv : has_h e = false -> Z.testbit (mstatus (c_m c)) 39 = false;
  co_vsstatus : in_range 64 (c_vsstatus c);
  co_hstatus : in_range 64 (hstatus (c_h c));
  co_tvec : in_range 64 (x_tvec (c_s c)) /\ Z.testbit (x_tvec (c_s c)) 1 = false;
  co_vstvec : in_range 64 (x_tvec (c_vs c)) /\ Z.testbit (x_tvec (c_vs c)) 1 = false }.

(** What the supervisor and its guests can see of a hart. *)
Record same_view (e : isa) (c c' : cpu) : Prop := {
  sv_mode : c_pc c = c_pc c' /\ c_prv c = c_prv c' /\ c_v c = c_v c' /\ c_elp c = c_elp c';
  sv_mstatus : forall n, 0 <= n < 64 -> m_only n = false ->
    Z.testbit (mstatus (c_m c)) n = Z.testbit (mstatus (c_m c')) n;
  sv_s : c_s c = c_s c';
  sv_h : has_h e = true -> c_h c = c_h c';
  sv_vs : c_vs c = c_vs c' /\ c_vsstatus c = c_vsstatus c' }.

Lemma tvec_words e t :
  in_range 64 t -> Z.testbit t 1 = false ->
  epc_read e (epc_write (Z.land t (not_w 64 MTVEC_MODE))) = Z.land t (not_w 64 1).
Proof.
  intros Ht H1. apply (word_eq_bits 64); [lia| | |].
  - unfold epc_read, epc_write. by repeat (apply land_range; [lia|]).
  - by apply land_range.
  - intros n Hn. unfold epc_read, epc_write. rewrite !Z.land_spec, !testbit_not_w by lia.
    assert (Z.testbit MTVEC_MODE n = (n =? 0) || (n =? 1)) as ->.
    { change MTVEC_MODE with (Z.lor (2 ^ 0) (2 ^ 1)). by rewrite Z.lor_spec, !tb_pow2 by lia. }
    change 1 with (2 ^ 0) at 2 3. rewrite !tb_pow2 by lia.
    assert (Z.testbit (if has_zca e then 0 else 2) n = negb (has_zca e) && (n =? 1)) as ->.
    { destruct (has_zca e); [apply Z.testbit_0_l|]. change 2 with (2 ^ 1). by apply tb_pow2; lia. }
    at_bits n [0; 1]; cbn [orb negb andb]; by rewrite ?H1, ?andb_false_r, ?andb_true_r.
Qed.

(** The status word of a guest's supervisor. *)
Lemma vsstatus_words e vs prv elp :
  in_range 64 vs -> 0 <= prv <= 1 -> (elp = true -> has_zicfilp e = true) -> elp = true \/ Z.testbit vs 23 = false ->
  let s := vsstatus_read e vs in
  redirect_status (if has_zicfilp e && elp then Z.lor s (MSTATUS SPELP) else s) prv = take_status s prv elp false.
Proof.
  intros Hvs Hp He H23. cbv zeta. set (s := vsstatus_read e vs).
  assert (in_range 64 s) as Hs by (unfold s, vsstatus_read; by apply land_range).
  assert (forall f, in_range 64 (MSTATUS f)) as Hf by (intros []; unfold in_range; cbn; lia).
  assert (has_zicfilp e && elp = elp) as -> by (destruct elp; [by rewrite He|apply andb_false_r]).
  assert (elp = false -> Z.testbit s 23 = false) as Hs23.
  { intros ->. destruct H23 as [|H23]; [done|]. unfold s, vsstatus_read. by rewrite Z.land_spec, H23. }
  set (s' := if elp then _ else s).
  assert (in_range 64 s') as Hs' by (unfold s'; destruct elp; [by apply lor_range|done]).
  apply (word_eq_bits 64); [lia| | |].
  - unfold redirect_status. repeat case_match; repeat first [apply land_range|apply lor_range]; try done.
  - unfold take_status. auto using set_range.
  - intros n Hn. rewrite tb_redirect_status, tb_take_status by done.
    assert (Z.testbit s' n = if n =? 23 then elp else Z.testbit s n) as E.
    { unfold s'. change (MSTATUS SPELP) with (2 ^ 23). destruct elp; [rewrite tb_lor_bit by lia|];
        at_bits n [23]; rewrite ?orb_true_r, ?orb_false_r; auto. }
    assert (Z.testbit s' 1 = Z.testbit s 1) as ->.
    { unfold s'. destruct elp; [|done]. change (MSTATUS SPELP) with (2 ^ 23). rewrite tb_lor_bit by lia. apply orb_false_r. }
    rewrite E. unfold PRV_S. at_bits n [1; 5; 8; 23]; done.
Qed.

Section Redirect.
Context (e : isa) (c : cpu) (t : trap_t).
Context (Hm : m_dte e = false) (Hh : h_dte e = false) (Hc : cpu_ok e c) (Hcause : 0 <= t_cause t < 64).

Definition trap_word : Z := mstatus_write e (mstatus (c_m c)) (take_mstatus e (mstatus_read e (mstatus (c_m c))) (c_prv c) (c_v c) (t_gva t) (c_elp c)).

(** The hart in the firmware. *)
Definition trapped : cpu :=
  set_privilege (with_m c (mkM trap_word (take_x (m_x (c_m c)) (t_cause t) (c_pc c) (t_tval t))
      (t_tval2 t) (t_tinst t) (medeleg (c_m c))))
    (Z.land (x_tvec (m_x (c_m c))) (not_w 64 1)) PRV_M false false.

Lemma take_m_trapped : take_m e c t false = Some trapped.
Proof.
  unfold take_m. rewrite get_f by done. cbn [mpos]. rewrite tb_mread, (co_mdt e c Hc) by (done || lia).
  cbn [andb Z.b2z]. by rewrite andb_false_r.
Qed.

(** The exception is not delegated. *)
Lemma take_trap_m : Z.testbit (medeleg (c_m c)) (t_cause t) = false -> take_trap e c t = Some trapped.
Proof.
  intros Hd. unfold take_trap. rewrite (proj2 (Z.ltb_lt _ _)) by lia. cbn [andb]. rewrite !deleg_bit by lia.
  assert (Z.testbit (if c_v c && (c_prv c <=? PRV_S) then Z.land (medeleg (c_m c)) (hedeleg (c_h c)) else 0) (t_cause t) = false) as ->.
  { case_bool; [by rewrite Z.land_spec, Hd|apply Z.testbit_0_l]. }
  assert (Z.testbit (if c_prv c <=? PRV_S then medeleg (c_m c) else 0) (t_cause t) = false) as ->.
  { case_bool; [done|apply Z.testbit_0_l]. }
  cbn [orb]. rewrite !andb_false_r. apply take_m_trapped.
Qed.

(** It is delegated. *)
Definition delegating : cpu :=
  with_m c (mkM (mstatus (c_m c)) (m_x (c_m c)) (mtval2 (c_m c)) (mtinst (c_m c)) (Z.lor (medeleg (c_m c)) (2 ^ t_cause t))).

Lemma take_trap_delegated :
  take_trap e delegating t = Some (if c_v c && Z.testbit (hedeleg (c_h c)) (t_cause t) then take_vs e delegating t
                                   else take_hs e delegating t).
Proof.
  unfold take_trap. rewrite (proj2 (Z.ltb_lt _ _)) by lia. cbn [andb]. rewrite !deleg_bit by lia.
  assert ((c_prv delegating <=? PRV_S) = true) as ->.
  { pose proof (co_prv e c Hc). unfold PRV_S. cbn. lia. }
  rewrite andb_true_r. cbn [andb]. cbn [delegating with_m c_m c_v c_h c_vsstatus medeleg mstatus].
  assert (Z.testbit (Z.lor (medeleg (c_m c)) (2 ^ t_cause t)) (t_cause t) = true) as Hb.
  { rewrite Z.lor_spec, Z.pow2_bits_true by lia. apply orb_true_r. }
  assert (Z.testbit (if c_v c then Z.land (Z.lor (medeleg (c_m c)) (2 ^ t_cause t)) (hedeleg (c_h c)) else 0) (t_cause t) =
    c_v c && Z.testbit (hedeleg (c_h c)) (t_cause t)) as ->.
  { destruct (c_v c); [by rewrite Z.land_spec, Hb|apply Z.testbit_0_l]. }
  rewrite Hb, orb_true_r. cbn [andb].
  assert (truthy (get_field (if c_v c && Z.testbit (hedeleg (c_h c)) (t_cause t) then vsstatus_read e (c_vsstatus c)
    else sstatus_read e (mstatus (c_m c))) (MSTATUS SDT)) = false) as ->; [|by destruct (c_v c && _)].
  rewrite get_f by done. cbn [mpos].
  assert (Z.testbit (vsstatus_read e (c_vsstatus c)) 24 = false) as V.
  { unfold vsstatus_read. by rewrite Z.land_spec, Hh, read_writable, andb_false_r, andb_false_r by lia. }
  assert (Z.testbit (sstatus_read e (mstatus (c_m c))) 24 = false) as S.
  { unfold sstatus_read. by rewrite Z.land_spec, tb_mread, andb_false_r by (done || lia). }
  case_bool; [by rewrite V|by rewrite S].
Qed.

(** What the firmware reads of the trap. *)
Lemma trapped_regs :
  let r := mstatus_read e trap_word in
  sbi_mstatus_prev_mode r = c_prv c /\ truthy (Z.land r (MSTATUS MPV)) = c_v c /\
  (has_zicfilp e && truthy (Z.land r (MSTATUS MPELP))) = c_elp c /\
  (has_h e = true -> Z.land (Z.shiftr r 38) 1 = Z.b2z (t_gva t)).
Proof.
  cbv zeta. pose proof (co_prv e c Hc) as Hp.
  assert (forall n, 0 <= n < 64 -> n <> 24 -> Z.testbit (mstatus_read e trap_word) n = Z.testbit trap_word n) as Hr.
  { intros n Hn H24. rewrite tb_mread by done. rewrite (proj2 (Z.eqb_neq n 24)) by done. apply andb_true_r. }
  pose proof (fun n Hn => mstatus_after_trap e Hm (mstatus (c_m c)) (c_prv c) (c_v c) (t_gva t) (c_elp c) n Hp Hn
    (co_sdt e c Hc) (co_mdt e c Hc)) as Hb. fold trap_word in Hb.
  assert (Z.testbit (mstatus_read e trap_word) 38 = if has_h e then t_gva t else Z.testbit (mstatus (c_m c)) 38) as H38
    by (by rewrite Hr, Hb by lia).
  split_and!.
  - rewrite prev_mode_bits, !Hr, !Hb by lia. cbn [Z.eqb Pos.eqb]. destruct (Z.eqb_spec (c_prv c) 1); cbn; lia.
  - change (MSTATUS MPV) with (2 ^ 39). rewrite truthy_bit, Hr, Hb by lia. cbn [Z.eqb Pos.eqb].
    destruct (has_h e) eqn:Eh; [done|]. rewrite (co_mpv e c Hc Eh). destruct (c_v c) eqn:Ev; [|done].
    pose proof (co_v e c Hc Ev). congruence.
  - change (MSTATUS MPELP) with (2 ^ 41). rewrite truthy_bit, Hr, Hb by lia. cbn [Z.eqb Pos.eqb].
    destruct (has_zicfilp e) eqn:Ez; [done|]. cbn [andb]. destruct (c_elp c) eqn:El; [|done].
    pose proof (co_elp e c Hc El). congruence.
  - intros Eh. rewrite Eh in H38. rewrite <- H38. rewrite Z.testbit_spec', Z.shiftr_div_pow2 by lia.
    change 1 with (Z.ones 1). by rewrite Z.land_ones by lia.
Qed.
End Redirect.

Lemma prv_s_low : 0 <= PRV_S <= 1.
Proof. unfold PRV_S. lia. Qed.

(** Leaving the firmware for a lower mode [p]. *)
Lemma leave_spec e c regs p :
  m_dte e = false ->
  let m := mstatus (c_m c) in let r := r_mstatus regs in
  Z.testbit m 24 = false -> (has_smdbltrp e = false -> Z.testbit m 42 = false) ->
  0 <= p <= 1 -> Z.testbit r 11 = (p =? 1) -> Z.testbit r 12 = false -> (has_zicfilp e = true -> Z.testbit r 41 = false) ->
  c_elp c = false -> let pv := if has_h e then Z.testbit r 39 else Z.testbit m 39 in
  (p = 0 -> pv = true ->
   vsstatus_write e (c_vsstatus c) (Z.land (vsstatus_read e (c_vsstatus c)) (not_w 64 (MSTATUS SDT))) = c_vsstatus c) ->
  let c' := trap_leave e c regs in
  c_pc c' = epc_read e (epc_write (r_mepc regs)) /\ c_prv c' = p /\
  c_v c' = pv /\ c_elp c' = false /\
  c_s c' = c_s c /\ c_h c' = c_h c /\ c_vs c' = c_vs c /\ c_vsstatus c' = c_vsstatus c /\
  forall n, 0 <= n < 64 -> m_only n = false ->
    Z.testbit (mstatus (c_m c')) n = if n =? 63 then dirty (wnew e m r) else if n =? 3 then Z.testbit r 7 else wnew e m r n.
Proof.
  intros Hm m r H24 H42 Hp R11 R12 R41 Hel pv Hvs c'.
  destruct (wm_facts e Hm) as (W1 & W5 & W8 & W23 & W24 & W3 & W7 & W11 & W12 & W17 & W38 & W39 & W41 & W42 & W63).
  set (m2 := mstatus_write e m r).
  assert (forall k, 0 <= k < 63 -> k <> 3 -> k <> 24 -> Z.testbit (mstatus_read e m2) k = wnew e m r k) as Hr.
  { clear - Hm H24. intros k Hk H3 Hk24. rewrite tb_mread by (done || lia). unfold m2. rewrite tb_mwrite by (done || lia).
    rewrite (proj2 (Z.eqb_neq k 63)), (proj2 (Z.eqb_neq k 3)), (proj2 (Z.eqb_neq k 24)) by lia.
    cbn [andb negb]. by rewrite !andb_true_r. }
  assert (get_field (mstatus_read e m2) (MSTATUS MPP) = p) as Emp.
  { rewrite get_mpp, !Hr by (clear; lia). unfold wnew. rewrite W11, W12. cbn [Z.eqb Pos.eqb]. rewrite R11, R12. cbn [andb].
    clear - Hp. destruct (Z.eqb_spec p 1); cbn; lia. }
  assert (get_field (mstatus_read e m2) (MSTATUS MPV) = Z.b2z pv) as Emv.
  { rewrite get_f by done. cbn [mpos]. rewrite Hr by (clear; lia). unfold wnew. by rewrite W39. }
  assert (has_zicfilp e = true -> truthy (get_field (mstatus_read e m2) (MSTATUS MPELP)) = false) as Eme.
  { intros Ez. rewrite get_f by done. cbn [mpos]. rewrite Hr by (clear; lia). unfold wnew. rewrite W41, Ez.
    cbn [Z.eqb Pos.eqb]. by rewrite R41. }
  unfold c', trap_leave, mret. cbn [with_m c_m mstatus m_x x_epc mtval2 mtinst medeleg c_s c_h c_vsstatus c_vs c_elp].
  fold m r m2. rewrite Emp, Emv. assert (truthy (Z.b2z pv) = pv) as -> by (by destruct pv).
  assert (legalize_privilege p = p) as El by (clear - Hp; unfold legalize_privilege; case_bool; lia).
  unfold set_privilege. cbn [c_pc c_prv c_v c_elp c_m c_s c_h c_vs c_vsstatus mstatus]. rewrite El.
  rewrite (proj2 (Z.eqb_neq p PRV_M)) by (clear - Hp; unfold PRV_M; lia). cbn [negb].
  rewrite andb_true_r. split_and!; try done.
  - rewrite Hel. destruct (has_zicfilp e); [|done]. rewrite Eme by done. by destruct (true && _).
  - destruct pv; cbn [andb]; [|done]. destruct (Z.eqb_spec p PRV_U); [|done]. by apply Hvs.
  - intros n Hn Hex. by apply mstatus_after_return.
Qed.

Section Main.
Context (e : isa) (c : cpu) (t : trap_t).
Context (Hm : m_dte e = false) (Hh : h_dte e = false) (Hc : cpu_ok e c) (Hcause : 0 <= t_cause t < 64).

Let m := mstatus (c_m c).
Let m1 := trap_word e c t.

Lemma word_bits n :
  0 <= n < 64 -> n <> 24 -> m_only n = false -> n <> 3 -> n <> 63 ->
  Z.testbit (mstatus_read e m1) n = Z.testbit m n /\ Z.testbit m1 n = Z.testbit m n.
Proof.
  intros Hn H24 Hex H3 H63. rewrite tb_mread by done. rewrite (proj2 (Z.eqb_neq n 24)), andb_true_r by done.
  assert (Z.testbit m1 n = Z.testbit m n); [|done]. unfold m1, trap_word.
  rewrite mstatus_after_trap by (done || apply Hc). unfold m_only in Hex.
  destruct (n =? 41), (n =? 38), (n =? 39), (n =? 11), (n =? 12), (n =? 7), (n =? 42);
    rewrite ?orb_true_r in Hex; try done.
  by rewrite (proj2 (Z.eqb_neq n 63)), (proj2 (Z.eqb_neq n 3)).
Qed.

Lemma word_special :
  Z.testbit m1 24 = false /\ (has_smdbltrp e = false -> Z.testbit m1 42 = false) /\
  Z.testbit (mstatus_read e m1) 7 = Z.testbit m 3 /\ (has_h e = false -> Z.testbit m1 39 = false).
Proof.
  pose proof (fun n Hn => mstatus_after_trap e Hm m (c_prv c) (c_v c) (t_gva t) (c_elp c) n (co_prv e c Hc) Hn
    (co_sdt e c Hc) (co_mdt e c Hc)) as Hb. change (mstatus_write e m _) with m1 in Hb.
  split_and!.
  - rewrite Hb by lia. apply (co_sdt e c Hc).
  - intros Es. rewrite Hb, Es by lia. done.
  - by rewrite tb_mread, Hb, andb_true_r by (done || lia).
  - intros Eh. rewrite Hb, Eh by lia. cbn [Z.eqb Pos.eqb]. by apply (co_mpv e c Hc).
Qed.

(** A word that differs from the one read in the fields of the redirection
    only, written back: the fields [f] of supervisor mode. *)
Lemma back_bits r (f : Z -> option bool) n :
  (forall k, 0 <= k < 64 -> m_only k = false -> Z.testbit r k = default (Z.testbit (mstatus_read e m1) k) (f k)) ->
  (forall k, f k <> None -> wm e k = true) -> (forall k, k < 1 \/ 8 < k < 23 \/ 23 < k -> f k = None) -> f 3 = None ->
  0 <= n < 64 -> m_only n = false -> n <> 3 -> n <> 63 ->
  wnew e m1 r n = default (Z.testbit m n) (f n).
Proof.
  intros Hr Hf Hf' Hf3 Hn Hex H3 H63. unfold wnew.
  assert ((n =? 12) = false) as -> by (unfold m_only in Hex; lia).
  destruct (decide (n = 24)) as [->|H24].
  { destruct (wm_facts e Hm) as (_ & _ & _ & _ & -> & _). rewrite (Hf' 24) by lia. cbn [default from_option id].
    rewrite (proj1 word_special). symmetry. apply (co_sdt e c Hc). }
  destruct (word_bits n Hn H24 Hex H3 H63) as [E1 E2]. rewrite E2, Hr, E1 by done.
  destruct (f n) eqn:Ef; cbn [default from_option id]; [rewrite Hf; [done|by rewrite Ef]|by destruct (wm e n)].
Qed.

Lemma dirty_same r :
  (forall n, 9 <= n <= 16 -> n <> 11 -> n <> 12 -> wnew e m1 r n = Z.testbit m n) ->
  dirty (wnew e m1 r) = dirty (Z.testbit m).
Proof. intros H. unfold dirty. by rewrite !H by lia. Qed.

Definition hs_fields (k : Z) : option bool :=
  if k =? 1 then Some false else if k =? 5 then Some (Z.testbit m 1) else if k =? 8 then Some (c_prv c =? 1)
  else if (k =? 23) && has_zicfilp e then Some (c_elp c || Z.testbit m 23) else None.

(** The word written back for supervisor mode. *)
Definition hs_word : Z :=
  let s := redirect_status (redirect_mode e (mstatus_read e m1) false) (c_prv c) in
  if c_elp c then Z.lor s (MSTATUS SPELP) else s.

Lemma tb_hs_word n :
  0 <= n < 64 ->
  Z.testbit hs_word n =
  if n =? 11 then true else if n =? 12 then false else if n =? 39 then false
  else if n =? 41 then negb (has_zicfilp e) && Z.testbit (mstatus_read e m1) 41
  else default (Z.testbit (mstatus_read e m1) n) (hs_fields n).
Proof.
  intros Hn. unfold hs_word, hs_fields. set (s := redirect_status _ _).
  assert (Z.testbit (if c_elp c then Z.lor s (MSTATUS SPELP) else s) n = Z.testbit s n || ((n =? 23) && c_elp c)) as ->.
  { change (MSTATUS SPELP) with (2 ^ 23). destruct (c_elp c); [by rewrite tb_lor_bit, andb_true_r by lia|].
    by rewrite andb_false_r, orb_false_r. }
  unfold s. rewrite tb_redirect_status, !tb_redirect_mode by lia. cbn [Z.eqb Pos.eqb].
  pose proof (co_elp e c Hc) as Hz.
  at_bits n [11; 12; 39; 41; 1; 5; 8; 23]; cbn [Z.eqb Pos.eqb andb default from_option id]; rewrite ?orb_false_r; try done.
  - apply word_bits; try done; lia.
  - destruct (has_zicfilp e) eqn:Ez; cbn [default from_option id].
    + rewrite orb_comm. f_equal. apply word_bits; try done; lia.
    + destruct (c_elp c); [by specialize (Hz eq_refl)|]. apply orb_false_r.
Qed.

Lemma hs_back n :
  0 <= n < 64 -> m_only n = false -> n <> 3 -> n <> 63 -> wnew e m1 hs_word n = default (Z.testbit m n) (hs_fields n).
Proof.
  intros Hn Hex H3 H63. apply back_bits; try done.
  - intros k Hk Hkx. rewrite tb_hs_word by done. unfold m_only in Hkx.
    destruct (k =? 11), (k =? 12), (k =? 39), (k =? 41); rewrite ?orb_true_r in Hkx; done.
  - intros k Hk. destruct (wm_facts e Hm) as (W1 & W5 & W8 & W23 & _). unfold hs_fields in Hk.
    destruct (Z.eqb_spec k 1); [by subst k|]. destruct (Z.eqb_spec k 5); [by subst k|].
    destruct (Z.eqb_spec k 8); [by subst k|]. destruct (Z.eqb_spec k 23); [|done].
    subst k. rewrite W23. by destruct (has_zicfilp e).
  - intros k Hk. unfold hs_fields.
    rewrite (proj2 (Z.eqb_neq k 1)), (proj2 (Z.eqb_neq k 5)), (proj2 (Z.eqb_neq k 8)), (proj2 (Z.eqb_neq k 23)) by lia. done.
Qed.

(** For a guest, no field of supervisor mode changes. *)
Definition vs_word : Z := redirect_mode e (mstatus_read e m1) true.

Lemma vs_back n :
  0 <= n < 64 -> m_only n = false -> n <> 3 -> n <> 63 -> wnew e m1 vs_word n = Z.testbit m n.
Proof.
  intros Hn Hex H3 H63. apply (back_bits vs_word (fun _ => None)); try done.
  intros k Hk Hkx. unfold vs_word. rewrite tb_redirect_mode by done. unfold m_only in Hkx.
  destruct (k =? 11), (k =? 12), (k =? 39), (k =? 41); rewrite ?orb_true_r in Hkx; done.
Qed.
Lemma vs_special :
  Z.testbit vs_word 11 = true /\ Z.testbit vs_word 12 = false /\
  (has_zicfilp e = true -> Z.testbit vs_word 41 = false) /\ Z.testbit vs_word 39 = true.
Proof. unfold vs_word. rewrite !tb_redirect_mode by (exact Hm || (clear; lia)). split_and!; try done. by intros ->. Qed.

Lemma hs_special :
  Z.testbit hs_word 11 = true /\ Z.testbit hs_word 12 = false /\
  (has_zicfilp e = true -> Z.testbit hs_word 41 = false) /\ Z.testbit hs_word 39 = false.
Proof. rewrite !tb_hs_word by (exact Hm || (clear; lia)). split_and!; try done. by intros ->. Qed.
End Main.

(** The registers the firmware passes on. *)
Lemma redirect_epc e c : cpu_ok e c -> epc_write (epc_read e (epc_write (c_pc c))) = epc_write (c_pc c).
Proof. intros Hc. destruct (co_pc e c Hc) as [E1 E2]. by rewrite E1, E2. Qed.

Definition no_stale_spelp (c : cpu) : Prop :=
  c_elp c = true \/ (Z.testbit (mstatus (c_m c)) 23 = false /\ Z.testbit (c_vsstatus c) 23 = false).

Section Cases.
Context (e : isa) (c : cpu) (t : trap_t).
Context (Hm : m_dte e = false) (Hh : h_dte e = false) (Hc : cpu_ok e c) (Hcause : 0 <= t_cause t < 64).

(** What sbi_trap_redirect does with the trap as it comes in. *)
Lemma redirect_result :
  let r := mstatus_read e (trap_word e c t) in
  let nv := c_v c && Z.testbit (hedeleg (c_h c)) (t_cause t) in
  let '(regs, info) := trap_enter e (trapped e c t) in
  sbi_trap_redirect e (trapped e c t) regs info =
  (0, mkRegs (Z.land (x_tvec (if nv then c_vs c else c_s c)) (not_w 64 MTVEC_MODE)) (if nv then vs_word e c t else hs_word e c t),
   mkCpu (c_pc (trapped e c t)) PRV_M false false (c_m (trapped e c t))
     (if nv then c_s c else take_x (c_s c) (t_cause t) (c_pc c) (t_tval t))
     (if has_h e && negb nv
      then mkH (hstatus_write e (hstatus (c_h c)) (take_hstatus (hstatus (c_h c)) (c_prv c) (c_v c) (t_gva t)))
             (t_tval2 t) (t_tinst t) (hedeleg (c_h c)) else c_h c)
     (if nv then vsstatus_write e (c_vsstatus c) (redirect_status (if has_zicfilp e && c_elp c then
          Z.lor (vsstatus_read e (c_vsstatus c)) (MSTATUS SPELP) else vsstatus_read e (c_vsstatus c)) (c_prv c))
      else c_vsstatus c)
     (if nv then take_x (c_vs c) (t_cause t) (c_pc c) (t_tval t) else c_vs c)).
Proof.
  cbv zeta. destruct (trapped_regs e c t Hm Hh Hc) as (Emode & Evirt & Eelp & Egva).
  pose proof (co_prv e c Hc) as Hp. pose proof (redirect_epc e c Hc) as Hepc.
  assert (has_zicfilp e && c_elp c = c_elp c) as Ez.
  { destruct (c_elp c) eqn:El; [by rewrite (co_elp e c Hc)|apply andb_false_r]. }
  unfold trap_enter. change (c_m (trapped e c t)) with (mkM (trap_word e c t)
    (take_x (m_x (c_m c)) (t_cause t) (c_pc c) (t_tval t)) (t_tval2 t) (t_tinst t) (medeleg (c_m c))).
  cbn [mstatus m_x x_epc x_cause x_tval take_x mtval2 mtinst].
  unfold sbi_trap_redirect. cbn [r_mstatus r_mepc]. unfold sbi_regs_from_virt. cbn [r_mstatus]. rewrite Emode, Evirt, Eelp, Ez.
  assert (negb (c_prv c =? PRV_S) && negb (c_prv c =? PRV_U) = false) as -> by (unfold PRV_S, PRV_U; lia).
  assert (forall i, cause (if has_h e then mkInfo (t_cause t) (t_tval t) (t_tval2 t) (t_tinst t) i
    else mkInfo (t_cause t) (t_tval t) 0 0 0) = t_cause t) as Ecause by (intros i; by destruct (has_h e)).
  assert (forall i, tval (if has_h e then mkInfo (t_cause t) (t_tval t) (t_tval2 t) (t_tinst t) i
    else mkInfo (t_cause t) (t_tval t) 0 0 0) = t_tval t) as Etval by (intros i; by destruct (has_h e)).
  rewrite Ecause, Etval, (proj2 (Z.ltb_lt (t_cause t) 64)), shl64_1, truthy_bit by lia.
  assert (has_h e && c_v c && true && Z.testbit (hedeleg (c_h (trapped e c t))) (t_cause t) =
    c_v c && Z.testbit (hedeleg (c_h c)) (t_cause t)) as ->.
  { cbn [trapped set_privilege with_m c_h]. rewrite andb_true_r. destruct (c_v c) eqn:Ev; [|by rewrite andb_false_r].
    by rewrite (co_v e c Hc). }
  cbn [trapped set_privilege with_m c_h c_s c_vs c_vsstatus c_m c_pc c_v c_elp c_prv]. unfold take_x. rewrite Hepc.
  destruct (has_h e) eqn:Eh; cbn [andb negb tval2 tinst gva].
  - rewrite Egva, hstatus_words by (done || apply Hc). by destruct (c_v c && _).
  - assert (c_v c = false) as ->; [|done]. destruct (c_v c) eqn:Ev; [|done]. pose proof (co_v e c Hc Ev). congruence.
Qed.

Lemma sd_bit : Z.testbit (mstatus (c_m c)) 63 = dirty (Z.testbit (mstatus (c_m c))).
Proof. destruct (co_mstatus e c Hc) as [_ E]. rewrite <- E at 1. by rewrite tb_adjust by lia. Qed.

(** Bit by bit, the word left is the one of the delegated trap. *)
Lemma vs_mstatus n :
  0 <= n < 64 -> m_only n = false ->
  (if n =? 63 then dirty (wnew e (trap_word e c t) (vs_word e c t)) else if n =? 3 then Z.testbit (vs_word e c t) 7
   else wnew e (trap_word e c t) (vs_word e c t) n) = Z.testbit (mstatus (c_m c)) n.
Proof.
  intros Hn Hex. destruct (Z.eqb_spec n 63) as [->|H63].
  { rewrite sd_bit. apply (dirty_same e c t Hm Hh). intros k Hk H11 H12. apply vs_back; try done; try lia. unfold m_only. lia. }
  destruct (Z.eqb_spec n 3) as [->|H3]; [|by apply vs_back].
  unfold vs_word. rewrite tb_redirect_mode by lia. cbn [Z.eqb Pos.eqb]. by apply word_special.
Qed.

Lemma hs_mstatus n :
  0 <= n < 64 -> m_only n = false -> c_elp c = true \/ Z.testbit (mstatus (c_m c)) 23 = false ->
  (if n =? 63 then dirty (wnew e (trap_word e c t) (hs_word e c t)) else if n =? 3 then Z.testbit (hs_word e c t) 7
   else wnew e (trap_word e c t) (hs_word e c t) n) =
  Z.testbit (sstatus_write e (mstatus (c_m c)) (take_status (sstatus_read e (mstatus (c_m c))) (c_prv c) (c_elp c) false)) n.
Proof.
  intros Hn Hex H23. rewrite mstatus_delegated by (done || apply Hc). destruct (Z.eqb_spec n 63) as [->|H63].
  { apply (dirty_same e c t Hm Hh). intros k Hk H11 H12. rewrite hs_back by (try done; try lia; unfold m_only; lia). unfold hs_fields.
    rewrite (proj2 (Z.eqb_neq k 1)), (proj2 (Z.eqb_neq k 5)), (proj2 (Z.eqb_neq k 8)), (proj2 (Z.eqb_neq k 23)) by lia. done. }
  destruct (Z.eqb_spec n 3) as [->|H3].
  { rewrite tb_hs_word by (done || lia). cbn. by apply word_special. }
  rewrite hs_back by done. unfold hs_fields.
  destruct (n =? 1); [done|]. destruct (n =? 5); [done|]. destruct (n =? 8); [done|].
  destruct (Z.eqb_spec n 23) as [->|]; [|done]. destruct (has_zicfilp e); cbn [andb default from_option id]; [|done].
  destruct H23 as [->| ->]; [done|apply orb_false_r].
Qed.

Lemma redirected_vs :
  c_v c && Z.testbit (hedeleg (c_h c)) (t_cause t) = true -> no_stale_spelp c ->
  let '(rc, c3) := firmware_redirects e (trapped e c t) in rc = 0 /\ same_view e c3 (take_vs e (delegating c t) t).
Proof.
  intros Env Hst. pose proof redirect_result as Hres. unfold firmware_redirects.
  destruct (trap_enter e (trapped e c t)) as [regs0 info]. cbv zeta in Hres. rewrite Env in Hres. rewrite Hres. clear Hres.
  cbn [negb]. rewrite andb_false_r. set (c2 := mkCpu _ _ _ _ _ _ _ _ _). split; [done|].
  assert (has_h e = true) as Eh by (apply (co_v e c Hc); by destruct (c_v c)).
  destruct (word_special e c t Hm Hh Hc) as (S24 & S42 & S7 & S39).
  destruct (vs_special e c t Hm) as (V11 & V12 & V41 & V39).
  destruct (leave_spec e c2 (mkRegs (Z.land (x_tvec (c_vs c)) (not_w 64 MTVEC_MODE)) (vs_word e c t)) PRV_S Hm S24 S42
    prv_s_low V11 V12 V41 eq_refl (fun H => ltac:(discriminate H))) as (Lpc & Lprv & Lv & Lelp & Ls & Lh & Lvs & Lvss & Lm).
  rewrite Eh in Lv. cbn [r_mstatus r_mepc] in Lpc, Lv, Lm.
  split.
  - rewrite Lpc, Lprv, Lv, Lelp, V39, tvec_words by apply Hc. done.
  - intros n Hn Hex. rewrite Lm by done. by apply vs_mstatus.
  - by rewrite Ls.
  - intros _. by rewrite Lh.
  - rewrite Lvs, Lvss. split; [done|]. cbn [c2 c_vsstatus take_vs set_privilege delegating with_m].
    rewrite vsstatus_words; [by rewrite Hm|apply Hc|apply Hc|apply Hc|].
    destruct Hst as [?|[_ ?]]; [by left|by right].
Qed.

Lemma redirected_hs :
  c_v c && Z.testbit (hedeleg (c_h c)) (t_cause t) = false -> no_stale_spelp c ->
  let '(rc, c3) := firmware_redirects e (trapped e c t) in rc = 0 /\ same_view e c3 (take_hs e (delegating c t) t).
Proof.
  intros Env Hst. pose proof redirect_result as Hres. unfold firmware_redirects.
  destruct (trap_enter e (trapped e c t)) as [regs0 info]. cbv zeta in Hres. rewrite Env in Hres. rewrite Hres. clear Hres.
  cbn [negb]. rewrite andb_true_r. set (c2 := mkCpu _ _ _ _ _ _ _ _ _). split; [done|].
  destruct (word_special e c t Hm Hh Hc) as (S24 & S42 & S7 & S39).
  destruct (hs_special e c t Hm Hh Hc) as (V11 & V12 & V41 & V39).
  destruct (leave_spec e c2 (mkRegs (Z.land (x_tvec (c_s c)) (not_w 64 MTVEC_MODE)) (hs_word e c t)) PRV_S Hm S24 S42
    prv_s_low V11 V12 V41 eq_refl (fun H => ltac:(discriminate H))) as (Lpc & Lprv & Lv & Lelp & Ls & Lh & Lvs & Lvss & Lm).
  cbn [r_mstatus r_mepc] in Lpc, Lv, Lm. rewrite V39 in Lv.
  change (mstatus (c_m c2)) with (trap_word e c t) in Lv.
  assert (c_v (trap_leave e c2 (mkRegs (Z.land (x_tvec (c_s c)) (not_w 64 MTVEC_MODE)) (hs_word e c t))) = false) as Lv0.
  { rewrite Lv. destruct (has_h e) eqn:Eh; [done|by apply S39]. }
  split.
  - rewrite Lpc, Lprv, Lv0, Lelp, tvec_words by apply Hc. done.
  - intros n Hn Hex. rewrite Lm by done.
    cbn [take_hs set_privilege delegating with_m c_m mstatus c_prv c_elp]. rewrite Hm. apply hs_mstatus; [done|done|].
    destruct Hst as [?|[? _]]; [by left|by right].
  - by rewrite Ls.
  - intros Eh. rewrite Lh. cbn [c2 c_h take_hs set_privilege delegating with_m c_prv c_v]. by rewrite Eh.
  - by rewrite Lvs, Lvss.
Qed.
End Cases.

(** C4: passing a trap on is as good as delegating it.  A hart in a lower
    mode takes an exception to machine mode, the firmware redirects it and
    returns.  What the supervisor and its guests can see of the hart is then
    the same as if the exception had been delegated to them in medeleg: the
    mode, the program counter, the exception registers, hstatus, and every
    field of the status registers that is not machine mode's own.  Double traps
    are off, and no landing pad flag is left over from an earlier trap. *)
Theorem redirect_is_delegation e c t :
  m_dte e = false -> h_dte e = false -> cpu_ok e c -> 0 <= t_cause t < 64 ->
  Z.testbit (medeleg (c_m c)) (t_cause t) = false -> no_stale_spelp c ->
  exists c1 c2, take_trap e c t = Some c1 /\ take_trap e (delegating c t) t = Some c2 /\
    let '(rc, c3) := firmware_redirects e c1 in rc = 0 /\ same_view e c3 c2.
Proof.
  intros Hm Hh Hc Hcause Hd Hst. exists (trapped e c t).
  rewrite (take_trap_m e c t Hm Hh Hc Hcause Hd), (take_trap_delegated e c t Hm Hh Hc Hcause).
  destruct (c_v c && Z.testbit (hedeleg (c_h c)) (t_cause t)) eqn:Env; (eexists; split; [done|split; [done|]]).
  - by apply redirected_vs.
  - by apply redirected_hs.
Qed.

(** A hart with a guest in user mode, whose page faults go to the guest's
    supervisor. *)
Definition isa_example : isa :=
  mkIsa true true true false true true false true true false false 0x7003c0 (fun _ _ => true).

Definition cpu_example (mst vsst : Z) : cpu :=
  mkCpu 0x10004 PRV_U true false
    (mkM mst (mkX 0x80000000 0 0 0) 0 0 0) (mkX 0x80200100 0 0 0) (mkH 0x200000000 0 0 0x2000) vsst (mkX 0x400001 0 0 0).

Definition fault_example (cause : Z) : trap_t := mkTrap cause 0x7ff8 0 0 true.

Lemma cpu_example_ok mst vsst :
  in_range 64 mst -> in_range 64 vsst -> adjust_sd mst = mst -> Z.testbit mst 24 = false -> Z.testbit mst 42 = false ->
  cpu_ok isa_example (cpu_example mst vsst).
Proof.
  intros H1 H2 H3 H4 H5. split; cbn [cpu_example c_prv c_v c_elp c_pc c_m mstatus c_vsstatus c_h hstatus c_s x_tvec c_vs];
    try done; unfold in_range, PRV_U; lia.
Qed.

Lemma redirect_is_delegation_witness :
  exists c1 c2, take_trap isa_example (cpu_example 0xa00000002 0x200000102) (fault_example 13) = Some c1 /\
    take_trap isa_example (delegating (cpu_example 0xa00000002 0x200000102) (fault_example 13)) (fault_example 13) = Some c2 /\
    let '(rc, c3) := firmware_redirects isa_example c1 in rc = 0 /\ same_view isa_example c3 c2.
Proof.
  apply (redirect_is_delegation isa_example (cpu_example 0xa00000002 0x200000102) (fault_example 13));
    [done|done| |cbn; lia|done|right; split; vm_compute; reflexivity].
  apply cpu_example_ok; unfold in_range; try lia; vm_compute; reflexivity.
Defined.

(** The redirection can leave the landing pad flag of an earlier trap.
    The hardware stores in SPELP whether the trapped code expected a landing
    pad, 0 or 1; the firmware only sets it.  With SPELP still 1 from before, a
    trap of code that expects none leaves it 1, and the supervisor's sret makes
    that code fault; delegation would have cleared it. *)
Theorem redirect_keeps_spelp :
  exists e c t c1 c2, m_dte e = false /\ h_dte e = false /\ cpu_ok e c /\ 0 <= t_cause t < 64 /\ c_elp c = false /\
    take_trap e c t = Some c1 /\ take_trap e (delegating c t) t = Some c2 /\
    (firmware_redirects e c1).1 = 0 /\
    Z.testbit (sstatus_read e (mstatus (c_m (firmware_redirects e c1).2))) 23 = true /\
    Z.testbit (sstatus_read e (mstatus (c_m c2))) 23 = false.
Proof.
  exists isa_example, (cpu_example 0xa00800000 0x200000000), (fault_example 12).
  eexists _, _. split; [done|]. split; [done|]. split.
  { apply cpu_example_ok; unfold in_range; try lia; vm_compute; reflexivity. }
  split; [cbn; lia|]. split; [done|]. split; [vm_compute; reflexivity|]. split; [vm_compute; reflexivity|].
  split_and!; vm_compute; reflexivity.
Qed.
