(* ===== verification/Resume.v ===== *)
(** * Resuming after a trap
    (the exit of firmware/fw_base.S, with the trap unit of Spike)

    What the other code of the hart sees of a trap that the firmware has handled.
    [resume_spec]: if the firmware emulates the instruction and returns behind it,
    the hart is as if it had executed the instruction itself; [resume_fp_spec] is
    the same for an instruction that writes a floating point register.
    [redirect_as]: if the firmware meets another trap while it emulates the
    instruction and passes that one on, the hart is as if the other trap had been
    delegated in the first place. *)

From S2P Require Import Prelude Bitops Pmp Trap.
Local Open Scope Z_scope.

Definition with_pc (c : cpu) (pc : Z) : cpu :=
  mkCpu pc (c_prv c) (c_v c) (c_elp c) (c_m c) (c_s c) (c_h c) (c_vsstatus c) (c_vs c).

(** sstatus_csr_t::dirty for the floating point state. *)
Definition dirty_fp (e : isa) (c : cpu) : cpu :=
  let s := sstatus_read e (mstatus (c_m c)) in
  let vs := vsstatus_read e (c_vsstatus c) in
  if (Z.land s (MSTATUS FS) =? MSTATUS FS) && (negb (c_v c) || (Z.land vs (MSTATUS FS) =? MSTATUS FS)) then c
  else
    let c := with_mstatus c (sstatus_write e (mstatus (c_m c)) (Z.lor s (MSTATUS FS))) in
    mkCpu (c_pc c) (c_prv c) (c_v c) (c_elp c) (c_m c) (c_s c) (c_h c)
      (if c_v c then vsstatus_write e (c_vsstatus c) (Z.lor vs (MSTATUS FS)) else c_vsstatus c) (c_vs c).


(** A floating point register has been set by the firmware: fmv in machine mode,
    then SET_FS_DIRTY. *)
Definition fp_written (e : isa) (c : cpu) (virt : bool) : cpu :=
  let c := dirty_fp e c in
  if virt then mkCpu (c_pc c) (c_prv c) (c_v c) (c_elp c) (c_m c) (c_s c) (c_h c)
                 (vsstatus_write e (c_vsstatus c) (Z.lor (vsstatus_read e (c_vsstatus c)) (MSTATUS FS))) (c_vs c)
  else c.

(** ** Passing on another trap *)

(** How the firmware describes a trap of its own accesses: __sbi_expected_trap and
    __sbi_expected_trap_hext. *)
Definition expected_trap (e : isa) (t : trap_t) : sbi_trap_info :=
  if has_h e then mkInfo (t_cause t) (t_tval t) (t_tval2 t) (t_tinst t) (Z.b2z (t_gva t))
  else mkInfo (t_cause t) (t_tval t) 0 0 0.

Lemma redirect_with_m e c m regs info :
  sbi_trap_redirect e (with_m c m) regs info =
  let '(rc, regs', c') := sbi_trap_redirect e c regs info in (rc, regs', with_m c' m).
Proof.
  unfold sbi_trap_redirect. cbv zeta. cbn [with_m c_h c_vs c_s c_vsstatus c_m c_pc c_prv c_v c_elp].
  destruct (negb (_ =? PRV_S) && _); [done|].
  destruct (has_h e && _ && _ && _); [|done]. done.
Qed.

Lemma leave_with_m e c m regs c2 :
  mstatus m = mstatus (c_m c) -> same_view e (trap_leave e c regs) c2 -> same_view e (trap_leave e (with_m c m) regs) c2.
Proof.
  intros E [V1 V2 V3 V4 V5]. unfold trap_leave, mret in *.
  cbn [with_m c_m mstatus m_x x_epc c_pc c_prv c_v c_elp c_s c_h c_vs c_vsstatus set_privilege] in *. rewrite E.
  split; [exact V1|exact V2|exact V3|exact V4|exact V5].
Qed.

(** ** The status word of a guest *)

(** What the hardware keeps of it: SD is computed, and SDT is off. *)
Definition vs_legal (vs : Z) : Prop := in_range 64 vs /\ adjust_sd vs = vs /\ Z.testbit vs 24 = false.

Definition fs_bit (n : Z) : bool := (n =? 13) || (n =? 14).

Lemma tb_fs n : 0 <= n -> Z.testbit (MSTATUS FS) n = fs_bit n.
Proof.
  intros Hn. change (MSTATUS FS) with (Z.lor (2 ^ 13) (2 ^ 14)). by rewrite Z.lor_spec, !tb_pow2 by lia.
Qed.

Lemma set_fs_range e vs : in_range 64 vs -> in_range 64 (Z.lor (vsstatus_read e vs) (MSTATUS FS)).
Proof.
  intros Hvs. apply lor_range; [lia| |unfold in_range; cbn; lia]. unfold vsstatus_read. by apply land_range.
Qed.

Section Guest.
Context (e : isa) (Hm : m_dte e = false) (Hh : h_dte e = false).

Lemma tb_vswrite old v n :
  0 <= n < 64 -> Z.testbit old 24 = false ->
  let w k := if sm e k then Z.testbit v k else Z.testbit old k in
  Z.testbit (vsstatus_write e old v) n = if n =? 63 then dirty w else w n.
Proof.
  intros Hn H24 w. unfold vsstatus_write. rewrite tb_adjust, Hh by done. unfold dirty.
  by rewrite !tb_status_word by (done || (clear; lia)).
Qed.

Lemma tb_vsread vs n : 0 <= n < 64 -> sm e n = true -> Z.testbit (vsstatus_read e vs) n = Z.testbit vs n.
Proof. intros Hn Hs. unfold vsstatus_read. by rewrite Z.land_spec, Hh, sm_readable, andb_true_r. Qed.

Lemma adjust_range v : in_range 64 v -> in_range 64 (adjust_sd v).
Proof.
  intros Hv. unfold adjust_sd. case_bool; [|by apply land_range]. apply lor_range; [lia|done|]. unfold in_range. cbn. lia.
Qed.

Lemma vs_range old v : in_range 64 old -> in_range 64 v -> in_range 64 (vsstatus_write e old v).
Proof.
  intros Ho Hv. assert (in_range 64 (masked_write (adj_mask (sstatus_write_mask e) (h_dte e)) old v)) as Hw.
  { unfold masked_write. apply lor_range; [lia| |]; by apply land_range. }
  apply adjust_range. unfold clear_if. case_bool; [by apply land_range|done].
Qed.

(** Writing what is there already changes nothing. *)
Lemma vs_stable vs v :
  vs_legal vs -> in_range 64 v -> (forall n, 0 <= n < 64 -> sm e n = true -> Z.testbit v n = Z.testbit vs n) ->
  vsstatus_write e vs v = vs.
Proof.
  intros (Hr & Ha & H24) Hvr Hv. apply (word_eq_bits 64); [lia|by apply vs_range|done|]. intros n Hn.
  rewrite tb_vswrite by done. cbv zeta.
  assert (forall k, 0 <= k < 64 -> (if sm e k then Z.testbit v k else Z.testbit vs k) = Z.testbit vs k) as Hk.
  { intros k Hk. destruct (sm e k) eqn:Es; [by apply Hv|done]. }
  destruct (Z.eqb_spec n 63) as [->|]; [|by apply Hk]. unfold dirty. rewrite !Hk by lia.
  rewrite <- Ha at 7. by rewrite tb_adjust.
Qed.

Lemma vs_mret vs : vs_legal vs -> vsstatus_write e vs (Z.land (vsstatus_read e vs) (not_w 64 (MSTATUS SDT))) = vs.
Proof.
  intros Hvs. apply vs_stable; [done| |].
  - unfold vsstatus_read. do 2 (apply land_range; [lia|]). apply Hvs.
  - intros n Hn Hs. change (MSTATUS SDT) with (2 ^ 24).
    rewrite tb_land_not, tb_vsread by (done || lia). destruct (Z.eqb_spec n 24) as [->|]; [|apply andb_true_r].
    destruct Hvs as (_ & _ & ->). done.
Qed.

Lemma vs_write_legal old v : in_range 64 v -> vs_legal old -> vs_legal (vsstatus_write e old v).
Proof.
  intros Hv (Hr & Ha & H24). split_and!.
  - by apply vs_range.
  - apply (word_eq_bits 64); [lia|apply adjust_range; by apply vs_range|by apply vs_range|].
    intros n Hn. unfold vsstatus_write. rewrite !tb_adjust by done. destruct (n =? 63); [|done].
    unfold dirty. by rewrite !tb_adjust by lia.
  - rewrite tb_vswrite by (done || lia). cbv zeta. cbn [Z.eqb Pos.eqb].
    destruct (sm_facts e Hm) as (_ & _ & _ & _ & -> & _). done.
Qed.

(** Setting a field that is set. *)
Lemma vs_set_again vs f :
  vs_legal vs -> in_range 64 f -> Z.land (vsstatus_read e vs) f = f ->
  vsstatus_write e vs (Z.lor (vsstatus_read e vs) f) = vs.
Proof.
  intros Hvs Hf Ef. assert (in_range 64 (vsstatus_read e vs)) as Hr by (unfold vsstatus_read; apply land_range; [lia|apply Hvs]).
  apply vs_stable; [done|by apply lor_range|]. intros n Hn Hs. rewrite Z.lor_spec, tb_vsread by done.
  rewrite <- Ef, Z.land_spec, tb_vsread by done. by destruct (Z.testbit vs n), (Z.testbit f n).
Qed.

(** ** Dirty floating point state *)

Context (Hfs : has_fs e = true).

(** Bit 12 is part of MPP, bits 3 and 42 are MIE and MDT. *)
Lemma dirty_word mm n :
  Z.testbit mm 24 = false -> Z.testbit mm 42 = false \/ Z.testbit mm 3 = false -> 0 <= n < 64 -> n <> 12 \/ Z.testbit mm 12 = false ->
  Z.testbit (sstatus_write e mm (Z.lor (sstatus_read e mm) (MSTATUS FS))) n =
  if n =? 63 then dirty (fun k => Z.testbit mm k || fs_bit k) else Z.testbit mm n || fs_bit n.
Proof.
  intros H24 H3 Hn H12. unfold sstatus_write. rewrite Hm. set (w := clear_if _ _ _).
  destruct (fs_facts e Hm) as (S13 & S14 & W13 & W14). rewrite Hfs in S13, S14, W13, W14.
  assert (forall k, 0 <= k < 64 -> Z.testbit w k = if sm e k then Z.testbit mm k || fs_bit k else Z.testbit mm k && negb (k =? 24)) as Hv.
  { intros k Hk. unfold w. rewrite tb_status_word by (done || (rewrite tb_mread by (done || (clear; lia)); by rewrite H24)).
    destruct (sm e k) eqn:Es; [|by rewrite tb_mread]. rewrite Z.lor_spec, tb_fs by (clear - Hk; lia). f_equal.
    unfold sstatus_read. rewrite Hm, Z.land_spec, sm_readable, tb_mread, andb_true_r by done.
    destruct (Z.eqb_spec k 24) as [->|]; [by rewrite H24|apply andb_true_r]. }
  assert (forall k, 0 <= k < 64 -> k <> 12 \/ Z.testbit mm 12 = false -> wnew e mm w k = Z.testbit mm k || fs_bit k) as Hw.
  { intros k Hk Hk12. unfold wnew. destruct (Z.eqb_spec k 12) as [->|_].
    { destruct Hk12 as [|E12]; [done|]. rewrite (Hv 12), E12 by (clear; lia). by destruct (wm e 12), (sm e 12). }
    rewrite Hv by done.
    destruct (fs_bit k) eqn:Ef.
    - assert (k = 13 \/ k = 14) as [-> | ->] by (unfold fs_bit in Ef; clear - Ef; lia); [by rewrite W13, S13|by rewrite W14, S14].
    - rewrite orb_false_r. destruct (wm e k); [|done]. destruct (sm e k); [done|].
      destruct (Z.eqb_spec k 24) as [->|]; [by rewrite H24|apply andb_true_r]. }
  rewrite tb_mwrite by done. unfold dirty. rewrite !(Hw _) by (done || (left; clear; lia) || (clear; lia)).
  destruct (n =? 63); [done|]. change (fs_bit 42) with false. rewrite orb_false_r.
  destruct (Z.eqb_spec n 3) as [->|]; cbn [andb negb]; [|apply andb_true_r].
  destruct H3 as [-> | ->]; [apply andb_true_r|done].
Qed.

Lemma dirty_fp_bits x n :
  let mm := mstatus (c_m x) in
  Z.testbit mm 24 = false -> Z.testbit mm 42 = false \/ Z.testbit mm 3 = false -> 0 <= n < 63 -> n <> 12 \/ Z.testbit mm 12 = false ->
  Z.testbit (mstatus (c_m (dirty_fp e x))) n = Z.testbit mm n || fs_bit n.
Proof.
  intros mm H24 H3 Hn H12. unfold dirty_fp. cbv zeta. fold mm. destruct ((_ =? MSTATUS FS) && _) eqn:E.
  - apply andb_prop in E. destruct E as [E _]. apply Z.eqb_eq in E. fold mm. destruct (fs_bit n) eqn:Ef; [|by rewrite orb_false_r].
    rewrite orb_true_r. rewrite <- tb_fs in Ef by lia. rewrite <- E, Z.land_spec in Ef. apply andb_prop in Ef. destruct Ef as [Ef _].
    unfold sstatus_read in Ef. rewrite Z.land_spec in Ef. apply andb_prop in Ef. destruct Ef as [Ef _].
    rewrite tb_mread in Ef by (done || lia). apply andb_prop in Ef. apply Ef.
  - cbn [with_mstatus with_m c_m mstatus]. rewrite dirty_word by (done || lia).
    by rewrite (proj2 (Z.eqb_neq n 63)) by lia.
Qed.

(** The word after a floating point instruction of the hart. *)
Lemma dirty_fp_word x pc' n :
  cpu_ok e x -> 0 <= n < 64 -> n <> 12 ->
  let mm := mstatus (c_m x) in
  Z.testbit (mstatus (c_m (dirty_fp e (with_pc x pc')))) n =
  if n =? 63 then dirty (fun k => Z.testbit mm k || fs_bit k) else Z.testbit mm n || fs_bit n.
Proof.
  intros Hx Hn H12 mm. destruct (Z.eqb_spec n 63) as [->|H63].
  - unfold dirty_fp. cbv zeta. cbn [with_pc c_m c_v c_vsstatus]. fold mm. destruct ((_ =? MSTATUS FS) && _) eqn:E.
    + apply andb_prop in E. destruct E as [E _]. apply Z.eqb_eq in E. transitivity (Z.testbit (mstatus (c_m x)) 63); [done|]. rewrite (sd_bit e x Hm Hh Hx).
      assert (forall k, 0 <= k < 64 -> fs_bit k = true -> Z.testbit (sstatus_read e mm) k = true) as Hs.
      { intros k Hk Hf. rewrite <- tb_fs in Hf by (clear - Hk; lia). rewrite <- E, Z.land_spec in Hf. apply andb_prop in Hf. apply Hf. }
      assert (forall k, 0 <= k < 64 -> fs_bit k = true -> Z.testbit mm k = true) as Hb.
      { intros k Hk Hf. specialize (Hs k Hk Hf). unfold sstatus_read in Hs. rewrite Z.land_spec, tb_mread in Hs by done.
        apply andb_prop in Hs. destruct Hs as [Hs _]. apply andb_prop in Hs. apply Hs. }
      fold mm. unfold dirty. rewrite (Hb 13), (Hb 14) by done. done.
    + cbn [with_mstatus with_m c_m mstatus]. rewrite dirty_word; try done; [apply (co_sdt e x Hx)|left; apply (co_mdt e x Hx)|by left].
  - apply dirty_fp_bits; cbn [with_pc c_m]; [apply (co_sdt e x Hx)|left; apply (co_mdt e x Hx)|clear - Hn H63; lia|by left].
Qed.
End Guest.

Section Resume.
Context (e : isa) (c : cpu).
Context (Hm : m_dte e = false) (Hh : h_dte e = false) (Hc : cpu_ok e c).

Lemma enter_trapped t :
  trap_enter e (trapped e c t) = (mkRegs (c_pc c) (mstatus_read e (trap_word e c t)), expected_trap e t).
Proof.
  destruct (trapped_regs e c t Hm Hh Hc) as (_ & _ & _ & Egva). destruct (co_pc e c Hc) as [E1 E2].
  unfold trap_enter, expected_trap. cbn [trapped set_privilege with_m c_m mstatus m_x x_epc x_cause x_tval mtval2 mtinst take_x].
  rewrite E1, E2. destruct (has_h e); [by rewrite Egva|done].
Qed.

Lemma redirect_as t0 t :
  t_gva t0 = t_gva t -> 0 <= t_cause t < 64 -> no_stale_spelp c ->
  exists c2, take_trap e (delegating c t) t = Some c2 /\
    let '(rc, regs, c1) := sbi_trap_redirect e (trapped e c t0) (mkRegs (c_pc c) (mstatus_read e (trap_word e c t0))) (expected_trap e t) in
    rc = 0 /\ same_view e (trap_leave e c1 regs) c2.
Proof.
  intros Eg Hcause Hst.
  assert (trap_word e c t0 = trap_word e c t) as Ew by (unfold trap_word; by rewrite Eg).
  assert (trapped e c t0 = with_m (trapped e c t) (c_m (trapped e c t0))) as Et by (unfold trapped; by rewrite Ew).
  assert (mstatus (c_m (trapped e c t0)) = mstatus (c_m (trapped e c t))) as Es by exact Ew.
  rewrite Ew, Et, redirect_with_m. clear Et Ew. pose proof (enter_trapped t) as Een.
  rewrite (take_trap_delegated e c t Hm Hh Hc Hcause). eexists. split; [done|].
  assert (exists rc regs c1, sbi_trap_redirect e (trapped e c t) (mkRegs (c_pc c) (mstatus_read e (trap_word e c t))) (expected_trap e t) =
    (rc, regs, c1) /\ c_m c1 = c_m (trapped e c t)) as (rc & regs & c1 & Er & Em).
  { pose proof (redirect_result e c t Hm Hh Hc Hcause) as Hr. rewrite Een in Hr. cbv zeta in Hr. rewrite Hr. eauto. }
  assert (rc = 0 /\ same_view e (trap_leave e c1 regs)
    (if c_v c && Z.testbit (hedeleg (c_h c)) (t_cause t) then take_vs e (delegating c t) t else take_hs e (delegating c t) t)) as [E0 V].
  { destruct (c_v c && Z.testbit (hedeleg (c_h c)) (t_cause t)) eqn:Env.
    - pose proof (redirected_vs e c t Hm Hh Hc Hcause Env Hst) as H. unfold firmware_redirects in H. by rewrite Een, Er in H.
    - pose proof (redirected_hs e c t Hm Hh Hc Hcause Env Hst) as H. unfold firmware_redirects in H. by rewrite Een, Er in H. }
  rewrite Er. split; [done|]. apply leave_with_m; [|done]. by rewrite Em.
Qed.

(** ** Returning *)

Context (Hel : c_elp c = false).
Let m := mstatus (c_m c).

(** The word the firmware reads, in the fields that say where to return to. *)
Lemma return_fields t :
  let r := mstatus_read e (trap_word e c t) in
  Z.testbit r 11 = (c_prv c =? 1) /\ Z.testbit r 12 = false /\ (has_zicfilp e = true -> Z.testbit r 41 = false) /\
  (has_h e = true -> Z.testbit r 39 = c_v c).
Proof.
  cbv zeta. pose proof (fun n Hn => mstatus_after_trap e Hm m (c_prv c) (c_v c) (t_gva t) (c_elp c) n (co_prv e c Hc) Hn
    (co_sdt e c Hc) (co_mdt e c Hc)) as Hb. change (mstatus_write e m _) with (trap_word e c t) in Hb.
  rewrite !tb_mread by (done || (clear; lia)). rewrite !Hb by (clear; lia). cbn [Z.eqb Pos.eqb negb]. rewrite !andb_true_r.
  split_and!; [done|done| |]; intros ->; done.
Qed.

(** The words [mm] in mstatus and [r] to be written are those of the trap, with
    the floating point state dirty if [fp]; [vss] is stable under mret. *)
Lemma resume_bits t fp mm r vss c1 pc' :
  (forall k, 0 <= k < 63 -> Z.testbit mm k = Z.testbit (trap_word e c t) k || (fp && fs_bit k)) ->
  (forall k, 0 <= k < 63 -> Z.testbit r k = Z.testbit (mstatus_read e (trap_word e c t)) k || (fp && fs_bit k)) ->
  vsstatus_write e vss (Z.land (vsstatus_read e vss) (not_w 64 (MSTATUS SDT))) = vss ->
  mstatus (c_m c1) = mm -> c_vsstatus c1 = vss -> c_elp c1 = false ->
  let c' := trap_leave e c1 (mkRegs pc' r) in
  (c_pc c' = epc_read e (epc_write pc') /\ c_prv c' = c_prv c /\ c_v c' = c_v c /\ c_elp c' = false /\
   c_s c' = c_s c1 /\ c_h c' = c_h c1 /\ c_vs c' = c_vs c1 /\ c_vsstatus c' = vss) /\
  forall n, 0 <= n < 64 -> m_only n = false ->
   Z.testbit (mstatus (c_m c')) n =
   if n =? 63 then dirty (fun k => Z.testbit m k || (fp && fs_bit k)) else Z.testbit m n || (fp && fs_bit n).
Proof.
  intros Hmm Hr Hvs Em Ev Ee. destruct (word_special e c t Hm Hh Hc) as (S24 & S42 & S7 & S39).
  destruct (return_fields t) as (R11 & R12 & R41 & R39).
  assert (forall k, 0 <= k < 63 -> fs_bit k = false -> Z.testbit mm k = Z.testbit (trap_word e c t) k) as Hmm'.
  { clear - Hmm. intros k Hk Hf. by rewrite Hmm, Hf, andb_false_r, orb_false_r. }
  assert (forall k, 0 <= k < 63 -> fs_bit k = false -> Z.testbit r k = Z.testbit (mstatus_read e (trap_word e c t)) k) as Hr'.
  { clear - Hr. intros k Hk Hf. by rewrite Hr, Hf, andb_false_r, orb_false_r. }
  destruct (leave_spec e c1 (mkRegs pc' r) (c_prv c)) as (Lpc & Lprv & Lv & Lelp & Ls & Lh & Lvs & Lvss & Lm).
  { exact Hm. } { rewrite Em, Hmm' by done. exact S24. } { intros Es. rewrite Em, Hmm' by done. by apply S42. }
  { apply (co_prv e c Hc). } { cbn [r_mstatus]. rewrite Hr' by done. exact R11. } { cbn [r_mstatus]. rewrite Hr' by done. exact R12. }
  { intros Ez. cbn [r_mstatus]. rewrite Hr' by done. by apply R41. } { exact Ee. } { intros _ _. by rewrite Ev. }
  assert ((if has_h e then Z.testbit r 39 else Z.testbit mm 39) = c_v c) as Ecv.
  { rewrite Hr', Hmm' by done. destruct (has_h e) eqn:Eh; [by apply R39|]. rewrite S39 by done.
    destruct (c_v c) eqn:Ecv; [|done]. pose proof (co_v e c Hc Ecv). congruence. }
  split.
  - cbn [r_mstatus] in Lv. rewrite Em, Ecv in Lv. rewrite Ev in Lvss. by split_and!.
  - intros n Hn Hex. rewrite Lm by done. rewrite Em. cbn [r_mstatus]. clear Lpc Lprv Lv Lelp Ls Lh Lvs Lvss Lm.
    assert (forall k, 0 <= k < 63 -> m_only k = false -> k <> 3 -> wnew e mm r k = Z.testbit m k || (fp && fs_bit k)) as Hw.
    { intros k Hk Hkx Hk3. unfold wnew. rewrite (Hmm k), (Hr k) by done. assert ((k =? 12) = false) as ->.
      { destruct (Z.eqb_spec k 12); [by subst k|done]. }
      destruct (decide (k = 24)) as [->|H24].
      - destruct (wm_facts e Hm) as (_ & _ & _ & _ & -> & _). rewrite S24. f_equal. symmetry. apply (co_sdt e c Hc).
      - assert (Z.testbit (mstatus_read e (trap_word e c t)) k = Z.testbit m k /\
          Z.testbit (trap_word e c t) k = Z.testbit m k) as [E1 E2].
        { apply word_bits; try done; clear - Hk; lia. }
        rewrite E1, E2. fold m. by destruct (wm e k). }
    destruct (Z.eqb_spec n 63) as [->|H63]; [unfold dirty; by rewrite !Hw by done|].
    destruct (Z.eqb_spec n 3) as [->|H3].
    + rewrite Hr', S7 by done. unfold fs_bit. cbn [Z.eqb Pos.eqb orb]. by rewrite andb_false_r, orb_false_r.
    + apply Hw; [clear - Hn H63; lia|done|done].
Qed.

(** The instruction has been emulated. *)
Lemma resume_spec t pc' :
  vs_legal (c_vsstatus c) -> epc_read e (epc_write pc') = pc' ->
  same_view e (trap_leave e (trapped e c t) (mkRegs pc' (mstatus_read e (trap_word e c t)))) (with_pc c pc').
Proof.
  intros Hvs Hpc.
  destruct (resume_bits t false (trap_word e c t) (mstatus_read e (trap_word e c t)) (c_vsstatus c) (trapped e c t) pc')
    as ((Lpc & Lprv & Lv & Lelp & Ls & Lh & Lvs & Lvss) & Lm); try done.
  { intros k _. by rewrite orb_false_r. } { intros k _. by rewrite orb_false_r. } { by apply vs_mret. }
  split; [rewrite Lpc, Hpc, Lprv, Lv, Lelp; cbn [with_pc c_pc c_prv c_v c_elp]; by rewrite Hel| |by rewrite Ls|by rewrite Lh|by rewrite Lvs, Lvss].
  intros n Hn Hex. rewrite Lm by done. cbn [with_pc c_m andb]. rewrite orb_false_r.
  destruct (Z.eqb_spec n 63) as [->|]; [|done]. rewrite (sd_bit e c Hm Hh Hc). unfold dirty. by rewrite !orb_false_r.
Qed.

Lemma dirty_fp_keeps x :
  let y := dirty_fp e x in
  c_pc y = c_pc x /\ c_prv y = c_prv x /\ c_v y = c_v x /\ c_elp y = c_elp x /\ c_s y = c_s x /\ c_h y = c_h x /\ c_vs y = c_vs x /\
  (c_v x = false -> c_vsstatus y = c_vsstatus x).
Proof.
  cbv zeta. unfold dirty_fp. cbv zeta. destruct (_ && _); split_and!; try done. destruct x. cbn. by intros ->.
Qed.

Lemma dirty_fp_vs x :
  c_v x = true -> vs_legal (c_vsstatus x) ->
  c_vsstatus (dirty_fp e x) = vsstatus_write e (c_vsstatus x) (Z.lor (vsstatus_read e (c_vsstatus x)) (MSTATUS FS)).
Proof.
  intros Hv Hvs. unfold dirty_fp. cbv zeta. rewrite Hv. cbn [negb orb].
  destruct (_ && _) eqn:E; [|destruct x; cbn in Hv |- *; by rewrite Hv]. apply andb_prop in E. destruct E as [_ E]. apply Z.eqb_eq in E.
  symmetry. apply vs_set_again; try done.
Qed.

Lemma resume_fp_spec t pc' :
  has_fs e = true -> vs_legal (c_vsstatus c) -> epc_read e (epc_write pc') = pc' ->
  same_view e (trap_leave e (fp_written e (trapped e c t) (c_v c)) (mkRegs pc' (Z.lor (mstatus_read e (trap_word e c t)) (MSTATUS FS))))
    (dirty_fp e (with_pc c pc')).
Proof.
  intros Hfs Hvs Hpc. set (x1 := dirty_fp e (trapped e c t)).
  destruct (dirty_fp_keeps (trapped e c t)) as (_ & _ & _ & K4 & K5 & K6 & K7 & K8). fold x1 in K4, K5, K6, K7, K8.
  specialize (K8 eq_refl).
  destruct (dirty_fp_keeps (with_pc c pc')) as (J1 & J2 & J3 & J4 & J5 & J6 & J7 & J8).
  destruct (word_special e c t Hm Hh Hc) as (S24 & _ & _ & _).
  set (vss := c_vsstatus (dirty_fp e (with_pc c pc'))).
  assert (vs_legal vss /\ c_vsstatus (fp_written e (trapped e c t) (c_v c)) = vss) as [Hl Ev].
  { unfold fp_written, vss. cbv zeta. fold x1. destruct (c_v c) eqn:Ecv.
    - rewrite dirty_fp_vs by (done || by cbn). cbn [c_vsstatus]. rewrite K8. split; [|done].
      apply vs_write_legal; try done. apply set_fs_range, Hvs.
    - rewrite J8 by done. by rewrite K8. }
  assert (forall k, 0 <= k < 63 -> Z.testbit (mstatus (c_m x1)) k = Z.testbit (trap_word e c t) k || fs_bit k) as Hx.
  { assert (Z.testbit (trap_word e c t) 3 = false /\ Z.testbit (trap_word e c t) 12 = false) as [S3 S12].
    { unfold trap_word. rewrite !mstatus_after_trap by (done || apply Hc || (clear; lia)). done. }
    intros k Hk. refine (dirty_fp_bits e _ _ _ (trapped e c t) k _ _ _ _); try done; by right. }
  destruct (resume_bits t true (mstatus (c_m x1)) (Z.lor (mstatus_read e (trap_word e c t)) (MSTATUS FS)) vss
    (fp_written e (trapped e c t) (c_v c)) pc') as ((Lpc & Lprv & Lv & Lelp & Ls & Lh & Lvs & Lvss) & Lm).
  { intros k Hk. cbn [andb]. by apply Hx. }
  { intros k Hk. rewrite Z.lor_spec, tb_fs by (clear - Hk; lia). done. }
  { by apply vs_mret. }
  { unfold fp_written. by destruct (c_v c). } { done. } { unfold fp_written. by destruct (c_v c). }
  assert (forall y, c_s (fp_written e (trapped e c t) y) = c_s c /\ c_h (fp_written e (trapped e c t) y) = c_h c /\
    c_vs (fp_written e (trapped e c t) y) = c_vs c) as Hk by (intros []; done).
  destruct (Hk (c_v c)) as (F1 & F2 & F3). rewrite F1 in Ls. rewrite F2 in Lh. rewrite F3 in Lvs.
  split; [rewrite Lpc, Hpc, Lprv, Lv, Lelp, J1, J2, J3, J4; cbn [with_pc c_pc c_prv c_v c_elp]; by rewrite Hel| | | |].
  - intros n Hn Hex. rewrite Lm by done. cbn [andb]. symmetry. apply dirty_fp_word; try done.
    intros ->. done.
  - by rewrite Ls, J5.
  - intros _. by rewrite Lh, J6.
  - rewrite Lvs, J7, Lvss. done.
Qed.
End Resume.
