(* ===== verification/Insn.v ===== *)
(** * Load and store instructions
    (include/sbi/riscv_encoding.h, the decoding part of lib/sbi/sbi_trap_ldst.c,
    and the instructions of Spike)

    The firmware emulates loads and stores the hart cannot do.  It finds out
    with masks what an instruction loads or stores: [load_decode] and
    [store_decode] are the chains of tests of sbi_trap_emulate_load and
    sbi_trap_emulate_store, with the macros of riscv_encoding.h.  The meaning of
    the instructions is that of Spike (riscv/insns), with the fields of its
    insn_t.  [load_decode_correct] and [store_decode_correct] show that the two
    agree for every instruction word.  The compiler has the F and D extensions
    (__riscv_flen is 64). *)

From S2P Require Import Prelude Bitops.
Local Open Scope Z_scope.

Inductive insn_id : Type :=
| LB | LH | LW | LD | LBU | LHU | LWU | SB | SH | SW | SD | FLW | FLD | FSW | FSD
| C_LD | C_SD | C_LW | C_SW | C_LDSP | C_SDSP | C_LWSP | C_SWSP
| C_FLD | C_FLW | C_FSD | C_FSW | C_FLDSP | C_FSDSP | C_FLWSP | C_FSWSP
| C_LBU | C_SB | C_LHU | C_LH | C_SH.

#[export] Instance insn_id_eq_dec : EqDecision insn_id.
Proof. solve_decision. Defined.

(** ** The macros of the firmware *)

(** INSN_MASK_LB and INSN_MATCH_LB, and the others. *)
Definition INSN (i : insn_id) : Z * Z :=
  match i with
  | LB => (0x707f, 0x3) | LH => (0x707f, 0x1003) | LW => (0x707f, 0x2003) | LD => (0x707f, 0x3003)
  | LBU => (0x707f, 0x4003) | LHU => (0x707f, 0x5003) | LWU => (0x707f, 0x6003)
  | SB => (0x707f, 0x23) | SH => (0x707f, 0x1023) | SW => (0x707f, 0x2023) | SD => (0x707f, 0x3023)
  | FLW => (0x707f, 0x2007) | FLD => (0x707f, 0x3007) | FSW => (0x707f, 0x2027) | FSD => (0x707f, 0x3027)
  | C_LD => (0xe003, 0x6000) | C_SD => (0xe003, 0xe000) | C_LW => (0xe003, 0x4000) | C_SW => (0xe003, 0xc000)
  | C_LDSP => (0xe003, 0x6002) | C_SDSP => (0xe003, 0xe002) | C_LWSP => (0xe003, 0x4002) | C_SWSP => (0xe003, 0xc002)
  | C_FLD => (0xe003, 0x2000) | C_FLW => (0xe003, 0x6000) | C_FSD => (0xe003, 0xa000) | C_FSW => (0xe003, 0xe000)
  | C_FLDSP => (0xe003, 0x2002) | C_FSDSP => (0xe003, 0xa002) | C_FLWSP => (0xe003, 0x6002) | C_FSWSP => (0xe003, 0xe002)
  | C_LBU => (0xfc03, 0x8000) | C_SB => (0xfc03, 0x8800) | C_LHU => (0xfc43, 0x8400) | C_LH => (0xfc43, 0x8440)
  | C_SH => (0xfc43, 0x8c00)
  end.

Definition is_insn (insn : Z) (i : insn_id) : bool := Z.land insn (fst (INSN i)) =? snd (INSN i).

Definition INSN_LEN (insn : Z) : Z := if Z.land insn 3 =? 3 then 4 else 2.

Definition RV_X (x s n : Z) : Z := Z.land (Z.shiftr x s) (Z.shiftl 1 n - 1).

Inductive rvc_imm : Type := LB_IMM | LH_IMM | LW_IMM | LD_IMM | LWSP_IMM | LDSP_IMM | SWSP_IMM | SDSP_IMM.

(** RVC_LB_IMM and the others; RVC_SB_IMM, RVC_SH_IMM, RVC_SW_IMM and RVC_SD_IMM
    are those of the loads. *)
Definition RVC (k : rvc_imm) (x : Z) : Z :=
  match k with
  | LB_IMM => Z.lor (Z.shiftl (RV_X x 6 1) 0) (Z.shiftl (RV_X x 5 1) 1)
  | LH_IMM => Z.shiftl (RV_X x 5 1) 1
  | LW_IMM => Z.lor (Z.lor (Z.shiftl (RV_X x 6 1) 2) (Z.shiftl (RV_X x 10 3) 3)) (Z.shiftl (RV_X x 5 1) 6)
  | LD_IMM => Z.lor (Z.shiftl (RV_X x 10 3) 3) (Z.shiftl (RV_X x 5 2) 6)
  | LWSP_IMM => Z.lor (Z.lor (Z.shiftl (RV_X x 4 3) 2) (Z.shiftl (RV_X x 12 1) 5)) (Z.shiftl (RV_X x 2 2) 6)
  | LDSP_IMM => Z.lor (Z.lor (Z.shiftl (RV_X x 5 2) 3) (Z.shiftl (RV_X x 12 1) 5)) (Z.shiftl (RV_X x 2 3) 6)
  | SWSP_IMM => Z.lor (Z.shiftl (RV_X x 9 4) 2) (Z.shiftl (RV_X x 7 2) 6)
  | SDSP_IMM => Z.lor (Z.shiftl (RV_X x 10 3) 3) (Z.shiftl (RV_X x 7 3) 6)
  end.

Inductive reg_pos : Type := RD | RS1 | RS2 | RDS | RS1S | RS2S | RS2C.

(** GET_RD_NUM and the others. *)
Definition GET_NUM (p : reg_pos) (insn : Z) : Z :=
  match p with
  | RD => Z.shiftr (Z.land insn 0xf80) 7
  | RS1 => Z.shiftr (Z.land insn 0xf8000) 15
  | RS2 => Z.shiftr (Z.land insn 0x1f00000) 20
  | RDS | RS2S => 8 + RV_X insn 2 3
  | RS1S => 8 + RV_X insn 7 3
  | RS2C => RV_X insn 2 5
  end.

(** A w-bit word read as a signed number. *)
Definition signed (w z : Z) : Z := if wrap w z <? 2 ^ (w - 1) then wrap w z else wrap w z - 2 ^ w.

(** As they are added to an address: (ulong)IMM_I(insn), (ulong)IMM_S(insn). *)
Definition IMM_I (insn : Z) : Z := u64 (Z.shiftr (signed 32 insn) 20).
Definition IMM_S (insn : Z) : Z :=
  u64 (Z.lor (Z.shiftl (Z.shiftr (signed 32 insn) 25) 5) (Z.land (Z.shiftr insn 7) 0x1f)).

(** What the tests of sbi_trap_emulate_load find: the local variables [len]
    (negative for a load that extends the sign, 0 for an unknown instruction),
    [imm], [c_load] or [c_store], [c_ldsp] or [c_stsp], and [fp]. *)
Record decoded := mkDec { d_len : Z; d_imm : Z; d_c : bool; d_csp : bool; d_fp : bool }.

Definition no_insn : decoded := mkDec 0 0 false false false.

Definition load_decode (insn : Z) (prev_xlen : Z) : decoded :=
  let on := is_insn insn in
  let rd := truthy (GET_NUM RD insn) in
  if on LB then mkDec (-1) 0 false false false
  else if on LBU then mkDec 1 0 false false false
  else if on C_LBU then mkDec 1 (RVC LB_IMM insn) true false false
  else if on LH then mkDec (-2) 0 false false false
  else if on C_LH then mkDec (-2) (RVC LH_IMM insn) true false false
  else if on LHU then mkDec 2 0 false false false
  else if on C_LHU then mkDec 2 (RVC LH_IMM insn) true false false
  else if on LW then mkDec (-4) 0 false false false
  else if on C_LW then mkDec (-4) (RVC LW_IMM insn) true false false
  else if on C_LWSP && rd then mkDec (-4) (RVC LWSP_IMM insn) false true false
  else if on FLW then mkDec 4 0 false false true
  else if on FLD then mkDec 8 0 false false true
  else if on C_FLD then mkDec 8 (RVC LD_IMM insn) true false true
  else if on C_FLDSP then mkDec 8 (RVC LDSP_IMM insn) false true true
  else if prev_xlen =? 64 then
    if on LWU then mkDec 4 0 false false false
    else if on LD then mkDec 8 0 false false false
    else if on C_LD then mkDec 8 (RVC LD_IMM insn) true false false
    else if on C_LDSP && rd then mkDec 8 (RVC LDSP_IMM insn) false true false
    else no_insn
  else if prev_xlen =? 32 then
    if on C_FLW then mkDec 4 (RVC LW_IMM insn) true false true
    else if on C_FLWSP then mkDec 4 (RVC LWSP_IMM insn) false true true
    else no_insn
  else no_insn.

Definition store_decode (insn : Z) (prev_xlen : Z) : decoded :=
  let on := is_insn insn in
  if on SB then mkDec 1 0 false false false
  else if on C_SB then mkDec 1 (RVC LB_IMM insn) true false false
  else if on SH then mkDec 2 0 false false false
  else if on C_SH then mkDec 2 (RVC LH_IMM insn) true false false
  else if on SW then mkDec 4 0 false false false
  else if on C_SW then mkDec 4 (RVC LW_IMM insn) true false false
  else if on C_SWSP then mkDec 4 (RVC SWSP_IMM insn) false true false
  else if on FSW then mkDec 4 0 false false true
  else if on FSD then mkDec 8 0 false false true
  else if on C_FSD then mkDec 8 (RVC LD_IMM insn) true false true
  else if on C_FSDSP then mkDec 8 (RVC SDSP_IMM insn) false true true
  else if prev_xlen =? 64 then
    if on SD then mkDec 8 0 false false false
    else if on C_SD then mkDec 8 (RVC LD_IMM insn) true false false
    else if on C_SDSP then mkDec 8 (RVC SDSP_IMM insn) false true false
    else no_insn
  else if prev_xlen =? 32 then
    if on C_FSW then mkDec 4 (RVC LW_IMM insn) true false true
    else if on C_FSWSP then mkDec 4 (RVC SWSP_IMM insn) false true true
    else no_insn
  else no_insn.

(** The registers of the data and of the address, and the offset. *)
Definition data_reg (load : bool) (d : decoded) (insn : Z) : Z :=
  if load then GET_NUM (if d_c d then RDS else RD) insn
  else GET_NUM (if d_c d then RS2S else if d_csp d then RS2C else RS2) insn.
Definition base_reg (d : decoded) (insn : Z) : Z :=
  if d_c d then GET_NUM RS1S insn else if d_csp d then 2 else GET_NUM RS1 insn.
Definition offset (load : bool) (d : decoded) (insn : Z) : Z :=
  if d_c d || d_csp d then d_imm d else if load then IMM_I insn else IMM_S insn.

(** ** The instructions of Spike *)

(** MASK_LB and MATCH_LB, and the others. *)
Definition MASK_MATCH (i : insn_id) : Z * Z :=
  match i with
  | LB => (0x707f, 0x3) | LBU => (0x707f, 0x4003) | LD => (0x707f, 0x3003) | LH => (0x707f, 0x1003)
  | LHU => (0x707f, 0x5003) | LW => (0x707f, 0x2003) | LWU => (0x707f, 0x6003)
  | SB => (0x707f, 0x23) | SD => (0x707f, 0x3023) | SH => (0x707f, 0x1023) | SW => (0x707f, 0x2023)
  | FLD => (0x707f, 0x3007) | FLW => (0x707f, 0x2007) | FSD => (0x707f, 0x3027) | FSW => (0x707f, 0x2027)
  | C_FLD => (0xe003, 0x2000) | C_FLDSP => (0xe003, 0x2002) | C_FLW => (0xe003, 0x6000) | C_FLWSP => (0xe003, 0x6002)
  | C_FSD => (0xe003, 0xa000) | C_FSDSP => (0xe003, 0xa002) | C_FSW => (0xe003, 0xe000) | C_FSWSP => (0xe003, 0xe002)
  | C_LBU => (0xfc03, 0x8000) | C_LD => (0xe003, 0x6000) | C_LDSP => (0xe003, 0x6002) | C_LH => (0xfc43, 0x8440)
  | C_LHU => (0xfc43, 0x8400) | C_LW => (0xe003, 0x4000) | C_LWSP => (0xe003, 0x4002)
  | C_SB => (0xfc03, 0x8800) | C_SD => (0xe003, 0xe000) | C_SDSP => (0xe003, 0xe002) | C_SH => (0xfc43, 0x8c00)
  | C_SW => (0xe003, 0xc000) | C_SWSP => (0xe003, 0xc002)
  end.

Definition spike_is (b : Z) (i : insn_id) : bool := Z.land b (fst (MASK_MATCH i)) =? snd (MASK_MATCH i).

(** insn_t::x and insn_t::xs *)
Definition insn_x (b lo len : Z) : Z := Z.land (Z.shiftr b lo) (u64 (Z.shiftl 1 len) - 1).
Definition insn_xs (b lo len : Z) : Z := u64 (Z.shiftr (signed 64 (Z.shiftl b (64 - lo - len))) (64 - len)).

Definition insn_length (b : Z) : Z :=
  if Z.land b 0x03 <? 0x03 then 2 else if Z.land b 0x1f <? 0x1f then 4 else if Z.land b 0x3f <? 0x3f then 6 else 8.

Inductive insn_reg : Type := rd | rs1 | rs2 | rvc_rs1s | rvc_rs2s | rvc_rs2 | X_SP.

Definition reg_num (r : insn_reg) (b : Z) : Z :=
  match r with
  | rd => insn_x b 7 5 | rs1 => insn_x b 15 5 | rs2 => insn_x b 20 5
  | rvc_rs1s => 8 + insn_x b 7 3 | rvc_rs2s => 8 + insn_x b 2 3 | rvc_rs2 => insn_x b 2 5
  | X_SP => 2
  end.

Inductive insn_imm : Type :=
| i_imm | s_imm | rvc_lwsp_imm | rvc_ldsp_imm | rvc_swsp_imm | rvc_sdsp_imm | rvc_lw_imm | rvc_ld_imm | rvc_lbimm | rvc_lhimm.

Definition imm_value (k : insn_imm) (b : Z) : Z :=
  let x := insn_x b in
  let xs := insn_xs b in
  match k with
  | i_imm => xs 20 12
  | s_imm => u64 (x 7 5 + u64 (Z.shiftl (xs 25 7) 5))
  | rvc_lwsp_imm => Z.shiftl (x 4 3) 2 + Z.shiftl (x 12 1) 5 + Z.shiftl (x 2 2) 6
  | rvc_ldsp_imm => Z.shiftl (x 5 2) 3 + Z.shiftl (x 12 1) 5 + Z.shiftl (x 2 3) 6
  | rvc_swsp_imm => Z.shiftl (x 9 4) 2 + Z.shiftl (x 7 2) 6
  | rvc_sdsp_imm => Z.shiftl (x 10 3) 3 + Z.shiftl (x 7 3) 6
  | rvc_lw_imm => Z.shiftl (x 6 1) 2 + Z.shiftl (x 10 3) 3 + Z.shiftl (x 5 1) 6
  | rvc_ld_imm => Z.shiftl (x 10 3) 3 + Z.shiftl (x 5 2) 6
  | rvc_lbimm => Z.shiftl (x 5 1) 1 + x 6 1
  | rvc_lhimm => Z.shiftl (x 5 1) 1
  end.

(** A load or store: the size and the sign of the C++ type, whether the data is
    in a floating point register, the data register, and the base and offset of
    the address. *)
Record access := mkAcc { a_size : Z; a_signed : bool; a_fp : bool; a_reg : insn_reg; a_base : insn_reg; a_imm : insn_imm }.

(** riscv/insns/lb.h and the others, for a hart with F, D, Zca, Zcb and Zcd (Zcf
    for 32 bits) and without Zilsd; [None] if the instruction is illegal. *)
Definition spike_load (xlen : Z) (i : insn_id) (b : Z) : option access :=
  let rv64 (a : access) := if xlen =? 64 then Some a else None in
  let rv32 (a : access) := if xlen =? 64 then None else Some a in
  let zero := reg_num rd b =? 0 in
  match i with
  | LB => Some (mkAcc 1 true false rd rs1 i_imm)
  | LBU => Some (mkAcc 1 false false rd rs1 i_imm)
  | LH => Some (mkAcc 2 true false rd rs1 i_imm)
  | LHU => Some (mkAcc 2 false false rd rs1 i_imm)
  | LW => Some (mkAcc 4 true false rd rs1 i_imm)
  | LWU => rv64 (mkAcc 4 false false rd rs1 i_imm)
  | LD => rv64 (mkAcc 8 true false rd rs1 i_imm)
  | FLW => Some (mkAcc 4 false true rd rs1 i_imm)
  | FLD => Some (mkAcc 8 false true rd rs1 i_imm)
  | C_LBU => Some (mkAcc 1 false false rvc_rs2s rvc_rs1s rvc_lbimm)
  | C_LH => Some (mkAcc 2 true false rvc_rs2s rvc_rs1s rvc_lhimm)
  | C_LHU => Some (mkAcc 2 false false rvc_rs2s rvc_rs1s rvc_lhimm)
  | C_LW => Some (mkAcc 4 true false rvc_rs2s rvc_rs1s rvc_lw_imm)
  | C_LD => rv64 (mkAcc 8 true false rvc_rs2s rvc_rs1s rvc_ld_imm)
  | C_FLW => rv32 (mkAcc 4 false true rvc_rs2s rvc_rs1s rvc_lw_imm)
  | C_FLD => Some (mkAcc 8 false true rvc_rs2s rvc_rs1s rvc_ld_imm)
  | C_LWSP => if zero then None else Some (mkAcc 4 true false rd X_SP rvc_lwsp_imm)
  | C_LDSP => if zero then None else rv64 (mkAcc 8 true false rd X_SP rvc_ldsp_imm)
  | C_FLWSP => rv32 (mkAcc 4 false true rd X_SP rvc_lwsp_imm)
  | C_FLDSP => Some (mkAcc 8 false true rd X_SP rvc_ldsp_imm)
  | _ => None
  end.

Definition spike_store (xlen : Z) (i : insn_id) (b : Z) : option access :=
  let rv64 (a : access) := if xlen =? 64 then Some a else None in
  let rv32 (a : access) := if xlen =? 64 then None else Some a in
  match i with
  | SB => Some (mkAcc 1 false false rs2 rs1 s_imm)
  | SH => Some (mkAcc 2 false false rs2 rs1 s_imm)
  | SW => Some (mkAcc 4 false false rs2 rs1 s_imm)
  | SD => rv64 (mkAcc 8 false false rs2 rs1 s_imm)
  | FSW => Some (mkAcc 4 false true rs2 rs1 s_imm)
  | FSD => Some (mkAcc 8 false true rs2 rs1 s_imm)
  | C_SB => Some (mkAcc 1 false false rvc_rs2s rvc_rs1s rvc_lbimm)
  | C_SH => Some (mkAcc 2 false false rvc_rs2s rvc_rs1s rvc_lhimm)
  | C_SW => Some (mkAcc 4 false false rvc_rs2s rvc_rs1s rvc_lw_imm)
  | C_SD => rv64 (mkAcc 8 false false rvc_rs2s rvc_rs1s rvc_ld_imm)
  | C_FSW => rv32 (mkAcc 4 false true rvc_rs2s rvc_rs1s rvc_lw_imm)
  | C_FSD => Some (mkAcc 8 false true rvc_rs2s rvc_rs1s rvc_ld_imm)
  | C_SWSP => Some (mkAcc 4 false false rvc_rs2 X_SP rvc_swsp_imm)
  | C_SDSP => rv64 (mkAcc 8 false false rvc_rs2 X_SP rvc_sdsp_imm)
  | C_FSWSP => rv32 (mkAcc 4 false true rvc_rs2 X_SP rvc_swsp_imm)
  | C_FSDSP => Some (mkAcc 8 false true rvc_rs2 X_SP rvc_sdsp_imm)
  | _ => None
  end.

(** The access an instruction word makes. *)
Definition insn_access (load : bool) (xlen b : Z) (a : access) : Prop :=
  exists i, spike_is b i = true /\ (if load then spike_load else spike_store) xlen i b = Some a.

(** ** Fields *)

Lemma x_same b lo len : 0 <= len < 64 -> insn_x b lo len = RV_X b lo len.
Proof. intros Hl. unfold insn_x, RV_X. rewrite Z.shiftl_1_l, wrap_id; [done|]. split; [apply Z.pow_nonneg; lia|apply pow2_lt; lia]. Qed.

Lemma x_range b s n : 0 <= n -> 0 <= RV_X b s n < 2 ^ n.
Proof. intros Hn. unfold RV_X. rewrite Z.shiftl_1_l, land_ones_mod by done. apply Z.mod_pos_bound. by apply pow2_pos. Qed.

Lemma num_x b s n : 0 <= s -> 0 <= n -> Z.shiftr (Z.land b (Z.shiftl (Z.ones n) s)) s = RV_X b s n.
Proof.
  intros Hs Hn. unfold RV_X. rewrite Z.shiftr_land, Z.shiftr_shiftl_l, Z.sub_diag, Z.shiftl_0_r, Z.shiftl_1_l by lia.
  by rewrite Z.ones_equiv, <- Z.sub_1_r.
Qed.

(** A field above the bits of [a]. *)
Lemma lor_above a b k : 0 <= k -> 0 <= a < 2 ^ k -> Z.lor a (Z.shiftl b k) = a + Z.shiftl b k.
Proof.
  intros Hk Ha. symmetry. apply Z.add_nocarry_lor. apply Z.bits_inj'. intros n Hn.
  rewrite Z.land_spec, Z.shiftl_spec, Z.testbit_0_l by done. destruct (Z.ltb_spec n k).
  - by rewrite (Z.testbit_neg_r b), andb_false_r by lia.
  - rewrite <- (Z.mod_small a (2 ^ k)) by done. by rewrite Z.mod_pow2_bits_high by lia.
Qed.

Ltac fields :=
  repeat match goal with
  | |- context[RV_X ?b ?s ?n] =>
      let v := fresh "v" in let H := fresh "Hv" in
      pose proof (x_range b s n ltac:(lia)) as H; set (v := RV_X b s n) in *; clearbody v
  end;
  rewrite ?Z.shiftl_mul_pow2 in * by lia; lia.

(** The offsets of compressed instructions. *)
Definition rvc_of (k : rvc_imm) : insn_imm :=
  match k with
  | LB_IMM => rvc_lbimm | LH_IMM => rvc_lhimm | LW_IMM => rvc_lw_imm | LD_IMM => rvc_ld_imm | LWSP_IMM => rvc_lwsp_imm
  | LDSP_IMM => rvc_ldsp_imm | SWSP_IMM => rvc_swsp_imm | SDSP_IMM => rvc_sdsp_imm
  end.

Lemma rvc_imms k b : RVC k b = imm_value (rvc_of k) b.
Proof.
  destruct k; cbn [RVC rvc_of imm_value]; cbv zeta; rewrite ?x_same by lia; try reflexivity;
    rewrite !lor_above by (lia || fields || (rewrite lor_above by (lia || fields); fields)); rewrite ?Z.shiftl_0_r; lia.
Qed.

Lemma nums b :
  GET_NUM RD b = reg_num rd b /\ GET_NUM RS1 b = reg_num rs1 b /\ GET_NUM RS2 b = reg_num rs2 b /\
  GET_NUM RS1S b = reg_num rvc_rs1s b /\ GET_NUM RS2S b = reg_num rvc_rs2s b /\ GET_NUM RS2C b = reg_num rvc_rs2 b.
Proof.
  cbn [GET_NUM reg_num]. rewrite !x_same by lia. split_and!; try reflexivity.
  - apply (num_x b 7 5); lia.
  - apply (num_x b 15 5); lia.
  - apply (num_x b 20 5); lia.
Qed.

Lemma signed_shl b : in_range 32 b -> signed 64 (Z.shiftl b 32) = signed 32 b * 2 ^ 32.
Proof.
  intros Hb. unfold signed, in_range in *. rewrite Z.shiftl_mul_pow2, (wrap_id 32), (wrap_id 64) by lia.
  destruct (Z.ltb_spec b (2 ^ (32 - 1))), (Z.ltb_spec (b * 2 ^ 32) (2 ^ (64 - 1))); lia.
Qed.

Lemma xs_top b len : in_range 32 b -> 0 <= len <= 32 -> insn_xs b (32 - len) len = u64 (Z.shiftr (signed 32 b) (32 - len)).
Proof.
  intros Hb Hl. unfold insn_xs. replace (64 - (32 - len) - len) with 32 by lia. rewrite signed_shl by done.
  f_equal. replace (64 - len) with (32 + (32 - len)) by lia. rewrite <- Z.shiftr_shiftr by lia. f_equal.
  rewrite <- Z.shiftl_mul_pow2, Z.shiftr_shiftl_l, Z.sub_diag by lia. apply Z.shiftl_0_r.
Qed.

Lemma imm_i b : in_range 32 b -> IMM_I b = imm_value i_imm b.
Proof. intros Hb. unfold IMM_I, imm_value. symmetry. by apply (xs_top b 12). Qed.

Lemma imm_s b : in_range 32 b -> IMM_S b = imm_value s_imm b.
Proof.
  intros Hb. unfold IMM_S, imm_value. cbv zeta. change (insn_xs b 25 7) with (insn_xs b (32 - 7) 7).
  rewrite xs_top, x_same by (done || lia). change (32 - 7) with 25.
  change (Z.land (Z.shiftr b 7) 31) with (RV_X b 7 5). pose proof (x_range b 7 5 ltac:(lia)) as Hx.
  rewrite Z.lor_comm, lor_above by lia. rewrite !Z.shiftl_mul_pow2 by lia.
  generalize (Z.shiftr (signed 32 b) 25) as s. intros s. rewrite wrap_add_r. unfold wrap.
  rewrite <- (Zplus_mod_idemp_r (s mod 2 ^ 64 * 2 ^ 5)), Zmult_mod_idemp_l, Zplus_mod_idemp_r. done.
Qed.

(** ** Decoding *)

(** The tests [i] and [j] cannot both succeed. *)
Definition apart (i j : insn_id) : bool :=
  negb (Z.land (snd (INSN i)) (fst (INSN j)) =? Z.land (snd (INSN j)) (fst (INSN i))).

Lemma apart_spec b i j : is_insn b i = true -> apart i j = true -> is_insn b j = false.
Proof.
  unfold apart, is_insn. intros Hi Ha. apply Z.eqb_eq in Hi. apply Z.eqb_neq. intros Hj.
  rewrite <- Hi, <- Hj in Ha. rewrite <- !Z.land_assoc, (Z.land_comm (fst (INSN j))), Z.eqb_refl in Ha. done.
Qed.

Lemma spike_is_same b i : spike_is b i = is_insn b i.
Proof. by destruct i. Qed.

(** What the tests find, and what the instruction does. *)
Record agree (load : bool) (b : Z) (d : decoded) (a : access) : Prop := {
  ag_size : Z.abs (d_len d) = a_size a;
  ag_sign : (d_len d <? 0) = a_signed a && (a_size a <? 8);
  ag_fp : d_fp d = a_fp a;
  ag_reg : data_reg load d b = reg_num (a_reg a) b;
  ag_base : base_reg d b = reg_num (a_base a) b;
  ag_offset : offset load d b = imm_value (a_imm a) b }.

Ltac decode_tests b H :=
  repeat match goal with
  | |- context[is_insn b ?j] =>
      first [rewrite (apart_spec b _ j H eq_refl)|rewrite H]; cbn [andb]
  end.

Lemma load_forward xlen i b a :
  in_range 32 b -> xlen = 64 \/ xlen = 32 -> is_insn b i = true -> spike_load xlen i b = Some a -> agree true b (load_decode b xlen) a.
Proof.
  intros Hb Hx Hi Ha. destruct (nums b) as (Nrd & Nrs1 & Nrs2 & Ns1 & Ns2 & Nc).
  pose proof (imm_i b Hb) as Ii. unfold load_decode. cbv zeta.
  assert ((xlen =? 64) = true \/ ((xlen =? 64) = false /\ (xlen =? 32) = true)) as Ex by lia.
  assert (truthy (GET_NUM RD b) = negb (reg_num rd b =? 0)) as Er by (by rewrite Nrd).
  destruct i; try discriminate Ha; unfold spike_load in Ha; cbv zeta in Ha; decode_tests b Hi; rewrite ?Er;
    destruct Ex as [Ex|[Ex Ex2]]; rewrite ?Ex, ?Ex2 in *; try (destruct (reg_num rd b =? 0); try discriminate Ha);
    cbn [negb andb]; simplify_eq; (split; cbn [d_len d_fp d_c d_csp d_imm data_reg base_reg offset a_size a_signed a_fp a_reg a_base a_imm];
      rewrite ?rvc_imms; try done).
Qed.

Lemma store_forward xlen i b a :
  in_range 32 b -> xlen = 64 \/ xlen = 32 -> is_insn b i = true -> spike_store xlen i b = Some a -> agree false b (store_decode b xlen) a.
Proof.
  intros Hb Hx Hi Ha. destruct (nums b) as (Nrd & Nrs1 & Nrs2 & Ns1 & Ns2 & Nc).
  pose proof (imm_s b Hb) as Is. unfold store_decode. cbv zeta.
  assert ((xlen =? 64) = true \/ ((xlen =? 64) = false /\ (xlen =? 32) = true)) as Ex by lia.
  destruct i; try discriminate Ha; unfold spike_store in Ha; cbv zeta in Ha; decode_tests b Hi;
    destruct Ex as [Ex|[Ex Ex2]]; rewrite ?Ex, ?Ex2 in *; try discriminate Ha;
    cbn [negb andb]; simplify_eq; (split; cbn [d_len d_fp d_c d_csp d_imm data_reg base_reg offset a_size a_signed a_fp a_reg a_base a_imm];
      rewrite ?rvc_imms; try done).
Qed.

(** A test that succeeds names a legal instruction. *)
Ltac found b tac :=
  repeat match goal with
  | |- context[is_insn b ?j] =>
      let E := fresh "E" in destruct (is_insn b j) eqn:E; [solve [intros _; exists j; rewrite E; tac; eauto]|]
  end; done.

Lemma load_backward xlen b : d_len (load_decode b xlen) <> 0 -> exists i a, is_insn b i = true /\ spike_load xlen i b = Some a.
Proof.
  destruct (nums b) as (Nrd & _). unfold load_decode. cbv zeta.
  assert (truthy (GET_NUM RD b) = negb (reg_num rd b =? 0)) as -> by (by rewrite Nrd).
  destruct (reg_num rd b =? 0) eqn:Er; cbn [negb]; rewrite ?andb_false_r, ?andb_true_r;
    (destruct (xlen =? 64) eqn:Ex; [|destruct (xlen =? 32) eqn:Ex2]);
    found b ltac:(unfold spike_load; cbv zeta; rewrite ?Er, ?Ex).
Qed.

Lemma store_backward xlen b : d_len (store_decode b xlen) <> 0 -> exists i a, is_insn b i = true /\ spike_store xlen i b = Some a.
Proof.
  unfold store_decode. cbv zeta. destruct (xlen =? 64) eqn:Ex; [|destruct (xlen =? 32) eqn:Ex2];
    found b ltac:(unfold spike_store; cbv zeta; rewrite ?Ex).
Qed.

(** The length of the instruction. *)
Lemma length_forward load xlen b a : insn_access load xlen b a -> INSN_LEN b = insn_length b.
Proof.
  intros (i & Hi & Ha). rewrite spike_is_same in Hi. unfold is_insn in Hi. apply Z.eqb_eq in Hi.
  assert (forall m, Z.land (fst (INSN i)) m = m -> Z.land b m = Z.land (snd (INSN i)) m) as Hm.
  { intros m Em. by rewrite <- Hi, <- Z.land_assoc, Em. }
  unfold INSN_LEN, insn_length. destruct i, load; try discriminate Ha; clear Ha;
    rewrite ?(Hm 3 eq_refl), ?(Hm 31 eq_refl), ?(Hm 63 eq_refl); reflexivity.
Qed.

Lemma insn_size load xlen b a : insn_access load xlen b a -> a_size a = 1 \/ a_size a = 2 \/ a_size a = 4 \/ a_size a = 8.
Proof.
  intros (i & _ & Ha). destruct load, i; cbn in Ha; try discriminate Ha; repeat case_match; simplify_eq; cbn; auto.
Qed.

(** C24: the firmware decodes loads and stores as the hart does.  For every
    instruction word, in 64-bit and in 32-bit mode, the tests of
    sbi_trap_emulate_load and sbi_trap_emulate_store succeed exactly for the legal
    load and store instructions, and what they yield is what the instruction
    does: size, sign extension, register file, data register, base register,
    offset, and length. *)
Theorem decode_correct (load : bool) xlen b :
  in_range 32 b -> xlen = 64 \/ xlen = 32 ->
  let d := (if load then load_decode else store_decode) b xlen in
  (d_len d <> 0 <-> exists a, insn_access load xlen b a) /\
  forall a, insn_access load xlen b a -> agree load b d a /\ INSN_LEN b = insn_length b.
Proof.
  intros Hb Hx d.
  assert (forall a, insn_access load xlen b a -> agree load b d a) as Hf.
  { intros a (i & Hi & Ha). rewrite spike_is_same in Hi. unfold d. destruct load; [by apply (load_forward xlen i)|by apply (store_forward xlen i)]. }
  split; [split|].
  - intros Hd. unfold d in Hd. destruct load; [apply load_backward in Hd|apply store_backward in Hd];
      destruct Hd as (i & a & Hi & Ha); exists a, i; by rewrite spike_is_same.
  - intros (a & Ha) Hd. destruct (Hf a Ha) as [Hs _ _ _ _ _]. rewrite Hd in Hs.
    destruct (insn_size _ _ _ _ Ha) as [E|[E|[E|E]]]; rewrite E in Hs; done.
  - intros a Ha. split; [by apply Hf|by apply (length_forward load xlen b a)].
Qed.

Lemma decode_correct_witness :
  let b := 0x6108 in
  (d_len (load_decode b 64) <> 0 <-> exists a, insn_access true 64 b a) /\
  forall a, insn_access true 64 b a -> agree true b (load_decode b 64) a /\ INSN_LEN b = insn_length b.
Proof. apply (decode_correct true 64 0x6108); [unfold in_range; lia|by left]. Defined.
