(* ===== verification/Ldst.v ===== *)
(** * Emulation of misaligned loads and stores
    (lib/sbi/sbi_trap_ldst.c, lib/sbi/sbi_unpriv.c, lib/sbi/sbi_expected_trap.S,
    and the memory unit of Spike)

    A hart need not support accesses whose address is not a multiple of their
    size.  It then traps, and the firmware does the access in aligned pieces on
    behalf of the code that trapped.  The hardware is that of Spike: the
    instructions of Insn, mmu_t::load_slow_path and store_slow_path, and the trap
    unit of Trap.

    [misaligned_load_emulated] and [misaligned_store_emulated] state the contract:
    trap, emulation and return leave the hart and the memory as the access would
    have on a hart that supports it, faults in the middle of it included.
    [access_handler_address] shows which address the platform gets to see in a
    load or store it emulates.

    The hart has 64 bits, the firmware is built with floating point and without
    vector support.  Memory is RAM; page tables and PMP are parameters.  Unprivileged
    accesses of the firmware are made with MPRV set, so they are translated as
    those of the mode that trapped; what a fault of theirs leaves in the registers
    of machine mode is overwritten on the way out and not modelled. *)

From S2P Require Import Prelude Strings Bitops Pmp Trap Resume Insn.
Local Open Scope Z_scope.

(** ** The hardware: memory *)

(** Loads of the firmware that may read what is executable have MXR set. *)
Inductive mem_op : Type := OP_LOAD | OP_STORE | OP_LOAD_MXR.

(** The page tables give the page of an address, or a trap; then the PMP is asked
    with the physical address and the length.  The last two fields are what
    [sbi_get_insn] depends on after a fault: the fault of a load of two bytes in
    machine mode, and the value of a register the compiler leaves undefined. *)
Record mmu := mkMmu {
  walk : mem_op -> Z -> Z + trap_t; pmp_allows : mem_op -> Z -> Z -> bool; effective_virt : bool;
  machine_fault : Z -> option trap_t; undefined_insn : Z }.

Abbreviation PGSIZE := 4096.

Fixpoint write_bytes (m : mem) (a : Z) (l : list Z) : mem :=
  match l with [] => m | b :: l => write_bytes (upd m a b) (a + 1) l end.

Section Memory.
Context (u : mmu).

Definition throw_access_exception (addr : Z) (type : mem_op) : trap_t :=
  mkTrap (match type with OP_STORE => 7 | _ => 5 end) addr 0 0 (effective_virt u).

Definition translate (type : mem_op) (addr len : Z) : Z + trap_t :=
  match walk u type addr with
  | inr t => inr t
  | inl page =>
      let paddr := Z.lor page (Z.land addr (PGSIZE - 1)) in
      if pmp_allows u type paddr len then inl paddr else inr (throw_access_exception addr type)
  end.

Definition load_slow_path_intrapage (m : mem) (type : mem_op) (addr len : Z) : list Z + trap_t :=
  match translate type addr len with
  | inr t => inr t
  | inl paddr => inl (read_bytes m paddr (Z.to_nat len))
  end.

Definition store_slow_path_intrapage (m : mem) (addr : Z) (bytes : list Z) : mem * option trap_t :=
  match translate OP_STORE addr (Z.of_nat (length bytes)) with
  | inr t => (m, Some t)
  | inl paddr => (write_bytes m paddr bytes, None)
  end.

(** [misaligned]: is_misaligned_enabled.  The TLB in front of it caches
    [translate]. *)
Definition load_slow_path (misaligned : bool) (m : mem) (addr len : Z) : list Z + trap_t :=
  if Z.land addr (len - 1) =? 0 then load_slow_path_intrapage m OP_LOAD addr len
  else if negb misaligned then inr (mkTrap 4 addr 0 0 (effective_virt u))
  else
    let len_page0 := Z.min len (PGSIZE - addr mod PGSIZE) in
    match load_slow_path_intrapage m OP_LOAD addr len_page0 with
    | inr t => inr t
    | inl bytes =>
        if len_page0 =? len then inl bytes
        else match load_slow_path_intrapage m OP_LOAD (u64 (addr + len_page0)) (len - len_page0) with
             | inr t => inr t
             | inl tail => inl (bytes ++ tail)
             end
    end.

Definition store_slow_path (misaligned : bool) (m : mem) (addr : Z) (bytes : list Z) : mem * option trap_t :=
  let len := Z.of_nat (length bytes) in
  if truthy (Z.land addr (len - 1)) then
    if negb misaligned then (m, Some (mkTrap 6 addr 0 0 (effective_virt u)))
    else
      let len_page0 := Z.min len (PGSIZE - addr mod PGSIZE) in
      match store_slow_path_intrapage m addr (take (Z.to_nat len_page0) bytes) with
      | (m, Some t) => (m, Some t)
      | (m, None) =>
          if len_page0 =? len then (m, None)
          else store_slow_path_intrapage m (u64 (addr + len_page0)) (drop (Z.to_nat len_page0) bytes)
      end
  else store_slow_path_intrapage m addr bytes.
End Memory.

(** ** The hardware: loads and stores *)

Record hart := mkHart { h_cpu : cpu; h_x : Z -> Z; h_f : Z -> Z; h_mem : mem }.

(** A single in a register of 64 bits. *)
Definition freg (size v : Z) : Z := if size =? 4 then Z.lor v 0xffffffff00000000 else v.

Definition set_reg (f : Z -> Z) (r v : Z) : Z -> Z := fun k => if k =? r then v else f k.

(** MMU.load<T>: the value in a register of 64 bits. *)
Definition load_value (a : access) (bytes : list Z) : Z :=
  if a_signed a then u64 (signed (8 * a_size a) (le_value bytes)) else le_value bytes.

Definition access_addr (h : hart) (a : access) (b : Z) : Z :=
  u64 (h_x h (reg_num (a_base a) b) + imm_value (a_imm a) b).

(** sstatus_csr_t::enabled for the floating point state, and the trap of require_fp
    without it. *)
Definition fp_enabled (e : isa) (c : cpu) : bool :=
  truthy (Z.land (sstatus_read e (mstatus (c_m c))) (MSTATUS FS)) &&
  (negb (c_v c) || truthy (Z.land (vsstatus_read e (c_vsstatus c)) (MSTATUS FS))).
Definition trap_illegal_instruction (b : Z) : trap_t := mkTrap 2 b 0 0 false.

(** A load instruction; [inr] if it traps. *)
Definition exec_load (e : isa) (u : mmu) (misaligned : bool) (h : hart) (b : Z) (a : access) : hart + trap_t :=
  if a_fp a && negb (fp_enabled e (h_cpu h)) then inr (trap_illegal_instruction b)
  else
  match load_slow_path u misaligned (h_mem h) (access_addr h a b) (a_size a) with
  | inr t => inr t
  | inl bytes =>
      let r := reg_num (a_reg a) b in
      let c := with_pc (h_cpu h) (u64 (c_pc (h_cpu h) + insn_length b)) in
      inl (if a_fp a
           then mkHart (dirty_fp e c) (h_x h) (set_reg (h_f h) r (freg (a_size a) (load_value a bytes))) (h_mem h)
           else mkHart c (if r =? 0 then h_x h else set_reg (h_x h) r (load_value a bytes)) (h_f h) (h_mem h))
  end.

(** A store instruction, and the trap it takes. *)
Definition exec_store (e : isa) (u : mmu) (misaligned : bool) (h : hart) (b : Z) (a : access) : hart * option trap_t :=
  if a_fp a && negb (fp_enabled e (h_cpu h)) then (h, Some (trap_illegal_instruction b))
  else
  let v := (if a_fp a then h_f h else h_x h) (reg_num (a_reg a) b) in
  match store_slow_path u misaligned (h_mem h) (access_addr h a b) (le_bytes (Z.to_nat (a_size a)) v) with
  | (m, Some t) => (mkHart (h_cpu h) (h_x h) (h_f h) m, Some t)
  | (m, None) => (mkHart (with_pc (h_cpu h) (u64 (c_pc (h_cpu h) + insn_length b))) (h_x h) (h_f h) m, None)
  end.

(** ** The firmware *)

Abbreviation CAUSE_FETCH_ACCESS := 1.
Abbreviation CAUSE_ILLEGAL_INSTRUCTION := 2.
Abbreviation CAUSE_MISALIGNED_LOAD := 4.
Abbreviation CAUSE_LOAD_ACCESS := 5.
Abbreviation CAUSE_MISALIGNED_STORE := 6.
Abbreviation CAUSE_STORE_ACCESS := 7.
Abbreviation CAUSE_SUPERVISOR_ECALL := 9.
Abbreviation CAUSE_MACHINE_ECALL := 0xb.
Abbreviation CAUSE_FETCH_PAGE_FAULT := 0xc.
Abbreviation CAUSE_LOAD_PAGE_FAULT := 0xd.
Abbreviation CAUSE_DOUBLE_TRAP := 0x10.
Abbreviation CAUSE_FETCH_GUEST_PAGE_FAULT := 0x14.
Abbreviation CAUSE_LOAD_GUEST_PAGE_FAULT := 0x15.
Abbreviation INSN_PSEUDO_VS_LOAD := 0x3000.
Abbreviation INSN_PSEUDO_VS_STORE := 0x3020.

(** struct sbi_trap_context (the general registers apart from mepc and mstatus),
    and what else a handler can reach: the floating point registers, the other
    CSRs and the memory. *)
Record sbi_trap_context := mkCtx { t_regs : sbi_trap_regs; t_gprs : Z -> Z; t_f : Z -> Z; t_cpu : cpu; t_mem : mem }.

Definition with_regs (x : sbi_trap_context) (regs : sbi_trap_regs) (c : cpu) : sbi_trap_context :=
  mkCtx regs (t_gprs x) (t_f x) c (t_mem x).
Definition with_mem (x : sbi_trap_context) (m : mem) : sbi_trap_context :=
  mkCtx (t_regs x) (t_gprs x) (t_f x) (t_cpu x) m.

Section Firmware.
Context (e : isa) (u : mmu).

(** sbi_load_u8 to sbi_load_u64 and sbi_store_u8 to sbi_store_u64: [width] bytes
    at an address that is a multiple of [width]. *)
Definition unpriv_load (m : mem) (type : mem_op) (addr width : Z) : list Z + sbi_trap_info :=
  match load_slow_path_intrapage u m type addr width with
  | inr t => inr (expected_trap e t)
  | inl bytes => inl bytes
  end.
Definition unpriv_store (m : mem) (addr : Z) (data : list Z) : mem * option sbi_trap_info :=
  let '(m, t) := store_slow_path_intrapage u m addr data in (m, expected_trap e <$> t).

(** The inner loop of sbi_load_loop: while (len < width || addr & (width - 1)). *)
Fixpoint narrow (n : nat) (addr len width : Z) : Z :=
  match n with
  | O => width
  | S n => if (len <? width) || truthy (Z.land addr (width - 1)) then narrow n addr len (width / 2) else width
  end.
Definition piece (addr len : Z) : Z := narrow 3 addr len 8.

(** [n] bounds the number of pieces. *)
Fixpoint sbi_load_loop (n : nat) (m : mem) (addr len : Z) : list Z + sbi_trap_info :=
  match n with
  | O => inl []
  | S n =>
      if len =? 0 then inl []
      else
        let width := piece addr len in
        match unpriv_load m OP_LOAD addr width with
        | inr trap => inr trap
        | inl data => match sbi_load_loop n m (u64 (addr + width)) (len - width) with
                      | inr trap => inr trap
                      | inl buffer => inl (data ++ buffer)
                      end
        end
  end.

Fixpoint sbi_store_loop (n : nat) (m : mem) (addr : Z) (buffer : list Z) : mem * option sbi_trap_info :=
  match n with
  | O => (m, None)
  | S n =>
      let len := Z.of_nat (length buffer) in
      if len =? 0 then (m, None)
      else
        let width := piece addr len in
        match unpriv_store m addr (take (Z.to_nat width) buffer) with
        | (m, Some trap) => (m, Some trap)
        | (m, None) => sbi_store_loop n m (u64 (addr + width)) (drop (Z.to_nat width) buffer)
        end
  end.

(** A fault of sbi_get_insn is reported as one of fetching. *)
Definition fetch_trap (trap : sbi_trap_info) : sbi_trap_info :=
  let clear := mkInfo (cause trap) (tval trap) (tval2 trap) 0 (gva trap) in
  let put_cause c (i : sbi_trap_info) := mkInfo c (tval i) (tval2 i) (tinst i) (gva i) in
  if cause trap =? CAUSE_LOAD_ACCESS then put_cause CAUSE_FETCH_ACCESS clear
  else if cause trap =? CAUSE_LOAD_PAGE_FAULT then put_cause CAUSE_FETCH_PAGE_FAULT clear
  else if cause trap =? CAUSE_LOAD_GUEST_PAGE_FAULT then
    put_cause CAUSE_FETCH_GUEST_PAGE_FAULT
      (if negb (tinst trap =? INSN_PSEUDO_VS_LOAD) && negb (tinst trap =? INSN_PSEUDO_VS_STORE) then clear else trap)
  else trap.

(** A fault of the first load clears MPRV and leaves the register of the
    instruction word undefined; the code goes on with its low bits, and a fault of
    the second load replaces the first. *)
Definition sbi_get_insn (m : mem) (mepc : Z) : Z + sbi_trap_info :=
  match unpriv_load m OP_LOAD_MXR mepc 2 with
  | inr trap =>
      let second := if Z.land (undefined_insn u) 3 =? 3 then machine_fault u (u64 (mepc + 2)) else None in
      inr (fetch_trap (match second with Some t => expected_trap e t | None => trap end))
  | inl low =>
      let insn := le_value low in
      if negb (Z.land insn 3 =? 3) then inl insn
      else match unpriv_load m OP_LOAD_MXR (u64 (mepc + 2)) 2 with
           | inr trap => inr (fetch_trap trap)
           | inl high => inl (u64 (insn + shl64 (le_value high) 16))
           end
  end.

Definition sbi_trap_tinst_valid (tinst : Z) : bool := (tinst =? u32 tinst) && truthy (Z.land tinst 1).

Definition sbi_misaligned_tinst_fixup (orig uptrap : sbi_trap_info) : sbi_trap_info :=
  let off := u64 (tval uptrap - tval orig) in
  let put_tinst i := mkInfo (cause uptrap) (tval uptrap) (tval2 uptrap) i (gva uptrap) in
  if (tinst uptrap =? INSN_PSEUDO_VS_LOAD) || (tinst uptrap =? INSN_PSEUDO_VS_STORE) then uptrap
  else if tinst orig =? 0 then put_tinst 0
  else put_tinst (Z.lor (tinst orig) (shl64 off 15)).

Definition MXL_TO_XLEN (x : Z) : Z := Z.shiftl 1 (x + 4).
Definition sbi_mstatus_sxl (s : Z) : Z := Z.shiftr (Z.land s (MSTATUS SXL)) 34.
Definition sbi_mstatus_uxl (s : Z) : Z := Z.shiftr (Z.land s (MSTATUS UXL)) 32.
Definition sbi_hstatus_vsxl (s : Z) : Z := Z.shiftr (Z.land s 0x300000000) 32.

Definition sbi_regs_prev_xlen (c : cpu) (regs : sbi_trap_regs) : Z :=
  let s := r_mstatus regs in
  let mode := sbi_mstatus_prev_mode s in
  if negb (sbi_regs_from_virt regs) then
    if mode =? PRV_M then 64
    else if mode =? PRV_S then MXL_TO_XLEN (sbi_mstatus_sxl s)
    else MXL_TO_XLEN (sbi_mstatus_uxl s)
  else if sbi_mstatus_sxl s <? 2 then 32
  else if sbi_hstatus_vsxl (hstatus (c_h c)) <? 2 then 32
  else if mode =? PRV_S then MXL_TO_XLEN (sbi_hstatus_vsxl (hstatus (c_h c)))
  else MXL_TO_XLEN (sbi_mstatus_uxl (vsstatus_read e (c_vsstatus c))).

(** SET_F32_RD, SET_F64_RD, SET_F32_RDS and SET_F64_RDS. *)
Definition set_freg (x : sbi_trap_context) (r size v : Z) : sbi_trap_context :=
  let regs := t_regs x in
  mkCtx (mkRegs (r_mepc regs) (Z.lor (r_mstatus regs) (MSTATUS FS))) (t_gprs x)
    (set_reg (t_f x) r (freg size (if size =? 4 then u32 v else v))) (fp_written e (t_cpu x) (sbi_regs_from_virt regs)) (t_mem x).

Definition redirect (x : sbi_trap_context) (trap : sbi_trap_info) : Z * sbi_trap_context :=
  let '(rc, regs, c) := sbi_trap_redirect e (t_cpu x) (t_regs x) trap in (rc, with_regs x regs c).

(** The instruction that trapped, with its length: the transformed instruction in
    tinst ([true]), or the one mepc points to. *)
Definition trapped_insn (x : sbi_trap_context) (orig : sbi_trap_info) : bool * Z * Z + sbi_trap_info :=
  if sbi_trap_tinst_valid (tinst orig) then
    let insn := Z.lor (tinst orig) 3 in
    inl (true, insn, if truthy (Z.land (tinst orig) 2) then INSN_LEN insn else 2)
  else match sbi_get_insn (t_mem x) (r_mepc (t_regs x)) with
       | inr uptrap => inr uptrap
       | inl insn => inl (false, insn, INSN_LEN insn)
       end.

(** The distance of the faulting address from the address of the access. *)
Definition fault_offset (load xform : bool) (d : decoded) (insn len : Z) (x : sbi_trap_context) (orig : sbi_trap_info) : Z :=
  Z.land (if xform then GET_NUM RS1 insn
          else u64 (u64 (tval orig - t_gprs x (base_reg d insn)) - offset load d insn))
         (len - 1).

Definition advance (x : sbi_trap_context) (insn_len : Z) : sbi_trap_context :=
  with_regs x (mkRegs (u64 (r_mepc (t_regs x) + insn_len)) (r_mstatus (t_regs x))) (t_cpu x).

(** sbi_trap_ld_emulator and sbi_trap_st_emulator: instruction, length, address,
    and for a store the value; the result code, and for a load the value. *)
Definition ld_emulator : Type := Z -> Z -> Z -> sbi_trap_info -> sbi_trap_context -> Z * Z * sbi_trap_context.
Definition st_emulator : Type := Z -> Z -> Z -> Z -> sbi_trap_info -> sbi_trap_context -> Z * sbi_trap_context.

(** What follows the call of the emulator. *)
Definition finish_load (d : decoded) (insn insn_len : Z) (res : Z * Z * sbi_trap_context) : Z * sbi_trap_context :=
  let '(rc, val, x) := res in
  let len := Z.abs (d_len d) in
  let shift := if d_len d <? 0 then 8 * (8 - len) else 0 in
  if rc <=? 0 then (rc, x)
  else if len =? 0 then (0, advance x insn_len)
  else
    let r := data_reg true d insn in
    let x := if negb (d_fp d)
             then mkCtx (t_regs x) (set_reg (t_gprs x) r (u64 (Z.shiftr (signed 64 (shl64 val shift)) shift))) (t_f x) (t_cpu x) (t_mem x)
             else set_freg x r len val in
    (0, advance x insn_len).

Definition sbi_trap_emulate_load (emu : ld_emulator) (orig : sbi_trap_info) (x : sbi_trap_context) : Z * sbi_trap_context :=
  match trapped_insn x orig with
  | inr uptrap => redirect x uptrap
  | inl (xform, insn, insn_len) =>
      let d := load_decode insn (sbi_regs_prev_xlen (t_cpu x) (t_regs x)) in
      let len := Z.abs (d_len d) in
      let off := if (len =? 0) || (cause orig =? CAUSE_MISALIGNED_LOAD) then 0 else fault_offset true xform d insn len x orig in
      finish_load d insn insn_len (emu insn len (u64 (tval orig - off)) orig x)
  end.

(** GET_F32_RS2 and the like sign-extend. *)
Definition stored_value (d : decoded) (insn : Z) (x : sbi_trap_context) : Z :=
  let r := data_reg false d insn in
  if negb (d_fp d) then t_gprs x r else if d_len d =? 8 then t_f x r else u64 (signed 32 (t_f x r)).

Definition finish_store (insn_len : Z) (res : Z * sbi_trap_context) : Z * sbi_trap_context :=
  let '(rc, x) := res in if rc <=? 0 then (rc, x) else (0, advance x insn_len).

Definition sbi_trap_emulate_store (emu : st_emulator) (orig : sbi_trap_info) (x : sbi_trap_context) : Z * sbi_trap_context :=
  match trapped_insn x orig with
  | inr uptrap => redirect x uptrap
  | inl (xform, insn, insn_len) =>
      let d := store_decode insn (sbi_regs_prev_xlen (t_cpu x) (t_regs x)) in
      let len := d_len d in
      let val := stored_value d insn x in
      let off := if (len =? 0) || (cause orig =? CAUSE_MISALIGNED_STORE) then 0 else fault_offset false xform d insn len x orig in
      finish_store insn_len (emu insn len (u64 (tval orig - off)) val orig x)
  end.

(** Vector instructions, like unknown ones, are passed on. *)
Definition sbi_misaligned_ld_emulator : ld_emulator := fun _ rlen addr orig x =>
  if rlen =? 0 then let '(rc, x) := redirect x orig in (rc, 0, x)
  else if negb (addr =? tval orig) then (SBI_EFAIL, 0, x)
  else match sbi_load_loop (Z.to_nat rlen) (t_mem x) addr rlen with
       | inr uptrap => let '(rc, x) := redirect x (sbi_misaligned_tinst_fixup orig uptrap) in (rc, 0, x)
       | inl bytes => (rlen, le_value bytes, x)
       end.

Definition sbi_misaligned_st_emulator : st_emulator := fun _ wlen addr val orig x =>
  if wlen =? 0 then redirect x orig
  else if negb (addr =? tval orig) then (SBI_EFAIL, x)
  else match sbi_store_loop (Z.to_nat wlen) (t_mem x) addr (le_bytes (Z.to_nat wlen) val) with
       | (m, Some uptrap) => redirect (with_mem x m) (sbi_misaligned_tinst_fixup orig uptrap)
       | (m, None) => (wlen, with_mem x m)
       end.

Definition sbi_misaligned_load_handler : sbi_trap_info -> sbi_trap_context -> Z * sbi_trap_context :=
  sbi_trap_emulate_load sbi_misaligned_ld_emulator.
Definition sbi_misaligned_store_handler : sbi_trap_info -> sbi_trap_context -> Z * sbi_trap_context :=
  sbi_trap_emulate_store sbi_misaligned_st_emulator.

(** [None]: the platform has no emulate_load or emulate_store. *)
Definition sbi_ld_access_emulator (plat : option ld_emulator) : ld_emulator := fun insn rlen addr orig x =>
  if sbi_mstatus_prev_mode (r_mstatus (t_regs x)) =? PRV_M then (SBI_EINVAL, 0, x)
  else
    let '(rc, val, x) := match plat with Some emu => emu insn rlen addr orig x | None => (SBI_ENOTSUPP, 0, x) end in
    if rc <? 0 then let '(rc, x) := redirect x orig in (rc, 0, x) else (rc, val, x).

Definition sbi_st_access_emulator (plat : option st_emulator) : st_emulator := fun insn wlen addr val orig x =>
  if sbi_mstatus_prev_mode (r_mstatus (t_regs x)) =? PRV_M then (SBI_EINVAL, x)
  else
    let '(rc, x) := match plat with Some emu => emu insn wlen addr val orig x | None => (SBI_ENOTSUPP, x) end in
    if rc <? 0 then redirect x orig else (rc, x).

Definition sbi_load_access_handler (plat : option ld_emulator) : sbi_trap_info -> sbi_trap_context -> Z * sbi_trap_context :=
  sbi_trap_emulate_load (sbi_ld_access_emulator plat).
Definition sbi_store_access_handler (plat : option st_emulator) : sbi_trap_info -> sbi_trap_context -> Z * sbi_trap_context :=
  sbi_trap_emulate_store (sbi_st_access_emulator plat).

(** Exceptions.  [None]: illegal instructions, calls, double traps and interrupts,
    which have handlers of their own.  No software event is pending. *)
Definition sbi_trap_handler (pld : option ld_emulator) (pst : option st_emulator) (trap : sbi_trap_info)
    (x : sbi_trap_context) : option (Z * sbi_trap_context) :=
  let on n := cause trap =? n in
  if truthy (Z.land (cause trap) (2 ^ 63)) then None
  else if on CAUSE_ILLEGAL_INSTRUCTION then None
  else if on CAUSE_MISALIGNED_LOAD then Some (sbi_misaligned_load_handler trap x)
  else if on CAUSE_MISALIGNED_STORE then Some (sbi_misaligned_store_handler trap x)
  else if on CAUSE_SUPERVISOR_ECALL || on CAUSE_MACHINE_ECALL then None
  else if on CAUSE_LOAD_ACCESS then Some (sbi_load_access_handler pld trap x)
  else if on CAUSE_STORE_ACCESS then Some (sbi_store_access_handler pst trap x)
  else if on CAUSE_DOUBLE_TRAP then None
  else Some (redirect x trap).

(** TRAP_RESTORE_GENERAL_REGS and mret.  The zero register is not restored. *)
Definition trap_exit (x : sbi_trap_context) : hart :=
  mkHart (trap_leave e (t_cpu x) (t_regs x)) (fun r => if r =? 0 then 0 else t_gprs x r) (t_f x) (t_mem x).

(** From trap to return. *)
Definition firmware (pld : option ld_emulator) (pst : option st_emulator) (h : hart) : option (Z * hart) :=
  let '(regs, info) := trap_enter e (h_cpu h) in
  '(rc, x) ← sbi_trap_handler pld pst info (mkCtx regs (h_x h) (h_f h) (h_cpu h) (h_mem h));
  Some (rc, trap_exit x).
End Firmware.

(** ** Accesses byte by byte *)

(** What is assumed of page tables and PMP: both decide by page, and a trap names
    the mode and the cause as the hardware does. *)
Record mmu_ok (e : isa) (u : mmu) : Prop := {
  mo_page : forall type a b p, a / PGSIZE = b / PGSIZE -> walk u type a = inl p -> walk u type b = inl p;
  mo_base : forall type a p, walk u type a = inl p -> p mod PGSIZE = 0;
  mo_pmp : forall type p off len, p mod PGSIZE = 0 -> 0 <= off -> 0 < len -> off + len <= PGSIZE ->
    pmp_allows u type (p + off) len = pmp_allows u type p 1;
  mo_trap : forall type a t, walk u type a = inr t ->
    5 <= t_cause t < 64 /\ t_gva t = effective_virt u /\ (t_tinst t = 0 \/ t_tinst t = INSN_PSEUDO_VS_LOAD \/ t_tinst t = INSN_PSEUDO_VS_STORE) /\
    (has_h e = false -> t_tval2 t = 0 /\ t_tinst t = 0) }.

Section Bytes.
Context (e : isa) (u : mmu) (Hu : mmu_ok e u).

(** A byte at a time: the physical address. *)
Definition byte_addr (type : mem_op) (a : Z) : Z + trap_t := translate u type a 1.

Fixpoint load_bytes (m : mem) (type : mem_op) (n : nat) (a : Z) : list Z + trap_t :=
  match n with
  | O => inl []
  | S n => match byte_addr type a with
           | inr t => inr t
           | inl p => match load_bytes m type n (u64 (a + 1)) with
                      | inr t => inr t
                      | inl l => inl (m p :: l)
                      end
           end
  end.

Fixpoint store_bytes (m : mem) (a : Z) (l : list Z) : mem * option trap_t :=
  match l with
  | [] => (m, None)
  | b :: l => match byte_addr OP_STORE a with
              | inr t => (m, Some t)
              | inl p => store_bytes (upd m p b) (u64 (a + 1)) l
              end
  end.

Lemma page_or p a : p mod PGSIZE = 0 -> Z.lor p (Z.land a (PGSIZE - 1)) = p + a mod PGSIZE.
Proof.
  intros Hp. change (PGSIZE - 1) with (2 ^ 12 - 1). rewrite land_ones_mod by lia.
  assert (p = Z.shiftl (p / PGSIZE) 12) as ->.
  { rewrite Z.shiftl_mul_pow2 by lia. change (2 ^ 12) with PGSIZE. Z.div_mod_to_equations. lia. }
  rewrite Z.lor_comm, lor_above; [apply Z.add_comm|lia|]. apply Z.mod_pos_bound. lia.
Qed.

(** In a page, the whole access is translated like its first byte. *)
Lemma translate_page type a len :
  0 < len -> a mod PGSIZE + len <= PGSIZE -> translate u type a len = byte_addr type a.
Proof.
  intros Hl Ha. unfold byte_addr, translate. destruct (walk u type a) as [p|t] eqn:Ew; [|done].
  pose proof (mo_base e u Hu type a p Ew) as Hp.
  rewrite page_or by done.
  assert (0 <= a mod PGSIZE < PGSIZE) by (apply Z.mod_pos_bound; lia).
  by rewrite !(mo_pmp e u Hu) by lia.
Qed.

Lemma byte_next type a p :
  byte_addr type a = inl p -> a mod PGSIZE + 1 < PGSIZE -> byte_addr type (a + 1) = inl (p + 1).
Proof.
  unfold byte_addr, translate. intros Ht Ha. destruct (walk u type a) as [q|] eqn:Ew; [|done].
  pose proof (mo_base e u Hu type a q Ew) as Hq.
  rewrite (mo_page e u Hu type a (a + 1) q) by (done || (Z.div_mod_to_equations; lia)).
  rewrite !page_or in * by done. assert ((a + 1) mod PGSIZE = a mod PGSIZE + 1) as -> by (Z.div_mod_to_equations; lia).
  assert (0 <= a mod PGSIZE < PGSIZE) by (apply Z.mod_pos_bound; lia).
  rewrite !(mo_pmp e u Hu) in * by lia. destruct (pmp_allows u type q 1); [|done]. simplify_eq. f_equal. lia.
Qed.

Lemma next_in_page a :
  in_range 64 a -> a mod PGSIZE + 1 < PGSIZE ->
  u64 (a + 1) = a + 1 /\ in_range 64 (a + 1) /\ (a + 1) mod PGSIZE = a mod PGSIZE + 1.
Proof.
  intros Ha Hp. assert (a + 1 <> 2 ^ 64).
  { intros E. assert (a mod PGSIZE = PGSIZE - 1); [|lia]. replace a with (2 ^ 64 - 1) by lia. reflexivity. }
  unfold in_range in *. split_and!; [apply wrap_id; lia|lia|lia|Z.div_mod_to_equations; lia].
Qed.

Lemma read_bytes_S m p n : read_bytes m p (S n) = m p :: read_bytes m (p + 1) n.
Proof.
  unfold read_bytes. rewrite <- cons_seq. cbn [fmap list_fmap]. f_equal; [f_equal; lia|].
  rewrite <- fmap_S_seq, <- list_fmap_compose. apply list_fmap_ext. intros _ k _. cbn. f_equal. lia.
Qed.

Lemma load_page m type n a :
  in_range 64 a -> (0 < n)%nat -> a mod PGSIZE + Z.of_nat n <= PGSIZE ->
  load_bytes m type n a = match byte_addr type a with inr t => inr t | inl p => inl (read_bytes m p n) end.
Proof.
  revert a. induction n as [|[|n] IH]; intros a Ha Hn Hp; [lia| |].
  - cbn [load_bytes]. destruct (byte_addr type a) as [p|]; [|done]. by rewrite read_bytes_S.
  - cbn [load_bytes] in *. destruct (byte_addr type a) as [p|t] eqn:Eb; [|done].
    destruct (next_in_page a Ha ltac:(lia)) as (-> & Hr & Em). rewrite IH, (byte_next type a p) by (done || lia).
    by rewrite (read_bytes_S m p).
Qed.

Lemma intrapage_bytes m type a len :
  in_range 64 a -> 0 < len -> a mod PGSIZE + len <= PGSIZE ->
  load_slow_path_intrapage u m type a len = load_bytes m type (Z.to_nat len) a.
Proof.
  intros Ha Hl Hp. unfold load_slow_path_intrapage. rewrite translate_page, load_page by (done || lia). done.
Qed.

Lemma load_bytes_app m type n k a :
  in_range 64 a ->
  load_bytes m type (n + k) a =
  match load_bytes m type n a with
  | inr t => inr t
  | inl l => match load_bytes m type k (u64 (a + Z.of_nat n)) with inr t => inr t | inl l' => inl (l ++ l') end
  end.
Proof.
  revert a. induction n as [|n IH]; intros a Ha; cbn [Nat.add load_bytes].
  - rewrite Z.add_0_r, wrap_id by done. by destruct (load_bytes m type k a).
  - destruct (byte_addr type a) as [p|]; [|done]. rewrite IH by (apply wrap_range; lia).
    destruct (load_bytes m type n (u64 (a + 1))) as [l|]; [|done].
    rewrite wrap_add_l. replace (a + 1 + Z.of_nat n) with (a + Z.of_nat (S n)) by lia.
    by destruct (load_bytes m type k _).
Qed.

(** A multiple of a small power of two ends before its page does. *)
Lemma aligned_in_page a w :
  w = 1 \/ w = 2 \/ w = 4 \/ w = 8 -> Z.land a (w - 1) = 0 -> a mod PGSIZE + w <= PGSIZE.
Proof.
  intros Hw E. assert (a mod w = 0) as Ha.
  { destruct Hw as [->|[->|[->| ->]]]; [apply Z.mod_1_r| | |]; (etransitivity; [symmetry|exact E]).
    - by apply (land_ones_mod a 1).
    - by apply (land_ones_mod a 2).
    - by apply (land_ones_mod a 3). }
  clear E. Z.div_mod_to_equations. destruct Hw as [->|[->|[->| ->]]]; lia.
Qed.

Lemma next_page a : u64 (a + (PGSIZE - a mod PGSIZE)) mod PGSIZE = 0.
Proof.
  unfold wrap. rewrite Z.mod_mod_divide by (by exists (2 ^ 52)). Z.div_mod_to_equations. lia.
Qed.

(** An access of Spike with support for misaligned ones. *)
Lemma load_slow_path_bytes m a len :
  in_range 64 a -> len = 1 \/ len = 2 \/ len = 4 \/ len = 8 ->
  load_slow_path u true m a len = load_bytes m OP_LOAD (Z.to_nat len) a.
Proof.
  intros Ha Hl. unfold load_slow_path. assert (0 <= a mod PGSIZE < PGSIZE) as Hm by (apply Z.mod_pos_bound; lia).
  destruct (Z.eqb_spec (Z.land a (len - 1)) 0) as [E|_].
  { rewrite intrapage_bytes; [done|done|lia|]. by apply aligned_in_page. }
  cbn [negb]. cbv zeta. set (n0 := Z.min len (PGSIZE - a mod PGSIZE)).
  assert (0 < n0 <= len) as Hn0 by lia. rewrite intrapage_bytes by (done || lia).
  destruct (Z.eqb_spec n0 len) as [->|Hne]; [by destruct (load_bytes m OP_LOAD (Z.to_nat len) a)|].
  replace (Z.to_nat len) with (Z.to_nat n0 + Z.to_nat (len - n0))%nat by lia.
  rewrite load_bytes_app by done. rewrite Z2Nat.id by lia. destruct (load_bytes m OP_LOAD (Z.to_nat n0) a); [|done].
  rewrite intrapage_bytes; [done|by apply wrap_range|lia|].
  assert (n0 = PGSIZE - a mod PGSIZE) as -> by lia. rewrite next_page. lia.
Qed.

Lemma piece_spec a len :
  0 < len ->
  let w := piece a len in
  (w = 1 \/ w = 2 \/ w = 4 \/ w = 8) /\ w <= len /\ Z.land a (w - 1) = 0.
Proof.
  intros Hl. unfold piece, narrow, truthy. change (8 / 2 / 2 / 2) with 1. change (8 / 2 / 2) with 2. change (8 / 2) with 4.
  assert (forall w, (len <? w) || negb (Z.land a (w - 1) =? 0) = false -> w <= len /\ Z.land a (w - 1) = 0) as H by lia.
  destruct ((len <? 8) || _) eqn:E8; [|cbv zeta; auto]. destruct ((len <? 4) || _) eqn:E4; [|cbv zeta; auto].
  destruct ((len <? 2) || _) eqn:E2; [|cbv zeta; auto]. cbv zeta. split_and!; [by left|lia|apply Z.land_0_r].
Qed.

(** The loop of the firmware. *)
Lemma load_loop_bytes m n a len :
  in_range 64 a -> 0 <= len <= Z.of_nat n ->
  sbi_load_loop e u n m a len =
  match load_bytes m OP_LOAD (Z.to_nat len) a with inl l => inl l | inr t => inr (expected_trap e t) end.
Proof.
  revert a len. induction n as [|n IH]; intros a len Ha Hn; cbn [sbi_load_loop].
  { by replace (Z.to_nat len) with 0%nat by lia. }
  destruct (Z.eqb_spec len 0) as [->|Hl]; [done|]. destruct (piece_spec a len ltac:(lia)) as (Hw & Hle & Hal).
  set (w := piece a len) in *. unfold unpriv_load.
  rewrite intrapage_bytes by (done || lia || by apply aligned_in_page).
  replace (Z.to_nat len) with (Z.to_nat w + Z.to_nat (len - w))%nat by lia.
  rewrite load_bytes_app by done. rewrite Z2Nat.id by lia. destruct (load_bytes m OP_LOAD (Z.to_nat w) a); [|done].
  rewrite IH by (try (by apply wrap_range); lia). by destruct (load_bytes m OP_LOAD (Z.to_nat (len - w)) _).
Qed.

(** Stores. *)
Lemma store_page m a l :
  in_range 64 a -> l <> [] -> a mod PGSIZE + Z.of_nat (length l) <= PGSIZE ->
  store_bytes m a l = match byte_addr OP_STORE a with inr t => (m, Some t) | inl p => (write_bytes m p l, None) end.
Proof.
  revert m a. induction l as [|b [|b' l] IH]; intros m a Ha Hn Hp; [done| |].
  - cbn [store_bytes write_bytes]. by destruct (byte_addr OP_STORE a).
  - cbn [store_bytes] in *. destruct (byte_addr OP_STORE a) as [p|t] eqn:Eb; [|done].
    cbn [length] in Hp. destruct (next_in_page a Ha ltac:(lia)) as (-> & Hr & Em).
    by rewrite IH, (byte_next OP_STORE a p) by (done || (cbn [length]; lia)).
Qed.

Lemma store_intrapage_bytes m a l :
  in_range 64 a -> l <> [] -> a mod PGSIZE + Z.of_nat (length l) <= PGSIZE ->
  store_slow_path_intrapage u m a l = store_bytes m a l.
Proof.
  intros Ha Hl Hp. assert (0 < Z.of_nat (length l)) by (destruct l; [done|cbn [length]; lia]).
  unfold store_slow_path_intrapage. by rewrite translate_page, store_page by (done || lia).
Qed.

Lemma store_bytes_app l : forall m a l',
  in_range 64 a ->
  store_bytes m a (l ++ l') =
  match store_bytes m a l with
  | (m', Some t) => (m', Some t)
  | (m', None) => store_bytes m' (u64 (a + Z.of_nat (length l))) l'
  end.
Proof.
  induction l as [|b l IH]; intros m a l' Ha; cbn [app store_bytes length].
  - by rewrite Z.add_0_r, wrap_id by done.
  - destruct (byte_addr OP_STORE a) as [p|]; [|done]. rewrite IH by (by apply wrap_range).
    destruct (store_bytes (upd m p b) (u64 (a + 1)) l) as [m' [t|]]; [done|].
    rewrite wrap_add_l. do 2 f_equal. lia.
Qed.

Lemma take_drop_parts {A} (l : list A) (w : Z) :
  0 < w <= Z.of_nat (length l) ->
  let k := Z.to_nat w in
  l = take k l ++ drop k l /\ Z.of_nat (length (take k l)) = w /\ Z.of_nat (length (drop k l)) = Z.of_nat (length l) - w /\
  take k l <> [].
Proof.
  intros Hw k. assert (length (take k l) = k) as Ht by (rewrite length_take; lia).
  split_and!; [by rewrite take_drop|lia|rewrite length_drop; lia|]. intros E. rewrite E in Ht. cbn in Ht. lia.
Qed.

Lemma store_slow_path_bytes m a l :
  in_range 64 a -> let len := Z.of_nat (length l) in len = 1 \/ len = 2 \/ len = 4 \/ len = 8 ->
  store_slow_path u true m a l = store_bytes m a l.
Proof.
  intros Ha len Hl. unfold store_slow_path. fold len. assert (0 <= a mod PGSIZE < PGSIZE) as Hm by (apply Z.mod_pos_bound; lia).
  assert (l <> []) as Hne by (intros ->; cbn in len; lia).
  unfold truthy. destruct (Z.eqb_spec (Z.land a (len - 1)) 0) as [E|_]; cbn [negb].
  { apply store_intrapage_bytes; [done|done|]. by apply aligned_in_page. }
  cbv zeta. set (n0 := Z.min len (PGSIZE - a mod PGSIZE)).
  destruct (take_drop_parts l n0 ltac:(lia)) as (El & Lt & Ld & Ht).
  rewrite store_intrapage_bytes by (done || lia).
  destruct (Z.eqb_spec n0 len) as [E0|E0].
  - rewrite E0. unfold len. rewrite Nat2Z.id, take_ge by lia. destruct (store_bytes m a l) as [m' [t|]]; done.
  - assert (store_bytes m a l = store_bytes m a (take (Z.to_nat n0) l ++ drop (Z.to_nat n0) l)) as -> by (by rewrite <- El).
    rewrite store_bytes_app, Lt by done. destruct (store_bytes m a _) as [m' [t|]]; [done|].
    apply store_intrapage_bytes; [by apply wrap_range|intros E; rewrite E in Ld; cbn in Ld; lia|].
    rewrite Ld. assert (n0 = PGSIZE - a mod PGSIZE) as -> by lia. rewrite next_page. lia.
Qed.

Lemma store_loop_bytes n : forall m a l,
  in_range 64 a -> (length l <= n)%nat ->
  sbi_store_loop e u n m a l = let '(m', t) := store_bytes m a l in (m', expected_trap e <$> t).
Proof.
  induction n as [|n IH]; intros m a l Ha Hn; cbn [sbi_store_loop].
  { by destruct l; [|cbn in Hn; lia]. }
  destruct (Z.eqb_spec (Z.of_nat (length l)) 0) as [E|E]; [by destruct l|].
  destruct (piece_spec a (Z.of_nat (length l)) ltac:(lia)) as (Hw & Hle & Hal).
  set (w := piece a (Z.of_nat (length l))) in *.
  destruct (take_drop_parts l w ltac:(lia)) as (El & Lt & Ld & Ht). unfold unpriv_store.
  rewrite store_intrapage_bytes by (done || (rewrite Lt; by apply aligned_in_page)).
  assert (store_bytes m a l = store_bytes m a (take (Z.to_nat w) l ++ drop (Z.to_nat w) l)) as -> by (by rewrite <- El).
  rewrite store_bytes_app, Lt by done. destruct (store_bytes m a _) as [m' [t|]]; [done|].
  cbn [fmap option_fmap option_map]. apply IH; [by apply wrap_range|lia].
Qed.
End Bytes.

(** ** Values *)

Definition byte_mem (m : mem) : Prop := forall a, 0 <= m a < 256.

Lemma load_bytes_range u m type n a l :
  byte_mem m -> load_bytes u m type n a = inl l -> length l = n /\ Forall (fun b => 0 <= b < 256) l.
Proof.
  intros Hm. revert a l. induction n as [|n IH]; intros a l; cbn [load_bytes]; [intros; by simplify_eq|].
  destruct (byte_addr u type a); [|done]. destruct (load_bytes u m type n (u64 (a + 1))) as [l'|] eqn:E; [|done].
  intros ?. simplify_eq. destruct (IH _ _ E) as [<- HF]. split; [done|]. by constructor.
Qed.

Lemma le_value_range l : Forall (fun b => 0 <= b < 256) l -> 0 <= le_value l < 2 ^ (8 * Z.of_nat (length l)).
Proof.
  induction 1 as [|b l Hb Hl IH]; cbn [le_value length]; [cbn; lia|].
  replace (8 * Z.of_nat (S (length l))) with (8 + 8 * Z.of_nat (length l)) by lia. rewrite Z.pow_add_r by lia.
  change (2 ^ 8) with 256. lia.
Qed.

Lemma sign_shift v w : 0 < w <= 64 -> in_range w v -> Z.shiftr (signed 64 (shl64 v (64 - w))) (64 - w) = signed w v.
Proof.
  intros Hw Hv. unfold in_range in Hv. pose proof (pow2_pos (64 - w) ltac:(lia)) as Hs.
  assert (2 ^ 64 = 2 ^ w * 2 ^ (64 - w)) as E64 by (rewrite <- Z.pow_add_r by lia; f_equal; lia).
  assert (2 ^ 63 = 2 ^ (w - 1) * 2 ^ (64 - w)) as E63 by (rewrite <- Z.pow_add_r by lia; f_equal; lia).
  assert (shl64 v (64 - w) = v * 2 ^ (64 - w)) as ->.
  { unfold shl64. rewrite Z.shiftl_mul_pow2 by lia. apply wrap_id. rewrite E64. nia. }
  assert (signed 64 (v * 2 ^ (64 - w)) = signed w v * 2 ^ (64 - w)) as ->.
  { unfold signed. rewrite (wrap_id w), wrap_id by (done || rewrite E64; nia). change (64 - 1) with 63. rewrite E63, E64.
    destruct (Z.ltb_spec v (2 ^ (w - 1))), (Z.ltb_spec (v * 2 ^ (64 - w)) (2 ^ (w - 1) * 2 ^ (64 - w))); nia. }
  rewrite Z.shiftr_div_pow2 by lia. apply Z.div_mul. lia.
Qed.

Lemma u64_signed v : u64 (signed 64 v) = u64 v.
Proof.
  unfold signed. case_bool; [apply wrap_wrap|]. rewrite wrap_sub_l. unfold wrap. by rewrite <- Zminus_mod_idemp_r, Z.mod_same, Z.sub_0_r.
Qed.

(** The value the firmware computes is the one of the instruction. *)
Lemma loaded_value b d a l :
  agree true b d a -> Z.of_nat (length l) = a_size a -> Forall (fun b => 0 <= b < 256) l ->
  a_size a = 1 \/ a_size a = 2 \/ a_size a = 4 \/ a_size a = 8 ->
  let shift := if d_len d <? 0 then 8 * (8 - Z.abs (d_len d)) else 0 in
  u64 (Z.shiftr (signed 64 (shl64 (le_value l) shift)) shift) = load_value a l.
Proof.
  intros Ha Hl HF Hs. pose proof (le_value_range l HF) as Hv. rewrite Hl in Hv. cbv zeta.
  rewrite (ag_sign _ _ _ _ Ha), (ag_size _ _ _ _ Ha). unfold load_value.
  assert (in_range 64 (le_value l)) as H64.
  { unfold in_range. pose proof (pow2_le (8 * a_size a) 64 ltac:(lia)). lia. }
  assert (forall v, in_range 64 v -> u64 (Z.shiftr (signed 64 (shl64 v 0)) 0) = v) as H0.
  { intros v Hr. unfold shl64. rewrite Z.shiftl_0_r, Z.shiftr_0_r, u64_signed, wrap_wrap. by apply wrap_id. }
  destruct (a_signed a); cbn [andb]; [|by apply H0].
  destruct (Z.ltb_spec (a_size a) 8).
  - replace (8 * (8 - a_size a)) with (64 - 8 * a_size a) by lia. rewrite sign_shift by (done || lia). done.
  - rewrite H0 by done. assert (a_size a = 8) as -> by lia. rewrite u64_signed. by rewrite wrap_id.
Qed.

(** ** The state at the trap *)

(** The mode that trapped has 64 bits. *)
Definition mode64 (e : isa) (c : cpu) : Prop :=
  sbi_mstatus_sxl (mstatus (c_m c)) = 2 /\ sbi_mstatus_uxl (mstatus (c_m c)) = 2 /\
  (c_v c = true -> sbi_hstatus_vsxl (hstatus (c_h c)) = 2 /\ sbi_mstatus_uxl (vsstatus_read e (c_vsstatus c)) = 2).

Lemma two_bits x k :
  0 <= k -> Z.shiftr (Z.land x (Z.shiftl 3 k)) k = Z.b2z (Z.testbit x k) + 2 * Z.b2z (Z.testbit x (k + 1)).
Proof.
  intros Hk. change 3 with (Z.ones 2).
  rewrite Z.shiftr_land, Z.shiftr_shiftl_l, Z.sub_diag, Z.shiftl_0_r, Z.land_ones by lia.
  assert (Z.testbit x k = Z.testbit (Z.shiftr x k) 0) as -> by (rewrite Z.shiftr_spec by lia; f_equal; lia).
  assert (Z.testbit x (k + 1) = Z.testbit (Z.shiftr x k) 1) as -> by (rewrite Z.shiftr_spec by lia; f_equal; lia).
  rewrite !Z.testbit_spec' by lia. Z.div_mod_to_equations. lia.
Qed.

Lemma xl_bits x y :
  (forall n, 32 <= n <= 35 -> Z.testbit x n = Z.testbit y n) ->
  sbi_mstatus_sxl x = sbi_mstatus_sxl y /\ sbi_mstatus_uxl x = sbi_mstatus_uxl y.
Proof.
  intros H. unfold sbi_mstatus_sxl, sbi_mstatus_uxl.
  change (MSTATUS SXL) with (Z.shiftl 3 34). change (MSTATUS UXL) with (Z.shiftl 3 32).
  rewrite !two_bits, !H by lia. done.
Qed.

Section State.
Context (e : isa) (c : cpu) (t : trap_t).
Context (Hm : m_dte e = false) (Hh : h_dte e = false) (Hc : cpu_ok e c).

Let r := mstatus_read e (trap_word e c t).

Lemma from_virt pc : sbi_regs_from_virt (mkRegs pc r) = c_v c.
Proof. apply (trapped_regs e c t Hm Hh Hc). Qed.

Lemma prev_mode : sbi_mstatus_prev_mode r = c_prv c.
Proof. apply (trapped_regs e c t Hm Hh Hc). Qed.

Lemma prev_xlen_64 pc : mode64 e c -> sbi_regs_prev_xlen e (trapped e c t) (mkRegs pc r) = 64.
Proof.
  intros (Hs & Hux & Hv). unfold sbi_regs_prev_xlen. rewrite from_virt. cbn [r_mstatus]. rewrite prev_mode.
  destruct (xl_bits r (mstatus (c_m c))) as [-> ->].
  { intros n Hn. apply (word_bits e c t Hm Hc); unfold m_only; clear - Hn; lia. }
  rewrite Hs, Hux. change (c_h (trapped e c t)) with (c_h c). change (c_vsstatus (trapped e c t)) with (c_vsstatus c).
  destruct (c_v c).
  - destruct (Hv eq_refl) as [-> ->]. by destruct (c_prv c =? PRV_S).
  - by destruct (c_prv c =? PRV_M), (c_prv c =? PRV_S).
Qed.
End State.

(** ** The handler for a misaligned load *)

(** A trap of a memory access. *)
Definition fault_ok (e : isa) (u : mmu) (t : trap_t) : Prop :=
  0 <= t_cause t < 64 /\ t_gva t = effective_virt u /\
  (t_tinst t = 0 \/ t_tinst t = INSN_PSEUDO_VS_LOAD \/ t_tinst t = INSN_PSEUDO_VS_STORE).

Lemma byte_fault e u type a t : mmu_ok e u -> byte_addr u type a = inr t -> fault_ok e u t.
Proof.
  intros Hu. unfold byte_addr, translate. destruct (walk u type a) as [p|t'] eqn:Ew.
  - case_bool; [done|]. intros ?. simplify_eq. unfold fault_ok, throw_access_exception. cbn.
    split_and!; [by destruct type|by destruct type|done|by left].
  - intros ?. simplify_eq. destruct (mo_trap e u Hu type a t Ew) as (H1 & H2 & H3 & _). split_and!; try done; lia.
Qed.

Lemma load_fault e u m type n a t : mmu_ok e u -> load_bytes u m type n a = inr t -> fault_ok e u t.
Proof.
  intros Hu. revert a. induction n as [|n IH]; intros a; cbn [load_bytes]; [done|].
  destruct (byte_addr u type a) eqn:E; [|intros ?; simplify_eq; by apply (byte_fault e u type a)].
  destruct (load_bytes u m type n (u64 (a + 1))) eqn:E2; [done|]. intros ?. simplify_eq. by apply (IH (u64 (a + 1))).
Qed.

Lemma store_fault e u l : forall m a m' t, mmu_ok e u -> store_bytes u m a l = (m', Some t) -> fault_ok e u t.
Proof.
  induction l as [|b l IH]; intros m a m' t Hu; cbn [store_bytes]; [done|].
  destruct (byte_addr u OP_STORE a) eqn:E; [by apply IH|]. intros ?. simplify_eq. by apply (byte_fault e u OP_STORE a).
Qed.

(** The instruction field needs no repair. *)
Lemma fixup_same e u orig t :
  fault_ok e u t -> tinst orig = 0 -> sbi_misaligned_tinst_fixup orig (expected_trap e t) = expected_trap e t.
Proof.
  intros (_ & _ & Ht) Ho. unfold sbi_misaligned_tinst_fixup, expected_trap. rewrite Ho.
  destruct (has_h e); cbn [tinst cause tval tval2 gva]; [|done]. by destruct Ht as [->|[->| ->]].
Qed.

Lemma redirect_rc e x trap : fst (redirect e x trap) <= 0.
Proof.
  unfold redirect, sbi_trap_redirect. cbv zeta. destruct (negb (_ =? PRV_S) && _); [unfold SBI_ENOTSUPP; cbn; lia|].
  destruct (has_h e && _ && _ && _); cbn; lia.
Qed.

Lemma get_insn_range e u m pc b : mmu_ok e u -> in_range 64 pc -> pc mod 2 = 0 -> byte_mem m -> sbi_get_insn e u m pc = inl b -> in_range 32 b.
Proof.
  intros Hu Hpc Hev Hm. unfold sbi_get_insn, unpriv_load.
  assert (forall a, in_range 64 a -> a mod 2 = 0 -> a mod PGSIZE + 2 <= PGSIZE) as Hal.
  { intros a Ha He. Z.div_mod_to_equations. lia. }
  assert (forall a l, in_range 64 a -> a mod 2 = 0 -> load_slow_path_intrapage u m OP_LOAD_MXR a 2 = inl l -> 0 <= le_value l < 2 ^ 16) as Hr.
  { intros a l Ha He E. rewrite (intrapage_bytes e u Hu) in E by (done || auto). apply load_bytes_range in E; [|done].
    destruct E as [El EF]. apply le_value_range in EF. by rewrite El in EF. }
  destruct (load_slow_path_intrapage u m OP_LOAD_MXR pc 2) as [l|] eqn:E1; [|done]. pose proof (Hr _ _ Hpc Hev E1) as R1.
  case_bool; [intros ?; simplify_eq; unfold in_range; lia|].
  destruct (load_slow_path_intrapage u m OP_LOAD_MXR (u64 (pc + 2)) 2) as [l'|] eqn:E2; [|done].
  apply Hr in E2; [|by apply wrap_range|].
  - intros ?. simplify_eq. unfold shl64. rewrite Z.shiftl_mul_pow2 by lia. unfold in_range.
    rewrite (wrap_id 64 (_ * _)), wrap_id by lia. lia.
  - unfold wrap. rewrite Z.mod_mod_divide by (by exists (2 ^ 63)). Z.div_mod_to_equations. lia.
Qed.

(** ** Emulation and execution *)

Lemma size_facts load xlen b a :
  insn_access load xlen b a ->
  0 < a_size a /\ (a_size a =? 0) = false /\ (a_size a <=? 0) = false /\ Z.of_nat (Z.to_nat (a_size a)) = a_size a /\
  0 <= a_size a <= Z.of_nat (Z.to_nat (a_size a)).
Proof. intros Ha. pose proof (insn_size _ _ _ _ Ha). lia. Qed.

(** The hart at an instruction [b] it is about to execute. *)
Record scene (e : isa) (u : mmu) (h : hart) (b : Z) : Prop := {
  sc_isa : m_dte e = false /\ h_dte e = false /\ has_zca e = true /\ has_fs e = true;
  sc_cpu : cpu_ok e (h_cpu h);
  sc_pc : in_range 64 (c_pc (h_cpu h));
  sc_elp : c_elp (h_cpu h) = false;
  sc_spelp : no_stale_spelp (h_cpu h);
  sc_vs : vs_legal (c_vsstatus (h_cpu h));
  sc_64 : mode64 e (h_cpu h);
  sc_mmu : mmu_ok e u;
  sc_virt : effective_virt u = c_v (h_cpu h);
  sc_x : h_x h 0 = 0 /\ forall r, in_range 64 (h_x h r);
  sc_f : forall r, in_range 64 (h_f h r);
  sc_mem : byte_mem (h_mem h);
  sc_insn : sbi_get_insn e u (h_mem h) (c_pc (h_cpu h)) = inl b }.

(** What the code that runs on the hart can see. *)
Definition same_hart (e : isa) (h h' : hart) : Prop :=
  same_view e (h_cpu h) (h_cpu h') /\ (forall r, h_x h r = h_x h' r) /\ (forall r, h_f h r = h_f h' r) /\
  forall a, h_mem h a = h_mem h' a.

Lemma even_pc e c : cpu_ok e c -> in_range 64 (c_pc c) -> c_pc c mod 2 = 0.
Proof.
  intros Hc Hr. destruct (co_pc e c Hc) as [E _]. unfold epc_write in E. change 1 with (2 ^ 1 - 1) in E.
  rewrite land_not_mask in E by (done || lia). change (2 ^ 1) with 2 in E. lia.
Qed.

Lemma next_pc e c len :
  has_zca e = true -> cpu_ok e c -> in_range 64 (c_pc c) -> len = 2 \/ len = 4 ->
  epc_read e (epc_write (u64 (c_pc c + len))) = u64 (c_pc c + len).
Proof.
  intros Hz Hc Hr Hl. pose proof (even_pc e c Hc Hr) as He. set (p := u64 (c_pc c + len)).
  assert (in_range 64 p) as Hp by (by apply wrap_range).
  assert (p mod 2 = 0) as Hp2.
  { unfold p, wrap. rewrite Z.mod_mod_divide by (by exists (2 ^ 63)). Z.div_mod_to_equations. lia. }
  unfold epc_read, epc_write. rewrite Hz. change (Z.land p (not_w 64 1)) with (Z.land p (not_w 64 (2 ^ 1 - 1))).
  rewrite land_not_mask by (done || lia). change (2 ^ 1) with 2. rewrite Hp2, Z.sub_0_r.
  change 0 with (2 ^ 0 - 1). rewrite land_not_mask by (done || lia). rewrite Z.mod_1_r. lia.
Qed.

Lemma access_length load xlen b a : insn_access load xlen b a -> insn_length b = 2 \/ insn_length b = 4.
Proof.
  intros Ha. rewrite <- (length_forward load xlen b a Ha). unfold INSN_LEN. case_bool; auto.
Qed.

(** Floating point loads do not extend the sign. *)
Lemma fp_unsigned load xlen b a : insn_access load xlen b a -> a_fp a = true -> a_signed a = false.
Proof.
  intros (i & _ & Ha) Hf. destruct load, i; cbn in Ha; try discriminate Ha; repeat case_match; simplify_eq; done.
Qed.

Lemma fp_value a l :
  a_signed a = false -> Z.of_nat (length l) = a_size a -> Forall (fun b => 0 <= b < 256) l ->
  (if a_size a =? 4 then u32 (le_value l) else le_value l) = load_value a l.
Proof.
  intros Hs Hl HF. unfold load_value. rewrite Hs. destruct (Z.eqb_spec (a_size a) 4) as [E|]; [|done].
  apply wrap_id. apply le_value_range in HF. by rewrite Hl, E in HF.
Qed.

Section Load.
Context (e : isa) (u : mmu) (h : hart) (b : Z) (a : access).
Context (Hs : scene e u h b) (Ha : insn_access true 64 b a).

Let c := h_cpu h.
Let addr := access_addr h a b.
Let t0 := mkTrap 4 addr 0 0 (effective_virt u).
Let r := mstatus_read e (trap_word e c t0).
Let x0 := mkCtx (mkRegs (c_pc c) r) (h_x h) (h_f h) (trapped e c t0) (h_mem h).

Lemma addr_range : in_range 64 addr.
Proof. by apply wrap_range. Qed.

Lemma insn_range : in_range 32 b.
Proof.
  destruct Hs as [_ Hc Hpc _ _ _ _ Hu _ _ _ Hmem Hi]. apply (get_insn_range e u (h_mem h) (c_pc c)); try done.
  by apply (even_pc e).
Qed.

(** The registers after the load. *)
Definition load_done (l : list Z) : sbi_trap_context :=
  let n := reg_num (a_reg a) b in
  advance (if a_fp a then set_freg e x0 n (a_size a) (le_value l)
           else mkCtx (t_regs x0) (set_reg (h_x h) n (load_value a l)) (h_f h) (t_cpu x0) (h_mem h)) (insn_length b).

Lemma load_handler_result :
  sbi_misaligned_load_handler e u (expected_trap e t0) x0 =
  match load_slow_path u true (h_mem h) addr (a_size a) with
  | inl l => (0, load_done l)
  | inr t => redirect e x0 (expected_trap e t)
  end.
Proof.
  destruct Hs as [(Hm & Hh & Hz & Hfs) Hc Hpc Hel Hsp Hvs H64 Hu Hv Hx Hf Hmem Hi].
  pose proof insn_range as Hb. pose proof (insn_size _ _ _ _ Ha) as Hsize.
  destruct (size_facts _ _ _ _ Ha) as (Hpos & Hne & Hle & Hnat & Hfuel).
  destruct Ha as (i & Hii & Hai). rewrite spike_is_same in Hii.
  pose proof (load_forward 64 i b a Hb ltac:(by left) Hii Hai) as Hag.
  pose proof (length_forward true 64 b a Ha) as Hlen.
  unfold sbi_misaligned_load_handler, sbi_trap_emulate_load, finish_load, trapped_insn.
  assert (tinst (expected_trap e t0) = 0 /\ cause (expected_trap e t0) = 4 /\ tval (expected_trap e t0) = addr) as (-> & -> & ->)
    by (unfold expected_trap; by destruct (has_h e)).
  change (sbi_trap_tinst_valid 0) with false. cbv iota. cbn [x0 t_mem t_regs r_mepc]. unfold c. rewrite Hi.
  cbn [t_cpu]. fold c. rewrite (prev_xlen_64 e c t0 Hm Hh Hc) by done.
  set (d := load_decode b 64) in *. rewrite (ag_size _ _ _ _ Hag).
  rewrite Hne. cbn [orb]. change (4 =? 4) with true. cbv iota.
  rewrite Z.sub_0_r, (wrap_id 64 addr) by apply addr_range. unfold sbi_misaligned_ld_emulator.
  rewrite Hne.
  assert (tinst (expected_trap e t0) = 0 /\ tval (expected_trap e t0) = addr) as [Et0 ->]
    by (unfold expected_trap; by destruct (has_h e)).
  rewrite Z.eqb_refl. cbn [negb t_mem x0].
  rewrite (load_loop_bytes e u Hu), (load_slow_path_bytes e u Hu) by (done || apply addr_range).
  destruct (load_bytes u (h_mem h) OP_LOAD (Z.to_nat (a_size a)) addr) as [l|t] eqn:El.
  - rewrite Hle. apply load_bytes_range in El; [|done]. destruct El as [Ell ElF].
    cbn [t_regs t_gprs t_f t_cpu t_mem]. pose proof (loaded_value b d a l Hag (eq_trans (f_equal Z.of_nat Ell) Hnat) ElF Hsize) as Hval.
    cbv zeta in Hval. rewrite (ag_size _ _ _ _ Hag) in Hval. rewrite Hval.
    rewrite (ag_fp _ _ _ _ Hag), (ag_reg _ _ _ _ Hag), Hlen. unfold load_done. by destruct (a_fp a).
  - rewrite (fixup_same e u) by (done || by apply (load_fault e u _ _ _ _ _ Hu El)).
    pose proof (redirect_rc e x0 (expected_trap e t)) as Hrc. unfold x0 in Hrc.
    destruct (redirect e _ _) as [rc x']. cbn [fst] in Hrc. by rewrite (proj2 (Z.leb_le rc 0)).
Qed.

Lemma load_done_hart l h' :
  Z.of_nat (length l) = a_size a -> Forall (fun b => 0 <= b < 256) l -> a_fp a && negb (fp_enabled e (h_cpu h)) = false ->
  load_slow_path u true (h_mem h) addr (a_size a) = inl l -> exec_load e u true h b a = inl h' ->
  same_hart e (trap_exit e (load_done l)) h'.
Proof.
  intros Hl HF Hon El. unfold exec_load. rewrite Hon. fold addr. rewrite El. cbv zeta.
  destruct Hs as [(Hm & Hh & Hz & Hfs) Hc Hpc Hel Hsp Hvs H64 Hu Hv [Hx0 Hx] Hf Hmem Hi]. fold c in Hc, Hpc, Hel, Hvs.
  pose proof (next_pc e c (insn_length b) Hz Hc Hpc (access_length true 64 b a Ha)) as Hnext. fold c.
  unfold load_done. destruct (a_fp a) eqn:Efp; intros ?; simplify_eq;
    unfold trap_exit, advance, with_regs, set_freg, x0; cbn [t_cpu t_regs t_gprs t_f t_mem r_mepc r_mstatus].
  - split_and!; cbn [h_cpu h_x h_f h_mem].
    + rewrite (from_virt e c t0 Hm Hh Hc). by apply resume_fp_spec.
    + intros k. by destruct (Z.eqb_spec k 0) as [->|].
    + intros k. unfold set_reg. destruct (k =? reg_num (a_reg a) b); [|done]. rewrite fp_value; [done| |done|done]. by apply (fp_unsigned true 64 b).
    + done.
  - split_and!; cbn [h_cpu h_x h_f h_mem].
    + by apply resume_spec.
    + intros k. set (n := reg_num (a_reg a) b). destruct (Z.eqb_spec n 0) as [E0|E0].
      * unfold set_reg. rewrite E0. by destruct (Z.eqb_spec k 0) as [->|].
      * unfold set_reg. destruct (Z.eqb_spec k 0) as [->|]; [|done]. by rewrite (proj2 (Z.eqb_neq 0 n)).
    + done.
    + done.
Qed.
End Load.

(** C5: a misaligned load that the firmware emulates has the effect of the
    load.  On a hart without support for it the instruction traps to the
    firmware, which reads the bytes in aligned pieces and returns behind the
    instruction.  The registers, the memory and what the code on the hart can see
    of the CSRs are then those of a hart that has executed the load itself, and
    if one of the pieces faults, those of a hart whose load has taken that fault.
    This holds for every load instruction, compressed and floating point ones
    included, in every mode below machine mode.  If floating point is switched off,
    a floating point load is an illegal instruction on both kinds of hart. *)
Theorem misaligned_load_emulated e u h b a pld pst :
  scene e u h b -> insn_access true 64 b a ->
  Z.land (access_addr h a b) (a_size a - 1) <> 0 -> Z.testbit (medeleg (c_m (h_cpu h))) 4 = false ->
  if a_fp a && negb (fp_enabled e (h_cpu h))
  then forall misaligned, exec_load e u misaligned h b a = inr (trap_illegal_instruction b)
  else exists t0 c1 h2,
    exec_load e u false h b a = inr t0 /\ take_trap e (h_cpu h) t0 = Some c1 /\
    firmware e u pld pst (mkHart c1 (h_x h) (h_f h) (h_mem h)) = Some (0, h2) /\
    match exec_load e u true h b a with
    | inl h' => same_hart e h2 h'
    | inr t => exists c', take_trap e (delegating (h_cpu h) t) t = Some c' /\ same_hart e h2 (mkHart c' (h_x h) (h_f h) (h_mem h))
    end.
Proof.
  intros Hs Ha Hmis Hd. pose proof Hs as [(Hm & Hh & Hz & Hfs) Hc Hpc Hel Hsp Hvs H64 Hu Hv [Hx0 Hx] Hf Hmem Hi].
  destruct (a_fp a && _) eqn:Hon; [intros misaligned; unfold exec_load; by rewrite Hon|].
  set (t0 := mkTrap 4 (access_addr h a b) 0 0 (effective_virt u)).
  pose proof (load_handler_result e u h b a Hs Ha) as Hres. cbv zeta in Hres. fold t0 in Hres.
  pose proof (enter_trapped e (h_cpu h) Hm Hh Hc t0) as Hen.
  assert (cause (expected_trap e t0) = 4) as Hcs by (unfold expected_trap; by destruct (has_h e)).
  assert (forall x, sbi_trap_handler e u pld pst (expected_trap e t0) x = Some (sbi_misaligned_load_handler e u (expected_trap e t0) x)) as Hh4
    by (intros x; unfold sbi_trap_handler; by rewrite Hcs).
  exists t0, (trapped e (h_cpu h) t0). unfold firmware. cbn [h_cpu h_x h_f h_mem]. rewrite Hen, Hh4. cbn [mbind option_bind].
  rewrite Hres, (take_trap_m e (h_cpu h) t0 Hm Hh Hc) by (done || (cbn; lia)).
  assert (exec_load e u false h b a = inr t0) as ->.
  { unfold exec_load, load_slow_path. rewrite Hon. by rewrite (proj2 (Z.eqb_neq _ 0)). }
  destruct (load_slow_path u true (h_mem h) (access_addr h a b) (a_size a)) as [l|t] eqn:El.
  - eexists. split_and!; [done|done|done|].
    destruct (exec_load e u true h b a) as [h'|t] eqn:Ex; [|unfold exec_load in Ex; by rewrite Hon, El in Ex].
    pose proof El as El2. rewrite (load_slow_path_bytes e u Hu) in El2
      by (try (by apply wrap_range); by apply (insn_size true 64 b)).
    apply load_bytes_range in El2; [|done]. destruct El2 as [Ell ElF].
    apply load_done_hart; try done. pose proof (insn_size true 64 b a Ha). lia.
  - assert (exec_load e u true h b a = inr t) as -> by (unfold exec_load; by rewrite Hon, El).
    rewrite (load_slow_path_bytes e u Hu) in El by (try (by apply wrap_range); by apply (insn_size true 64 b)).
    destruct (load_fault e u _ _ _ _ _ Hu El) as (Hcause & Hgva & _).
    destruct (redirect_as e (h_cpu h) Hm Hh Hc t0 t) as (c2 & Ht & Hr); [by rewrite Hgva|done|done|].
    unfold redirect. cbn [t_cpu t_regs]. destruct (sbi_trap_redirect e _ _ _) as [[rc regs'] c'] eqn:Er.
    destruct Hr as [-> Hview]. eexists. split_and!; [done|done|done|]. exists c2. split; [done|].
    split_and!; [exact Hview| |done|done]. intros k. cbn. by destruct (Z.eqb_spec k 0) as [->|].
Qed.

(** ** Stores *)

Lemma le_bytes_low n : forall v w, v mod 2 ^ (8 * Z.of_nat n) = w mod 2 ^ (8 * Z.of_nat n) -> le_bytes n v = le_bytes n w.
Proof.
  induction n as [|n IH]; intros v w H; cbn [le_bytes]; [done|].
  replace (8 * Z.of_nat (S n)) with (8 + 8 * Z.of_nat n) in H by lia. rewrite Z.pow_add_r in H by lia. change (2 ^ 8) with 256 in H.
  pose proof (pow2_pos (8 * Z.of_nat n) ltac:(lia)) as Hp. f_equal.
  - rewrite <- (Z.mod_mod_divide v (256 * 2 ^ (8 * Z.of_nat n)) 256) by (by eexists; apply Z.mul_comm).
    rewrite H. apply Z.mod_mod_divide. eexists. apply Z.mul_comm.
  - apply IH. rewrite !Z.rem_mul_r in H by lia. Z.div_mod_to_equations. nia.
Qed.

(** The bytes the firmware stores are those of the register. *)
Lemma stored_bytes b d a x :
  agree false b d a -> a_signed a = false -> 0 < a_size a ->
  (a_fp a = true -> a_size a = 4 \/ a_size a = 8) ->
  d_len d = a_size a /\
  le_bytes (Z.to_nat (a_size a)) (stored_value d b x) =
  le_bytes (Z.to_nat (a_size a)) ((if a_fp a then t_f x else t_gprs x) (reg_num (a_reg a) b)).
Proof.
  intros Hag Hsg Hsz Hfp. pose proof (ag_sign _ _ _ _ Hag) as E1. rewrite Hsg in E1. cbn [andb] in E1.
  pose proof (ag_size _ _ _ _ Hag) as E2. assert (d_len d = a_size a) as Ed by lia. split; [done|].
  unfold stored_value. rewrite (ag_fp _ _ _ _ Hag), (ag_reg _ _ _ _ Hag), Ed.
  destruct (a_fp a); cbn [negb]; [|done]. destruct (Hfp eq_refl) as [-> | ->]; [|done]. cbn [Z.eqb Pos.eqb].
  apply le_bytes_low. change (8 * Z.of_nat (Z.to_nat 4)) with 32. unfold signed, wrap.
  rewrite Z.mod_mod_divide by (by exists (2 ^ 32)). case_bool; [by rewrite Z.mod_mod|].
  rewrite Zminus_mod, Z.mod_same, Z.sub_0_r, !Z.mod_mod by lia. done.
Qed.

Lemma store_access xlen b a :
  insn_access false xlen b a -> a_signed a = false /\ (a_fp a = true -> a_size a = 4 \/ a_size a = 8).
Proof. intros (i & _ & Ha). destruct i; cbn in Ha; try discriminate Ha; repeat case_match; simplify_eq; (split; [done|]); cbn; intros; by auto. Qed.

Section Store.
Context (e : isa) (u : mmu) (h : hart) (b : Z) (a : access).
Context (Hs : scene e u h b) (Ha : insn_access false 64 b a).

Let c := h_cpu h.
Let addr := access_addr h a b.
Let t0 := mkTrap 6 addr 0 0 (effective_virt u).
Let r := mstatus_read e (trap_word e c t0).
Let x0 := mkCtx (mkRegs (c_pc c) r) (h_x h) (h_f h) (trapped e c t0) (h_mem h).
Let bytes := le_bytes (Z.to_nat (a_size a)) ((if a_fp a then h_f h else h_x h) (reg_num (a_reg a) b)).

Lemma store_handler_result :
  sbi_misaligned_store_handler e u (expected_trap e t0) x0 =
  match store_slow_path u true (h_mem h) addr bytes with
  | (m, None) => (0, advance (with_mem x0 m) (insn_length b))
  | (m, Some t) => redirect e (with_mem x0 m) (expected_trap e t)
  end.
Proof.
  destruct Hs as [(Hm & Hh & Hz & Hfs) Hc Hpc Hel Hsp Hvs H64 Hu Hv Hx Hf Hmem Hi].
  pose proof (insn_range e u h b Hs) as Hb. pose proof (insn_size _ _ _ _ Ha) as Hsize.
  destruct (size_facts _ _ _ _ Ha) as (Hpos & Hne & Hle & Hnat & Hfuel).
  assert (in_range 64 addr) as Haddr by (by apply wrap_range). destruct (store_access 64 b a Ha) as [Hsg Hfp].
  destruct Ha as (i & Hii & Hai). rewrite spike_is_same in Hii.
  pose proof (store_forward 64 i b a Hb ltac:(by left) Hii Hai) as Hag.
  pose proof (length_forward false 64 b a Ha) as Hlen.
  unfold sbi_misaligned_store_handler, sbi_trap_emulate_store, finish_store, trapped_insn.
  assert (tinst (expected_trap e t0) = 0 /\ cause (expected_trap e t0) = 6 /\ tval (expected_trap e t0) = addr) as (-> & -> & ->)
    by (unfold expected_trap; by destruct (has_h e)).
  change (sbi_trap_tinst_valid 0) with false. cbv iota. cbn [x0 t_mem t_regs r_mepc]. unfold c. rewrite Hi.
  cbn [t_cpu]. fold c. rewrite (prev_xlen_64 e c t0 Hm Hh Hc) by done.
  destruct (stored_bytes b _ a x0 Hag Hsg Hpos Hfp) as [Ed Eb]. rewrite Ed.
  rewrite Hne. cbn [orb]. change (6 =? 6) with true. cbv iota.
  rewrite Z.sub_0_r, (wrap_id 64 addr) by done. unfold sbi_misaligned_st_emulator.
  rewrite Hne.
  assert (tinst (expected_trap e t0) = 0 /\ tval (expected_trap e t0) = addr) as [Et0 ->]
    by (unfold expected_trap; by destruct (has_h e)).
  rewrite Z.eqb_refl. cbn [negb].
  match goal with |- context[stored_value ?d b ?x] => change (stored_value d b x) with (stored_value (store_decode b 64) b x0) end.
  rewrite Eb. unfold x0. cbn [t_gprs t_f t_mem]. fold bytes.
  assert (length bytes = Z.to_nat (a_size a)) as Hlb by apply le_bytes_length.
  rewrite (store_loop_bytes e u Hu), (store_slow_path_bytes e u Hu) by (done || by rewrite Hlb, ?Hnat).
  destruct (store_bytes u (h_mem h) addr bytes) as [m [t|]] eqn:Est; cbn [fmap option_fmap option_map].
  - rewrite (fixup_same e u) by (done || by apply (store_fault e u _ _ _ _ _ Hu Est)).
    pose proof (redirect_rc e (with_mem x0 m) (expected_trap e t)) as Hrc. unfold x0 in Hrc.
    destruct (redirect e _ _) as [rc x']. cbn [fst] in Hrc. by rewrite (proj2 (Z.leb_le rc 0)).
  - rewrite Hle. by rewrite Hlen.
Qed.
End Store.

(** C6: a misaligned store that the firmware emulates has the effect of the
    store, as for loads.  If a piece of the store faults, the memory is as the
    hart would have left it: the bytes before the page of the fault are written,
    the others are not. *)
Theorem misaligned_store_emulated e u h b a pld pst :
  scene e u h b -> insn_access false 64 b a ->
  Z.land (access_addr h a b) (a_size a - 1) <> 0 -> Z.testbit (medeleg (c_m (h_cpu h))) 6 = false ->
  if a_fp a && negb (fp_enabled e (h_cpu h))
  then forall misaligned, exec_store e u misaligned h b a = (h, Some (trap_illegal_instruction b))
  else exists t0 c1 h2,
    exec_store e u false h b a = (h, Some t0) /\ take_trap e (h_cpu h) t0 = Some c1 /\
    firmware e u pld pst (mkHart c1 (h_x h) (h_f h) (h_mem h)) = Some (0, h2) /\
    match exec_store e u true h b a with
    | (h', None) => same_hart e h2 h'
    | (h', Some t) => exists c', take_trap e (delegating (h_cpu h) t) t = Some c' /\
        same_hart e h2 (mkHart c' (h_x h') (h_f h') (h_mem h'))
    end.
Proof.
  intros Hs Ha Hmis Hd. pose proof Hs as [(Hm & Hh & Hz & Hfs) Hc Hpc Hel Hsp Hvs H64 Hu Hv [Hx0 Hx] Hf Hmem Hi].
  destruct (a_fp a && _) eqn:Hon; [intros misaligned; unfold exec_store; by rewrite Hon|].
  set (t0 := mkTrap 6 (access_addr h a b) 0 0 (effective_virt u)). pose proof (insn_size false 64 b a Ha) as Hsize.
  pose proof (store_handler_result e u h b a Hs Ha) as Hres. cbv zeta in Hres. fold t0 in Hres.
  pose proof (enter_trapped e (h_cpu h) Hm Hh Hc t0) as Hen.
  assert (cause (expected_trap e t0) = 6) as Hcs by (unfold expected_trap; by destruct (has_h e)).
  assert (forall x, sbi_trap_handler e u pld pst (expected_trap e t0) x = Some (sbi_misaligned_store_handler e u (expected_trap e t0) x)) as Hh4
    by (intros x; unfold sbi_trap_handler; by rewrite Hcs).
  exists t0, (trapped e (h_cpu h) t0). unfold firmware. cbn [h_cpu h_x h_f h_mem]. rewrite Hen, Hh4. cbn [mbind option_bind].
  rewrite Hres, (take_trap_m e (h_cpu h) t0 Hm Hh Hc) by (done || (cbn; lia)).
  set (bytes := le_bytes (Z.to_nat (a_size a)) _) in *.
  assert (Z.of_nat (length bytes) = a_size a) as Hlb by (unfold bytes; rewrite le_bytes_length; lia).
  assert (exec_store e u false h b a = (h, Some t0)) as ->.
  { unfold exec_store, store_slow_path. rewrite Hon. cbv zeta. fold bytes. rewrite Hlb. unfold truthy. rewrite (proj2 (Z.eqb_neq _ 0)) by done. by destruct h. }
  unfold exec_store. rewrite Hon. cbv zeta. fold bytes.
  destruct (store_slow_path u true (h_mem h) (access_addr h a b) bytes) as [m [t|]] eqn:El.
  - rewrite (store_slow_path_bytes e u Hu) in El by (try (by apply wrap_range); by rewrite Hlb).
    destruct (store_fault e u _ _ _ _ _ Hu El) as (Hcause & Hgva & _).
    destruct (redirect_as e (h_cpu h) Hm Hh Hc t0 t) as (c2 & Ht & Hr); [by rewrite Hgva|done|done|].
    unfold redirect, with_mem. cbn [t_cpu t_regs]. destruct (sbi_trap_redirect e _ _ _) as [[rc regs'] c'] eqn:Er.
    destruct Hr as [-> Hview]. eexists. split_and!; [done|done|done|]. exists c2. split; [done|].
    split_and!; [exact Hview| |done|done]. intros k. cbn. by destruct (Z.eqb_spec k 0) as [->|].
  - eexists. split_and!; [done|done|done|]. split_and!; cbn [h_x h_f h_mem]; [|intros k; cbn; by destruct (Z.eqb_spec k 0) as [->|]|done|done].
    apply resume_spec; try done. apply next_pc; try done. by apply (access_length false 64 b a).
Qed.

(** ** The address a platform sees *)

(** The offset computed from the faulting address, [k] bytes into the access. *)
Lemma fault_offset_exact load b d a x orig k :
  agree load b d a -> a_size a = 1 \/ a_size a = 2 \/ a_size a = 4 \/ a_size a = 8 -> 0 <= k < a_size a ->
  let addr := u64 (t_gprs x (reg_num (a_base a) b) + imm_value (a_imm a) b) in
  tval orig = u64 (addr + k) ->
  u64 (tval orig - fault_offset load false d b (a_size a) x orig) = addr.
Proof.
  intros Hag Hsize Hk addr Ht. unfold fault_offset. rewrite (ag_base _ _ _ _ Hag), (ag_offset _ _ _ _ Hag).
  set (g := t_gprs x _) in *. set (i := imm_value _ b) in *.
  assert (u64 (u64 (tval orig - g) - i) = k) as ->.
  { rewrite Ht, wrap_sub_l. unfold addr. replace (u64 (u64 (g + i) + k)) with (u64 (g + i + k)) by (by rewrite wrap_add_l).
    replace (u64 (g + i + k) - g - i) with (u64 (g + i + k) - (g + i)) by lia. rewrite wrap_sub_l.
    replace (g + i + k - (g + i)) with k by lia. apply wrap_id. lia. }
  assert (Z.land k (a_size a - 1) = k) as ->.
  { destruct Hsize as [E|[E|[E|E]]]; rewrite E in *.
    - assert (k = 0) as -> by lia. done.
    - etransitivity; [by apply (land_ones_mod k 1)|]. apply Z.mod_small. lia.
    - etransitivity; [by apply (land_ones_mod k 2)|]. apply Z.mod_small. lia.
    - etransitivity; [by apply (land_ones_mod k 3)|]. apply Z.mod_small. lia. }
  rewrite Ht, wrap_sub_l. replace (addr + k - k) with addr by lia. apply wrap_id. by apply wrap_range.
Qed.

(** C25: the platform is asked for the access of the instruction.  When a load
    or store has faulted, the firmware works out from the instruction, the
    registers and the faulting address what the instruction accesses.  Wherever in
    the access the fault was reported, the platform's function is called with the
    size and the address of the whole access. *)
Theorem access_handler_address e u x orig b a k :
  trapped_insn e u x orig = inl (false, b, INSN_LEN b) -> in_range 32 b -> sbi_regs_prev_xlen e (t_cpu x) (t_regs x) = 64 ->
  let addr := u64 (t_gprs x (reg_num (a_base a) b) + imm_value (a_imm a) b) in
  tval orig = u64 (addr + k) -> 0 <= k < a_size a ->
  (insn_access true 64 b a -> cause orig = CAUSE_LOAD_ACCESS ->
   forall emu, sbi_trap_emulate_load e u emu orig x = finish_load e (load_decode b 64) b (insn_length b) (emu b (a_size a) addr orig x)) /\
  (insn_access false 64 b a -> cause orig = CAUSE_STORE_ACCESS ->
   forall emu, sbi_trap_emulate_store e u emu orig x = finish_store (insn_length b) (emu b (a_size a) addr (stored_value (store_decode b 64) b x) orig x)).
Proof.
  intros Hi Hb H64 addr Ht Hk. split.
  - intros Ha Hcs. pose proof (insn_size _ _ _ _ Ha) as Hsize. destruct (size_facts _ _ _ _ Ha) as (_ & Hne & _ & _ & _). pose proof (length_forward true 64 b a Ha) as Hlen.
    destruct Ha as (i & Hii & Hai). rewrite spike_is_same in Hii.
    pose proof (load_forward 64 i b a Hb ltac:(by left) Hii Hai) as Hag.
    intros emu. unfold sbi_trap_emulate_load. rewrite Hi, H64, (ag_size _ _ _ _ Hag), Hne, Hcs. cbn [orb].
    change (5 =? 4) with false. cbv iota. rewrite (fault_offset_exact true b _ a x orig k Hag Hsize Hk Ht), Hlen. reflexivity.
  - intros Ha Hcs. pose proof (insn_size _ _ _ _ Ha) as Hsize. destruct (size_facts _ _ _ _ Ha) as (Hpos & Hne & _ & _ & _).
    pose proof (length_forward false 64 b a Ha) as Hlen.
    destruct (store_access 64 b a Ha) as [Hsg Hfp]. destruct Ha as (i & Hii & Hai). rewrite spike_is_same in Hii.
    pose proof (store_forward 64 i b a Hb ltac:(by left) Hii Hai) as Hag.
    destruct (stored_bytes b _ a x Hag Hsg Hpos Hfp) as [Ed _].
    intros emu. unfold sbi_trap_emulate_store.
    rewrite Hi, H64, Ed, Hne, Hcs. cbn [orb].
    change (7 =? 6) with false. cbv iota. rewrite (fault_offset_exact false b _ a x orig k Hag Hsize Hk Ht), Hlen. reflexivity.
Qed.

(** ** Examples *)

(** Page 0x22 is not mapped. *)
Definition mmu_example : mmu :=
  mkMmu (fun type a => if a / PGSIZE =? 0x22 then inr (mkTrap (match type with OP_STORE => 15 | _ => 13 end) a 0 0 true)
                       else inl (a - a mod PGSIZE)) (fun _ _ _ => true) true (fun _ => None) 0.

Lemma mmu_example_ok : mmu_ok isa_example mmu_example.
Proof.
  split; cbn [mmu_example walk pmp_allows effective_virt].
  - intros type a b p E. rewrite E. case_bool; [done|]. intros ?. simplify_eq. f_equal. Z.div_mod_to_equations. lia.
  - intros type a p. case_bool; [done|]. intros ?. simplify_eq. Z.div_mod_to_equations. lia.
  - done.
  - intros type a t. case_bool; [|done]. intros ?. simplify_eq. cbn. split_and!; [by destruct type|by destruct type|done|by left|done].
Qed.

(** A guest in user mode at the instruction [b], with [base] in a1 and a value in
    a0. *)
Definition hart_example (b base : Z) : hart :=
  mkHart (cpu_example 0xa00002000 0x200002000) (fun r => if r =? 11 then base else if r =? 10 then 0x1122334455667788 else 0) (fun _ => 0)
    (fun a => if (0x10004 <=? a) && (a <? 0x10008) then Z.shiftr b (8 * (a - 0x10004)) mod 256 else a mod 256).

Lemma scene_example b base :
  in_range 64 base -> sbi_get_insn isa_example mmu_example (h_mem (hart_example b base)) 0x10004 = inl b ->
  scene isa_example mmu_example (hart_example b base) b.
Proof.
  intros Hb Hi. split; cbn [hart_example h_cpu h_x h_f h_mem].
  - done.
  - apply cpu_example_ok; unfold in_range; try lia; vm_compute; reflexivity.
  - unfold in_range. cbn. lia.
  - done.
  - right. split; vm_compute; reflexivity.
  - split_and!; [unfold in_range; cbn; lia|vm_compute; reflexivity|vm_compute; reflexivity].
  - split_and!; vm_compute; done.
  - apply mmu_example_ok.
  - done.
  - split; [done|]. intros r. unfold in_range in *. repeat case_bool; lia.
  - intros r. unfold in_range. lia.
  - intros a. case_bool; apply Z.mod_pos_bound; lia.
  - exact Hi.
Qed.

(** ld a0, 3(a1) across a page boundary. *)
Lemma misaligned_load_emulated_witness :
  let h := hart_example 0x0035b503 0x20ffb in
  let a := mkAcc 8 true false rd rs1 i_imm in
  exists t0 c1 h2,
    exec_load isa_example mmu_example false h 0x0035b503 a = inr t0 /\ take_trap isa_example (h_cpu h) t0 = Some c1 /\
    firmware isa_example mmu_example None None (mkHart c1 (h_x h) (h_f h) (h_mem h)) = Some (0, h2) /\
    match exec_load isa_example mmu_example true h 0x0035b503 a with
    | inl h' => same_hart isa_example h2 h'
    | inr t => exists c', take_trap isa_example (delegating (h_cpu h) t) t = Some c' /\
        same_hart isa_example h2 (mkHart c' (h_x h) (h_f h) (h_mem h))
    end.
Proof.
  apply (misaligned_load_emulated isa_example mmu_example (hart_example 0x0035b503 0x20ffb) 0x0035b503
    (mkAcc 8 true false rd rs1 i_imm) None None).
  - apply scene_example; [unfold in_range; lia|vm_compute; reflexivity].
  - exists LD. split; vm_compute; reflexivity.
  - vm_compute. discriminate.
  - reflexivity.
Defined.

(** sd a0, 3(a1), the end of which is on the page that is not mapped. *)
Lemma misaligned_store_emulated_witness :
  let h := hart_example 0x00a5b1a3 0x21ffb in
  let a := mkAcc 8 false false rs2 rs1 s_imm in
  exists t0 c1 h2,
    exec_store isa_example mmu_example false h 0x00a5b1a3 a = (h, Some t0) /\ take_trap isa_example (h_cpu h) t0 = Some c1 /\
    firmware isa_example mmu_example None None (mkHart c1 (h_x h) (h_f h) (h_mem h)) = Some (0, h2) /\
    match exec_store isa_example mmu_example true h 0x00a5b1a3 a with
    | (h', None) => same_hart isa_example h2 h'
    | (h', Some t) => exists c', take_trap isa_example (delegating (h_cpu h) t) t = Some c' /\
        same_hart isa_example h2 (mkHart c' (h_x h') (h_f h') (h_mem h'))
    end.
Proof.
  apply (misaligned_store_emulated isa_example mmu_example (hart_example 0x00a5b1a3 0x21ffb) 0x00a5b1a3
    (mkAcc 8 false false rs2 rs1 s_imm) None None).
  - apply scene_example; [unfold in_range; lia|vm_compute; reflexivity].
  - exists SD. split; vm_compute; reflexivity.
  - vm_compute. discriminate.
  - reflexivity.
Defined.

(** A load access fault 5 bytes into ld a0, 3(a1). *)
Lemma access_handler_address_witness :
  let h := hart_example 0x0035b503 0x20ffb in
  let a := mkAcc 8 true false rd rs1 i_imm in
  let orig := mkInfo CAUSE_LOAD_ACCESS 0x21003 0 0 0 in
  let x := mkCtx (mkRegs 0x10004 0xa00002000) (h_x h) (h_f h) (h_cpu h) (h_mem h) in
  (insn_access true 64 0x0035b503 a -> cause orig = CAUSE_LOAD_ACCESS ->
   forall emu, sbi_trap_emulate_load isa_example mmu_example emu orig x =
     finish_load isa_example (load_decode 0x0035b503 64) 0x0035b503 (insn_length 0x0035b503) (emu 0x0035b503 8 0x20ffe orig x)) /\
  (insn_access false 64 0x0035b503 a -> cause orig = CAUSE_STORE_ACCESS ->
   forall emu, sbi_trap_emulate_store isa_example mmu_example emu orig x =
     finish_store (insn_length 0x0035b503) (emu 0x0035b503 8 0x20ffe (stored_value (store_decode 0x0035b503 64) 0x0035b503 x) orig x)).
Proof.
  apply (access_handler_address isa_example mmu_example
    (mkCtx (mkRegs 0x10004 0xa00002000) (h_x (hart_example 0x0035b503 0x20ffb)) (h_f (hart_example 0x0035b503 0x20ffb))
       (h_cpu (hart_example 0x0035b503 0x20ffb)) (h_mem (hart_example 0x0035b503 0x20ffb)))
    (mkInfo CAUSE_LOAD_ACCESS 0x21003 0 0 0) 0x0035b503 (mkAcc 8 true false rd rs1 i_imm) 5).
  - vm_compute. reflexivity.
  - unfold in_range. lia.
  - vm_compute. reflexivity.
  - vm_compute. reflexivity.
  - cbn. lia.
Defined.
