(* ===== verification/Dlist.v ===== *)
(** * Doubly linked lists (include/sbi/sbi_list.h)

    A list is a ring of nodes through its head, with the two pointers of every
    node in a memory [links].  [dlist m head xs] says that memory [m] holds a
    list with the nodes [xs]; the operations of the header are functions on the
    memory, and their lemmas say what they do to [xs].  A loop over a list that
    leaves at the first node with some property is [sbi_list_for_each]; its fuel
    is one round per node, enough for every well-formed list ([for_each_spec]),
    and no amount is enough for a node linked to itself ([for_each_loops]).
    File Sse keeps the enabled events in such lists, file Ecall the registered
    extensions. *)

From stdpp Require Import functions.
From S2P Require Import Prelude.

(** struct sbi_dlist of every node. *)
Record links (N : Type) := mkLinks { lnext : N -> N; lprev : N -> N }.
Arguments mkLinks {N}.
Arguments lnext {N}.
Arguments lprev {N}.

Section Dlist.
Context {N : Type} `{EqDecision N}.
Implicit Types (m : links N).

Definition set_next (n v : N) (m : links N) : links N := mkLinks (<[n := v]> (lnext m)) (lprev m).
Definition set_prev (n v : N) (m : links N) : links N := mkLinks (lnext m) (<[n := v]> (lprev m)).

Definition SBI_INIT_LIST_HEAD (ptr : N) (m : links N) : links N := set_prev ptr ptr (set_next ptr ptr m).

Definition __sbi_list_add (new prev next : N) (m : links N) : links N :=
  set_prev next new (set_next prev new (set_next new next (set_prev new prev m))).

Definition sbi_list_empty (head : N) (m : links N) : bool := bool_decide (lnext m head = head).

Definition sbi_list_add (new head : N) (m : links N) : links N := __sbi_list_add new head (lnext m head) m.

Definition sbi_list_add_tail (new tnode : N) (m : links N) : links N := __sbi_list_add new (lprev m tnode) tnode m.

Definition __sbi_list_del (prev next : N) (m : links N) : links N := set_prev next prev (set_next prev next m).

(** [pn] and [pp] are SBI_LIST_POISON_NEXT and SBI_LIST_POISON_PREV. *)
Definition sbi_list_del (pn pp entry : N) (m : links N) : links N :=
  set_prev entry pp (set_next entry pn (__sbi_list_del (lprev m entry) (lnext m entry) m)).

Definition sbi_list_del_init (entry : N) (m : links N) : links N :=
  SBI_INIT_LIST_HEAD entry (__sbi_list_del (lprev m entry) (lnext m entry) m).

(** The node at which a loop over the list leaves: the first one with [p], or
    the head after all of them.  [None]: the loop is still running. *)
Fixpoint walk (fuel : nat) (m : links N) (head : N) (p : N -> bool) (pos : N) : option N :=
  if decide (pos = head) then Some head
  else match fuel with
       | O => None
       | S fuel => if p pos then Some pos else walk fuel m head p (lnext m pos)
       end.

Definition sbi_list_for_each (fuel : nat) (m : links N) (head : N) (p : N -> bool) : option N :=
  walk fuel m head p (lnext m head).

(** ** Well-formed lists *)

(** From node [a] over [xs] to node [b]. *)
Fixpoint seg (m : links N) (a : N) (xs : list N) (b : N) : Prop :=
  match xs with
  | [] => lnext m a = b /\ lprev m b = a
  | x :: xs => lnext m a = x /\ lprev m x = a /\ seg m x xs b
  end.

Definition dlist (m : links N) (head : N) (xs : list N) : Prop := NoDup (head :: xs) /\ seg m head xs head.

Lemma seg_app m xs : forall a x ys b, seg m a (xs ++ x :: ys) b <-> seg m a xs x /\ seg m x ys b.
Proof. induction xs as [|y xs IH]; intros a x ys b; cbn; [tauto|]. rewrite IH. tauto. Qed.

(** A segment depends on the pointers inside it only. *)
Lemma seg_frame m m' xs : forall a b,
  (forall n, n ∈ a :: xs -> lnext m' n = lnext m n) -> (forall n, n ∈ xs ++ [b] -> lprev m' n = lprev m n) ->
  seg m a xs b -> seg m' a xs b.
Proof.
  induction xs as [|x xs IH]; intros a b Hn Hp; cbn.
  - intros [H1 H2]. rewrite Hn, Hp by set_solver. done.
  - intros (H1 & H2 & H3). rewrite Hn, Hp by set_solver. split_and!; [done|done|].
    apply IH; [set_solver|set_solver|done].
Qed.

Lemma dlist_frame m m' head xs :
  (forall n, n ∈ head :: xs -> lnext m' n = lnext m n /\ lprev m' n = lprev m n) -> dlist m head xs -> dlist m' head xs.
Proof.
  intros Hf [Hnd Hs]. split; [done|]. apply (seg_frame m); [set_solver| |done].
  intros n Hn. apply Hf. set_solver.
Qed.

Lemma dlist_init m head : dlist (SBI_INIT_LIST_HEAD head m) head [].
Proof.
  split; [apply NoDup_singleton|]. cbn. by rewrite !fn_lookup_insert.
Qed.

(** The first node of [ys], and the node before it, in a list of [head], [xs]
    and [ys]. *)
Definition hd_node (head : N) (ys : list N) : N := default head (hd_error ys).
Definition last_node (head : N) (xs : list N) : N := default head (last xs).

Lemma last_node_cons a x xs : last_node a (x :: xs) = last_node x xs.
Proof. unfold last_node. rewrite last_cons. by destruct (last xs). Qed.

Lemma last_node_in a xs : last_node a xs ∈ a :: xs.
Proof.
  revert a. induction xs as [|x xs IH]; intros a; [set_solver|]. rewrite last_node_cons. specialize (IH x). set_solver.
Qed.

Lemma seg_ends m xs : forall a b, seg m a xs b -> lnext m a = hd_node b xs /\ lprev m b = last_node a xs.
Proof.
  induction xs as [|x xs IH]; intros a b; cbn; [done|].
  intros (H1 & _ & H3). split; [done|]. rewrite last_node_cons. apply (IH _ _ H3).
Qed.

(** A segment that ends at another node. *)
Lemma seg_retarget m m' xs : forall a b b',
  NoDup (a :: xs) ->
  (forall n, n ∈ a :: xs -> n <> last_node a xs -> lnext m' n = lnext m n) ->
  (forall n, n ∈ xs -> lprev m' n = lprev m n) ->
  lnext m' (last_node a xs) = b' -> lprev m' b' = last_node a xs -> seg m a xs b -> seg m' a xs b'.
Proof.
  induction xs as [|x xs IH]; intros a b b' Hnd Hn Hp H1 H2; cbn; [done|].
  rewrite last_node_cons in *. intros (E1 & E2 & Hs). apply NoDup_cons in Hnd as [Ha Hnd].
  rewrite Hn, Hp; [|set_solver|set_solver|].
  - split_and!; [done|done|]. apply (IH x b); try done; set_solver.
  - intros ->. apply Ha. apply last_node_in.
Qed.

Lemma next_set_next n v m k : lnext (set_next n v m) k = if decide (k = n) then v else lnext m k.
Proof. cbn. destruct (decide (k = n)) as [->|]; [apply fn_lookup_insert|by apply fn_lookup_insert_ne]. Qed.
Lemma prev_set_prev n v m k : lprev (set_prev n v m) k = if decide (k = n) then v else lprev m k.
Proof. cbn. destruct (decide (k = n)) as [->|]; [apply fn_lookup_insert|by apply fn_lookup_insert_ne]. Qed.

Lemma next_add new p n m k :
  lnext (__sbi_list_add new p n m) k = if decide (k = p) then new else if decide (k = new) then n else lnext m k.
Proof. unfold __sbi_list_add. change (lnext (set_prev n new ?x)) with (lnext x). by rewrite !next_set_next. Qed.

Lemma prev_add new p n m k :
  lprev (__sbi_list_add new p n m) k = if decide (k = n) then new else if decide (k = new) then p else lprev m k.
Proof.
  unfold __sbi_list_add. rewrite prev_set_prev. destruct (decide (k = n)); [done|]. apply prev_set_prev.
Qed.

(** Adding a node between [xs] and [ys]. *)
Lemma dlist_insert m head xs ys new :
  dlist m head (xs ++ ys) -> new ∉ head :: xs ++ ys ->
  dlist (__sbi_list_add new (last_node head xs) (hd_node head ys) m) head (xs ++ new :: ys).
Proof.
  intros [Hnd Hs] Hnew. set (m' := __sbi_list_add _ _ _ _).
  assert (NoDup (head :: xs ++ new :: ys)) as Hnd'.
  { rewrite <- Permutation_middle, Permutation_swap. by apply NoDup_cons. }
  split; [done|]. apply seg_app. pose proof (last_node_in head xs) as Hl.
  apply NoDup_cons in Hnd as [Hh Hnd]. pose proof (NoDup_app xs ys) as [Hd _]. destruct (Hd Hnd) as (Hx & Hxy & Hy).
  assert (forall y ys', ys = y :: ys' -> seg m head xs y /\ seg m y ys' head) as Hsplit.
  { intros y ys' ->. by apply seg_app in Hs. }
  assert (last_node head xs <> new) as Hln by set_solver.
  split.
  - assert (exists b, seg m head xs b) as [b Hb].
    { destruct ys as [|y ys']; [rewrite app_nil_r in Hs; eauto|]. exists y. by apply (Hsplit y ys'). }
    apply (seg_retarget m _ xs head b); try done.
    + apply NoDup_cons. split; [set_solver|done].
    + intros n Hn Hne. unfold m'. rewrite next_add, decide_False, decide_False; [done|set_solver|done].
    + intros n Hn. unfold m'. rewrite prev_add, decide_False, decide_False; [done|set_solver|].
      destruct ys as [|y ys']; cbn; [set_solver|]. intros ->. by apply (Hxy y Hn), list_elem_of_here.
    + unfold m'. by rewrite next_add, decide_True.
    + unfold m'. rewrite prev_add, decide_False, decide_True; [done|done|].
      destruct ys; cbn; set_solver.
  - assert (lnext m' new = hd_node head ys) as En by (unfold m'; by rewrite next_add, decide_False, decide_True).
    assert (lprev m' (hd_node head ys) = new) as Ep by (unfold m'; by rewrite prev_add, decide_True).
    destruct ys as [|y ys']; cbn in *; [done|]. split_and!; [done|done|].
    destruct (Hsplit y ys' eq_refl) as [_ H2]. apply (seg_frame m); [| |done].
    + intros n Hn. unfold m'. rewrite next_add, decide_False, decide_False; [done|set_solver|].
      intros ->. apply elem_of_cons in Hl as [Hl|Hl]; [|by apply (Hxy _ Hl)].
      rewrite Hl in Hn. apply Hh, elem_of_app. by right.
    + intros n Hn. unfold m'. apply NoDup_cons in Hy as [Hy _].
      rewrite prev_add, decide_False, decide_False; [done|set_solver|]. cbn. set_solver.
Qed.

(** sbi_list_add_tail puts the node before [tnode]. *)
Lemma dlist_add_tail m head xs ys new :
  dlist m head (xs ++ ys) -> new ∉ head :: xs ++ ys ->
  dlist (sbi_list_add_tail new (hd_node head ys) m) head (xs ++ new :: ys).
Proof.
  intros Hd Hnew. unfold sbi_list_add_tail.
  assert (lprev m (hd_node head ys) = last_node head xs) as ->; [|by apply dlist_insert].
  destruct Hd as [_ Hs]. destruct ys as [|y ys]; cbn.
  - rewrite app_nil_r in Hs. apply (seg_ends _ _ _ _ Hs).
  - apply seg_app in Hs as [Hs _]. apply (seg_ends _ _ _ _ Hs).
Qed.

Lemma next_del p n m k : lnext (__sbi_list_del p n m) k = if decide (k = p) then n else lnext m k.
Proof. apply next_set_next. Qed.
Lemma prev_del p n m k : lprev (__sbi_list_del p n m) k = if decide (k = n) then p else lprev m k.
Proof. exact (prev_set_prev n p (set_next p n m) k). Qed.

(** Taking node [x] out. *)
Lemma dlist_unlink m head xs x ys :
  dlist m head (xs ++ x :: ys) -> dlist (__sbi_list_del (lprev m x) (lnext m x) m) head (xs ++ ys).
Proof.
  intros [Hnd Hs]. apply seg_app in Hs as [H1 H2]. destruct (seg_ends _ _ _ _ H1) as [_ ->].
  destruct (seg_ends _ _ _ _ H2) as [-> _]. rewrite <- Permutation_middle, Permutation_swap in Hnd.
  apply NoDup_cons in Hnd as [Hx Hnd]. split; [done|]. pose proof (last_node_in head xs) as Hl.
  apply NoDup_cons in Hnd as [Hh Hnd]. apply NoDup_app in Hnd as (Hxs & Hxy & Hys).
  set (m' := __sbi_list_del _ _ _).
  assert (seg m' head xs (hd_node head ys)) as Ha.
  { apply (seg_retarget m _ xs head x); [| | | | |done].
    - apply NoDup_cons. split; [set_solver|done].
    - intros n Hn Hne. unfold m'. by rewrite next_del, decide_False.
    - intros n Hn. unfold m'. rewrite prev_del, decide_False; [done|].
      destruct ys as [|y ys']; cbn; [set_solver|]. intros ->. by apply (Hxy y Hn), list_elem_of_here.
    - unfold m'. by rewrite next_del, decide_True.
    - unfold m'. by rewrite prev_del, decide_True. }
  destruct ys as [|y ys']; [by rewrite app_nil_r|]. apply seg_app. split; [exact Ha|].
  cbn in H2. destruct H2 as (_ & _ & H2). apply (seg_frame m); [| |done].
  - intros n Hn. unfold m'. rewrite next_del, decide_False; [done|].
    intros ->. apply elem_of_cons in Hl as [Hl|Hl]; [|by apply (Hxy _ Hl)].
      rewrite Hl in Hn. apply Hh, elem_of_app. by right.
  - intros n Hn. unfold m'. apply NoDup_cons in Hys as [Hy _]. rewrite prev_del, decide_False; [done|]. cbn. set_solver.
Qed.

(** Pointers of a node outside the list do not matter. *)
Lemma dlist_outside m head xs x n p :
  x ∉ head :: xs -> dlist m head xs -> dlist (set_prev x p (set_next x n m)) head xs.
Proof.
  intros Hx. apply dlist_frame. intros k Hk.
  change (lnext (set_prev ?a ?b ?c)) with (lnext c). rewrite next_set_next, prev_set_prev, !decide_False by set_solver.
  done.
Qed.

Lemma dlist_not_in m head xs x ys : dlist m head (xs ++ x :: ys) -> x ∉ head :: xs ++ ys.
Proof.
  intros [Hnd _]. rewrite <- Permutation_middle, Permutation_swap in Hnd. by apply NoDup_cons in Hnd as [Hnd _].
Qed.

Lemma dlist_del m head xs x ys pn pp : dlist m head (xs ++ x :: ys) -> dlist (sbi_list_del pn pp x m) head (xs ++ ys).
Proof. intros Hd. apply dlist_outside; [by eapply dlist_not_in|by apply dlist_unlink]. Qed.

Lemma dlist_del_init m head xs x ys : dlist m head (xs ++ x :: ys) -> dlist (sbi_list_del_init x m) head (xs ++ ys).
Proof. intros Hd. apply dlist_outside; [by eapply dlist_not_in|by apply dlist_unlink]. Qed.

(** Another list is not touched. *)
Lemma dlist_add_tail_other m head xs ys new head' zs :
  dlist m head (xs ++ ys) -> dlist m head' zs ->
  (forall n, n ∈ head' :: zs -> n ∉ new :: head :: xs ++ ys) -> dlist (sbi_list_add_tail new (hd_node head ys) m) head' zs.
Proof.
  intros [_ Hs] Hz Hd. revert Hz. apply dlist_frame. intros n Hn. specialize (Hd n Hn).
  assert (hd_node head ys ∈ head :: xs ++ ys) as Hh by (destruct ys; cbn; set_solver).
  assert (lprev m (hd_node head ys) ∈ head :: xs ++ ys) as Hp.
  { assert (lprev m (hd_node head ys) = last_node head xs) as ->.
    { destruct ys as [|y ys]; cbn; [rewrite app_nil_r in Hs|apply seg_app in Hs as [Hs _]]; apply (seg_ends _ _ _ _ Hs). }
    pose proof (last_node_in head xs). set_solver. }
  unfold sbi_list_add_tail. rewrite next_add, prev_add, !decide_False; [done|..]; intros ->; apply Hd;
    rewrite ?elem_of_cons in *; tauto.
Qed.

Lemma dlist_del_other m head xs x ys head' zs pn pp :
  dlist m head (xs ++ x :: ys) -> dlist m head' zs ->
  (forall n, n ∈ head' :: zs -> n ∉ head :: xs ++ x :: ys) -> dlist (sbi_list_del pn pp x m) head' zs.
Proof.
  intros [_ Hs] Hz Hd. unfold sbi_list_del. apply dlist_outside; [intros Hx; apply (Hd x Hx); set_solver|].
  revert Hz. apply dlist_frame. intros n Hn. specialize (Hd n Hn). apply seg_app in Hs as [H1 H2].
  destruct (seg_ends _ _ _ _ H1) as [_ ->]. destruct (seg_ends _ _ _ _ H2) as [-> _].
  pose proof (last_node_in head xs) as Hl. assert (hd_node head ys ∈ head :: ys) as Hh by (destruct ys; cbn; set_solver).
  rewrite next_del, prev_del, !decide_False; [done|..]; intros ->; apply Hd; set_solver.
Qed.

Lemma dlist_init_other m head head' zs :
  head ∉ head' :: zs -> dlist m head' zs -> dlist (SBI_INIT_LIST_HEAD head m) head' zs.
Proof. apply dlist_outside. Qed.

(** ** Loops *)

Lemma find_split {A} (p : A -> bool) xs :
  exists pre post, xs = pre ++ post /\ Forall (fun x => p x = false) pre /\ find p xs = hd_error post /\
    forall t, hd_error post = Some t -> p t = true.
Proof.
  induction xs as [|x xs (pre & post & -> & Hpre & Hf & Ht)]; [by exists [], []|]. cbn. destruct (p x) eqn:E.
  - exists [], (x :: pre ++ post). split_and!; try done. by intros t [= <-].
  - exists (x :: pre), post. split_and!; try done. by constructor.
Qed.

Lemma walk_seg m head p xs : forall fuel a,
  seg m a xs head -> head ∉ xs -> length xs <= fuel -> walk fuel m head p (lnext m a) = Some (default head (find p xs)).
Proof.
  induction xs as [|x xs IH]; intros fuel a Hs Hh Hf; cbn in Hs.
  - destruct Hs as [-> _]. destruct fuel; cbn; by rewrite decide_True.
  - destruct Hs as (-> & _ & Hs). cbn in Hf. destruct fuel as [|fuel]; [lia|]. cbn [walk find].
    rewrite decide_False by set_solver. destruct (p x); [done|]. apply IH; [done|set_solver|lia].
Qed.

(** The loop ends and leaves at the first node with [p]. *)
Lemma for_each_spec fuel m head p xs :
  dlist m head xs -> length xs <= fuel -> sbi_list_for_each fuel m head p = Some (default head (find p xs)).
Proof. intros [Hnd Hs] Hf. apply NoDup_cons in Hnd as [Hh _]. by apply walk_seg. Qed.

(** A loop that comes to a node linked to itself does not end. *)
Lemma for_each_loops fuel m head p pos :
  pos <> head -> lnext m pos = pos -> p pos = false -> walk fuel m head p pos = None.
Proof.
  intros Hne Hl Hp. induction fuel as [|fuel IH]; cbn; rewrite decide_False by done; [done|]. by rewrite Hp, Hl.
Qed.

(** Adding a node of the list once more, behind itself: it is linked to itself, and
    a loop that does not leave before it does not end. *)
Lemma dlist_add_again m head pre x post :
  dlist m head (pre ++ x :: post) ->
  let m' := sbi_list_add_tail x (hd_node head post) m in
  lnext m' x = x /\
  forall fuel p, (forall n, n ∈ pre -> p n = false) -> p x = false -> sbi_list_for_each fuel m' head p = None.
Proof.
  intros [Hnd Hs] m'. pose proof Hs as [H1 H2]%seg_app.
  assert (lprev m (hd_node head post) = x) as Ep.
  { destruct post as [|y post]; cbn in *; [apply H2|]. by destruct H2 as (_ & ? & _). }
  assert (forall k, lnext m' k = if decide (k = x) then x else lnext m k) as Hn.
  { intros k. unfold m', sbi_list_add_tail. rewrite Ep, next_add. by destruct (decide (k = x)). }
  rewrite <- Permutation_middle, Permutation_swap in Hnd.
  apply NoDup_cons in Hnd as [Hx Hnd]. apply NoDup_cons in Hnd as [Hh _].
  assert (lnext m' x = x) as Hl by (by rewrite Hn, decide_True). split; [done|].
  intros fuel p Hp Hpx. unfold sbi_list_for_each. rewrite Hn, decide_False by set_solver.
  clear H2 Ep Hs. revert fuel. assert (forall a, a <> x -> seg m a pre x -> forall fuel, walk fuel m' head p (lnext m a) = None) as Hw.
  { clear H1. induction pre as [|y pre IH]; intros a Ha Hs fuel; cbn in Hs.
    - destruct Hs as [-> _]. apply for_each_loops; [set_solver|done|done].
    - destruct Hs as (-> & _ & Hs). destruct fuel as [|fuel]; cbn [walk]; rewrite decide_False by set_solver; [done|].
      rewrite Hp by set_solver. rewrite Hn, decide_False by set_solver. apply IH; try set_solver. }
  apply Hw; [set_solver|done].
Qed.

(** ** The nodes of a list *)

Fixpoint list_nodes (fuel : nat) (m : links N) (head pos : N) : list N :=
  match fuel with
  | O => []
  | S fuel => if decide (pos = head) then [] else pos :: list_nodes fuel m head (lnext m pos)
  end.

Lemma list_nodes_seg m head xs : forall fuel a,
  seg m a xs head -> head ∉ xs -> length xs <= fuel -> list_nodes fuel m head (lnext m a) = xs.
Proof.
  induction xs as [|x xs IH]; intros fuel a Hs Hh Hf; cbn in Hs.
  - destruct Hs as [-> _]. destruct fuel; cbn; [done|]. by rewrite decide_True.
  - destruct Hs as (-> & _ & Hs). cbn in Hf. destruct fuel as [|fuel]; [lia|]. cbn.
    rewrite decide_False by set_solver. f_equal. apply IH; [done|set_solver|lia].
Qed.

Lemma list_nodes_spec fuel m head xs :
  dlist m head xs -> length xs <= fuel -> list_nodes fuel m head (lnext m head) = xs.
Proof. intros [Hnd Hs] Hf. apply NoDup_cons in Hnd as [Hh _]. by apply list_nodes_seg. Qed.
End Dlist.
