(* ===== verification/Sse.v ===== *)
(** * Supervisor software events (lib/sbi/sbi_sse.c, lib/sbi/sbi_ecall_sse.c)

    Events that the firmware delivers to the supervisor on top of whatever it is
    doing: it registers a handler, enables the event, and the firmware interrupts
    the hart to run the handler when the event is pending, highest priority first
    and nested.  Local events belong to a hart, global ones to the hart they
    prefer.

    The state is that of the C file: the global events with their locks, the
    local events and the mask of each hart, the links of the lists of enabled
    events (file Dlist), and the FIFOs that carry injections to other harts (file
    Fifo).  A pointer to an event is an [event_ref].  Each function runs in one
    piece; calls into other parts (callbacks of drivers, IPIs, temporary mappings)
    are recorded in [calls].  A result [None] means that the code never returns,
    on a lock or in a loop, or follows a wild pointer.  The trap context and the
    hart are those of file Trap.

    Files SseInv and SseCalls have the invariant and what each call does to it,
    file SseNest the nesting of handlers over all sequences of calls, file
    SseResume what a handler and the code it interrupts see. *)

From stdpp Require Import gmap functions.
From S2P Require Import Prelude Locks Fifo Bitops Bitmap Scratch Pmp Memregion Domain Hsm Trap Dlist.
Local Open Scope Z_scope.

Abbreviation SBI_EDENIED := (-4).
Abbreviation SBI_EALREADY_STARTED := (-7).
Abbreviation SBI_EALREADY_STOPPED := (-8).
Abbreviation SBI_EINVALID_STATE := (-10).
Abbreviation SBI_EBAD_RANGE := (-11).

Abbreviation SBI_SSE_ATTR_STATUS := 0.
Abbreviation SBI_SSE_ATTR_PRIO := 1.
Abbreviation SBI_SSE_ATTR_CONFIG := 2.
Abbreviation SBI_SSE_ATTR_PREFERRED_HART := 3.
Abbreviation SBI_SSE_ATTR_ENTRY_PC := 4.
Abbreviation SBI_SSE_ATTR_ENTRY_ARG := 5.
Abbreviation SBI_SSE_ATTR_INTERRUPTED_SEPC := 6.
Abbreviation SBI_SSE_ATTR_INTERRUPTED_FLAGS := 7.
Abbreviation SBI_SSE_ATTR_INTERRUPTED_A6 := 8.
Abbreviation SBI_SSE_ATTR_INTERRUPTED_A7 := 9.
Abbreviation SBI_SSE_ATTR_MAX := 10.

Abbreviation SBI_SSE_ATTR_STATUS_STATE_MASK := 3.
Abbreviation SBI_SSE_ATTR_STATUS_PENDING_OFFSET := 2.
Abbreviation SBI_SSE_ATTR_STATUS_INJECT_OFFSET := 3.
Abbreviation SBI_SSE_ATTR_CONFIG_ONESHOT := 1.

Abbreviation FLAGS_SSTATUS_SPP := 0x1.
Abbreviation FLAGS_SSTATUS_SPIE := 0x2.
Abbreviation FLAGS_HSTATUS_SPV := 0x4.
Abbreviation FLAGS_HSTATUS_SPVP := 0x8.
Abbreviation FLAGS_SSTATUS_SPELP := 0x10.
Abbreviation FLAGS_SSTATUS_SDT := 0x20.

Abbreviation SBI_SSE_STATE_UNUSED := 0.
Abbreviation SBI_SSE_STATE_REGISTERED := 1.
Abbreviation SBI_SSE_STATE_ENABLED := 2.
Abbreviation SBI_SSE_STATE_RUNNING := 3.

Abbreviation SBI_SSE_EVENT_LOCAL_HIGH_PRIO_RAS := 0x00000000.
Abbreviation SBI_SSE_EVENT_LOCAL_DOUBLE_TRAP := 0x00000001.
Abbreviation SBI_SSE_EVENT_GLOBAL_HIGH_PRIO_RAS := 0x00008000.
Abbreviation SBI_SSE_EVENT_LOCAL_PMU_OVERFLOW := 0x00010000.
Abbreviation SBI_SSE_EVENT_LOCAL_LOW_PRIO_RAS := 0x00100000.
Abbreviation SBI_SSE_EVENT_GLOBAL_LOW_PRIO_RAS := 0x00108000.
Abbreviation SBI_SSE_EVENT_LOCAL_SOFTWARE := 0xffff0000.
Abbreviation SBI_SSE_EVENT_GLOBAL_SOFTWARE := 0xffff8000.
Abbreviation SBI_SSE_EVENT_GLOBAL_BIT := 0x8000.

(** ** Data *)

Record sse_entry_state := mkEntry { entry_pc : Z; entry_arg : Z }.

Record sse_interrupted_state := mkIntr { i_sepc : Z; i_flags : Z; i_a6 : Z; i_a7 : Z }.

Record sbi_sse_event_attrs := mkAttrs {
  at_status : Z; at_prio : Z; at_config : Z; at_hartid : Z;
  at_entry : sse_entry_state; at_interrupted : sse_interrupted_state }.

(** The callbacks of struct sbi_sse_cb_ops, and which of them an event has (none
    if cb_ops is NULL). *)
Inductive sse_cb : Type := set_hartid_cb | complete_cb | register_cb | unregister_cb | enable_cb | disable_cb.

Record sse_event_info := mkEvInfo { info_id : Z; cb_ops : sse_cb -> bool }.

Record sbi_sse_event := mkEvent {
  ev_attrs : sbi_sse_event_attrs; ev_id : Z; ev_hartindex : Z; ev_info : option sse_event_info }.

Record sse_global_event := mkGlobal { ge_event : sbi_sse_event; ge_lock : spinlock_t }.

(** Pointers to events, and the nodes of the lists of enabled events. *)
Inductive event_ref : Type := RGlobal (i : nat) | RLocal (h : Z) (i : nat).
Inductive sse_node : Type := NHead (h : Z) | NEvent (r : event_ref) | NPoisonNext | NPoisonPrev.

#[export] Instance event_ref_eq_dec : EqDecision event_ref.
Proof. solve_decision. Defined.
#[export] Instance sse_node_eq_dec : EqDecision sse_node.
Proof. solve_decision. Defined.

(** Without the list head, which is node [NHead] of the hart. *)
Record sse_hart_state := mkShs { enabled_event_lock : spinlock_t; local_events : list sbi_sse_event; masked : bool }.

(** Calls into other parts. *)
Inductive sse_call : Type :=
| Callback (cb : sse_cb) (event_id : Z) (args : list Z)
| IpiSend (hartid : Z)
| MapRange (addr size : Z)
| UnmapRange (addr size : Z).

Record sse_state := mkSse {
  supported_events : list sse_event_info;
  local_event_count : Z;
  global_event_count : Z;
  global_events : list sse_global_event;
  hart_states : gmap Z sse_hart_state;
  links : Dlist.links sse_node;
  inject_fifo : Z -> sbi_fifo;
  calls : list sse_call }.

(** What a hart has at hand when it runs the code: its extensions, the hart
    tables, the states of the harts, its domain, its index, and the answer of
    sbi_ipi_send_many for a hart id. *)
Record sse_env := mkEnv {
  v_isa : isa; v_sc : scratch_state; v_hsm : hmem; v_dom : option sbi_domain; v_self : Z; v_ipi : Z -> Z }.

(** The registers of the trap context and the hart. *)
Record sse_ctx := mkCtx { k_regs : sbi_trap_regs; k_a6 : Z; k_a7 : Z; k_cpu : cpu }.

(** ** Fields *)

Definition set_status (st : Z) (e : sbi_sse_event) : sbi_sse_event :=
  let a := ev_attrs e in
  mkEvent (mkAttrs st (at_prio a) (at_config a) (at_hartid a) (at_entry a) (at_interrupted a)) (ev_id e) (ev_hartindex e) (ev_info e).
Definition set_interrupted (i : sse_interrupted_state) (e : sbi_sse_event) : sbi_sse_event :=
  let a := ev_attrs e in
  mkEvent (mkAttrs (at_status a) (at_prio a) (at_config a) (at_hartid a) (at_entry a) i) (ev_id e) (ev_hartindex e) (ev_info e).
Definition set_entry (n : sse_entry_state) (e : sbi_sse_event) : sbi_sse_event :=
  let a := ev_attrs e in
  mkEvent (mkAttrs (at_status a) (at_prio a) (at_config a) (at_hartid a) n (at_interrupted a)) (ev_id e) (ev_hartindex e) (ev_info e).

Definition event_at (s : sse_state) (r : event_ref) : option sbi_sse_event :=
  match r with
  | RGlobal i => ge_event <$> global_events s !! i
  | RLocal h i => hs ← hart_states s !! h; local_events hs !! i
  end.

Definition set_globals (g : list sse_global_event) (s : sse_state) : sse_state :=
  mkSse (supported_events s) (local_event_count s) (global_event_count s) g (hart_states s) (links s) (inject_fifo s) (calls s).
Definition set_hart (h : Z) (hs : sse_hart_state) (s : sse_state) : sse_state :=
  mkSse (supported_events s) (local_event_count s) (global_event_count s) (global_events s) (<[h := hs]> (hart_states s))
    (links s) (inject_fifo s) (calls s).
Definition set_links (m : Dlist.links sse_node) (s : sse_state) : sse_state :=
  mkSse (supported_events s) (local_event_count s) (global_event_count s) (global_events s) (hart_states s) m (inject_fifo s) (calls s).
Definition set_fifo (h : Z) (f : sbi_fifo) (s : sse_state) : sse_state :=
  mkSse (supported_events s) (local_event_count s) (global_event_count s) (global_events s) (hart_states s) (links s)
    (<[h := f]> (inject_fifo s)) (calls s).
Definition call (c : sse_call) (s : sse_state) : sse_state :=
  mkSse (supported_events s) (local_event_count s) (global_event_count s) (global_events s) (hart_states s) (links s)
    (inject_fifo s) (calls s ++ [c]).

Definition set_event (r : event_ref) (e : sbi_sse_event) (s : sse_state) : sse_state :=
  match r with
  | RGlobal i => set_globals (alter (fun g => mkGlobal e (ge_lock g)) i (global_events s)) s
  | RLocal h i =>
      match hart_states s !! h with
      | Some hs => set_hart h (mkShs (enabled_event_lock hs) (<[i := e]> (local_events hs)) (masked hs)) s
      | None => s
      end
  end.

(** ** Finding events *)

Definition EVENT_IS_GLOBAL (event_id : Z) : bool := truthy (Z.land event_id SBI_SSE_EVENT_GLOBAL_BIT).

Definition standard_events : list Z :=
  [SBI_SSE_EVENT_LOCAL_HIGH_PRIO_RAS; SBI_SSE_EVENT_LOCAL_DOUBLE_TRAP; SBI_SSE_EVENT_GLOBAL_HIGH_PRIO_RAS;
   SBI_SSE_EVENT_LOCAL_PMU_OVERFLOW; SBI_SSE_EVENT_LOCAL_LOW_PRIO_RAS; SBI_SSE_EVENT_GLOBAL_LOW_PRIO_RAS;
   SBI_SSE_EVENT_LOCAL_SOFTWARE; SBI_SSE_EVENT_GLOBAL_SOFTWARE].

Definition sse_is_standard_event (event_id : Z) : bool := existsb (Z.eqb event_id) standard_events.

Definition sse_event_info_get (s : sse_state) (event_id : Z) : option sse_event_info :=
  find (fun i => info_id i =? event_id) (supported_events s).

Definition sse_event_state (e : sbi_sse_event) : Z := Z.land (at_status (ev_attrs e)) SBI_SSE_ATTR_STATUS_STATE_MASK.

Definition sse_event_pending (e : sbi_sse_event) : bool :=
  truthy (Z.land (at_status (ev_attrs e)) (BIT SBI_SSE_ATTR_STATUS_PENDING_OFFSET)).

Definition sse_event_is_global (e : sbi_sse_event) : bool := EVENT_IS_GLOBAL (ev_id e).

Definition sse_event_set_state (e : sbi_sse_event) (new_state : Z) : sbi_sse_event :=
  set_status (Z.lor (Z.land (at_status (ev_attrs e)) (not_w 64 SBI_SSE_ATTR_STATUS_STATE_MASK)) new_state) e.

Section Harts.
Context (v : sse_env).

(** The id of the hart that runs the code, and the index of a hart id (taken as
    a 32-bit number). *)
Definition current_hartid : Z := sbi_hartindex_to_hartid (v_sc v) (v_self v).
Definition hart_index (hartid : Z) : Z := sbi_hartid_to_hartindex (v_sc v) (u32 hartid).

Definition sse_get_hart_state (s : sse_state) (h : Z) : option sse_hart_state :=
  match sbi_hartindex_to_scratch (v_sc v) h with Some _ => hart_states s !! h | None => None end.

(** spin_lock and spin_unlock of the lock of a hart's list. *)
Definition list_lock (h : Z) (s : sse_state) : option sse_state :=
  hs ← sse_get_hart_state s h; l ← spin_lock (enabled_event_lock hs);
  Some (set_hart h (mkShs l (local_events hs) (masked hs)) s).
Definition list_unlock (h : Z) (s : sse_state) : option sse_state :=
  hs ← sse_get_hart_state s h;
  Some (set_hart h (mkShs (spin_unlock (enabled_event_lock hs)) (local_events hs) (masked hs)) s).

Definition sse_enabled_event_lock (r : event_ref) (s : sse_state) : option sse_state :=
  e ← event_at s r; list_lock (ev_hartindex e) s.
Definition sse_enabled_event_unlock (r : event_ref) (s : sse_state) : option sse_state :=
  e ← event_at s r; list_unlock (ev_hartindex e) s.

(** An error, or the event, with its lock taken if it is global. *)
Definition sse_event_get (event_id : Z) (s : sse_state) : option ((Z + event_ref) * sse_state) :=
  let missing := Some (inl (if sse_is_standard_event event_id then SBI_ENOTSUPP else SBI_EINVAL), s) in
  if EVENT_IS_GLOBAL event_id then
    match list_find (fun g => ev_id (ge_event g) = event_id) (global_events s) with
    | Some (i, g) =>
        l ← spin_lock (ge_lock g);
        Some (inr (RGlobal i), set_globals (<[i := mkGlobal (ge_event g) l]> (global_events s)) s)
    | None => missing
    end
  else
    hs ← hart_states s !! v_self v;
    match list_find (fun e => ev_id e = event_id) (local_events hs) with
    | Some (i, _) => Some (inr (RLocal (v_self v) i), s)
    | None => missing
    end.

Definition sse_event_put (r : event_ref) (s : sse_state) : option sse_state :=
  e ← event_at s r;
  if negb (sse_event_is_global e) then Some s
  else match r with
       | RGlobal i => Some (set_globals (alter (fun g => mkGlobal (ge_event g) (spin_unlock (ge_lock g))) i (global_events s)) s)
       | RLocal _ _ => None
       end.

(** ** The list of enabled events *)

Definition sse_event_invoke_cb (e : sbi_sse_event) (cb : sse_cb) (args : list Z) (s : sse_state) : sse_state :=
  match ev_info e with
  | Some i => if cb_ops i cb then call (Callback cb (ev_id e) args) s else s
  | None => s
  end.

(** A loop over the list of hart [h] that leaves at the first event with [p]: that
    event, or the end of the list. *)
Definition walk_fuel (s : sse_state) : nat := Z.to_nat (global_event_count s + local_event_count s).

Definition for_each_enabled (s : sse_state) (h : Z) (p : sbi_sse_event -> bool) : option (option event_ref) :=
  let test := fun n => match n with NEvent r => match event_at s r with Some e => p e | None => true end | _ => true end in
  n ← sbi_list_for_each (walk_fuel s) (links s) (NHead h) test;
  match n with
  | NHead h' => if h' =? h then Some None else None
  | NEvent r => _ ← event_at s r; Some (Some r)
  | _ => None
  end.

Definition sse_event_remove_from_list (r : event_ref) (s : sse_state) : sse_state :=
  set_links (sbi_list_del NPoisonNext NPoisonPrev (NEvent r) (links s)) s.

(** [e] goes before [tmp]. *)
Definition goes_before (e tmp : sbi_sse_event) : bool :=
  (at_prio (ev_attrs e) <? at_prio (ev_attrs tmp)) ||
  ((at_prio (ev_attrs e) =? at_prio (ev_attrs tmp)) && (ev_id e <? ev_id tmp)).

Definition sse_event_add_to_list (r : event_ref) (s : sse_state) : option sse_state :=
  e ← event_at s r; _ ← sse_get_hart_state s (ev_hartindex e);
  tmp ← for_each_enabled s (ev_hartindex e) (goes_before e);
  let tnode := match tmp with Some t => NEvent t | None => NHead (ev_hartindex e) end in
  Some (set_links (sbi_list_add_tail (NEvent r) tnode (links s)) s).

Definition sse_event_disable (r : event_ref) (s : sse_state) : option (Z * sse_state) :=
  e ← event_at s r;
  if negb (sse_event_state e =? SBI_SSE_STATE_ENABLED) then Some (SBI_EINVALID_STATE, s)
  else
    let s := sse_event_invoke_cb e disable_cb [] s in
    let s := sse_event_remove_from_list r s in
    Some (0, set_event r (sse_event_set_state e SBI_SSE_STATE_REGISTERED) s).

(** ** Attributes *)

(** sbi_hsm_hart_get_state for a hart id. *)
Definition hart_get_state (hartid : Z) : Z :=
  if negb (assigned (v_dom v) (hart_index hartid)) then SBI_EINVAL
  else sbi_hsm_hart_state (v_sc v) (v_hsm v) (hart_index hartid).

Definition sse_event_set_hart_id_check (e : sbi_sse_event) (new_hartid : Z) : Z :=
  let hartid := u32 new_hartid in
  if negb (sse_event_is_global e) then SBI_EDENIED
  else if negb (assigned (v_dom v) (hart_index hartid)) then SBI_EINVAL
  else if negb (hart_get_state hartid =? SBI_HSM_STATE_STARTED) then SBI_EINVAL
  else 0.

Definition FLAGS_MASK : Z :=
  Z.lor FLAGS_SSTATUS_SPP (Z.lor FLAGS_SSTATUS_SPIE (Z.lor FLAGS_HSTATUS_SPV (Z.lor FLAGS_HSTATUS_SPVP
    (Z.lor FLAGS_SSTATUS_SPELP FLAGS_SSTATUS_SDT)))).

Definition sse_event_set_attr_check (e : sbi_sse_event) (attr_id val : Z) : Z :=
  let interrupted_check :=
    if negb (sse_event_state e =? SBI_SSE_STATE_RUNNING) then SBI_EINVALID_STATE
    else if negb (current_hartid =? at_hartid (ev_attrs e)) then SBI_EINVAL else 0 in
  let enabled := SBI_SSE_STATE_ENABLED <=? sse_event_state e in
  if attr_id =? SBI_SSE_ATTR_CONFIG then
    if enabled then SBI_EINVALID_STATE
    else if truthy (Z.land val (not_w 64 SBI_SSE_ATTR_CONFIG_ONESHOT)) then SBI_EINVAL else 0
  else if attr_id =? SBI_SSE_ATTR_PRIO then
    if enabled then SBI_EINVALID_STATE else if negb (val =? u32 val) then SBI_EINVAL else 0
  else if attr_id =? SBI_SSE_ATTR_PREFERRED_HART then
    if enabled then SBI_EINVALID_STATE else sse_event_set_hart_id_check e val
  else if attr_id =? SBI_SSE_ATTR_INTERRUPTED_FLAGS then
    if truthy (Z.land val (not_w 64 FLAGS_MASK)) then SBI_EINVAL else interrupted_check
  else if (attr_id =? SBI_SSE_ATTR_INTERRUPTED_SEPC) || (attr_id =? SBI_SSE_ATTR_INTERRUPTED_A6) ||
          (attr_id =? SBI_SSE_ATTR_INTERRUPTED_A7) then interrupted_check
  else SBI_EDENIED.

(** The event after the write. *)
Definition set_attr (e : sbi_sse_event) (attr_id val : Z) : sbi_sse_event :=
  let a := ev_attrs e in let i := at_interrupted a in
  let conf p c := mkEvent (mkAttrs (at_status a) p c (at_hartid a) (at_entry a) i) (ev_id e) (ev_hartindex e) (ev_info e) in
  if attr_id =? SBI_SSE_ATTR_CONFIG then conf (at_prio a) val
  else if attr_id =? SBI_SSE_ATTR_PRIO then conf (u32 val) (at_config a)
  else if attr_id =? SBI_SSE_ATTR_PREFERRED_HART then
    mkEvent (mkAttrs (at_status a) (at_prio a) (at_config a) val (at_entry a) i) (ev_id e) (hart_index val) (ev_info e)
  else if attr_id =? SBI_SSE_ATTR_INTERRUPTED_SEPC then set_interrupted (mkIntr val (i_flags i) (i_a6 i) (i_a7 i)) e
  else if attr_id =? SBI_SSE_ATTR_INTERRUPTED_FLAGS then set_interrupted (mkIntr (i_sepc i) val (i_a6 i) (i_a7 i)) e
  else if attr_id =? SBI_SSE_ATTR_INTERRUPTED_A6 then set_interrupted (mkIntr (i_sepc i) (i_flags i) val (i_a7 i)) e
  else if attr_id =? SBI_SSE_ATTR_INTERRUPTED_A7 then set_interrupted (mkIntr (i_sepc i) (i_flags i) (i_a6 i) val) e
  else e.

Definition sse_event_set_attr (r : event_ref) (attr_id val : Z) (s : sse_state) : option sse_state :=
  e ← event_at s r;
  let s := set_event r (set_attr e attr_id val) s in
  Some (if attr_id =? SBI_SSE_ATTR_PREFERRED_HART then sse_event_invoke_cb e set_hartid_cb [val] s else s).

(** ** Registration *)

Definition sse_event_register (r : event_ref) (handler_entry_pc handler_entry_arg : Z) (s : sse_state) : option (Z * sse_state) :=
  e ← event_at s r;
  if negb (sse_event_state e =? SBI_SSE_STATE_UNUSED) then Some (SBI_EINVALID_STATE, s)
  else
    let e := set_entry (mkEntry handler_entry_pc handler_entry_arg) e in
    let e := sse_event_set_state e SBI_SSE_STATE_REGISTERED in
    Some (0, sse_event_invoke_cb e register_cb [] (set_event r e s)).

Definition sse_event_unregister (r : event_ref) (s : sse_state) : option (Z * sse_state) :=
  e ← event_at s r;
  if negb (sse_event_state e =? SBI_SSE_STATE_REGISTERED) then Some (SBI_EINVALID_STATE, s)
  else Some (0, set_event r (sse_event_set_state e SBI_SSE_STATE_UNUSED) (sse_event_invoke_cb e unregister_cb [] s)).

(** ** Entering and leaving a handler *)

Definition flag_if (w mask flag : Z) : Z := if truthy (Z.land w mask) then flag else 0.

Definition sse_interrupted_flags (mstatus hstatus : Z) : Z :=
  let flags := flag_if mstatus (MSTATUS SPIE) FLAGS_SSTATUS_SPIE in
  let flags := Z.lor flags (flag_if mstatus (MSTATUS SPP) FLAGS_SSTATUS_SPP) in
  let flags := Z.lor flags (flag_if mstatus (MSTATUS SPELP) FLAGS_SSTATUS_SPELP) in
  let flags := Z.lor flags (flag_if mstatus (MSTATUS SDT) FLAGS_SSTATUS_SDT) in
  if has_h (v_isa v) then
    let flags := Z.lor flags (flag_if hstatus HSTATUS_SPV FLAGS_HSTATUS_SPV) in
    Z.lor flags (flag_if hstatus HSTATUS_SPVP FLAGS_HSTATUS_SPVP)
  else flags.

(** csr_write of sepc and hstatus. *)
Definition with_sepc (c : cpu) (val : Z) : cpu :=
  let x := c_s c in
  mkCpu (c_pc c) (c_prv c) (c_v c) (c_elp c) (c_m c) (mkX (x_tvec x) (x_cause x) (epc_write val) (x_tval x)) (c_h c)
    (c_vsstatus c) (c_vs c).
Definition with_hstatus (c : cpu) (val : Z) : cpu :=
  let h := c_h c in
  mkCpu (c_pc c) (c_prv c) (c_v c) (c_elp c) (c_m c) (c_s c)
    (mkH (hstatus_write (v_isa v) (hstatus h) val) (htval h) (htinst h) (hedeleg h)) (c_vsstatus c) (c_vs c).

(** SPP and SPIE, as the hardware would set them for a trap. *)
Definition inject_status (s : Z) : Z :=
  let s := Z.land s (not_w 64 (Z.lor (MSTATUS SPP) (MSTATUS SPIE))) in
  let s := if truthy (Z.land s (MSTATUS MPP)) then Z.lor s (MSTATUS SPP) else s in
  if truthy (Z.land s (MSTATUS SIE)) then Z.lor s (MSTATUS SPIE) else s.

Definition inject_hstatus (hs s : Z) : Z :=
  let hs := if truthy (Z.land s (MSTATUS MPV)) then Z.lor hs HSTATUS_SPV else hs in
  let hs := Z.land hs (not_w 64 HSTATUS_SPVP) in
  if truthy (Z.land hs HSTATUS_SPV) && truthy (Z.land s (MSTATUS SPP)) then Z.lor hs HSTATUS_SPVP else hs.

(** The word with which the handler starts. *)
Definition handler_status (s : Z) : Z :=
  let s := Z.land s (not_w 64 (Z.lor (MSTATUS MPP) (Z.lor (MSTATUS SIE) (MSTATUS SPELP)))) in
  let s := Z.lor s (Z.shiftl PRV_S 11) in
  let s := Z.lor s (MSTATUS SDT) in
  Z.land s (not_w 64 (MSTATUS MPV)).

Definition sse_event_inject (e : sbi_sse_event) (k : sse_ctx) : sbi_sse_event * sse_ctx :=
  let c := k_cpu k in
  let e := sse_event_set_state e SBI_SSE_STATE_RUNNING in
  let e := set_status (Z.land (at_status (ev_attrs e)) (not_w 64 (BIT SBI_SSE_ATTR_STATUS_PENDING_OFFSET))) e in
  let i := mkIntr (epc_read (v_isa v) (x_epc (c_s c))) (sse_interrupted_flags (r_mstatus (k_regs k)) (hstatus (c_h c)))
             (k_a6 k) (k_a7 k) in
  let s := inject_status (r_mstatus (k_regs k)) in
  let c := if has_h (v_isa v) then with_hstatus c (inject_hstatus (hstatus (c_h c)) s) else c in
  let c := with_sepc c (r_mepc (k_regs k)) in
  let n := at_entry (ev_attrs e) in
  (set_interrupted i e, mkCtx (mkRegs (entry_pc n) (handler_status s)) current_hartid (entry_arg n) c).

(** x &= ~mask; if (flag) x |= mask *)
Definition restore_bit (x mask : Z) (b : bool) : Z := let x := Z.land x (not_w 64 mask) in if b then Z.lor x mask else x.

Definition resume_hstatus (hs flags : Z) : Z :=
  let hs := Z.land hs (not_w 64 (Z.lor HSTATUS_SPV HSTATUS_SPVP)) in
  let hs := if truthy (Z.land flags FLAGS_HSTATUS_SPV) then Z.lor hs HSTATUS_SPV else hs in
  if truthy (Z.land flags FLAGS_HSTATUS_SPVP) then Z.lor hs HSTATUS_SPVP else hs.

Definition resume_status (s hs flags : Z) : Z :=
  let s := Z.land s (not_w 64 (MSTATUS MPP)) in
  let s := if truthy (Z.land s (MSTATUS SPP)) then Z.lor s (Z.shiftl PRV_S 11) else s in
  let s := if has_h (v_isa v) then restore_bit s (MSTATUS MPV) (truthy (Z.land hs HSTATUS_SPV)) else s in
  let s := restore_bit s (MSTATUS SIE) (truthy (Z.land s (MSTATUS SPIE))) in
  let s := restore_bit s (MSTATUS SPIE) (truthy (Z.land flags FLAGS_SSTATUS_SPIE)) in
  let s := restore_bit s (MSTATUS SPP) (truthy (Z.land flags FLAGS_SSTATUS_SPP)) in
  let s := restore_bit s (MSTATUS SPELP) (truthy (Z.land flags FLAGS_SSTATUS_SPELP)) in
  restore_bit s (MSTATUS SDT) (truthy (Z.land flags FLAGS_SSTATUS_SDT)).

Definition sse_event_resume (i : sse_interrupted_state) (k : sse_ctx) : sse_ctx :=
  let c := k_cpu k in
  let mepc := epc_read (v_isa v) (x_epc (c_s c)) in
  let hs := hstatus (c_h c) in
  let s := resume_status (r_mstatus (k_regs k)) hs (i_flags i) in
  let c := if has_h (v_isa v) then with_hstatus c (resume_hstatus hs (i_flags i)) else c in
  mkCtx (mkRegs mepc s) (i_a6 i) (i_a7 i) (with_sepc c (i_sepc i)).

(** ** Delivery *)

Definition sse_event_is_ready (e : sbi_sse_event) : bool :=
  negb (negb (sse_event_pending e) || negb (sse_event_state e =? SBI_SSE_STATE_ENABLED) ||
        negb (at_hartid (ev_attrs e) =? current_hartid)).

(** The loop leaves at this event; what it has done to the event and the context. *)
Definition sse_event_check_inject (k : sse_ctx) (e : sbi_sse_event) : bool * (sbi_sse_event * sse_ctx) :=
  if sse_event_state e =? SBI_SSE_STATE_RUNNING then (true, (e, k))
  else if sse_event_is_ready e then (true, sse_event_inject e k)
  else (false, (e, k)).

Definition sbi_sse_process_pending_events (k : sse_ctx) (s : sse_state) : option (sse_ctx * sse_state) :=
  hs ← hart_states s !! v_self v;
  if masked hs then Some (k, s)
  else
    s ← list_lock (v_self v) s;
    found ← for_each_enabled s (v_self v) (fun e => (sse_event_check_inject k e).1);
    match found with
    | Some r =>
        e ← event_at s r;
        let '(e, k) := (sse_event_check_inject k e).2 in
        s ← list_unlock (v_self v) (set_event r e s); Some (k, s)
    | None => s ← list_unlock (v_self v) s; Some (k, s)
    end.

Definition sse_event_set_pending (r : event_ref) (s : sse_state) : option (Z * sse_state) :=
  e ← event_at s r;
  if negb (sse_event_state e =? SBI_SSE_STATE_RUNNING) && negb (sse_event_state e =? SBI_SSE_STATE_ENABLED)
  then Some (SBI_EINVALID_STATE, s)
  else Some (0, set_event r (set_status (Z.lor (at_status (ev_attrs e)) (BIT SBI_SSE_ATTR_STATUS_PENDING_OFFSET)) e) s).

(** The loop of sse_ipi_inject_process. *)
Fixpoint inject_process_loop (fuel : nat) (s : sse_state) : option sse_state :=
  match fuel with
  | O => None
  | S fuel =>
      '(rc, data, f) ← sbi_fifo_dequeue (Some (inject_fifo s (v_self v))) (Some [0; 0; 0; 0]);
      f ← f;
      let s := set_fifo (v_self v) f s in
      if truthy rc then Some s
      else
        evt ← data;
        '(e, s) ← sse_event_get (le_value evt) s;
        match e with
        | inl _ => inject_process_loop fuel s
        | inr r =>
            '(_, s) ← sse_event_set_pending r s;
            s ← sse_event_put r s;
            inject_process_loop fuel s
        end
  end.

Definition sse_ipi_inject_process (s : sse_state) : option sse_state :=
  inject_process_loop (S (Z.to_nat (avail (inject_fifo s (v_self v))))) s.

Definition sse_ipi_inject_send (hartid event_id : Z) (s : sse_state) : option (Z * sse_state) :=
  let h := hart_index hartid in
  match sbi_hartindex_to_scratch (v_sc v) h with
  | None => Some (SBI_EINVAL, s)
  | Some _ =>
      '(ret, f) ← sbi_fifo_enqueue (Some (inject_fifo s h)) (Some (le_bytes 4 event_id)) false;
      f ← f;
      let s := set_fifo h f s in
      if truthy ret then Some (SBI_EFAIL, s)
      else Some (if truthy (v_ipi v hartid) then SBI_EFAIL else 0, call (IpiSend hartid) s)
  end.

Definition sse_inject_event (event_id hartid : Z) (s : sse_state) : option (Z * sse_state) :=
  '(e, s) ← sse_event_get event_id s;
  match e with
  | inl ret => Some (ret, s)
  | inr r =>
      e ← event_at s r;
      let hartid := if sse_event_is_global e then at_hartid (ev_attrs e) else hartid in
      if negb (hartid =? current_hartid) then s ← sse_event_put r s; sse_ipi_inject_send hartid event_id s
      else
        '(ret, s) ← sse_event_set_pending r s;
        s ← sse_event_put r s; Some (ret, s)
  end.

Definition sse_event_enable (r : event_ref) (s : sse_state) : option (Z * sse_state) :=
  e ← event_at s r;
  if negb (sse_event_state e =? SBI_SSE_STATE_REGISTERED) then Some (SBI_EINVALID_STATE, s)
  else
    let e := sse_event_set_state e SBI_SSE_STATE_ENABLED in
    s ← sse_event_add_to_list r (set_event r e s);
    let s := sse_event_invoke_cb e enable_cb [] s in
    Some (0, if sse_event_is_global e && sse_event_pending e then call (IpiSend (at_hartid (ev_attrs e))) s else s).

(** Result, whether the caller is to leave the registers alone, context. *)
Definition sse_event_complete (r : event_ref) (k : sse_ctx) (s : sse_state) : option (Z * bool * sse_ctx * sse_state) :=
  e ← event_at s r;
  if negb (sse_event_state e =? SBI_SSE_STATE_RUNNING) then Some (SBI_EINVALID_STATE, false, k, s)
  else if negb (at_hartid (ev_attrs e) =? current_hartid) then Some (SBI_EINVAL, false, k, s)
  else
    let s := set_event r (sse_event_set_state e SBI_SSE_STATE_ENABLED) s in
    s ← (if truthy (Z.land (at_config (ev_attrs e)) SBI_SSE_ATTR_CONFIG_ONESHOT)
         then '(_, s) ← sse_event_disable r s; Some s else Some s);
    let s := sse_event_invoke_cb e complete_cb [] s in
    Some (0, true, sse_event_resume (at_interrupted (ev_attrs e)) k, s).

(** ** Calls from the supervisor *)

Definition sbi_sse_complete (k : sse_ctx) (s : sse_state) : option (Z * bool * sse_ctx * sse_state) :=
  s ← list_lock (v_self v) s;
  found ← for_each_enabled s (v_self v) (fun e => sse_event_state e =? SBI_SSE_STATE_RUNNING);
  '(ret, skip, k, s) ← match found with Some r => sse_event_complete r k s | None => Some (0, false, k, s) end;
  s ← list_unlock (v_self v) s; Some (ret, skip, k, s).

(** The shape of the calls that name an event: look it up, run [body], give it
    back. *)
Definition with_event (event_id : Z) (body : event_ref -> sse_state -> option (Z * sse_state)) (s : sse_state) : option (Z * sse_state) :=
  '(e, s) ← sse_event_get event_id s;
  match e with
  | inl ret => Some (ret, s)
  | inr r => '(ret, s) ← body r s; s ← sse_event_put r s; Some (ret, s)
  end.

Definition sbi_sse_enable (event_id : Z) : sse_state -> option (Z * sse_state) :=
  with_event event_id (fun r s =>
    s ← sse_enabled_event_lock r s; '(ret, s) ← sse_event_enable r s; s ← sse_enabled_event_unlock r s; Some (ret, s)).

Definition sbi_sse_disable (event_id : Z) : sse_state -> option (Z * sse_state) :=
  with_event event_id (fun r s =>
    s ← sse_enabled_event_lock r s; '(ret, s) ← sse_event_disable r s; s ← sse_enabled_event_unlock r s; Some (ret, s)).

Definition sbi_sse_hart_mask (s : sse_state) : Z * sse_state :=
  match hart_states s !! v_self v with
  | None => (SBI_EFAIL, s)
  | Some hs =>
      if masked hs then (SBI_EALREADY_STOPPED, s)
      else (0, set_hart (v_self v) (mkShs (enabled_event_lock hs) (local_events hs) true) s)
  end.

Definition sbi_sse_hart_unmask (s : sse_state) : Z * sse_state :=
  match hart_states s !! v_self v with
  | None => (SBI_EFAIL, s)
  | Some hs =>
      if negb (masked hs) then (SBI_EALREADY_STARTED, s)
      else (0, set_hart (v_self v) (mkShs (enabled_event_lock hs) (local_events hs) false) s)
  end.

Definition sbi_sse_inject_from_ecall (event_id hartid : Z) (s : sse_state) : option (Z * sse_state) :=
  if negb (assigned (v_dom v) (hart_index hartid)) then Some (SBI_EINVAL, s) else sse_inject_event event_id hartid s.

Definition sbi_sse_inject_event (event_id : Z) (s : sse_state) : option (Z * sse_state) :=
  sse_inject_event event_id current_hartid s.

(** [alloc_ok]: sbi_zalloc finds memory. *)
Definition sbi_sse_add_event (event_id : Z) (ops : sse_cb -> bool) (alloc_ok : bool) (s : sse_state) : Z * sse_state :=
  match sse_event_info_get s event_id with
  | Some _ => (SBI_EALREADY, s)
  | None =>
      if ops set_hartid_cb && negb (EVENT_IS_GLOBAL event_id) then (SBI_EINVAL, s)
      else if negb alloc_ok then (SBI_ENOMEM, s)
      else (0, mkSse (mkEvInfo event_id ops :: supported_events s) (local_event_count s) (global_event_count s) (global_events s)
                 (hart_states s) (links s) (inject_fifo s) (calls s))
  end.

Definition sbi_sse_attr_check (base_attr_id attr_count phys_lo phys_hi access : Z) : option Z :=
  let end_id := u64 (base_attr_id + u32 (attr_count - 1)) in
  if attr_count =? 0 then Some SBI_EINVAL
  else if SBI_SSE_ATTR_MAX <=? end_id then Some SBI_EBAD_RANGE
  else if truthy (Z.land phys_lo 7) then Some SBI_EINVALID_ADDR
  else if truthy phys_hi then Some SBI_EINVALID_ADDR
  else
    ok ← sbi_domain_check_addr_range (v_dom v) phys_lo (u64 (8 * attr_count)) PRV_S access;
    Some (if negb ok then SBI_EINVALID_ADDR else 0).

(** struct sbi_sse_event_attrs as an array of longs. *)
Definition attr_longs (a : sbi_sse_event_attrs) : list Z :=
  let i := at_interrupted a in
  [at_status a; at_prio a; at_config a; at_hartid a; entry_pc (at_entry a); entry_arg (at_entry a); i_sepc i; i_flags i; i_a6 i; i_a7 i].

(** Supervisor memory, by the addresses of its longs. *)
Definition longs : Type := Z -> Z.
Definition long_at (addr : Z) (i : nat) : Z := u64 (addr + 8 * Z.of_nat i).

Definition copy_attrs (m : longs) (out : Z) (vals : list Z) : longs :=
  foldl (fun m '(i, x) => <[long_at out i := x]> m) m (imap pair vals).

Definition sbi_sse_read_attrs (event_id base_attr_id attr_count output_phys_lo output_phys_hi : Z) (m : longs) (s : sse_state) :
    option (Z * longs * sse_state) :=
  ret ← sbi_sse_attr_check base_attr_id attr_count output_phys_lo output_phys_hi SBI_DOMAIN_WRITE;
  if truthy ret then Some (ret, m, s)
  else
    '(e, s) ← sse_event_get event_id s;
    match e with
    | inl ret => Some (ret, m, s)
    | inr r =>
        let size := u64 (8 * attr_count) in
        let s := call (MapRange output_phys_lo size) s in
        e ← event_at s r;
        let m := copy_attrs m output_phys_lo (take (Z.to_nat attr_count) (drop (Z.to_nat base_attr_id) (attr_longs (ev_attrs e)))) in
        s ← sse_event_put r (call (UnmapRange output_phys_lo size) s);
        Some (0, m, s)
    end.

(** The two loops of sse_write_attrs over attributes [base ..]; [m1] and [m2] are
    the memory as the first and the second loop find it. *)
Fixpoint check_attrs (e : sbi_sse_event) (id : Z) (vals : list Z) : Z :=
  match vals with
  | [] => 0
  | val :: vals => let ret := sse_event_set_attr_check e id val in if truthy ret then ret else check_attrs e (id + 1) vals
  end.

Fixpoint set_attrs (r : event_ref) (id : Z) (vals : list Z) (s : sse_state) : option sse_state :=
  match vals with
  | [] => Some s
  | val :: vals => s ← sse_event_set_attr r id val s; set_attrs r (id + 1) vals s
  end.

Definition fetch (m : longs) (addr count : Z) : list Z := (fun i => m (long_at addr i)) <$> seq 0 (Z.to_nat count).

Definition sse_write_attrs (m1 m2 : longs) (base_attr_id attr_count input_phys : Z) (r : event_ref) (s : sse_state) : option (Z * sse_state) :=
  let size := u64 (8 * attr_count) in
  let s := call (MapRange input_phys size) s in
  e ← event_at s r;
  let ret := check_attrs e base_attr_id (fetch m1 input_phys attr_count) in
  s ← (if truthy ret then Some s else set_attrs r base_attr_id (fetch m2 input_phys attr_count) s);
  Some (ret, call (UnmapRange input_phys size) s).

Definition sbi_sse_write_attrs (event_id base_attr_id attr_count input_phys_lo input_phys_hi : Z) (m1 m2 : longs) (s : sse_state) :
    option (Z * sse_state) :=
  ret ← sbi_sse_attr_check base_attr_id attr_count input_phys_lo input_phys_hi SBI_DOMAIN_READ;
  if truthy ret then Some (ret, s)
  else with_event event_id (sse_write_attrs m1 m2 base_attr_id attr_count input_phys_lo) s.

Definition sbi_sse_register (event_id handler_entry_pc handler_entry_arg : Z) (s : sse_state) : option (Z * sse_state) :=
  if truthy (Z.land handler_entry_pc 1) then Some (SBI_EINVAL, s)
  else
    ok ← sbi_domain_check_addr_range (v_dom v) handler_entry_pc 8 PRV_S SBI_DOMAIN_EXECUTE;
    if negb ok then Some (SBI_EINVALID_ADDR, s)
    else with_event event_id (fun r s => sse_event_register r handler_entry_pc handler_entry_arg s) s.

Definition sbi_sse_unregister (event_id : Z) : sse_state -> option (Z * sse_state) :=
  with_event event_id sse_event_unregister.

(** Arguments a0 to a4 of the call; the result with the skip_regs_update flag,
    the supervisor's memory and the context. *)
Definition sbi_ecall_sse_handler (funcid a0 a1 a2 a3 a4 : Z) (m1 m2 : longs) (k : sse_ctx) (s : sse_state) :
    option (Z * bool * longs * sse_ctx * sse_state) :=
  let plain := fun r => '(ret, s) ← r; Some (ret, false, m2, k, s) in
  if funcid =? 0 then '(ret, m, s) ← sbi_sse_read_attrs (u32 a0) (u32 a1) (u32 a2) a3 a4 m2 s; Some (ret, false, m, k, s)
  else if funcid =? 1 then plain (sbi_sse_write_attrs (u32 a0) (u32 a1) (u32 a2) a3 a4 m1 m2 s)
  else if funcid =? 2 then plain (sbi_sse_register (u32 a0) a1 a2 s)
  else if funcid =? 3 then plain (sbi_sse_unregister (u32 a0) s)
  else if funcid =? 4 then plain (sbi_sse_enable (u32 a0) s)
  else if funcid =? 5 then plain (sbi_sse_disable (u32 a0) s)
  else if funcid =? 6 then '(ret, skip, k, s) ← sbi_sse_complete k s; Some (ret, skip, m2, k, s)
  else if funcid =? 7 then plain (sbi_sse_inject_from_ecall (u32 a0) a1 s)
  else if funcid =? 9 then plain (Some (sbi_sse_hart_mask s))
  else if funcid =? 8 then plain (Some (sbi_sse_hart_unmask s))
  else plain (Some (SBI_ENOTSUPP, s)).

(** ** Starting and stopping a hart *)

Definition sse_event_init (e : sbi_sse_event) (info : sse_event_info) : sbi_sse_event :=
  let a := ev_attrs e in
  mkEvent (mkAttrs (Z.lor (at_status a) (BIT SBI_SSE_ATTR_STATUS_INJECT_OFFSET)) (at_prio a) (at_config a) current_hartid
             (at_entry a) (at_interrupted a))
    (info_id info) (v_self v) (Some info).

(** Zeroed memory. *)
Definition zero_event : sbi_sse_event := mkEvent (mkAttrs 0 0 0 0 (mkEntry 0 0) (mkIntr 0 0 0 0)) 0 0 None.

Definition sse_event_count_init (s : sse_state) : sse_state :=
  let g := length (filter (fun i => EVENT_IS_GLOBAL (info_id i) = true) (supported_events s)) in
  let l := length (filter (fun i => EVENT_IS_GLOBAL (info_id i) = false) (supported_events s)) in
  mkSse (supported_events s) (u32 (local_event_count s + Z.of_nat l)) (u32 (global_event_count s + Z.of_nat g)) (global_events s)
    (hart_states s) (links s) (inject_fifo s) (calls s).

Definition sse_global_init (s : sse_state) : sse_state :=
  set_globals ((fun i => mkGlobal (sse_event_init zero_event i) SPIN_LOCK_UNLOCKED) <$>
    filter (fun i => EVENT_IS_GLOBAL (info_id i) = true) (supported_events s)) s.

(** The local events of a hart, one after the other. *)
Fixpoint init_locals (evs : list sbi_sse_event) (infos : list sse_event_info) : list sbi_sse_event :=
  match evs, infos with
  | e :: evs, i :: infos => sse_event_init e i :: init_locals evs infos
  | _, _ => evs
  end.

Definition sse_local_init (hs : sse_hart_state) (s : sse_state) : sse_state :=
  let infos := filter (fun i => EVENT_IS_GLOBAL (info_id i) = false) (supported_events s) in
  set_hart (v_self v) (mkShs SPIN_LOCK_UNLOCKED (init_locals (local_events hs) infos) (masked hs))
    (set_links (SBI_INIT_LIST_HEAD (NHead (v_self v)) (links s)) s).

(** What the allocators and sbi_ipi_event_create answer. *)
Record init_answers := mkAns { ans_globals : bool; ans_offsets : bool; ans_event : Z; ans_shs : bool }.

(** The part of the cold boot: an error code, or 0. *)
Definition sse_cold_init (ans : init_answers) (s : sse_state) : Z * sse_state :=
  let s := sse_event_count_init s in
  if negb (ans_globals ans) then (SBI_ENOMEM, s)
  else
    let s := sse_global_init s in
    if negb (ans_offsets ans) then (SBI_ENOMEM, s) else if ans_event ans <? 0 then (ans_event ans, s) else (0, s).

(** The state of the hart, allocated when it starts for the first time. *)
Definition sse_hart_alloc (ans : init_answers) (s : sse_state) : option sse_hart_state :=
  match hart_states s !! v_self v with
  | Some hs => Some hs
  | None =>
      if negb (ans_shs ans) then None
      else Some (mkShs (mkLock 0 0) (replicate (Z.to_nat (local_event_count s)) zero_event) true)
  end.

Definition sbi_sse_init (cold_boot : bool) (ans : init_answers) (s : sse_state) : Z * sse_state :=
  let '(ret, s) := if cold_boot then sse_cold_init ans s else (0, s) in
  if truthy ret then (ret, s)
  else
    match sse_hart_alloc ans s with
    | None => (SBI_ENOMEM, s)
    | Some hs =>
        let s := sse_local_init hs s in
        let n := u32 (global_event_count s + local_event_count s) in
        (0, set_fifo (v_self v) (sbi_fifo_init (replicate (Z.to_nat (n * 4)) 0) (u16 n) 4) s)
    end.

Fixpoint exit_loop (infos : list sse_event_info) (s : sse_state) : option sse_state :=
  match infos with
  | [] => Some s
  | i :: infos =>
      '(e, s) ← sse_event_get (info_id i) s;
      match e with
      | inl _ => exit_loop infos s
      | inr r =>
          e ← event_at s r;
          let s := if (at_hartid (ev_attrs e) =? current_hartid) && (SBI_SSE_STATE_REGISTERED <? sse_event_state e)
                   then set_event r (sse_event_set_state e SBI_SSE_STATE_UNUSED) s else s in
          s ← sse_event_put r s;
          exit_loop infos s
      end
  end.

Definition sbi_sse_exit (s : sse_state) : option sse_state := exit_loop (supported_events s) s.
End Harts.

(** The variables of the file before the first call. *)
Definition sse_boot : sse_state :=
  mkSse [mkEvInfo SBI_SSE_EVENT_LOCAL_SOFTWARE (fun _ => false); mkEvInfo SBI_SSE_EVENT_GLOBAL_SOFTWARE (fun _ => false)] 0 0 []
    ∅ (mkLinks (fun n => n) (fun n => n)) (fun _ => mkFifo [] (mkLock 0 0) 0 0 0 0) [].
