(* ===== verification/SseInv.v ===== *)
(** * Invariants of the software events (lib/sbi/sbi_sse.c)

    [sse_inv] ties the lists of enabled events to the states of the events: the
    list of a hart is well-formed, holds exactly the enabled and running events
    that prefer the hart, and is sorted by priority.  The lemmas say what an
    update of one event, alone or with its insertion into a list or its removal
    from one, does to the invariant.  [stack] is the stack of handlers that run on
    a hart.  Locks are kept apart: [locks L] says that the hart holds those in [L]
    and that all others are free, and [view_eq] that two states differ in locks and
    recorded calls only. *)

From stdpp Require Import gmap functions sorting.
From S2P Require Import Prelude Locks Fifo Bitops Bitmap Scratch Pmp Memregion Domain Hsm Trap Dlist Sse.
Local Open Scope Z_scope.

(** ** What a state shows, apart from its locks and the record of calls *)

Record view_eq (s s' : sse_state) : Prop := {
  sw_event : forall r, event_at s' r = event_at s r;
  sw_links : links s' = links s;
  sw_masked : forall h, masked <$> hart_states s' !! h = masked <$> hart_states s !! h;
  sw_fifo : inject_fifo s' = inject_fifo s;
  sw_supported : supported_events s' = supported_events s;
  sw_counts : local_event_count s' = local_event_count s /\ global_event_count s' = global_event_count s }.

#[export] Instance view_eq_equiv : Equivalence view_eq.
Proof.
  split.
  - intros s. by split.
  - intros s s' [H1 H2 H3 H4 H5 [H6 H7]]. split; try done; intros; by rewrite ?H1, ?H3.
  - intros s s' s'' [H1 H2 H3 H4 H5 [H6 H7]] [K1 K2 K3 K4 K5 [K6 K7]].
    split; try congruence; try (split; congruence); intros; by rewrite ?K1, ?K3.
Qed.

(** The locks, and which of them the hart holds. *)
Inductive sse_lock : Type := LEvent (i : nat) | LList (h : Z).

#[export] Instance sse_lock_eq_dec : EqDecision sse_lock.
Proof. solve_decision. Defined.

Definition lock_is (held : Prop) (l : spinlock_t) : Prop :=
  (held -> exists l0, lock_free l0 /\ l = lock_taken l0) /\ (~ held -> lock_free l).

Definition locks (L : list sse_lock) (s : sse_state) : Prop :=
  (forall i g, global_events s !! i = Some g -> lock_is (LEvent i ∈ L) (ge_lock g)) /\
  (forall h hs, hart_states s !! h = Some hs -> lock_is (LList h ∈ L) (enabled_event_lock hs)).

Lemma lock_is_free (P : Prop) l : ~ P -> lock_is P l -> lock_free l.
Proof. intros HP [_ H]. by apply H. Qed.
Lemma lock_is_taken (P : Prop) l : P -> lock_is P l -> exists l0, lock_free l0 /\ l = lock_taken l0.
Proof. intros HP [H _]. by apply H. Qed.
Lemma lock_taken_is (P : Prop) l : P -> lock_free l -> lock_is P (lock_taken l).
Proof. intros HP Hl. split; [eauto|done]. Qed.
Lemma lock_free_is (P : Prop) l : ~ P -> lock_free l -> lock_is P l.
Proof. intros HP Hl. split; [done|done]. Qed.
Lemma lock_is_iff (P Q : Prop) l : (P <-> Q) -> lock_is P l -> lock_is Q l.
Proof. intros HPQ [H1 H2]. split; intros; [apply H1|apply H2]; tauto. Qed.

Lemma view_call c s : view_eq s (call c s).
Proof. by split. Qed.
Lemma view_callback e cb args s : view_eq s (sse_event_invoke_cb e cb args s).
Proof. unfold sse_event_invoke_cb. destruct (ev_info e); [|done]. destruct (cb_ops _ _); [apply view_call|done]. Qed.
Lemma locks_callback L e cb args s : locks L s -> locks L (sse_event_invoke_cb e cb args s).
Proof. unfold sse_event_invoke_cb. destruct (ev_info e); [|done]. by destruct (cb_ops _ _). Qed.

(** A hart state with another lock word. *)
Lemma view_set_lock h hs l s :
  hart_states s !! h = Some hs -> view_eq s (set_hart h (mkShs l (local_events hs) (masked hs)) s).
Proof.
  intros Hh. split; try done; cbn.
  - intros [i|h' i]; [done|]. cbn. destruct (decide (h' = h)) as [->|]; [by rewrite lookup_insert_eq, Hh|by rewrite lookup_insert_ne].
  - intros h'. destruct (decide (h' = h)) as [->|]; [by rewrite lookup_insert_eq, Hh|by rewrite lookup_insert_ne].
Qed.

Lemma locks_set_lock L L' h hs l s :
  hart_states s !! h = Some hs -> locks L s -> lock_is (LList h ∈ L') l ->
  (forall x, x <> LList h -> x ∈ L <-> x ∈ L') -> locks L' (set_hart h (mkShs l (local_events hs) (masked hs)) s).
Proof.
  intros Hh [H1 H2] Hl HL. split; cbn.
  - intros i g Hg. apply (lock_is_iff (LEvent i ∈ L)); [by apply HL|by apply H1].
  - intros h' hs'. destruct (decide (h' = h)) as [->|]; [rewrite lookup_insert_eq|rewrite lookup_insert_ne by done].
    + by intros [= <-].
    + intros Hh'. apply (lock_is_iff (LList h' ∈ L)); [apply HL; congruence|by apply H2].
Qed.

Section Rules.
Context (v : sse_env).

Lemma list_lock_rule L h s hs :
  sse_get_hart_state v s h = Some hs -> LList h ∉ L -> locks L s ->
  exists s', list_lock v h s = Some s' /\ view_eq s s' /\ locks (LList h :: L) s'.
Proof.
  intros Hg HL Hs. unfold list_lock. rewrite Hg. cbn [mbind option_bind].
  assert (hart_states s !! h = Some hs) as Hh by (unfold sse_get_hart_state in Hg; by destruct (sbi_hartindex_to_scratch _ _)).
  pose proof (lock_is_free _ _ HL (proj2 Hs _ _ Hh)) as Hf. rewrite spin_lock_free by done. cbn [mbind option_bind].
  eexists. split; [done|]. split; [by apply view_set_lock|].
  apply (locks_set_lock L); [done|done|apply lock_taken_is; [apply list_elem_of_here|done]|]. intros x Hx. set_solver.
Qed.

Lemma list_unlock_rule L h s hs :
  sse_get_hart_state v s h = Some hs -> LList h ∉ L -> locks (LList h :: L) s ->
  exists s', list_unlock v h s = Some s' /\ view_eq s s' /\ locks L s'.
Proof.
  intros Hg HL Hs. unfold list_unlock. rewrite Hg. cbn [mbind option_bind].
  assert (hart_states s !! h = Some hs) as Hh by (unfold sse_get_hart_state in Hg; by destruct (sbi_hartindex_to_scratch _ _)).
  destruct (lock_is_taken _ _ (list_elem_of_here _ _) (proj2 Hs _ _ Hh)) as (l0 & Hf & E).
  eexists. split; [done|]. split; [by apply view_set_lock|].
  apply (locks_set_lock (LList h :: L)); [done|done| |set_solver].
  rewrite E. apply lock_free_is; [done|by apply spin_unlock_taken].
Qed.

Definition ref_global (r : event_ref) : bool := match r with RGlobal _ => true | RLocal _ _ => false end.
Definition sees (r : event_ref) : Prop := match r with RGlobal _ => True | RLocal h _ => h = v_self v end.
Definition event_locks (r : event_ref) : list sse_lock := match r with RGlobal i => [LEvent i] | RLocal _ _ => [] end.

Lemma view_set_global i g l s :
  global_events s !! i = Some g -> view_eq s (set_globals (<[i := mkGlobal (ge_event g) l]> (global_events s)) s).
Proof.
  intros Hg. split; try done. intros [j|h j]; [|done]. cbn. destruct (decide (j = i)) as [->|].
  - rewrite list_lookup_insert_eq by (by eapply lookup_lt_Some). by rewrite Hg.
  - by rewrite list_lookup_insert_ne.
Qed.

Lemma locks_set_global L L' i g l s :
  global_events s !! i = Some g -> locks L s -> lock_is (LEvent i ∈ L') l -> (forall x, x <> LEvent i -> x ∈ L <-> x ∈ L') ->
  locks L' (set_globals (<[i := mkGlobal (ge_event g) l]> (global_events s)) s).
Proof.
  intros Hg [H1 H2] Hl HL. split; cbn.
  - intros j g'. destruct (decide (j = i)) as [->|].
    + rewrite list_lookup_insert_eq by (by eapply lookup_lt_Some). by intros [= <-].
    + rewrite list_lookup_insert_ne by done. intros Hg'. apply (lock_is_iff (LEvent j ∈ L)); [apply HL; congruence|by apply H1].
  - intros h hs Hh. apply (lock_is_iff (LList h ∈ L)); [by apply HL|by apply H2].
Qed.

(** The code of a missing event. *)
Definition missing_code (event_id : Z) : Z := if sse_is_standard_event event_id then SBI_ENOTSUPP else SBI_EINVAL.

Lemma event_get_rule event_id s :
  is_Some (hart_states s !! v_self v) -> locks [] s ->
  exists res s', sse_event_get v event_id s = Some (res, s') /\ view_eq s s' /\
  match res with
  | inl ret => ret = missing_code event_id /\ s' = s /\
      forall r e, sees r -> ref_global r = EVENT_IS_GLOBAL event_id -> event_at s r = Some e -> ev_id e <> event_id
  | inr r => sees r /\ ref_global r = EVENT_IS_GLOBAL event_id /\ locks (event_locks r) s' /\ exists e, event_at s r = Some e /\ ev_id e = event_id
  end.
Proof.
  intros [hs Hh] Hs. unfold sse_event_get. destruct (EVENT_IS_GLOBAL event_id) eqn:Eg.
  - destruct (list_find _ (global_events s)) as [[i g]|] eqn:Ef.
    + apply list_find_Some in Ef as (Hg & Hid & _).
      pose proof (lock_is_free _ _ (not_elem_of_nil _) (proj1 Hs _ _ Hg)) as Hf. rewrite spin_lock_free by done. cbn [mbind option_bind].
      eexists _, _. split; [done|]. split; [by apply view_set_global|]. cbn. split_and!; [done|done| |].
      * apply (locks_set_global []); [done|done|apply lock_taken_is; [apply list_elem_of_here|done]|set_solver].
      * exists (ge_event g). by rewrite Hg.
    + apply list_find_None in Ef. eexists _, _. split; [done|]. split; [done|]. split; [done|]. split; [done|].
      intros [i|h i] e Hv Hr He; [|done]. cbn in He. destruct (global_events s !! i) as [g|] eqn:Hg; [|done]. injection He as <-.
      rewrite Forall_lookup in Ef. by apply (Ef i).
  - rewrite Hh. cbn [mbind option_bind]. destruct (list_find _ (local_events hs)) as [[i e]|] eqn:Ef.
    + apply list_find_Some in Ef as (Hg & Hid & _). eexists _, _. split; [done|]. split; [done|]. cbn. split_and!; [done|done|done|].
      exists e. rewrite Hh. by cbn.
    + apply list_find_None in Ef. eexists _, _. split; [done|]. split; [done|]. split; [done|]. split; [done|].
      intros [i|h i] e Hv Hr He; [done|]. cbn in Hv. subst h. cbn in He. rewrite Hh in He. cbn in He.
      rewrite Forall_lookup in Ef. by apply (Ef i).
Qed.

Lemma event_put_rule r e s :
  event_at s r = Some e -> sse_event_is_global e = ref_global r -> locks (event_locks r) s ->
  exists s', sse_event_put r s = Some s' /\ view_eq s s' /\ locks [] s'.
Proof.
  intros He Hr Hs. unfold sse_event_put. rewrite He. cbn [mbind option_bind]. rewrite Hr. destruct r as [i|h i]; cbn [negb ref_global].
  - cbn in He. destruct (global_events s !! i) as [g|] eqn:Hg; [|done].
    destruct (lock_is_taken _ _ (list_elem_of_here _ _) (proj1 Hs _ _ Hg)) as (l0 & Hf & E).
    eexists. split; [done|].
    assert (alter (fun g => mkGlobal (ge_event g) (spin_unlock (ge_lock g))) i (global_events s) =
      <[i := mkGlobal (ge_event g) (spin_unlock (ge_lock g))]> (global_events s)) as ->.
    { rewrite list_insert_alter. apply list_alter_ext; [|done]. intros x Hx. by simplify_eq. }
    split; [by apply view_set_global|]. apply (locks_set_global (event_locks (RGlobal i))); [done|done| |set_solver].
    rewrite E. apply lock_free_is; [apply not_elem_of_nil|by apply spin_unlock_taken].
  - by exists s.
Qed.
End Rules.

(** ** Updates of one event *)

Lemma event_at_set r e s r' :
  is_Some (event_at s r) -> event_at (set_event r e s) r' = if decide (r' = r) then Some e else event_at s r'.
Proof.
  intros [e0 He]. destruct r as [i|h i]; cbn in He |- *.
  - destruct (global_events s !! i) as [g|] eqn:Hg; [|done]. destruct r' as [j|h j]; cbn; [|done].
    destruct (decide (RGlobal j = RGlobal i)) as [[= ->]|Hne].
    + by rewrite list_lookup_alter_eq, Hg.
    + by rewrite list_lookup_alter_ne by congruence.
  - destruct (hart_states s !! h) as [hs|] eqn:Hh; cbn in He; [|done]. destruct r' as [j|h' j]; cbn; [done|].
    destruct (decide (h' = h)) as [->|Hne].
    + rewrite lookup_insert_eq, Hh. cbn. destruct (decide (RLocal h j = RLocal h i)) as [[= ->]|Hne].
      * apply list_lookup_insert_eq. by eapply lookup_lt_Some.
      * rewrite list_lookup_insert_ne by congruence. done.
    + rewrite lookup_insert_ne, decide_False by congruence. done.
Qed.

Lemma set_event_rest r e s :
  let s' := set_event r e s in
  links s' = links s /\ (forall h, masked <$> hart_states s' !! h = masked <$> hart_states s !! h) /\ inject_fifo s' = inject_fifo s /\
  supported_events s' = supported_events s /\ local_event_count s' = local_event_count s /\ global_event_count s' = global_event_count s.
Proof.
  destruct r as [i|h i]; cbn; [done|]. destruct (hart_states s !! h) as [hs|] eqn:Hh; [|done]. split_and!; try done.
  intros h'. cbn. destruct (decide (h' = h)) as [->|]; [by rewrite lookup_insert_eq, Hh|by rewrite lookup_insert_ne].
Qed.

Lemma locks_set_event L r e s : locks L s -> locks L (set_event r e s).
Proof.
  intros [H1 H2]. destruct r as [i|h i]; cbn.
  - split; [|done]. intros j g. cbn. rewrite list_lookup_alter. destruct (decide (i = j)) as [->|]; [|apply H1].
    destruct (global_events s !! j) as [g'|] eqn:Hg; [|done]. intros [= <-]. cbn. by apply H1.
  - destruct (hart_states s !! h) as [hs|] eqn:Hh; [|done]. split; [done|]. intros h' hs'. cbn.
    destruct (decide (h' = h)) as [->|]; [rewrite lookup_insert_eq|rewrite lookup_insert_ne by done; apply H2].
    intros [= <-]. cbn. by apply H2.
Qed.

(** ** The invariant *)

Definition active (e : sbi_sse_event) : Prop := SBI_SSE_STATE_ENABLED <= sse_event_state e.

(** The values the interface documents for the attributes. *)
Record event_typed (e : sbi_sse_event) : Prop := {
  ty_id : in_range 32 (ev_id e);
  ty_status : 8 <= at_status (ev_attrs e) < 16;
  ty_prio : in_range 32 (at_prio (ev_attrs e));
  ty_config : 0 <= at_config (ev_attrs e) <= 1;
  ty_hartid : in_range 32 (at_hartid (ev_attrs e));
  ty_entry : in_range 64 (entry_pc (at_entry (ev_attrs e))) /\ Z.testbit (entry_pc (at_entry (ev_attrs e))) 0 = false /\
             in_range 64 (entry_arg (at_entry (ev_attrs e)));
  ty_interrupted : let i := at_interrupted (ev_attrs e) in
    in_range 64 (i_sepc i) /\ in_range 6 (i_flags i) /\ in_range 64 (i_a6 i) /\ in_range 64 (i_a7 i) }.

(** The hart a pointer to a local event belongs to. *)
Definition ref_hart (r : event_ref) : option Z := match r with RGlobal _ => None | RLocal h _ => Some h end.

Definition before (s : sse_state) (r r' : event_ref) : Prop :=
  exists e e', event_at s r = Some e /\ event_at s r' = Some e' /\ goes_before e e' = true.

(** The events [xs] are those enabled on hart [h], in order. *)
Record enabled (s : sse_state) (h : Z) (xs : list event_ref) : Prop := {
  en_list : dlist (links s) (NHead h) (NEvent <$> xs);
  en_sorted : StronglySorted (before s) xs;
  en_exact : forall r, r ∈ xs <-> exists e, event_at s r = Some e /\ active e /\ ev_hartindex e = h }.

(** The order of a list depends on the priorities and ids of its events. *)
Lemma goes_before_same e1 e1' e2 e2' :
  at_prio (ev_attrs e1') = at_prio (ev_attrs e1) -> ev_id e1' = ev_id e1 ->
  at_prio (ev_attrs e2') = at_prio (ev_attrs e2) -> ev_id e2' = ev_id e2 -> goes_before e1' e2' = goes_before e1 e2.
Proof. unfold goes_before. by intros -> -> -> ->. Qed.

Lemma sorted_prio s s' xs :
  (forall r e, r ∈ xs -> event_at s r = Some e ->
     exists e', event_at s' r = Some e' /\ at_prio (ev_attrs e') = at_prio (ev_attrs e) /\ ev_id e' = ev_id e) ->
  StronglySorted (before s) xs -> StronglySorted (before s') xs.
Proof.
  intros Hsame Hs. induction Hs as [|x xs Hs IH Hall]; constructor; [apply IH; intros r e Hr; apply Hsame; by right|].
  rewrite Forall_forall in Hall |- *. intros y Hy. destruct (Hall y Hy) as (e1 & e2 & E1 & E2 & Hb).
  destruct (Hsame x e1 (list_elem_of_here _ _) E1) as (e1' & E1' & P1 & I1).
  destruct (Hsame y e2 (list_elem_of_further _ _ _ Hy) E2) as (e2' & E2' & P2 & I2).
  exists e1', e2'. split_and!; [done|done|]. rewrite <- Hb. by apply goes_before_same.
Qed.

Lemma sorted_same s s' xs :
  (forall r, r ∈ xs -> event_at s' r = event_at s r) -> StronglySorted (before s) xs -> StronglySorted (before s') xs.
Proof. intros Hsame. apply sorted_prio. intros r e Hr He. exists e. by rewrite Hsame. Qed.

Section Invariant.
Context (sc : scratch_state).

Definition hid (h : Z) : Z := sbi_hartindex_to_hartid sc h.

(** Harts have different ids, which are 32-bit numbers. *)
Record harts_ok : Prop := {
  ho_count : 0 <= sbi_scratch_hart_count sc <= 128;
  ho_id : forall h, 0 <= h < sbi_scratch_hart_count sc -> in_range 32 (hid h) /\ sbi_hartid_to_hartindex sc (hid h) = h }.

(** A FIFO of event ids; still zeroed if its hart is not live. *)
Definition fifo_ok (is_live : Prop) (f : sbi_fifo) : Prop :=
  (exists n q, fifo_rel n 4 f q) \/ (~ is_live /\ lock_free (qlock f) /\ num_entries f = 0 /\ avail f = 0).

(** Hart [h] has initialised its part. *)
Definition home_state (s : sse_state) (h : Z) : Prop := is_Some (sbi_hartindex_to_scratch sc h) /\ is_Some (hart_states s !! h).

(** The global, or the local, events of the firmware, and which one a pointer
    leads to. *)
Definition infos (g : bool) (s : sse_state) : list sse_event_info := filter (fun i => EVENT_IS_GLOBAL (info_id i) = g) (supported_events s).
Definition ref_index (r : event_ref) : nat := match r with RGlobal i | RLocal _ i => i end.

Record sse_inv (live : gset Z) (s : sse_state) : Prop := {
  iv_infos : NoDup (info_id <$> supported_events s) /\ Forall (fun i => in_range 32 (info_id i)) (supported_events s) /\
    0 < Z.of_nat (length (supported_events s)) < 2 ^ 16;
  iv_counts : local_event_count s = Z.of_nat (length (infos false s)) /\ global_event_count s = Z.of_nat (length (infos true s));
  iv_shape : forall r e, event_at s r = Some e -> exists i, infos (ref_global r) s !! ref_index r = Some i /\ info_id i = ev_id e;
  iv_full : forall h i, is_Some (hart_states s !! h) -> (i < length (infos false s))%nat -> is_Some (event_at s (RLocal h i));
  iv_event : forall r e, event_at s r = Some e ->
    event_typed e /\ sse_event_is_global e = ref_global r /\ at_hartid (ev_attrs e) = hid (ev_hartindex e) /\
    (forall h, ref_hart r = Some h -> ev_hartindex e = h) /\ home_state s (ev_hartindex e);
  iv_list : forall h, h ∈ live -> exists xs, enabled s h xs;
  iv_dead : forall r e, event_at s r = Some e -> active e -> ev_hartindex e ∈ live;
  iv_hart : forall h, h ∈ live -> 0 <= h < sbi_scratch_hart_count sc /\ home_state s h;
  iv_fifo : forall h, fifo_ok (h ∈ live) (inject_fifo s h) }.

(** *** Consequences *)

Lemma iv_index live s r :
  sse_inv live s -> is_Some (event_at s r) ->
  match r with RGlobal i => Z.of_nat i < global_event_count s | RLocal _ i => Z.of_nat i < local_event_count s end.
Proof.
  intros Hi [e He]. destruct (iv_counts _ _ Hi) as [-> ->]. destruct (iv_shape _ _ Hi r e He) as (i & E & _).
  apply lookup_lt_Some in E. destruct r; cbn in *; lia.
Qed.

Lemma NoDup_fmap_filter {A B} (f : A -> B) (P : A -> Prop) `{forall x, Decision (P x)} (l : list A) :
  NoDup (f <$> l) -> NoDup (f <$> filter P l).
Proof.
  induction l as [|x l IH]; [done|]. rewrite fmap_cons, filter_cons. intros [Hx Hl]%NoDup_cons. destruct (decide (P x)); [|by apply IH].
  rewrite fmap_cons. apply NoDup_cons. split; [|by apply IH]. intros (y & E & Hy)%list_elem_of_fmap. apply Hx, list_elem_of_fmap. exists y.
  split; [done|]. by apply list_elem_of_filter in Hy as [_ Hy].
Qed.

Lemma iv_uniq live s r r' e e' :
  sse_inv live s -> event_at s r = Some e -> event_at s r' = Some e' -> ref_hart r = ref_hart r' -> ev_id e = ev_id e' -> r = r'.
Proof.
  intros Hi He He' Hh Hid. destruct (iv_shape _ _ Hi r e He) as (i & E & I), (iv_shape _ _ Hi r' e' He') as (i' & E' & I').
  assert (ref_global r = ref_global r') as Eg by (by destruct r, r'). rewrite Eg in E.
  assert (ref_index r = ref_index r') as Ex; [|destruct r, r'; cbn in *; congruence].
  assert (NoDup (info_id <$> infos (ref_global r') s)) as Hnd.
  { apply NoDup_fmap_filter, Hi. }
  apply (NoDup_lookup _ _ _ (info_id i) Hnd); rewrite list_lookup_fmap.
  - by rewrite E.
  - rewrite E'. cbn. congruence.
Qed.

(** No hart's list is longer than the fuel. *)
Lemma enabled_length live s h xs : sse_inv live s -> enabled s h xs -> (length xs <= walk_fuel s)%nat.
Proof.
  intros Hi [[Hnd _] _ Hex]. assert (0 <= local_event_count s /\ 0 <= global_event_count s) as [Hl Hg] by (destruct (iv_counts _ _ Hi); lia).
  set (refs := (RGlobal <$> seq 0 (Z.to_nat (global_event_count s))) ++ (RLocal h <$> seq 0 (Z.to_nat (local_event_count s)))).
  assert (length refs = walk_fuel s) as <-.
  { unfold refs, walk_fuel. rewrite length_app, !length_fmap, !length_seq. lia. }
  apply submseteq_length, NoDup_submseteq.
  - apply NoDup_cons in Hnd as [_ Hnd]. by apply NoDup_fmap_1 in Hnd.
  - intros r Hr. apply Hex in Hr as (e & He & _ & Hh). pose proof (iv_index live s r Hi (mk_is_Some _ _ He)) as Hx.
    destruct (iv_event _ _ Hi r e He) as (_ & _ & _ & Hloc & _). unfold refs. apply elem_of_app. destruct r as [i|h' i].
    + left. apply list_elem_of_fmap_2, elem_of_seq. lia.
    + right. rewrite <- (Hloc h' eq_refl), Hh. apply list_elem_of_fmap_2, elem_of_seq. lia.
Qed.

(** Events in the same list are ordered one way or the other. *)
Lemma before_total live s r r' e e' :
  sse_inv live s -> event_at s r = Some e -> event_at s r' = Some e' -> ev_hartindex e = ev_hartindex e' -> r <> r' ->
  goes_before e e' = false -> goes_before e' e = true.
Proof.
  intros Hi He He' Hh Hne Hb. assert (ev_id e <> ev_id e') as Hid.
  { intros Hid. apply Hne. destruct (iv_event _ _ Hi r e He) as (_ & G & _ & L & _), (iv_event _ _ Hi r' e' He') as (_ & G' & _ & L' & _).
    apply (iv_uniq live s r r' e e'); try done. unfold sse_event_is_global in G, G'. rewrite Hid in G. rewrite G in G'.
    destruct r as [i|h i], r' as [i'|h' i']; try done. cbn in *. rewrite <- (L _ eq_refl), <- (L' _ eq_refl), Hh. done. }
  unfold goes_before in *. lia.
Qed.

Lemma goes_before_trans e1 e2 e3 : goes_before e1 e2 = true -> goes_before e2 e3 = true -> goes_before e1 e3 = true.
Proof. unfold goes_before. lia. Qed.

Lemma find_fmap_ref (p : sse_node -> bool) (xs : list event_ref) :
  find p (NEvent <$> xs) = NEvent <$> find (fun r => p (NEvent r)) xs.
Proof. induction xs as [|x xs IH]; cbn; [done|]. by destruct (p (NEvent x)). Qed.

(** Whether the event a pointer leads to has [p]. *)
Definition event_has (s : sse_state) (p : sbi_sse_event -> bool) (r : event_ref) : bool :=
  match event_at s r with Some e => p e | None => true end.

(** A loop over a list ends at the first event with [p]. *)
Lemma for_each_nodes s h xs p :
  dlist (links s) (NHead h) (NEvent <$> xs) -> (length xs <= walk_fuel s)%nat -> (forall r, r ∈ xs -> is_Some (event_at s r)) ->
  for_each_enabled s h p = Some (find (event_has s p) xs).
Proof.
  intros Hl Hlen Hex. unfold for_each_enabled.
  rewrite (for_each_spec _ _ _ _ _ Hl) by (by rewrite length_fmap). cbn [mbind option_bind]. rewrite find_fmap_ref.
  change (find _ xs) with (find (event_has s p) xs).
  destruct (find (event_has s p) xs) as [r|] eqn:Ef; cbn; [|by rewrite Z.eqb_refl].
  apply find_some in Ef as [Hr _]. apply list_elem_of_In in Hr. by destruct (Hex r Hr) as [e ->].
Qed.

Lemma for_each_enabled_spec live s h xs p :
  sse_inv live s -> enabled s h xs -> for_each_enabled s h p = Some (find (event_has s p) xs).
Proof.
  intros Hi He. pose proof (enabled_length live s h xs Hi He) as Hlen. destruct He as [Hl _ Hex].
  apply for_each_nodes; [done|done|]. intros r (e & -> & _)%Hex. eauto.
Qed.

Lemma find_ext_in {A} (p q : A -> bool) (xs : list A) : (forall x, x ∈ xs -> p x = q x) -> find p xs = find q xs.
Proof.
  induction xs as [|x xs IH]; intros H; cbn; [done|]. rewrite (H x), IH; [done| |apply list_elem_of_here].
  intros y Hy. apply H. by right.
Qed.

(** *** Updates of one event *)

Record updated (s s' : sse_state) (r : event_ref) (e : sbi_sse_event) (m : Dlist.links sse_node) : Prop := {
  up_event : forall r', event_at s' r' = if decide (r' = r) then Some e else event_at s r';
  up_links : links s' = m;
  up_masked : forall h, masked <$> hart_states s' !! h = masked <$> hart_states s !! h;
  up_fifo : inject_fifo s' = inject_fifo s;
  up_supported : supported_events s' = supported_events s;
  up_counts : local_event_count s' = local_event_count s /\ global_event_count s' = global_event_count s }.

Lemma updated_view s s1 s' s'' r e m : view_eq s s1 -> updated s1 s' r e m -> view_eq s' s'' -> updated s s'' r e m.
Proof.
  intros [V1 V2 V3 V4 V5 [V6 V7]] [U1 U2 U3 U4 U5 [U6 U7]] [W1 W2 W3 W4 W5 [W6 W7]].
  split; try congruence; try (split; congruence); intros; by rewrite ?W1, ?U1, ?V1, ?W3, ?U3, ?V3.
Qed.

Lemma set_event_updated r e s : is_Some (event_at s r) -> updated s (set_event r e s) r e (links s).
Proof.
  intros He. destruct (set_event_rest r e s) as (H1 & H2 & H3 & H4 & H5 & H6). split; try done.
  intros r'. by apply event_at_set.
Qed.

Lemma updated_links_after s r e m : is_Some (event_at s r) -> updated s (set_links m (set_event r e s)) r e m.
Proof.
  intros He. destruct (set_event_rest r e s) as (H1 & H2 & H3 & H4 & H5 & H6). split; try done.
  intros r'. by apply (event_at_set r e s r').
Qed.

Lemma updated_links_before s s0 r e m :
  view_eq s s0 -> is_Some (event_at s r) -> updated s (set_event r e (set_links m s0)) r e m.
Proof.
  intros [V1 V2 V3 V4 V5 [V6 V7]] He. destruct (set_event_rest r e (set_links m s0)) as (H1 & H2 & H3 & H4 & H5 & H6).
  split; [|done| |exact (eq_trans H3 V4)|exact (eq_trans H4 V5)|split; [exact (eq_trans H5 V6)|exact (eq_trans H6 V7)]].
  - intros r'. rewrite event_at_set by (change (is_Some (event_at s0 r)); by rewrite V1). destruct (decide (r' = r)); [done|]. apply V1.
  - intros h. by rewrite H2, <- V3.
Qed.

(** What every update keeps. *)
Record keeps (s : sse_state) (r : event_ref) (e e' : sbi_sse_event) : Prop := {
  kp_typed : event_typed e';
  kp_id : ev_id e' = ev_id e;
  kp_home : at_hartid (ev_attrs e') = hid (ev_hartindex e');
  kp_local : ref_hart r <> None -> ev_hartindex e' = ev_hartindex e;
  kp_state : home_state s (ev_hartindex e') }.

Lemma is_some_masked s s' h :
  masked <$> hart_states s' !! h = masked <$> hart_states s !! h -> is_Some (hart_states s !! h) -> is_Some (hart_states s' !! h).
Proof. intros E [hs Hh]. rewrite Hh in E. destruct (hart_states s' !! h); [eauto|done]. Qed.

Lemma home_masked s s' h :
  masked <$> hart_states s' !! h = masked <$> hart_states s !! h -> home_state s h -> home_state s' h.
Proof. intros E [H1 H2]. split; [done|]. by apply (is_some_masked s). Qed.

(** All of the invariant but the lists. *)
Lemma inv_updated live s s' r e e' m :
  sse_inv live s -> event_at s r = Some e -> updated s s' r e' m -> keeps s r e e' ->
  (forall h, h ∈ live -> exists xs, enabled s' h xs) -> (active e' -> ev_hartindex e' ∈ live) -> sse_inv live s'.
Proof.
  intros Hi He [U1 U2 U3 U4 U5 [U6 U7]] [K1 K2 K3 K4 K5] Hl Hd. split.
  - rewrite U5. apply (iv_infos _ _ Hi).
  - unfold infos. rewrite U5, U6, U7. apply (iv_counts _ _ Hi).
  - intros r' x Hx. unfold infos. rewrite U5. rewrite U1 in Hx. destruct (decide (r' = r)) as [->|]; [|by apply (iv_shape _ _ Hi)].
    injection Hx as <-. rewrite K2. by apply (iv_shape _ _ Hi).
  - intros h i Hh Hlt. unfold infos in Hlt. rewrite U5 in Hlt. rewrite U1. destruct (decide _); [eauto|].
    apply (iv_full _ _ Hi h i); [|done]. by apply (is_some_masked s').
  - intros r' x Hx. rewrite U1 in Hx. destruct (decide (r' = r)) as [->|].
    + injection Hx as <-. destruct (iv_event _ _ Hi r e He) as (T & G & H & L & _). split; [done|].
      split; [unfold sse_event_is_global in *; by rewrite K2|]. split; [done|]. split; [|by apply (home_masked s)].
      intros h Hh. rewrite K4 by (by rewrite Hh). by apply L.
    + destruct (iv_event _ _ Hi r' x Hx) as (T & G & H & L & S). do 4 (split; [done|]). by apply (home_masked s).
  - exact Hl.
  - intros r' x Hx Ha. rewrite U1 in Hx. destruct (decide (r' = r)) as [->|]; [injection Hx as <-; by apply Hd|by apply (iv_dead _ _ Hi r')].
  - intros h Hh. destruct (iv_hart _ _ Hi h Hh) as [R S]. split; [done|]. by apply (home_masked s).
  - intros h. rewrite U4. apply (iv_fifo _ _ Hi).
Qed.

(** The order of other events does not change. *)
Lemma sorted_updated s s' r e m xs :
  updated s s' r e m -> (r ∈ xs -> exists e0, event_at s r = Some e0 /\ at_prio (ev_attrs e) = at_prio (ev_attrs e0) /\ ev_id e = ev_id e0) ->
  StronglySorted (before s) xs -> StronglySorted (before s') xs.
Proof.
  intros [U1 _ _ _ _ _] Hr. apply sorted_prio. intros z ez Hz Ez. rewrite U1. destruct (decide (z = r)) as [->|]; [|eauto].
  destruct (Hr Hz) as (e0 & E0 & P & I). simplify_eq. eauto.
Qed.

Lemma sorted_other s s' r e m xs :
  updated s s' r e m -> r ∉ xs -> StronglySorted (before s) xs -> StronglySorted (before s') xs.
Proof. intros Hu Hr. apply (sorted_updated s s' r e m xs Hu). by intros ?%Hr. Qed.

(** *** The lists after an update *)

(** The event stays in its list, or out of all lists. *)
Definition stays (e e' : sbi_sse_event) : Prop :=
  (~ active e /\ ~ active e') \/
  (active e /\ active e' /\ ev_hartindex e' = ev_hartindex e /\ at_prio (ev_attrs e') = at_prio (ev_attrs e)).

Lemma enabled_stays s s' r e e' h xs :
  event_at s r = Some e -> updated s s' r e' (links s) -> ev_id e' = ev_id e -> stays e e' -> enabled s h xs -> enabled s' h xs.
Proof.
  intros He Hu Hid Hst [Hl Hs Hx]. pose proof Hu as [U1 U2 _ _ _ _]. split.
  - by rewrite U2.
  - apply (sorted_updated s s' r e' (links s)); [done| |done]. intros Hr. apply Hx in Hr as (e0 & E0 & Ha & _). simplify_eq.
    destruct Hst as [[]|(_ & _ & _ & Hp)]; [done|]. eauto.
  - intros r'. rewrite Hx, U1. destruct (decide (r' = r)) as [->|]; [|done]. rewrite He. split.
    + intros (e0 & [= <-] & Ha & Hh). destruct Hst as [[]|(_ & Ha' & Hh' & _)]; [done|]. exists e'. by rewrite Hh'.
    + intros (e0 & [= <-] & Ha & Hh). destruct Hst as [[]|(Ha' & _ & Hh' & _)]; [done|]. exists e. by rewrite <- Hh'.
Qed.

(** The place of an event in the list of its hart. *)
Definition fits (s : sse_state) (e : sbi_sse_event) (pre post : list event_ref) : Prop :=
  Forall (fun x => exists ex, event_at s x = Some ex /\ goes_before e ex = false) pre /\
  forall t, hd_error post = Some t -> exists et, event_at s t = Some et /\ goes_before e et = true.

Lemma find_fits live s h xs e :
  sse_inv live s -> enabled s h xs ->
  exists pre post, xs = pre ++ post /\ find (event_has s (goes_before e)) xs = hd_error post /\ fits s e pre post.
Proof.
  intros Hi [_ _ Hx]. destruct (find_split (event_has s (goes_before e)) xs) as (pre & post & -> & Hpre & Hf & Ht).
  exists pre, post. split; [done|]. split; [done|]. split.
  - rewrite Forall_forall in Hpre |- *. intros x Hxp. specialize (Hpre x Hxp).
    destruct (proj1 (Hx x)) as (ex & E & _); [apply elem_of_app; by left|]. exists ex. split; [done|].
    unfold event_has in Hpre. by rewrite E in Hpre.
  - intros t Et. specialize (Ht t Et). destruct (proj1 (Hx t)) as (et & E & _).
    { apply elem_of_app. right. destruct post; [done|]. injection Et as ->. apply list_elem_of_here. }
    exists et. split; [done|]. unfold event_has in Ht. by rewrite E in Ht.
Qed.

Lemma nodes_in (xs : list event_ref) r : NEvent r ∈ NEvent <$> xs <-> r ∈ xs.
Proof. rewrite list_elem_of_fmap. split; [intros (r' & [= ->] & ?); done|eauto]. Qed.

Lemma node_out h (xs : list event_ref) r : r ∉ xs -> NEvent r ∉ NHead h :: (NEvent <$> xs).
Proof. intros Hr. rewrite elem_of_cons, nodes_in. by intros [|]. Qed.

(** Lists of different harts have no node in common. *)
Lemma lists_apart s h h' xs xs' (extra : list event_ref) :
  h <> h' -> enabled s h xs -> enabled s h' xs' -> (forall r, r ∈ extra -> r ∉ xs') ->
  forall n, n ∈ NHead h' :: (NEvent <$> xs') -> n ∉ (NEvent <$> extra) ++ NHead h :: (NEvent <$> xs).
Proof.
  intros Hne [_ _ Hx] [_ _ Hx'] Hex n Hn Hin. apply elem_of_app in Hin.
  apply elem_of_cons in Hn as [->|(r & -> & Hr)%list_elem_of_fmap].
  - destruct Hin as [(r & ? & _)%list_elem_of_fmap|[?|(r & ? & _)%list_elem_of_fmap]%elem_of_cons]; congruence.
  - rewrite nodes_in, elem_of_cons, nodes_in in Hin. destruct Hin as [Hin|[|Hin]]; [by apply (Hex r)|done|].
    apply Hx in Hin as (e & E & _ & H1). apply Hx' in Hr as (e' & E' & _ & H2). simplify_eq.
Qed.

Lemma hd_node_refs h (post : list event_ref) :
  hd_node (NHead h) (NEvent <$> post) = match hd_error post with Some t => NEvent t | None => NHead h end.
Proof. by destruct post. Qed.

Lemma enabled_link live s s' r e e' h pre post :
  sse_inv live s -> event_at s r = Some e -> keeps s r e e' -> ~ active e -> active e' -> ev_hartindex e' = h ->
  enabled s h (pre ++ post) -> fits s e' pre post ->
  updated s s' r e' (sbi_list_add_tail (NEvent r) (hd_node (NHead h) (NEvent <$> post)) (links s)) ->
  enabled s' h (pre ++ r :: post).
Proof.
  intros Hi He Hk Hna Ha Hh Hen [Hpre Hpost] Hu. pose proof Hen as [Hl Hs Hx]. pose proof Hu as [U1 U2 _ _ _ _].
  assert (r ∉ pre ++ post) as Hr.
  { intros Hr. apply Hx in Hr as (e0 & E0 & Ha0 & _). by simplify_eq. }
  assert (forall x, x ∈ pre ++ post -> exists ex, event_at s x = Some ex /\ event_at s' x = Some ex /\ ev_hartindex ex = h /\ x <> r) as Hex.
  { intros x Hxx. pose proof (proj1 (Hx x) Hxx) as (ex & E & _ & H). exists ex. rewrite U1.
    assert (x <> r) by (by intros ->). by rewrite decide_False. }
  assert (event_at s' r = Some e') as Er by (by rewrite U1, decide_True).
  split.
  - rewrite U2, fmap_app, fmap_cons. rewrite fmap_app in Hl. apply dlist_add_tail; [done|]. rewrite <- fmap_app. by apply node_out.
  - assert (StronglySorted (before s') (pre ++ post)) as Hs'.
    { by apply (sorted_other s s' r e' _ _ Hu). }
    assert (forall x ex, x ∈ pre ++ post -> event_at s x = Some ex -> goes_before e' ex = false -> before s' x r) as Hlt.
    { intros x ex Hxx E Hb. destruct (Hex x Hxx) as (ex' & E' & E'' & Hhx & Hne). assert (ex' = ex) as -> by congruence.
      exists ex, e'. split_and!; [done|done|].
      destruct (decide (ev_id ex = ev_id e')) as [Hid|Hid]; [|unfold goes_before in *; lia].
      exfalso. destruct Hk as [K1 K2 K3 K4 _]. destruct (iv_event _ _ Hi r e He) as (_ & G & _ & L & _), (iv_event _ _ Hi x ex E) as (_ & G' & _ & L' & _).
      apply Hne. apply (iv_uniq live s x r ex e); try done; [|congruence].
      unfold sse_event_is_global in G, G'. rewrite Hid, K2, G in G'. destruct r as [i|hr i], x as [j|hx j]; try done.
      cbn in *. rewrite <- (L' _ eq_refl), <- (L _ eq_refl), <- K4; [congruence|done]. }
    assert (forall t, t ∈ post -> before s' r t) as Hgt.
    { intros t Ht. destruct post as [|t0 post]; [by apply elem_of_nil in Ht|]. destruct (Hpost t0 eq_refl) as (et & Et & Hb).
      destruct (Hex t0) as (et' & E1 & E2 & _); [set_solver|]. assert (et' = et) as -> by congruence.
      apply elem_of_cons in Ht as [->|Ht]; [by exists e', et|].
      apply StronglySorted_app in Hs' as (_ & _ & Hs'). apply StronglySorted_inv in Hs' as [_ Hall]. rewrite Forall_forall in Hall.
      destruct (Hall t Ht) as (x1 & x2 & X1 & X2 & Hb2). assert (x1 = et) as -> by congruence.
      exists e', x2. split_and!; [done|done|]. by eapply goes_before_trans. }
    apply StronglySorted_app in Hs' as (Hcross & Hp1 & Hp2). apply StronglySorted_app. split_and!; [|done|].
    + intros x y Hxx Hy. apply elem_of_cons in Hy as [->|Hy]; [|by apply Hcross]. rewrite Forall_forall in Hpre.
      destruct (Hpre x Hxx) as (ex & E & Hb). apply (Hlt x ex); [set_solver|done|done].
    + constructor; [done|]. by apply Forall_forall.
  - intros x. rewrite U1, elem_of_app, elem_of_cons. destruct (decide (x = r)) as [->|Hne].
    + split; [intros _; by exists e'|]. intros _. by right; left.
    + rewrite <- Hx, elem_of_app. tauto.
Qed.

Lemma enabled_link_other s s' r e e' h h' pre post xs' :
  event_at s r = Some e -> ~ active e -> ev_hartindex e' = h -> h <> h' ->
  enabled s h (pre ++ post) -> enabled s h' xs' ->
  updated s s' r e' (sbi_list_add_tail (NEvent r) (hd_node (NHead h) (NEvent <$> post)) (links s)) -> enabled s' h' xs'.
Proof.
  intros He Hna Hh Hne Hen Hen' Hu. pose proof Hu as [U1 U2 _ _ _ _].
  assert (r ∉ xs') as Hr by (intros Hr; apply (en_exact _ _ _ Hen') in Hr as (e0 & E0 & Ha0 & _); by simplify_eq).
  pose proof (lists_apart s h h' (pre ++ post) xs' [r] Hne Hen Hen' ltac:(set_solver)) as Hap.
  destruct Hen as [Hl _ _], Hen' as [Hl' Hs' Hx']. split.
  - rewrite U2, fmap_app in *. by apply (dlist_add_tail_other _ _ (NEvent <$> pre)).
  - by apply (sorted_other s s' r e' _ _ Hu).
  - intros x. rewrite U1. destruct (decide (x = r)) as [->|]; [|by apply Hx'].
    split; [done|]. intros (? & [= <-] & _ & Hh'). congruence.
Qed.

Lemma enabled_unlink s s' r e e' h pre post :
  event_at s r = Some e -> ~ active e' -> enabled s h (pre ++ r :: post) ->
  updated s s' r e' (sbi_list_del NPoisonNext NPoisonPrev (NEvent r) (links s)) -> enabled s' h (pre ++ post).
Proof.
  intros He Hna [Hl Hs Hx] Hu. pose proof Hu as [U1 U2 _ _ _ _]. rewrite fmap_app, fmap_cons in Hl.
  assert (r ∉ pre ++ post) as Hr.
  { intros Hr. apply (dlist_not_in _ _ _ _ _ Hl). rewrite <- fmap_app. right. by apply nodes_in. }
  split.
  - rewrite U2, fmap_app. by apply dlist_del.
  - apply (sorted_other s s' r e' _ _ Hu); [done|]. apply StronglySorted_app in Hs as (Hc & H1 & H2).
    apply StronglySorted_inv in H2 as [H2 _]. apply StronglySorted_app. split_and!; [|done|done]. intros x y Hxx Hy. apply Hc; [done|by right].
  - intros x. rewrite U1. destruct (decide (x = r)) as [->|Hne].
    + split; [done|]. by intros (? & [= <-] & ? & _).
    + rewrite <- Hx, !elem_of_app, elem_of_cons. tauto.
Qed.

Lemma enabled_unlink_other s s' r e e' h h' pre post xs' :
  event_at s r = Some e -> ev_hartindex e = h -> ~ active e' -> h <> h' -> enabled s h (pre ++ r :: post) -> enabled s h' xs' ->
  updated s s' r e' (sbi_list_del NPoisonNext NPoisonPrev (NEvent r) (links s)) -> enabled s' h' xs'.
Proof.
  intros He Hh Hna Hne Hen Hen' Hu. pose proof Hu as [U1 U2 _ _ _ _].
  assert (r ∉ xs') as Hr by (intros Hr; apply (en_exact _ _ _ Hen') in Hr as (e0 & E0 & _ & Hh0); simplify_eq).
  pose proof (lists_apart s h h' _ xs' [] Hne Hen Hen' ltac:(set_solver)) as Hap.
  destruct Hen as [Hl _ _], Hen' as [Hl' Hs' Hx']. split.
  - rewrite U2, fmap_app, fmap_cons in *. by apply (dlist_del_other _ (NHead h) (NEvent <$> pre) _ (NEvent <$> post)).
  - by apply (sorted_other s s' r e' _ _ Hu).
  - intros x. rewrite U1. destruct (decide (x = r)) as [->|]; [|by apply Hx']. split; [done|]. by intros (? & [= <-] & ? & _).
Qed.

(** *** The invariant after an update *)

Lemma inv_stays live s s' r e e' :
  sse_inv live s -> event_at s r = Some e -> updated s s' r e' (links s) -> keeps s r e e' -> stays e e' ->
  sse_inv live s' /\ forall h xs, enabled s h xs -> enabled s' h xs.
Proof.
  intros Hi He Hu Hk Hst.
  assert (forall h xs, enabled s h xs -> enabled s' h xs) as Hen.
  { intros h xs. apply (enabled_stays s s' r e e' h xs); try done. apply Hk. }
  split; [|done]. apply (inv_updated live s s' r e e' (links s)); try done.
  - intros h Hh. destruct (iv_list _ _ Hi h Hh) as [xs Hxs]. eauto.
  - intros Ha. destruct Hst as [[]|(Ha' & _ & -> & _)]; [done|]. by apply (iv_dead _ _ Hi r).
Qed.

Lemma inv_link live s s' r e e' pre post :
  sse_inv live s -> event_at s r = Some e -> keeps s r e e' -> ~ active e -> active e' -> ev_hartindex e' ∈ live ->
  enabled s (ev_hartindex e') (pre ++ post) -> fits s e' pre post ->
  updated s s' r e' (sbi_list_add_tail (NEvent r) (hd_node (NHead (ev_hartindex e')) (NEvent <$> post)) (links s)) ->
  sse_inv live s' /\ enabled s' (ev_hartindex e') (pre ++ r :: post) /\
  forall h xs, h <> ev_hartindex e' -> enabled s h xs -> enabled s' h xs.
Proof.
  intros Hi He Hk Hna Ha Hlive Hen Hf Hu.
  assert (enabled s' (ev_hartindex e') (pre ++ r :: post)) as H1 by (by eapply enabled_link).
  assert (forall h xs, h <> ev_hartindex e' -> enabled s h xs -> enabled s' h xs) as H2.
  { intros h xs Hne Hxs. by eapply (enabled_link_other s s' r e e' (ev_hartindex e') h pre post xs). }
  split; [|done]. apply (inv_updated live s s' r e e' _ Hi He Hu Hk); [|done].
  intros h Hh. destruct (decide (h = ev_hartindex e')) as [->|Hne]; [eauto|]. destruct (iv_list _ _ Hi h Hh) as [xs Hxs]. eauto.
Qed.

Lemma inv_unlink live s s' r e e' pre post :
  sse_inv live s -> event_at s r = Some e -> keeps s r e e' -> ~ active e' ->
  enabled s (ev_hartindex e) (pre ++ r :: post) ->
  updated s s' r e' (sbi_list_del NPoisonNext NPoisonPrev (NEvent r) (links s)) ->
  sse_inv live s' /\ enabled s' (ev_hartindex e) (pre ++ post) /\
  forall h xs, h <> ev_hartindex e -> enabled s h xs -> enabled s' h xs.
Proof.
  intros Hi He Hk Hna Hen Hu.
  assert (enabled s' (ev_hartindex e) (pre ++ post)) as H1 by (by eapply enabled_unlink).
  assert (forall h xs, h <> ev_hartindex e -> enabled s h xs -> enabled s' h xs) as H2.
  { intros h xs Hne Hxs. by eapply (enabled_unlink_other s s' r e e' (ev_hartindex e) h pre post xs). }
  split; [|done]. apply (inv_updated live s s' r e e' _ Hi He Hu Hk); [|done].
  intros h Hh. destruct (decide (h = ev_hartindex e)) as [->|Hne]; [eauto|]. destruct (iv_list _ _ Hi h Hh) as [xs Hxs]. eauto.
Qed.

(** ** The stack of handlers *)

(** A handler that runs, and what it has interrupted. *)
Record frame := mkFrame { f_event : event_ref; f_saved : sse_interrupted_state }.

Definition frame_of (s : sse_state) (r : event_ref) : option frame :=
  e ← event_at s r; if sse_event_state e =? SBI_SSE_STATE_RUNNING then Some (mkFrame r (at_interrupted (ev_attrs e))) else None.

(** The running events of a hart, first in its list first. *)
Definition stack (s : sse_state) (h : Z) : list frame :=
  omap (fun n => match n with NEvent r => frame_of s r | _ => None end)
    (list_nodes (walk_fuel s) (links s) (NHead h) (lnext (links s) (NHead h))).

Lemma omap_ext_in {A B} (f g : A -> option B) (l : list A) : (forall x, x ∈ l -> f x = g x) -> omap f l = omap g l.
Proof.
  induction l as [|x l IH]; intros H; cbn; [done|]. rewrite (H x), IH; [done| |apply list_elem_of_here].
  intros y Hy. apply H. by right.
Qed.

Lemma omap_refs (f : event_ref -> option frame) (xs : list event_ref) :
  omap (fun n => match n with NEvent r => f r | _ => None end) (NEvent <$> xs) = omap f xs.
Proof. induction xs as [|x xs IH]; cbn; [done|]. destruct (f x); by rewrite IH. Qed.

Lemma stack_nodes s h xs : enabled s h xs -> (length xs <= walk_fuel s)%nat -> stack s h = omap (frame_of s) xs.
Proof.
  intros He Hl. unfold stack. rewrite (list_nodes_spec _ _ _ (NEvent <$> xs)); [apply omap_refs|apply He|by rewrite length_fmap].
Qed.

Lemma stack_enabled live s h xs : sse_inv live s -> enabled s h xs -> stack s h = omap (frame_of s) xs.
Proof. intros Hi He. apply stack_nodes; [done|]. by apply (enabled_length live s h). Qed.

(** States that differ in locks, masks, FIFOs and recorded calls. *)
Record weak_eq (s s' : sse_state) : Prop := {
  we_event : forall r, event_at s' r = event_at s r;
  we_links : links s' = links s;
  we_hart : forall h, is_Some (hart_states s !! h) <-> is_Some (hart_states s' !! h);
  we_supported : supported_events s' = supported_events s;
  we_counts : local_event_count s' = local_event_count s /\ global_event_count s' = global_event_count s }.

Lemma view_weak s s' : view_eq s s' -> weak_eq s s'.
Proof. intros [V1 V2 V3 V4 V5 V6]. split; try done. intros h. split; by apply is_some_masked. Qed.

Lemma enabled_weak s s' h xs : weak_eq s s' -> enabled s h xs -> enabled s' h xs.
Proof.
  intros [V1 V2 _ _ _] [E1 E2 E3]. split.
  - by rewrite V2.
  - by apply (sorted_same s).
  - intros r. by rewrite V1.
Qed.

Lemma inv_weak live s s' :
  weak_eq s s' -> (forall h, fifo_ok (h ∈ live) (inject_fifo s' h)) -> sse_inv live s -> sse_inv live s'.
Proof.
  intros Hw Hf Hi. pose proof Hw as [V1 V2 V3 V5 [V6 V7]].
  assert (forall h, home_state s h -> home_state s' h) as Hh by (intros h [H1 H2]; split; [done|by apply V3]).
  split; intros *; unfold infos; rewrite ?V1, ?V2, ?V5, ?V6, ?V7, <- ?V3; try apply Hi; try done.
  - intros He. destruct (iv_event _ _ Hi r e He) as (T & G & H & L & S). do 4 (split; [done|]). by apply Hh.
  - intros Hl. destruct (iv_list _ _ Hi h Hl) as [xs Hxs]. exists xs. by apply (enabled_weak s).
  - intros Hl. destruct (iv_hart _ _ Hi h Hl) as [R S]. split; [done|]. by apply Hh.
Qed.

Lemma inv_view live s s' : view_eq s s' -> sse_inv live s -> sse_inv live s'.
Proof.
  intros Hv Hi. apply (inv_weak live s s' (view_weak s s' Hv)); [|done]. rewrite (sw_fifo _ _ Hv). apply (iv_fifo _ _ Hi).
Qed.

Lemma stack_weak s s' h : weak_eq s s' -> stack s' h = stack s h.
Proof.
  intros [V1 V2 V3 _ [V6 V7]]. unfold stack, walk_fuel. rewrite V2, V6, V7. apply omap_ext_in.
  intros [| r | |] _; try done. unfold frame_of. by rewrite V1.
Qed.

Lemma stack_view s s' h : view_eq s s' -> stack s' h = stack s h.
Proof. intros Hv. by apply stack_weak, view_weak. Qed.

Lemma frame_other s s' r e m x : updated s s' r e m -> x <> r -> frame_of s' x = frame_of s x.
Proof. intros [U1 _ _ _ _ _] Hne. unfold frame_of. by rewrite U1, decide_False. Qed.

Lemma frames_other s s' r e m (xs : list event_ref) : updated s s' r e m -> r ∉ xs -> omap (frame_of s') xs = omap (frame_of s) xs.
Proof.
  intros Hu Hr. apply omap_ext_in. intros x Hx. apply (frame_other s s' r e m x Hu). by intros ->.
Qed.
End Invariant.
