(* ===== verification/SseCalls.v ===== *)
(** * The calls keep the invariant (lib/sbi/sbi_sse.c)

    For every function of file Sse that a hart may call while it runs: it returns,
    it keeps the invariant of file SseInv, it leaves all locks free, and what it
    does to the stacks of handlers ([good], with [keep], [edits], [delivered] and
    [completed] for the changes of the stacks). *)

From stdpp Require Import gmap functions sorting.
From S2P Require Import Prelude Locks Fifo Bitops Bitmap Scratch Pmp Memregion Domain Hsm Trap Dlist Sse SseInv.
Local Open Scope Z_scope.

(** ** Status words *)

Lemma status_cases st : 8 <= st < 16 -> st ∈ [8; 9; 10; 11; 12; 13; 14; 15].
Proof. intros H. rewrite !elem_of_cons. lia. Qed.

Lemma set_state_word st k :
  8 <= st < 16 -> 0 <= k < 4 ->
  let st' := Z.lor (Z.land st (not_w 64 SBI_SSE_ATTR_STATUS_STATE_MASK)) k in
  8 <= st' < 16 /\ Z.land st' 3 = k /\ Z.land st' 4 = Z.land st 4.
Proof.
  intros Hst Hk. assert (k ∈ [0; 1; 2; 3]) as Hk' by (rewrite !elem_of_cons; lia).
  apply status_cases in Hst. repeat rewrite elem_of_cons in Hst. repeat rewrite elem_of_cons in Hk'. rewrite elem_of_nil in Hst, Hk'.
  destruct Hk' as [->|[->|[->|[->|[]]]]]; destruct Hst as [->|[->|[->|[->|[->|[->|[->|[->|[]]]]]]]]]; by vm_compute.
Qed.

Lemma pending_word st :
  8 <= st < 16 -> let st' := Z.lor st (BIT SBI_SSE_ATTR_STATUS_PENDING_OFFSET) in 8 <= st' < 16 /\ Z.land st' 3 = Z.land st 3.
Proof.
  intros Hst. apply status_cases in Hst. repeat rewrite elem_of_cons in Hst. rewrite elem_of_nil in Hst.
  destruct Hst as [->|[->|[->|[->|[->|[->|[->|[->|[]]]]]]]]]; by vm_compute.
Qed.

Lemma unpending_word st :
  8 <= st < 16 ->
  let st' := Z.land st (not_w 64 (BIT SBI_SSE_ATTR_STATUS_PENDING_OFFSET)) in 8 <= st' < 16 /\ Z.land st' 3 = Z.land st 3.
Proof.
  intros Hst. apply status_cases in Hst. repeat rewrite elem_of_cons in Hst. rewrite elem_of_nil in Hst.
  destruct Hst as [->|[->|[->|[->|[->|[->|[->|[->|[]]]]]]]]]; by vm_compute.
Qed.

Lemma state_set_state e k : event_typed e -> 0 <= k < 4 -> sse_event_state (sse_event_set_state e k) = k.
Proof. intros Ht Hk. apply (set_state_word _ k (ty_status e Ht) Hk). Qed.

Lemma typed_status e st : event_typed e -> 8 <= st < 16 -> event_typed (set_status st e).
Proof. intros [H1 H2 H3 H4 H5 H6 H7] Hst. by split. Qed.

Lemma typed_interrupted e i :
  event_typed e -> in_range 64 (i_sepc i) /\ in_range 6 (i_flags i) /\ in_range 64 (i_a6 i) /\ in_range 64 (i_a7 i) ->
  event_typed (set_interrupted i e).
Proof. intros [H1 H2 H3 H4 H5 H6 H7] Hi. by split. Qed.

(** ** Steps of a call *)

(** What a step does to the stack of a hart. *)
Definition stack_change : Type := Z -> list frame -> list frame -> Prop.
Definition keep : stack_change := fun _ st st' => st' = st.

Record good (R : stack_change) (sc : scratch_state) (L : list sse_lock) (live : gset Z) (s s' : sse_state) : Prop := {
  gd_inv : sse_inv sc live s';
  gd_locks : locks L s';
  gd_some : forall r, is_Some (event_at s r) -> is_Some (event_at s' r);
  gd_stack : forall h, h ∈ live -> R h (stack s h) (stack s' h) }.

Section Steps.
Context (sc : scratch_state) (live : gset Z).

Lemma good_keep_l R L L' s s' s'' : good keep sc L live s s' -> good R sc L' live s' s'' -> good R sc L' live s s''.
Proof. intros [_ _ A3 A4] [B1 B2 B3 B4]. split; auto. intros h Hh. rewrite <- (A4 h Hh). by apply B4. Qed.

Lemma good_keep_r R L L' s s' s'' : good R sc L live s s' -> good keep sc L' live s' s'' -> good R sc L' live s s''.
Proof. intros [_ _ A3 A4] [B1 B2 B3 B4]. split; auto. intros h Hh. rewrite (B4 h Hh). by apply A4. Qed.

Lemma good_view L s s' : sse_inv sc live s -> view_eq s s' -> locks L s' -> good keep sc L live s s'.
Proof.
  intros Hi Hv HL. split; [by apply (inv_view sc live s)|done| |].
  - intros r. by rewrite (sw_event _ _ Hv).
  - intros h _. by apply stack_view.
Qed.

Lemma good_weak L s s' :
  sse_inv sc live s -> weak_eq s s' -> (forall h, fifo_ok (h ∈ live) (inject_fifo s' h)) -> locks L s' ->
  good keep sc L live s s'.
Proof.
  intros Hi Hw Hf HL. split; [by apply (inv_weak sc live s)|done| |].
  - intros r. by rewrite (we_event _ _ Hw).
  - intros h _. by apply stack_weak.
Qed.

Lemma updated_some s s' r e m : updated s s' r e m -> forall r', is_Some (event_at s r') -> is_Some (event_at s' r').
Proof. intros [U1 _ _ _ _ _] r' Hr'. rewrite U1. destruct (decide (r' = r)); [eauto|done]. Qed.

(** The frame an event makes. *)
Definition event_frame (r : event_ref) (e : sbi_sse_event) : option frame :=
  if sse_event_state e =? SBI_SSE_STATE_RUNNING then Some (mkFrame r (at_interrupted (ev_attrs e))) else None.

Lemma frame_event s r e : event_at s r = Some e -> frame_of s r = event_frame r e.
Proof. intros He. unfold frame_of. by rewrite He. Qed.

Lemma good_stays L s s' r e e' :
  sse_inv sc live s -> event_at s r = Some e -> updated s s' r e' (links s) -> keeps sc s r e e' -> stays e e' ->
  event_frame r e' = event_frame r e -> locks L s' -> good keep sc L live s s'.
Proof.
  intros Hi He Hu Hk Hst Hf HL. destruct (inv_stays sc live s s' r e e' Hi He Hu Hk Hst) as [Hi' Hen].
  split; [done|done|by apply (updated_some s s' r e' (links s))|].
  intros h Hh. unfold keep. destruct (iv_list _ _ _ Hi h Hh) as [xs Hxs].
  rewrite (stack_enabled sc live s' h xs), (stack_enabled sc live s h xs) by auto. apply omap_ext_in. intros x _.
  destruct (decide (x = r)) as [->|Hne]; [|by apply (frame_other s s' r e' (links s))].
  rewrite (frame_event s r e) by done. rewrite (frame_event s' r e'); [done|]. by rewrite (up_event _ _ _ _ _ Hu), decide_True.
Qed.

Lemma good_link L s s' r e e' pre post :
  sse_inv sc live s -> event_at s r = Some e -> keeps sc s r e e' -> ~ active e -> active e' -> event_frame r e' = None ->
  ev_hartindex e' ∈ live -> enabled s (ev_hartindex e') (pre ++ post) -> fits s e' pre post ->
  updated s s' r e' (sbi_list_add_tail (NEvent r) (hd_node (NHead (ev_hartindex e')) (NEvent <$> post)) (links s)) ->
  locks L s' -> good keep sc L live s s'.
Proof.
  intros Hi He Hk Hna Ha Hf Hh Hen Hfit Hu HL.
  destruct (inv_link sc live s s' r e e' pre post) as (Hi' & Hen' & Hother); try done.
  assert (r ∉ pre ++ post) as Hr.
  { intros Hr. apply (en_exact _ _ _ Hen) in Hr as (e0 & E0 & Ha0 & _). by simplify_eq. }
  split; [done|done|by eapply updated_some|]. intros h Hhl. unfold keep. destruct (decide (h = ev_hartindex e')) as [->|Hne].
  - rewrite (stack_enabled sc live s' _ _ Hi' Hen'), (stack_enabled sc live s _ _ Hi Hen).
    rewrite omap_app. cbn [omap list_omap]. rewrite (frame_event s' r e') by (by rewrite (up_event _ _ _ _ _ Hu), decide_True).
    rewrite Hf. rewrite <- omap_app. by apply (frames_other s s' r e' _ _ Hu).
  - destruct (iv_list _ _ _ Hi h Hhl) as [xs Hxs].
    rewrite (stack_enabled sc live s' _ _ Hi' (Hother h xs Hne Hxs)), (stack_enabled sc live s _ _ Hi Hxs).
    apply (frames_other s s' r e' _ _ Hu). intros Hx. apply (en_exact _ _ _ Hxs) in Hx as (e0 & E0 & Ha0 & _). by simplify_eq.
Qed.

Lemma good_unlink L s s' r e e' pre post :
  sse_inv sc live s -> event_at s r = Some e -> keeps sc s r e e' -> ~ active e' -> event_frame r e = None ->
  ev_hartindex e ∈ live -> enabled s (ev_hartindex e) (pre ++ r :: post) ->
  updated s s' r e' (sbi_list_del NPoisonNext NPoisonPrev (NEvent r) (links s)) -> locks L s' -> good keep sc L live s s'.
Proof.
  intros Hi He Hk Hna Hf Hh Hen Hu HL.
  destruct (inv_unlink sc live s s' r e e' pre post) as (Hi' & Hen' & Hother); try done.
  assert (r ∉ pre ++ post) as Hr.
  { intros Hr. apply (en_exact _ _ _ Hen') in Hr as (e0 & E0 & Ha0 & _). rewrite (up_event _ _ _ _ _ Hu), decide_True in E0 by done.
    by simplify_eq. }
  split; [done|done|by eapply updated_some|]. intros h Hhl. unfold keep. destruct (decide (h = ev_hartindex e)) as [->|Hne].
  - rewrite (stack_enabled sc live s' _ _ Hi' Hen'), (stack_enabled sc live s _ _ Hi Hen).
    rewrite (omap_app _ pre (r :: post)). cbn [omap list_omap]. rewrite (frame_event s r e), Hf, <- omap_app by done.
    by apply (frames_other s s' r e' _ _ Hu).
  - destruct (iv_list _ _ _ Hi h Hhl) as [xs Hxs].
    rewrite (stack_enabled sc live s' _ _ Hi' (Hother h xs Hne Hxs)), (stack_enabled sc live s _ _ Hi Hxs).
    apply (frames_other s s' r e' _ _ Hu). intros Hx. apply (en_exact _ _ _ Hxs) in Hx as (e0 & E0 & _ & Hh0). simplify_eq.
Qed.
End Steps.

(** ** The calls *)

Section Calls.
Context (v : sse_env) (live : gset Z).
Context (Hok : harts_ok (v_sc v)) (Hself : v_self v ∈ live).

Abbreviation inv := (sse_inv (v_sc v) live).
Abbreviation gd := (fun R L => good R (v_sc v) L live).

Lemma live_state s h : inv s -> h ∈ live -> is_Some (sse_get_hart_state v s h).
Proof.
  intros Hi Hh. destruct (iv_hart _ _ _ Hi h Hh) as (_ & [p E] & [hs Hs]). unfold sse_get_hart_state. rewrite E. eauto.
Qed.

Lemma self_state s : inv s -> is_Some (hart_states s !! v_self v).
Proof. intros Hi. by apply (iv_hart _ _ _ Hi). Qed.

Lemma keeps_status s r e st : inv s -> event_at s r = Some e -> 8 <= st < 16 -> keeps (v_sc v) s r e (set_status st e).
Proof.
  intros Hi He Hst. destruct (iv_event _ _ _ Hi r e He) as (T & _ & Hh & _ & Hs). split; try done. by apply typed_status.
Qed.

Lemma stays_same e e' :
  sse_event_state e' = sse_event_state e -> ev_hartindex e' = ev_hartindex e -> at_prio (ev_attrs e') = at_prio (ev_attrs e) -> stays e e'.
Proof. intros H1 H2 H3. unfold stays, active. rewrite H1. destruct (Z_le_dec 2 (sse_event_state e)); [right|left]; done. Qed.

Lemma updated_keep_view s s' s'' r e m : updated s s' r e m -> view_eq s' s'' -> updated s s'' r e m.
Proof. intros Hu Hv. by apply (updated_view s s s' s''). Qed.

(** Looking an event up, working on it and giving it back. *)
Lemma with_event_rule R event_id body s :
  inv s -> locks [] s -> (forall h st, R h st st) ->
  (forall r e s1, sees v r -> event_at s1 r = Some e -> ev_id e = event_id -> view_eq s s1 -> inv s1 -> locks (event_locks r) s1 ->
    exists ret s2, body r s1 = Some (ret, s2) /\ gd R (event_locks r) s1 s2) ->
  exists ret s', with_event v event_id body s = Some (ret, s') /\ gd R [] s s'.
Proof.
  intros Hi HL Hrefl Hbody. unfold with_event.
  destruct (event_get_rule v event_id s (self_state s Hi) HL) as (res & s1 & -> & Hv & Hres). cbn [mbind option_bind].
  destruct res as [ret|r].
  - destruct Hres as (-> & -> & _). eexists _, _. split; [done|]. split; auto.
  - destruct Hres as (Hsee & _ & HL1 & e & He & Hid). rewrite <- (sw_event _ _ Hv) in He.
    pose proof (inv_view _ _ _ _ Hv Hi) as Hi1.
    destruct (Hbody r e s1 Hsee He Hid Hv Hi1 HL1) as (ret & s2 & -> & Hg). cbn [mbind option_bind].
    destruct (gd_some _ _ _ _ _ _ Hg r (mk_is_Some _ _ He)) as [e2 He2].
    destruct (iv_event _ _ _ (gd_inv _ _ _ _ _ _ Hg) r e2 He2) as (_ & G & _).
    destruct (event_put_rule r e2 s2 He2 G (gd_locks _ _ _ _ _ _ Hg)) as (s3 & -> & Hv3 & HL3). cbn [mbind option_bind].
    eexists _, _. split; [done|]. apply (good_keep_l _ _ _ (event_locks r) _ _ s1); [by apply good_view|].
    apply (good_keep_r _ _ _ (event_locks r) _ _ s2); [done|]. apply good_view; [apply Hg|done|done].
Qed.

Lemma set_pending_ok L r e s :
  inv s -> locks L s -> event_at s r = Some e -> exists ret s', sse_event_set_pending r s = Some (ret, s') /\ gd keep L s s'.
Proof.
  intros Hi HL He. unfold sse_event_set_pending. rewrite He. cbn [mbind option_bind].
  destruct (negb _ && negb _).
  { eexists _, _. split; [done|]. by apply good_view. }
  eexists _, _. split; [done|]. destruct (iv_event _ _ _ Hi r e He) as (T & _).
  destruct (pending_word _ (ty_status e T)) as [P1 P2].
  apply (good_stays _ _ _ _ _ r e (set_status (Z.lor (at_status (ev_attrs e)) (BIT 2)) e)); try done.
  - apply set_event_updated. by rewrite He.
  - by apply (keeps_status s).
  - by apply stays_same.
  - unfold event_frame, sse_event_state. cbn [set_status ev_attrs at_status at_interrupted]. by rewrite P2.
  - by apply locks_set_event.
Qed.

Lemma state_bounds e : event_typed e -> 0 <= sse_event_state e < 4.
Proof.
  intros T. pose proof (set_state_word _ 0 (ty_status e T) ltac:(lia)). unfold sse_event_state.
  change SBI_SSE_ATTR_STATUS_STATE_MASK with (Z.ones 2). rewrite Z.land_ones by lia. apply Z.mod_pos_bound. lia.
Qed.

(** From one of the two inactive states to the other. *)
Lemma set_inactive_ok L r e e1 k s s' :
  inv s -> event_at s r = Some e -> ~ active e -> keeps (v_sc v) s r e e1 -> 0 <= k < 2 ->
  view_eq (set_event r (sse_event_set_state e1 k) s) s' -> locks L s' -> gd keep L s s'.
Proof.
  intros Hi He Hna Hk Hk2 Hv HL. destruct Hk as [K1 K2 K3 K4 K5]. pose proof (state_set_state e1 k K1 ltac:(lia)) as Es.
  apply (good_stays _ _ _ _ _ r e (sse_event_set_state e1 k)); try done.
  - apply (updated_keep_view _ _ _ _ _ _ (set_event_updated r _ s (mk_is_Some _ _ He))). done.
  - split; try done. apply typed_status; [done|]. exact (proj1 (set_state_word _ k (ty_status e1 K1) ltac:(lia))).
  - left. split; [done|]. unfold active. rewrite Es. lia.
  - unfold event_frame. rewrite Es. unfold active in Hna. rewrite (proj2 (Z.eqb_neq k 3)), (proj2 (Z.eqb_neq (sse_event_state e) 3)) by lia. done.
Qed.

Lemma register_ok L r e pc arg s :
  inv s -> locks L s -> event_at s r = Some e -> in_range 64 pc -> Z.testbit pc 0 = false -> in_range 64 arg ->
  exists ret s', sse_event_register r pc arg s = Some (ret, s') /\ gd keep L s s'.
Proof.
  intros Hi HL He Hpc Hb Harg. unfold sse_event_register. rewrite He. cbn [mbind option_bind]. destruct (negb _) eqn:E.
  { eexists _, _. split; [done|]. by apply good_view. }
  eexists _, _. split; [done|]. destruct (iv_event _ _ _ Hi r e He) as (T & _ & Hh & _ & Hs).
  apply (set_inactive_ok L r e (set_entry (mkEntry pc arg) e) SBI_SSE_STATE_REGISTERED); try done.
  - unfold active. lia.
  - split; try done. destruct T. by split.
  - apply view_callback.
  - apply locks_callback. by apply locks_set_event.
Qed.

Lemma view_set_event r e s s' : view_eq s s' -> is_Some (event_at s r) -> view_eq (set_event r e s) (set_event r e s').
Proof.
  intros Hv Hs. destruct (set_event_rest r e s) as (A1 & A2 & A3 & A4 & A5 & A6), (set_event_rest r e s') as (B1 & B2 & B3 & B4 & B5 & B6).
  destruct Hv as [V1 V2 V3 V4 V5 [V6 V7]]. split; try congruence; try (split; congruence).
  intros r'. rewrite !event_at_set by (by rewrite ?V1). by rewrite V1.
Qed.

Lemma unregister_ok L r e s :
  inv s -> locks L s -> event_at s r = Some e -> exists ret s', sse_event_unregister r s = Some (ret, s') /\ gd keep L s s'.
Proof.
  intros Hi HL He. unfold sse_event_unregister. rewrite He. cbn [mbind option_bind]. destruct (negb _) eqn:E.
  { eexists _, _. split; [done|]. by apply good_view. }
  eexists _, _. split; [done|]. destruct (iv_event _ _ _ Hi r e He) as (T & _ & Hh & _ & Hs).
  apply (set_inactive_ok L r e e SBI_SSE_STATE_UNUSED); try done.
  - unfold active. lia.
  - apply view_set_event; [apply view_callback|]. by rewrite He.
  - apply locks_set_event. by apply locks_callback.
Qed.

Lemma keeps_state s r e k : inv s -> event_at s r = Some e -> 0 <= k < 4 -> keeps (v_sc v) s r e (sse_event_set_state e k).
Proof.
  intros Hi He Hk. destruct (iv_event _ _ _ Hi r e He) as (T & _). apply keeps_status; try done.
  exact (proj1 (set_state_word _ k (ty_status e T) Hk)).
Qed.

Lemma add_to_list_ok s r e e' xs :
  inv s -> event_at s r = Some e -> ~ active e -> enabled s (ev_hartindex e') xs -> home_state (v_sc v) s (ev_hartindex e') ->
  exists pre post, xs = pre ++ post /\ fits s e' pre post /\
    sse_event_add_to_list v r (set_event r e' s) =
    Some (set_links (sbi_list_add_tail (NEvent r) (hd_node (NHead (ev_hartindex e')) (NEvent <$> post)) (links s)) (set_event r e' s)).
Proof.
  intros Hi He Hna Hen [[p Ep] Hs]. destruct (find_fits (v_sc v) live s (ev_hartindex e') xs e' Hi Hen) as (pre & post & -> & Hf & Hfit).
  exists pre, post. split; [done|]. split; [done|]. set (s1 := set_event r e' s).
  assert (event_at s1 r = Some e') as E1 by (unfold s1; rewrite event_at_set, decide_True by (rewrite ?He; eauto); done).
  destruct (set_event_rest r e' s) as (R1 & R2 & _ & _ & R5 & R6). fold s1 in R1, R2, R5, R6.
  assert (r ∉ pre ++ post) as Hr.
  { intros Hr. apply (en_exact _ _ _ Hen) in Hr as (e0 & E0 & Ha0 & _). by simplify_eq. }
  assert (forall x, x ∈ pre ++ post -> event_at s1 x = event_at s x) as Hsame.
  { intros x Hx. unfold s1. rewrite event_at_set by (by rewrite He). rewrite decide_False; [done|]. by intros ->. }
  unfold sse_event_add_to_list. rewrite E1. cbn [mbind option_bind]. unfold sse_get_hart_state. rewrite Ep.
  destruct (is_some_masked s s1 (ev_hartindex e') (R2 _) Hs) as [hs ->]. cbn [mbind option_bind].
  rewrite (for_each_nodes s1 _ (pre ++ post)).
  - rewrite (find_ext_in _ (event_has s (goes_before e'))), Hf by (intros x Hx; unfold event_has; by rewrite Hsame).
    cbn [mbind option_bind]. rewrite hd_node_refs, R1. done.
  - rewrite R1. apply Hen.
  - unfold walk_fuel. rewrite R5, R6. by apply (enabled_length (v_sc v) live s (ev_hartindex e')).
  - intros x Hx. rewrite Hsame by done. apply (en_exact _ _ _ Hen) in Hx as (ex & -> & _). eauto.
Qed.

Lemma enable_ok L r e s :
  inv s -> locks L s -> event_at s r = Some e -> ev_hartindex e ∈ live ->
  exists ret s', sse_event_enable v r s = Some (ret, s') /\ gd keep L s s' /\
    forall e2, event_at s' r = Some e2 -> ev_hartindex e2 = ev_hartindex e.
Proof.
  intros Hi HL He Hlive. unfold sse_event_enable. rewrite He. cbn [mbind option_bind]. destruct (negb _) eqn:E.
  { eexists _, _. split; [done|]. split; [by apply good_view|]. intros e2 He2. by simplify_eq. }
  set (e' := sse_event_set_state e SBI_SSE_STATE_ENABLED).
  destruct (iv_event _ _ _ Hi r e He) as (T & _ & _ & _ & Hs).
  pose proof (state_set_state e SBI_SSE_STATE_ENABLED T ltac:(lia)) as Es. fold e' in Es.
  assert (~ active e) as Hna by (unfold active; lia).
  destruct (iv_list _ _ _ Hi _ Hlive) as [xs Hen].
  destruct (add_to_list_ok s r e e' xs Hi He Hna Hen Hs) as (pre & post & -> & Hfit & ->). cbn [mbind option_bind].
  eexists _, _. split; [done|]. match goal with |- good _ _ _ _ _ ?x /\ _ => set (s' := x) end.
  assert (updated s s' r e' (sbi_list_add_tail (NEvent r) (hd_node (NHead (ev_hartindex e')) (NEvent <$> post)) (links s))) as Hu.
  { eapply updated_keep_view; [apply updated_links_after; by rewrite He|]. unfold s'.
    destruct (sse_event_is_global e' && _); [etrans; [apply view_callback|apply view_call]|apply view_callback]. }
  split; [|intros e2; rewrite (up_event _ _ _ _ _ Hu), decide_True by done; by intros [= <-]].
  apply (good_link _ _ _ _ _ r e e' pre post); try done.
  - by apply keeps_state.
  - unfold active. lia.
  - unfold event_frame. by rewrite Es.
  - unfold s'. assert (locks L (set_links (sbi_list_add_tail (NEvent r) (hd_node (NHead (ev_hartindex e')) (NEvent <$> post)) (links s))
      (set_event r e' s))) as HL' by (exact (locks_set_event L r e' s HL)).
    destruct (sse_event_is_global e' && _); by apply locks_callback.
Qed.

(** The list of an active event, around it. *)
Lemma active_in_list s r e :
  inv s -> event_at s r = Some e -> active e -> exists pre post, enabled s (ev_hartindex e) (pre ++ r :: post) /\ ev_hartindex e ∈ live.
Proof.
  intros Hi He Ha. pose proof (iv_dead _ _ _ Hi r e He Ha) as Hl. destruct (iv_list _ _ _ Hi _ Hl) as [xs Hen].
  assert (r ∈ xs) as Hr by (apply (en_exact _ _ _ Hen); eauto). apply list_elem_of_split in Hr as (pre & post & ->). eauto.
Qed.

Lemma disable_ok L r e s :
  inv s -> locks L s -> event_at s r = Some e -> exists ret s', sse_event_disable r s = Some (ret, s') /\ gd keep L s s' /\
    forall e2, event_at s' r = Some e2 -> ev_hartindex e2 = ev_hartindex e.
Proof.
  intros Hi HL He. unfold sse_event_disable. rewrite He. cbn [mbind option_bind]. destruct (negb _) eqn:E.
  { eexists _, _. split; [done|]. split; [by apply good_view|]. intros e2 He2. by simplify_eq. }
  eexists _, _. split; [done|]. destruct (iv_event _ _ _ Hi r e He) as (T & _).
  pose proof (state_set_state e SBI_SSE_STATE_REGISTERED T ltac:(lia)) as Es.
  destruct (active_in_list s r e Hi He) as (pre & post & Hen & Hl); [unfold active; lia|].
  pose proof (view_callback e disable_cb [] s) as Hv. unfold sse_event_remove_from_list. rewrite (sw_links _ _ Hv).
  split; [|intros e2; rewrite event_at_set, decide_True by (try done; change (is_Some (event_at (sse_event_invoke_cb e disable_cb [] s) r));
    by rewrite (sw_event _ _ Hv), He); by intros [= <-]].
  apply (good_unlink _ _ _ _ _ r e (sse_event_set_state e SBI_SSE_STATE_REGISTERED) pre post); try done.
  - by apply keeps_state.
  - unfold active. lia.
  - unfold event_frame. rewrite (proj2 (Z.eqb_neq _ 3)) by lia. done.
  - apply updated_links_before; [done|]. by rewrite He.
  - apply locks_set_event. by apply (locks_callback L e disable_cb [] s).
Qed.

(** Under the lock of the event's list. *)
Lemma locked_rule r e s (body : event_ref -> sse_state -> option (Z * sse_state)) :
  inv s -> locks (event_locks r) s -> event_at s r = Some e ->
  (forall s1, inv s1 -> view_eq s s1 -> locks (LList (ev_hartindex e) :: event_locks r) s1 ->
    exists ret s2, body r s1 = Some (ret, s2) /\ gd keep (LList (ev_hartindex e) :: event_locks r) s1 s2 /\
      forall e2, event_at s2 r = Some e2 -> ev_hartindex e2 = ev_hartindex e) ->
  exists ret s', (s ← sse_enabled_event_lock v r s; '(ret, s) ← body r s; s ← sse_enabled_event_unlock v r s; Some (ret, s)) = Some (ret, s') /\
    gd keep (event_locks r) s s'.
Proof.
  intros Hi HL He Hbody. destruct (iv_event _ _ _ Hi r e He) as (_ & _ & _ & _ & [p Ep] & [hs Hs]).
  assert (LList (ev_hartindex e) ∉ event_locks r) as Hnl by (destruct r; cbn; rewrite ?elem_of_cons; set_solver).
  unfold sse_enabled_event_lock. rewrite He. cbn [mbind option_bind].
  destruct (list_lock_rule v (event_locks r) (ev_hartindex e) s hs) as (s1 & -> & Hv1 & HL1); [|done|done|].
  { unfold sse_get_hart_state. by rewrite Ep. }
  cbn [mbind option_bind]. destruct (Hbody s1) as (ret & s2 & -> & Hg & Hsame); [by apply (inv_view _ _ s)|done|done|].
  cbn [mbind option_bind]. unfold sse_enabled_event_unlock.
  destruct (gd_some _ _ _ _ _ _ Hg r) as [e2 He2]; [by rewrite (sw_event _ _ Hv1), He|]. rewrite He2. cbn [mbind option_bind].
  rewrite (Hsame e2 He2). destruct (iv_event _ _ _ (gd_inv _ _ _ _ _ _ Hg) r e2 He2) as (_ & _ & _ & _ & _ & [hs2 Hs2]).
  rewrite (Hsame e2 He2) in Hs2.
  destruct (list_unlock_rule v (event_locks r) (ev_hartindex e) s2 hs2) as (s3 & -> & Hv3 & HL3); [|done|apply Hg|].
  { unfold sse_get_hart_state. by rewrite Ep. }
  cbn [mbind option_bind]. eexists _, _. split; [done|].
  apply (good_keep_l _ _ _ (LList (ev_hartindex e) :: event_locks r) _ _ s1); [by apply good_view|].
  apply (good_keep_r _ _ _ (LList (ev_hartindex e) :: event_locks r) _ _ s2); [done|]. apply good_view; [apply Hg|done|done].
Qed.

Lemma sbi_sse_enable_ok event_id s :
  inv s -> locks [] s ->
  (forall r e, sees v r -> event_at s r = Some e -> ev_id e = event_id -> ev_hartindex e ∈ live) ->
  exists ret s', sbi_sse_enable v event_id s = Some (ret, s') /\ gd keep [] s s'.
Proof.
  intros Hi HL Hg. apply with_event_rule; [done|done|done|]. intros r e s1 Hsee He Hid Hv Hi1 HL1.
  apply (locked_rule r e s1 (sse_event_enable v)); [done|done|done|]. intros s2 Hi2 Hv2 HL2.
  apply enable_ok; [done|done|by rewrite (sw_event _ _ Hv2)|].
  apply (Hg r); [done|by rewrite <- (sw_event _ _ Hv)|done].
Qed.

Lemma sbi_sse_disable_ok event_id s :
  inv s -> locks [] s -> exists ret s', sbi_sse_disable v event_id s = Some (ret, s') /\ gd keep [] s s'.
Proof.
  intros Hi HL. apply with_event_rule; [done|done|done|]. intros r e s1 Hsee He Hid Hv Hi1 HL1.
  apply (locked_rule r e s1 sse_event_disable); [done|done|done|]. intros s2 Hi2 Hv2 HL2.
  apply disable_ok; [done|done|by rewrite (sw_event _ _ Hv2)].
Qed.

Lemma sbi_sse_unregister_ok event_id s :
  inv s -> locks [] s -> exists ret s', sbi_sse_unregister v event_id s = Some (ret, s') /\ gd keep [] s s'.
Proof.
  intros Hi HL. apply with_event_rule; [done|done|done|]. intros r e s1 Hsee He Hid Hv Hi1 HL1. by apply (unregister_ok _ r e).
Qed.

Lemma sbi_sse_register_ok event_id pc arg s :
  inv s -> locks [] s -> in_range 64 pc -> in_range 64 arg -> sbi_domain_check_addr_range (v_dom v) pc 8 PRV_S SBI_DOMAIN_EXECUTE <> None ->
  exists ret s', sbi_sse_register v event_id pc arg s = Some (ret, s') /\ gd keep [] s s'.
Proof.
  intros Hi HL Hpc Harg Hc. unfold sbi_sse_register. destruct (truthy _) eqn:Eb.
  { eexists _, _. split; [done|]. by apply good_view. }
  destruct (sbi_domain_check_addr_range _ _ _ _ _) as [ok|]; [|done]. cbn [mbind option_bind]. destruct (negb ok).
  { eexists _, _. split; [done|]. by apply good_view. }
  apply with_event_rule; [done|done|done|]. intros r e s1 Hsee He Hid Hv Hi1 HL1. apply (register_ok _ r e); try done.
  change 1 with (2 ^ 0) in Eb. by rewrite truthy_bit in Eb.
Qed.

Lemma set_masked_ok b s hs :
  inv s -> locks [] s -> hart_states s !! v_self v = Some hs ->
  gd keep [] s (set_hart (v_self v) (mkShs (enabled_event_lock hs) (local_events hs) b) s).
Proof.
  intros Hi HL Hh. apply good_weak; [done| |apply (iv_fifo _ _ _ Hi)|].
  - split; try done.
    + intros [i|h i]; [done|]. cbn. destruct (decide (h = v_self v)) as [->|]; [by rewrite lookup_insert_eq, Hh|by rewrite lookup_insert_ne].
    + intros h. cbn. destruct (decide (h = v_self v)) as [->|]; [rewrite lookup_insert_eq, Hh|rewrite lookup_insert_ne by done]; naive_solver eauto.
  - destruct HL as [H1 H2]. split; [done|]. intros h hs'. cbn.
    destruct (decide (h = v_self v)) as [->|]; [rewrite lookup_insert_eq|rewrite lookup_insert_ne by done; apply H2].
    intros [= <-]. exact (H2 _ _ Hh).
Qed.

Lemma sbi_sse_hart_mask_ok s : inv s -> locks [] s -> exists ret s', sbi_sse_hart_mask v s = (ret, s') /\ gd keep [] s s'.
Proof.
  intros Hi HL. unfold sbi_sse_hart_mask. destruct (self_state s Hi) as [hs Hh]. rewrite Hh. destruct (masked hs).
  - eexists _, _. split; [done|]. by apply good_view.
  - eexists _, _. split; [done|]. by apply set_masked_ok.
Qed.

Lemma sbi_sse_hart_unmask_ok s : inv s -> locks [] s -> exists ret s', sbi_sse_hart_unmask v s = (ret, s') /\ gd keep [] s s'.
Proof.
  intros Hi HL. unfold sbi_sse_hart_unmask. destruct (self_state s Hi) as [hs Hh]. rewrite Hh. destruct (negb (masked hs)).
  - eexists _, _. split; [done|]. by apply good_view.
  - eexists _, _. split; [done|]. by apply set_masked_ok.
Qed.

(** ** Injection *)

Lemma enqueue_ok P f d :
  fifo_ok P f -> length d = 4%nat -> exists ret f', sbi_fifo_enqueue (Some f) (Some d) false = Some (ret, Some f') /\ fifo_ok P f'.
Proof.
  intros [(n & q & Hr)|(HP & Hl & Hn & Ha)] Hd.
  - destruct (fifo_step_rel n 4 f q (OpEnqueue d false) Hr Hd) as (f' & E & Hr'). cbn [fifo_step] in E.
    destruct (sbi_fifo_enqueue (Some f) (Some d) false) as [[ret fo]|]; cbn in E; [|done]. injection E as E1 ->.
    exists ret, f'. split; [done|]. left. by exists n, (queue_step n (OpEnqueue d false) q).2.
  - unfold sbi_fifo_enqueue, with_qlock. rewrite spin_lock_free by done. cbn [mbind option_bind].
    unfold __sbi_fifo_is_full. cbn [set_qlock avail num_entries]. rewrite Ha, Hn. cbn [Z.eqb negb].
    eexists _, _. split; [done|]. right. cbn [qlock set_qlock num_entries avail]. split_and!; [done|by apply spin_unlock_taken|done|done].
Qed.

Lemma set_fifo_good L s h f :
  inv s -> locks L s -> fifo_ok (h ∈ live) f -> gd keep L s (set_fifo h f s).
Proof.
  intros Hi HL Hf. apply good_weak; [done|by split| |done]. intros h'. cbn.
  destruct (decide (h' = h)) as [->|]; [by rewrite fn_lookup_insert|]. rewrite fn_lookup_insert_ne by done. apply (iv_fifo _ _ _ Hi).
Qed.

Lemma inject_send_ok hartid event_id s :
  inv s -> locks [] s -> exists ret s', sse_ipi_inject_send v hartid event_id s = Some (ret, s') /\ gd keep [] s s'.
Proof.
  intros Hi HL. unfold sse_ipi_inject_send. destruct (sbi_hartindex_to_scratch _ _).
  2: { eexists _, _. split; [done|]. by apply good_view. }
  destruct (enqueue_ok _ _ (le_bytes 4 event_id) (iv_fifo _ _ _ Hi (hart_index v hartid)) (le_bytes_length 4 event_id)) as (ret & f' & -> & Hf).
  cbn [mbind option_bind]. pose proof (set_fifo_good [] s _ f' Hi HL Hf) as Hg. destruct (truthy ret).
  - eexists _, _. split; [done|]. done.
  - eexists _, _. split; [done|]. apply (good_keep_r _ _ _ [] _ _ _ _ Hg). apply good_view; [apply Hg|apply view_call|apply Hg].
Qed.

Lemma inject_event_ok event_id hartid s :
  inv s -> locks [] s -> exists ret s', sse_inject_event v event_id hartid s = Some (ret, s') /\ gd keep [] s s'.
Proof.
  intros Hi HL. unfold sse_inject_event.
  destruct (event_get_rule v event_id s (self_state s Hi) HL) as (res & s1 & -> & Hv & Hres). cbn [mbind option_bind].
  destruct res as [ret|r].
  { destruct Hres as (-> & -> & _). eexists _, _. split; [done|]. by apply good_view. }
  destruct Hres as (Hsee & _ & HL1 & e & He & Hid). rewrite <- (sw_event _ _ Hv) in He. rewrite He. cbn [mbind option_bind].
  pose proof (inv_view _ _ _ _ Hv Hi) as Hi1.
  set (target := if sse_event_is_global e then at_hartid (ev_attrs e) else hartid). destruct (negb _).
  - destruct (iv_event _ _ _ Hi1 r e He) as (_ & G & _).
    destruct (event_put_rule r e s1 He G HL1) as (s2 & -> & Hv2 & HL2). cbn [mbind option_bind].
    assert (view_eq s s2) as Hv' by (by etrans).
    destruct (inject_send_ok target event_id s2 (inv_view _ _ _ _ Hv' Hi) HL2) as (ret & s3 & -> & Hg).
    eexists _, _. split; [done|]. apply (good_keep_l _ _ _ [] _ _ s2); [by apply good_view|done].
  - destruct (set_pending_ok (event_locks r) r e s1 Hi1 HL1 He) as (ret & s2 & -> & Hg). cbn [mbind option_bind].
    destruct (gd_some _ _ _ _ _ _ Hg r (mk_is_Some _ _ He)) as [e2 He2].
    destruct (iv_event _ _ _ (gd_inv _ _ _ _ _ _ Hg) r e2 He2) as (_ & G & _).
    destruct (event_put_rule r e2 s2 He2 G (gd_locks _ _ _ _ _ _ Hg)) as (s3 & -> & Hv3 & HL3). cbn [mbind option_bind].
    eexists _, _. split; [done|]. apply (good_keep_l _ _ _ (event_locks r) _ _ s1); [by apply good_view|].
    apply (good_keep_r _ _ _ (event_locks r) _ _ s2); [done|]. apply good_view; [apply Hg|done|done].
Qed.

(** The loop that takes the injections of other harts. *)
Lemma pending_fifo event_id s ret s' :
  with_event v event_id sse_event_set_pending s = Some (ret, s') -> inject_fifo s' = inject_fifo s.
Proof.
  unfold with_event, sse_event_get. intros H.
  assert (forall r s1 ret s', ('(ret, s) ← sse_event_set_pending r s1; s ← sse_event_put r s; Some (ret, s)) = Some (ret, s') ->
    inject_fifo s' = inject_fifo s1) as Hb.
  { clear. intros r s1 ret s' H. apply bind_Some in H as ([ret2 s2] & H1 & H2). apply bind_Some in H2 as (s3 & H2 & H3). simplify_eq.
    unfold sse_event_set_pending in H1. apply bind_Some in H1 as (e & He & H1).
    assert (inject_fifo s2 = inject_fifo s1) as <-.
    { destruct (negb _ && negb _); simplify_eq; [done|]. apply (set_event_rest r _ s1). }
    clear H1. unfold sse_event_put in H2. apply bind_Some in H2 as (e2 & _ & H2). destruct (negb _); simplify_eq; [done|]. by destruct r; simplify_eq. }
  apply bind_Some in H as ([res s1] & H1 & H2). assert (inject_fifo s1 = inject_fifo s) as <-.
  { destruct (EVENT_IS_GLOBAL event_id).
    - destruct (list_find _ _) as [[i g]|]; [|by simplify_eq]. apply bind_Some in H1 as (l & _ & H1). by simplify_eq.
    - apply bind_Some in H1 as (hs & _ & H1). destruct (list_find _ _) as [[i g]|]; by simplify_eq. }
  destruct res as [?|r]; [by simplify_eq|]. by apply (Hb r s1 ret).
Qed.

Lemma inject_step fuel s : inject_process_loop v (S fuel) s =
  ('(rc, data, f) ← sbi_fifo_dequeue (Some (inject_fifo s (v_self v))) (Some [0; 0; 0; 0]);
   f ← f;
   if truthy rc then Some (set_fifo (v_self v) f s)
   else evt ← data;
     '(_, s) ← with_event v (le_value evt) sse_event_set_pending (set_fifo (v_self v) f s); inject_process_loop v fuel s).
Proof.
  cbn [inject_process_loop]. destruct (sbi_fifo_dequeue _ _) as [[[rc data] [f|]]|]; cbn [mbind option_bind]; try done.
  destruct (truthy rc); [done|]. destruct data as [evt|]; cbn [mbind option_bind]; [|done]. unfold with_event.
  destruct (sse_event_get v (le_value evt) _) as [[[ret|r] s1]|]; cbn [mbind option_bind]; try done.
  destruct (sse_event_set_pending r s1) as [[ret s2]|]; cbn [mbind option_bind]; [|done].
  by destruct (sse_event_put r s2).
Qed.

Lemma inject_loop_ok n : forall fuel q s,
  inv s -> locks [] s -> fifo_rel n 4 (inject_fifo s (v_self v)) q -> (length q < fuel)%nat ->
  exists s', inject_process_loop v fuel s = Some s' /\ gd keep [] s s'.
Proof.
  induction fuel as [|fuel IH]; intros q s Hi HL Hr Hlen; [lia|]. rewrite inject_step.
  destruct (fifo_step_rel n 4 _ q (OpDequeue [0; 0; 0; 0]) Hr eq_refl) as (f & E & Hr'). cbn [fifo_step] in E.
  destruct (sbi_fifo_dequeue _ _) as [[[rc data] fo]|]; cbn in E; [|done]. injection E as E ->. cbn [mbind option_bind].
  assert (gd keep [] s (set_fifo (v_self v) f s)) as Hg by (apply set_fifo_good; [done|done|left; eauto]).
  destruct q as [|d q]; cbn in E, Hr'; injection E as -> ->.
  - cbn. eexists. split; [done|]. done.
  - cbn [truthy Z.eqb negb mbind option_bind].
    destruct (with_event_rule keep (le_value d) sse_event_set_pending _ (gd_inv _ _ _ _ _ _ Hg) (gd_locks _ _ _ _ _ _ Hg)) as (ret & s2 & E2 & Hg2).
    { done. }
    { intros r e s1 _ He _ _ Hi1 HL1. by apply (set_pending_ok _ r e). }
    rewrite E2. cbn [mbind option_bind]. apply pending_fifo in E2.
    destruct (IH q s2) as (s3 & E3 & Hg3); [apply Hg2|apply Hg2| |cbn in Hlen; lia|].
    { rewrite E2. cbn. by rewrite fn_lookup_insert. }
    exists s3. split; [done|]. apply (good_keep_l _ _ _ [] _ _ _ _ Hg). by apply (good_keep_l _ _ _ [] _ _ _ _ Hg2).
Qed.

Lemma inject_process_ok s : inv s -> locks [] s -> exists s', sse_ipi_inject_process v s = Some s' /\ gd keep [] s s'.
Proof.
  intros Hi HL. destruct (iv_fifo _ _ _ Hi (v_self v)) as [(n & q & Hr)|[? _]]; [|done].
  apply (inject_loop_ok n _ q); [done|done|done|]. pose proof (fr_abs _ _ _ _ Hr) as <-. rewrite fifo_abs_length. lia.
Qed.

(** ** Attributes *)

Lemma read_attrs_ok event_id base count lo hi m s :
  inv s -> locks [] s -> sbi_sse_attr_check v base count lo hi SBI_DOMAIN_WRITE <> None ->
  exists ret m' s', sbi_sse_read_attrs v event_id base count lo hi m s = Some (ret, m', s') /\ gd keep [] s s'.
Proof.
  intros Hi HL Hc. unfold sbi_sse_read_attrs. destruct (sbi_sse_attr_check _ _ _ _ _ _) as [ret|]; [|done]. cbn [mbind option_bind].
  destruct (truthy ret).
  { eexists _, _, _. split; [done|]. by apply good_view. }
  destruct (event_get_rule v event_id s (self_state s Hi) HL) as (res & s1 & -> & Hv & Hres). cbn [mbind option_bind].
  destruct res as [ret'|r].
  { destruct Hres as (-> & -> & _). eexists _, _, _. split; [done|]. by apply good_view. }
  destruct Hres as (Hsee & _ & HL1 & e & He & Hid). rewrite <- (sw_event _ _ Hv) in He.
  change (event_at (call (MapRange lo (u64 (8 * count))) s1) r) with (event_at s1 r). rewrite He. cbn [mbind option_bind].
  destruct (iv_event _ _ _ (inv_view _ _ _ _ Hv Hi) r e He) as (_ & G & _).
  set (s2 := call (UnmapRange lo (u64 (8 * count))) (call (MapRange lo (u64 (8 * count))) s1)).
  assert (view_eq s s2) as Hv2 by (etrans; [exact Hv|]; by split).
  destruct (event_put_rule r e s2) as (s3 & -> & Hv3 & HL3); [done|done|done|]. cbn [mbind option_bind].
  eexists _, _, _. split; [done|]. apply good_view; [done|by etrans|done].
Qed.

(** A hart edits what its own handlers have interrupted. *)
Definition edits : stack_change := fun h st st' => (h <> v_self v -> st' = st) /\ f_event <$> st' = f_event <$> st.

Lemma edits_trans L L' s s' s'' : gd edits L s s' -> gd edits L' s' s'' -> gd edits L' s s''.
Proof.
  intros [_ _ A3 A4] [B1 B2 B3 B4]. split; auto. intros h Hh. destruct (A4 h Hh) as [C1 C2], (B4 h Hh) as [D1 D2].
  split; [|by rewrite D2]. intros Hne. by rewrite D1, C1.
Qed.

Lemma good_edit L s s' r e e' :
  inv s -> event_at s r = Some e -> updated s s' r e' (links s) -> keeps (v_sc v) s r e e' -> stays e e' ->
  sse_event_state e' = sse_event_state e -> (active e -> ev_hartindex e = v_self v \/ e' = e) -> locks L s' -> gd edits L s s'.
Proof.
  intros Hi He Hu Hk Hst Hs Hown HL. destruct (inv_stays (v_sc v) live s s' r e e' Hi He Hu Hk Hst) as [Hi' Hen].
  split; [done|done|by apply (updated_some s s' r e' (links s))|].
  intros h Hh. destruct (iv_list _ _ _ Hi h Hh) as [xs Hxs].
  rewrite (stack_enabled (v_sc v) live s' h xs), (stack_enabled (v_sc v) live s h xs) by auto. split.
  - intros Hne. apply omap_ext_in. intros x Hx. destruct (decide (x = r)) as [->|Hxr]; [|by apply (frame_other s s' r e' (links s))].
    apply (en_exact _ _ _ Hxs) in Hx as (e0 & E0 & Ha & Hhx). assert (e0 = e) as -> by congruence.
    destruct (Hown Ha) as [Ho|Ho]; [congruence|]. subst e'. rewrite (frame_event s r e) by done.
    rewrite (frame_event s' r e); [done|]. by rewrite (up_event _ _ _ _ _ Hu), decide_True.
  - assert (forall x, f_event <$> frame_of s' x = f_event <$> frame_of s x) as Hf.
    { intros x. destruct (decide (x = r)) as [->|Hxr]; [|by rewrite (frame_other s s' r e' (links s))].
      rewrite (frame_event s r e) by done. rewrite (frame_event s' r e') by (by rewrite (up_event _ _ _ _ _ Hu), decide_True).
      unfold event_frame. rewrite Hs. by destruct (_ =? _). }
    clear - Hf. induction xs as [|x xs IH]; cbn; [done|]. specialize (Hf x).
    destruct (frame_of s' x), (frame_of s x); cbn in *; simplify_eq; by rewrite ?Hf, ?IH.
Qed.

Lemma below_mask k x : 0 <= k < 64 -> in_range 64 x -> truthy (Z.land x (not_w 64 (Z.ones k))) = false -> in_range k x.
Proof.
  intros Hk Hx Ht. unfold truthy in Ht. apply negb_false_iff, Z.eqb_eq in Ht.
  assert (x = Z.land x (Z.ones k)) as ->.
  { apply (word_eq_bits 64); [lia|done|by apply land_range|]. intros n Hn. rewrite Z.land_spec.
    assert (Z.testbit (Z.land x (not_w 64 (Z.ones k))) n = false) as Hb by (rewrite Ht; apply Z.testbit_0_l).
    rewrite Z.land_spec, testbit_not_w in Hb by lia. destruct (Z.testbit x n), (Z.testbit (Z.ones k) n); done. }
  rewrite Z.land_ones by lia. apply Z.mod_pos_bound. apply pow2_pos. lia.
Qed.

(** Hart ids and hart indices. *)
Lemma assigned_index_id hartid :
  assigned (v_dom v) (sbi_hartid_to_hartindex (v_sc v) hartid) = true -> hid (v_sc v) (sbi_hartid_to_hartindex (v_sc v) hartid) = hartid.
Proof.
  intros Ha. destruct Hok as [Hcount _].
  assert ((sbi_hartid_to_hartindex (v_sc v) hartid <? SBI_HARTMASK_MAX_BITS) = true) as Hlt.
  { unfold assigned in Ha. destruct (v_dom v) as [d|]; [|done]. unfold sbi_hartmask_test_hartindex in Ha.
    by destruct (_ <? _). }
  pose proof (search_hartid_spec (hartindex_to_hartid_table (v_sc v)) hartid (Z.to_nat (sbi_scratch_hart_count (v_sc v))) 0) as Hs.
  cbn zeta in Hs. rewrite Z2Nat.id in Hs by lia. change (search_hartid _ _ _) with (sbi_hartid_to_hartindex (v_sc v) hartid) in Hs.
  unfold hid, sbi_hartindex_to_hartid. rewrite Hlt. destruct Hs as [(_ & H & _)|(H & _)]; [done|]. rewrite H in Hlt. done.
Qed.

Lemma live_hid h h' s : inv s -> h ∈ live -> h' ∈ live -> hid (v_sc v) h = hid (v_sc v) h' -> h = h'.
Proof.
  intros Hi Hh Hh' E. destruct (iv_hart _ _ _ Hi h Hh) as [R _], (iv_hart _ _ _ Hi h' Hh') as [R' _].
  destruct (ho_id _ Hok h R) as [_ <-], (ho_id _ Hok h' R') as [_ <-]. by rewrite E.
Qed.

(** Harts that have started have initialised their part. *)
Context (Hstarted : forall h, sbi_hsm_hart_state (v_sc v) (v_hsm v) h = SBI_HSM_STATE_STARTED -> h ∈ live).

(** What the checks of later attributes look at. *)
Definition tracks (e e' : sbi_sse_event) : Prop :=
  at_status (ev_attrs e') = at_status (ev_attrs e) /\ ev_id e' = ev_id e /\ (active e -> at_hartid (ev_attrs e') = at_hartid (ev_attrs e)).

Record attr_written (s : sse_state) (r : event_ref) (e e' : sbi_sse_event) : Prop := {
  aw_keeps : keeps (v_sc v) s r e e';
  aw_stays : stays e e';
  aw_own : active e -> ev_hartindex e = v_self v \/ e' = e;
  aw_tracks : tracks e e' }.

Lemma attr_interrupted s r e i :
  inv s -> event_at s r = Some e -> sse_event_state e = SBI_SSE_STATE_RUNNING -> current_hartid v = at_hartid (ev_attrs e) ->
  in_range 64 (i_sepc i) /\ in_range 6 (i_flags i) /\ in_range 64 (i_a6 i) /\ in_range 64 (i_a7 i) ->
  attr_written s r e (set_interrupted i e).
Proof.
  intros Hi He Hs Hc Hr. destruct (iv_event _ _ _ Hi r e He) as (T & _ & Hh & _ & Hst). split.
  - split; try done. by apply typed_interrupted.
  - by apply stays_same.
  - intros Ha. left. apply (live_hid _ _ s Hi); [by apply (iv_dead _ _ _ Hi r)|done|]. rewrite <- Hh. symmetry. exact Hc.
  - by split.
Qed.

Lemma attr_hart s r e val :
  inv s -> event_at s r = Some e -> ~ active e -> sse_event_set_hart_id_check v e val = 0 -> in_range 32 val ->
  let e' := set_attr v e SBI_SSE_ATTR_PREFERRED_HART val in attr_written s r e e'.
Proof.
  intros Hi He Hna Hc Hr. destruct (iv_event _ _ _ Hi r e He) as (T & G & _).
  unfold sse_event_set_hart_id_check, hart_get_state, hart_index in Hc. rewrite !(wrap_id 32 val) in Hc by done.
  destruct (sse_event_is_global e) eqn:Eg; [|done]. cbn [negb] in Hc.
  destruct (assigned _ _) eqn:Ea; [|done]. cbn [negb] in Hc. destruct (_ =? SBI_HSM_STATE_STARTED) eqn:Es; [|done].
  assert (hart_index v val = sbi_hartid_to_hartindex (v_sc v) val) as Ei by (unfold hart_index; by rewrite wrap_id).
  assert (sbi_hartid_to_hartindex (v_sc v) val ∈ live) as Hl by (apply Hstarted; lia).
  split; cbn.
  - split; cbn; rewrite ?Ei; try done.
    + destruct T. by split.
    + symmetry. by apply assigned_index_id.
    + intros Hloc. by destruct r.
    + apply (iv_hart _ _ _ Hi _ Hl).
  - left. split; [done|]. exact Hna.
  - done.
  - split; [done|]. split; [done|]. done.
Qed.

Lemma attr_check_written s r e id val :
  inv s -> event_at s r = Some e -> sse_event_set_attr_check v e id val = 0 -> in_range 64 val -> (id = 3 -> in_range 32 val) ->
  attr_written s r e (set_attr v e id val).
Proof.
  intros Hi He Hc Hr Hr3. destruct (iv_event _ _ _ Hi r e He) as (T & _ & Hh & _ & Hst).
  unfold sse_event_set_attr_check in Hc. pose proof (ty_interrupted e T) as Ti. cbv zeta in Ti.
  assert (forall (b1 b2 : bool), (if negb b1 then SBI_EINVALID_STATE else if negb b2 then SBI_EINVAL else 0) = 0 -> b1 = true /\ b2 = true) as Hint
    by (by intros [] []).
  assert (forall e', (SBI_SSE_STATE_ENABLED <=? sse_event_state e) = false -> event_typed e' ->
    at_status (ev_attrs e') = at_status (ev_attrs e) -> ev_id e' = ev_id e -> at_hartid (ev_attrs e') = at_hartid (ev_attrs e) ->
    ev_hartindex e' = ev_hartindex e -> attr_written s r e e') as Hcfg.
  { intros e' Hb Ht E1 E2 E3 E4. assert (~ active e) as Hna by (unfold active; lia). split.
    - split; try done; [congruence|by rewrite E4].
    - left. split; [done|]. unfold active, sse_event_state in *. by rewrite E1.
    - done.
    - by split. }
  destruct (Z.eqb_spec id 2) as [->|N2].
  { destruct (_ <=? _) eqn:Eb; [done|]. destruct (truthy _) eqn:Em; [done|]. change 1 with (Z.ones 1) in Em.
    apply below_mask in Em; [|lia|done]. apply Hcfg; try done. destruct T. split; try done. cbn. unfold in_range in Em. lia. }
  destruct (Z.eqb_spec id 1) as [->|N1].
  { destruct (_ <=? _) eqn:Eb; [done|]. destruct (negb _) eqn:Em; [done|]. apply Hcfg; try done. destruct T. split; try done. cbn.
    apply wrap_range. lia. }
  destruct (Z.eqb_spec id 3) as [->|N3].
  { destruct (_ <=? _) eqn:Eb; [done|]. apply attr_hart; auto. unfold active. lia. }
  destruct (Z.eqb_spec id 7) as [->|N7].
  { destruct (truthy _) eqn:Em; [done|]. apply Hint in Hc as [C1 C2]. change FLAGS_MASK with (Z.ones 6) in Em. apply below_mask in Em; [|lia|done].
    cbn. apply attr_interrupted; try done; [lia|lia|]. cbn. tauto. }
  destruct ((id =? 6) || (id =? 8) || (id =? 9)) eqn:Eo; [|done]. apply Hint in Hc as [C1 C2].
  assert (id = 6 \/ id = 8 \/ id = 9) as [->|[->| ->]] by lia; cbn; (apply attr_interrupted; try done; [lia|lia|cbn; tauto]).
Qed.

Lemma set_attr_ok L s r e id val :
  inv s -> locks L s -> event_at s r = Some e -> sse_event_set_attr_check v e id val = 0 -> in_range 64 val -> (id = 3 -> in_range 32 val) ->
  exists s', sse_event_set_attr v r id val s = Some s' /\ gd edits L s s' /\ exists e', event_at s' r = Some e' /\ tracks e e'.
Proof.
  intros Hi HL He Hc Hr Hr3. destruct (attr_check_written s r e id val Hi He Hc Hr Hr3) as [K S O Tr].
  unfold sse_event_set_attr. rewrite He. cbn [mbind option_bind]. set (e' := set_attr v e id val) in *.
  set (s' := if id =? 3 then _ else _). eexists. split; [done|].
  assert (view_eq (set_event r e' s) s') as Hv by (unfold s'; destruct (_ =? _); [apply view_callback|done]).
  pose proof (updated_keep_view _ _ _ _ _ _ (set_event_updated r e' s (mk_is_Some _ _ He)) Hv) as Hu.
  split; [|exists e'; split; [by rewrite (up_event _ _ _ _ _ Hu), decide_True|done]].
  apply (good_edit L s s' r e e'); try done.
  - destruct Tr as (E & _). unfold sse_event_state. by rewrite E.
  - unfold s'. destruct (_ =? _); [apply locks_callback|]; by apply locks_set_event.
Qed.

Lemma tracks_check e e' id val : tracks e e' -> event_typed e -> sse_event_set_attr_check v e' id val = sse_event_set_attr_check v e id val.
Proof.
  intros (E1 & E2 & E3) T. unfold sse_event_set_attr_check, sse_event_set_hart_id_check, sse_event_is_global.
  assert (sse_event_state e' = sse_event_state e) as Es by (unfold sse_event_state; by rewrite E1). rewrite Es, E2.
  destruct (Z.eqb_spec (sse_event_state e) 3) as [E|E]; [|done]. rewrite E3; [done|]. unfold active. lia.
Qed.

Lemma set_attrs_ok L r : forall vals id e s,
  inv s -> locks L s -> event_at s r = Some e -> check_attrs v e id vals = 0 -> Forall (in_range 64) vals ->
  (forall i val, vals !! i = Some val -> id + Z.of_nat i = 3 -> in_range 32 val) ->
  exists s', set_attrs v r id vals s = Some s' /\ gd edits L s s'.
Proof.
  induction vals as [|val vals IH]; intros id e s Hi HL He Hc Hr Hr3; cbn [set_attrs check_attrs] in *.
  { eexists. split; [done|]. split; auto. intros h _. by split. }
  apply Forall_cons in Hr as [Hr1 Hr]. destruct (truthy _) eqn:Et; [by rewrite Hc in Et|].
  assert (sse_event_set_attr_check v e id val = 0) as Hc1 by (unfold truthy in Et; lia).
  destruct (set_attr_ok L s r e id val Hi HL He Hc1 Hr1) as (s1 & -> & Hg & e1 & He1 & Ht).
  { intros ->. apply (Hr3 O val); [done|lia]. }
  cbn [mbind option_bind]. destruct (IH (id + 1) e1 s1) as (s2 & -> & Hg2); [apply Hg|apply Hg|done| |done| |].
  - rewrite <- Hc. destruct (iv_event _ _ _ Hi r e He) as (T & _). clear - Ht T.
    revert id. induction vals as [|x vals IH]; intros id; cbn [check_attrs]; [done|]. rewrite (tracks_check e e1) by done.
    destruct (truthy _); [done|]. apply IH.
  - intros i x Hx Hid. apply (Hr3 (S i) x); [done|lia].
  - exists s2. split; [done|]. by apply (edits_trans L L s s1).
Qed.

Lemma write_attrs_ok event_id base count lo hi m s :
  inv s -> locks [] s -> sbi_sse_attr_check v base count lo hi SBI_DOMAIN_READ <> None -> (forall a, in_range 64 (m a)) ->
  (forall i, base + Z.of_nat i = 3 -> in_range 32 (m (long_at lo i))) ->
  exists ret s', sbi_sse_write_attrs v event_id base count lo hi m m s = Some (ret, s') /\ gd edits [] s s'.
Proof.
  intros Hi HL Hc Hm Hm3. unfold sbi_sse_write_attrs. destruct (sbi_sse_attr_check _ _ _ _ _ _) as [ret|]; [|done]. cbn [mbind option_bind].
  destruct (truthy ret).
  { eexists _, _. split; [done|]. split; auto. intros h _. by split. }
  apply with_event_rule; [done|done|by split|]. intros r e s1 Hsee He Hid Hv Hi1 HL1. unfold sse_write_attrs.
  change (event_at (call (MapRange lo (u64 (8 * count))) s1) r) with (event_at s1 r). rewrite He. cbn [mbind option_bind].
  set (s2 := call (MapRange lo (u64 (8 * count))) s1).
  assert (gd keep (event_locks r) s1 s2) as Hg2 by (apply good_view; [done|by split|done]).
  assert (exists s3, (if truthy (check_attrs v e base (fetch m lo count)) then Some s2
    else set_attrs v r base (fetch m lo count) s2) = Some s3 /\ gd edits (event_locks r) s2 s3) as (s3 & -> & Hg3).
  { destruct (truthy _) eqn:Et.
    - exists s2. split; [done|]. destruct Hg2. split; auto. intros h _. by split.
    - apply (set_attrs_ok (event_locks r) r _ base e); [apply Hg2|apply Hg2|done|unfold truthy in Et; lia| |].
      + unfold fetch. apply Forall_fmap, Forall_forall. intros i _. apply Hm.
      + intros i val Hval Hb. unfold fetch in Hval. rewrite list_lookup_fmap in Hval.
        destruct (seq 0 (Z.to_nat count) !! i) as [j|] eqn:Ej; [|done]. apply lookup_seq in Ej as [-> _]. cbn in Hval. injection Hval as <-.
        by apply Hm3. }
  cbn [mbind option_bind]. eexists _, _. split; [done|]. apply (good_keep_l _ _ _ (event_locks r) _ _ s2); [done|].
  apply (good_keep_r _ _ _ (event_locks r) _ _ s3); [done|]. apply good_view; [apply Hg3|by split|apply Hg3].
Qed.

(** ** Entering and leaving handlers *)

Record ctx_typed (k : sse_ctx) : Prop := {
  ct_a6 : in_range 64 (k_a6 k); ct_a7 : in_range 64 (k_a7 k); ct_sepc : in_range 64 (x_epc (c_s (k_cpu k))) }.

Lemma flags_range m h : in_range 6 (sse_interrupted_flags v m h).
Proof.
  assert (forall w mask, 0 <= mask < 64 -> in_range 6 (if truthy w then mask else 0)) as Hf
    by (intros w mask Hm; unfold in_range; destruct (truthy w); cbn; lia).
  unfold sse_interrupted_flags, flag_if. destruct (has_h (v_isa v)); repeat (apply lor_range; [lia| |]); apply Hf; lia.
Qed.

Lemma inject_keeps s r e k :
  inv s -> event_at s r = Some e -> ctx_typed k ->
  let e' := (sse_event_inject v e k).1 in keeps (v_sc v) s r e e' /\ sse_event_state e' = SBI_SSE_STATE_RUNNING.
Proof.
  intros Hi He [C1 C2 C3]. destruct (iv_event _ _ _ Hi r e He) as (T & _ & Hh & _ & Hst). cbn [sse_event_inject fst].
  set (e1 := sse_event_set_state e SBI_SSE_STATE_RUNNING).
  assert (event_typed e1) as T1.
  { apply typed_status; [done|]. exact (proj1 (set_state_word _ 3 (ty_status e T) ltac:(lia))). }
  destruct (unpending_word _ (ty_status e1 T1)) as [U1 U2]. split.
  - split; try done. apply typed_interrupted; [by apply typed_status|]. cbn. split_and!; try done.
    + unfold epc_read. by apply land_range.
    + apply flags_range.
  - transitivity (sse_event_state e1); [exact U2|]. apply state_set_state; [done|lia].
Qed.

(** The stack around the first event that may be running. *)
Lemma stack_split s h pre r post :
  inv s -> enabled s h (pre ++ r :: post) -> Forall (fun x => frame_of s x = None) pre ->
  stack s h = option_list (frame_of s r) ++ omap (frame_of s) post.
Proof.
  intros Hi Hen Hpre. rewrite (stack_enabled (v_sc v) live s h _ Hi Hen), omap_app.
  assert (omap (frame_of s) pre = []) as ->
    by (clear - Hpre; induction Hpre as [|x pre Hx _ IH]; cbn; [done|by rewrite Hx]).
  cbn. by destruct (frame_of s r).
Qed.

(** One event of the list of this hart changes, and with it the top of the stack. *)
Lemma top_changes L s s' r e e' pre post :
  inv s -> event_at s r = Some e -> updated s s' r e' (links s) -> keeps (v_sc v) s r e e' -> stays e e' ->
  enabled s (v_self v) (pre ++ r :: post) -> Forall (fun x => frame_of s x = None) pre -> locks L s' ->
  gd (fun h st st' => (h <> v_self v -> st' = st) /\
    (h = v_self v -> exists tl, st = option_list (event_frame r e) ++ tl /\ st' = option_list (event_frame r e') ++ tl)) L s s'.
Proof.
  intros Hi He Hu Hk Hst Hen Hpre HL. destruct (inv_stays (v_sc v) live s s' r e e' Hi He Hu Hk Hst) as [Hi' Hen'].
  split; [done|done|by apply (updated_some s s' r e' (links s))|]. intros h Hh.
  assert (r ∉ pre ++ post) as Hr.
  { pose proof (en_list _ _ _ Hen) as Hl. rewrite fmap_app, fmap_cons in Hl. intros Hr. apply (dlist_not_in _ _ _ _ _ Hl).
    rewrite <- fmap_app. right. by apply nodes_in. }
  split.
  - intros Hne. destruct (iv_list _ _ _ Hi h Hh) as [xs Hxs].
    rewrite (stack_enabled (v_sc v) live s' h xs), (stack_enabled (v_sc v) live s h xs) by auto.
    apply (frames_other s s' r e' _ _ Hu). intros Hx. apply (en_exact _ _ _ Hxs) in Hx as (e0 & E0 & _ & H0).
    assert (r ∈ pre ++ r :: post) as Hrx by set_solver. apply (en_exact _ _ _ Hen) in Hrx as (e1 & E1 & _ & H1). congruence.
  - intros ->. exists (omap (frame_of s) post). rewrite (stack_split s _ pre r post Hi Hen Hpre), (frame_event s r e) by done. split; [done|].
    rewrite (stack_split s' _ pre r post Hi' (Hen' _ _ Hen)).
    + rewrite (frame_event s' r e') by (by rewrite (up_event _ _ _ _ _ Hu), decide_True). f_equal.
      apply (frames_other s s' r e' _ _ Hu). set_solver.
    + rewrite Forall_forall in Hpre |- *. intros x Hx. rewrite (frame_other s s' r e' (links s)); [by apply Hpre|done|]. set_solver.
Qed.

Lemma ready_spec s r e :
  inv s -> event_at s r = Some e -> sse_event_is_ready v e = true ->
  sse_event_state e = SBI_SSE_STATE_ENABLED /\ ev_hartindex e = v_self v.
Proof.
  intros Hi He Hr. unfold sse_event_is_ready in Hr. destruct (iv_event _ _ _ Hi r e He) as (_ & _ & Hh & _).
  rewrite !negb_orb, !negb_involutive, !andb_true_iff in Hr. destruct Hr as [[_ Hs] Hid]. apply Z.eqb_eq in Hs, Hid.
  split; [done|]. apply (live_hid _ _ s Hi); [apply (iv_dead _ _ _ Hi r e He); unfold active; lia|done|]. rewrite <- Hh. exact Hid.
Qed.

(** The context a handler interrupts, as it is saved. *)
Definition saved_context (k : sse_ctx) : sse_interrupted_state :=
  mkIntr (epc_read (v_isa v) (x_epc (c_s (k_cpu k)))) (sse_interrupted_flags v (r_mstatus (k_regs k)) (hstatus (c_h (k_cpu k))))
    (k_a6 k) (k_a7 k).

(** What sbi_sse_process_pending_events does to the stack [st] of the hart.  If it
    enters no handler, events are masked or every event that is ready comes after a
    handler that runs.  If it does, the event comes before all handlers that run
    and all other events that are ready. *)
Inductive delivered (s : sse_state) (k k' : sse_ctx) (st st' : list frame) : Prop :=
| deliver_nothing :
    k' = k -> st' = st ->
    (masked <$> hart_states s !! v_self v = Some true \/
     forall r e, event_at s r = Some e -> sse_event_is_ready v e = true ->
       exists f ef, f ∈ st /\ event_at s (f_event f) = Some ef /\ goes_before ef e = true) ->
    delivered s k k' st st'
| deliver_event r e :
    event_at s r = Some e -> sse_event_is_ready v e = true ->
    st' = mkFrame r (saved_context k) :: st -> k' = (sse_event_inject v e k).2 ->
    (forall f, f ∈ st -> exists ef, event_at s (f_event f) = Some ef /\ goes_before e ef = true) ->
    (forall r' e', event_at s r' = Some e' -> sse_event_is_ready v e' = true -> r' = r \/ goes_before e e' = true) ->
    delivered s k k' st st'.

Lemma in_stack s h f :
  inv s -> h ∈ live -> f ∈ stack s h ->
  exists e, event_at s (f_event f) = Some e /\ sse_event_state e = SBI_SSE_STATE_RUNNING /\ ev_hartindex e = h /\ f_saved f = at_interrupted (ev_attrs e).
Proof.
  intros Hi Hh Hf. destruct (iv_list _ _ _ Hi h Hh) as [xs Hxs]. rewrite (stack_enabled (v_sc v) live s h xs Hi Hxs) in Hf.
  apply list_elem_of_omap in Hf as (r & Hr & Hf). apply (en_exact _ _ _ Hxs) in Hr as (e & He & _ & Hhe).
  rewrite (frame_event s r e He) in Hf. unfold event_frame in Hf. destruct (Z.eqb_spec (sse_event_state e) 3); [|done].
  injection Hf as <-. by exists e.
Qed.

Lemma running_in_stack s r e :
  inv s -> event_at s r = Some e -> sse_event_state e = SBI_SSE_STATE_RUNNING ->
  mkFrame r (at_interrupted (ev_attrs e)) ∈ stack s (ev_hartindex e).
Proof.
  intros Hi He Hs. assert (active e) as Ha by (unfold active; lia).
  destruct (iv_list _ _ _ Hi _ (iv_dead _ _ _ Hi r e He Ha)) as [xs Hxs].
  rewrite (stack_enabled (v_sc v) live s _ xs Hi Hxs). apply list_elem_of_omap. exists r. split; [apply (en_exact _ _ _ Hxs); eauto|].
  rewrite (frame_event s r e He). unfold event_frame. by rewrite Hs.
Qed.

(** Where the loop of sbi_sse_process_pending_events stops. *)
Definition stops (k : sse_ctx) (e : sbi_sse_event) : bool := (sse_event_check_inject v k e).1.

Lemma stops_spec k e : stops k e = (sse_event_state e =? SBI_SSE_STATE_RUNNING) || sse_event_is_ready v e.
Proof. unfold stops, sse_event_check_inject. destruct (_ =? _); [done|]. by destruct (sse_event_is_ready v e). Qed.

(** Events of this hart that are ready or running come after the first such one. *)
Lemma first_is_before s pre t post k et r e :
  inv s -> enabled s (v_self v) (pre ++ t :: post) -> Forall (fun x => event_has s (stops k) x = false) pre -> event_at s t = Some et ->
  event_at s r = Some e -> ev_hartindex e = v_self v -> active e -> stops k e = true -> r = t \/ goes_before et e = true.
Proof.
  intros Hi Hen Hpre Ht He Hh Ha Hs. assert (r ∈ pre ++ t :: post) as Hr by (apply (en_exact _ _ _ Hen); eauto).
  apply elem_of_app in Hr as [Hr|Hr].
  - rewrite Forall_forall in Hpre. specialize (Hpre r Hr). unfold event_has in Hpre. rewrite He, Hs in Hpre. done.
  - apply elem_of_cons in Hr as [->|Hr]; [by left|right].
    pose proof (en_sorted _ _ _ Hen) as Hsort. apply StronglySorted_app in Hsort as (_ & _ & Hsort).
    apply StronglySorted_inv in Hsort as [_ Hall]. rewrite Forall_forall in Hall. destruct (Hall r Hr) as (e1 & e2 & E1 & E2 & Hb).
    by simplify_eq.
Qed.

(** The changes of the stack of this hart alone. *)
Definition own (R : list frame -> list frame -> Prop) : stack_change := fun h st st' => (h <> v_self v -> st' = st) /\ (h = v_self v -> R st st').

Lemma keep_own R L s s' : (forall st, st = stack s (v_self v) -> R st st) -> gd keep L s s' -> gd (own R) L s s'.
Proof.
  intros HR [A1 A2 A3 A4]. split; auto. intros h Hh. rewrite (A4 h Hh). split; [done|]. intros ->. by apply HR.
Qed.

(** The handler of event [r] is entered. *)
Lemma deliver_step k s1 pre r post e s :
  inv s1 -> view_eq s s1 -> locks [LList (v_self v)] s1 -> ctx_typed k ->
  enabled s1 (v_self v) (pre ++ r :: post) -> Forall (fun x => event_has s1 (stops k) x = false) pre -> event_at s1 r = Some e ->
  stops k e = true ->
  gd (own (delivered s k (sse_event_check_inject v k e).2.2)) [LList (v_self v)] s1 (set_event r (sse_event_check_inject v k e).2.1 s1).
Proof.
  intros Hi Hv HL Hk Hen Hpre He Hstop.
  assert (forall x, event_at s x = event_at s1 x) as Hev by (intros x; by rewrite (sw_event _ _ Hv)).
  assert (r ∈ pre ++ r :: post) as Hr by set_solver. apply (en_exact _ _ _ Hen) in Hr as (e0 & E0 & Ha & Hhe).
  assert (e0 = e) as -> by congruence.
  assert (Forall (fun x => frame_of s1 x = None) pre) as Hfr.
  { rewrite Forall_forall in Hpre |- *. intros x Hx. specialize (Hpre x Hx). unfold event_has in Hpre.
    destruct (event_at s1 x) as [ex|] eqn:Ex; [|done]. rewrite (frame_event s1 x ex Ex). unfold event_frame.
    rewrite stops_spec in Hpre. apply orb_false_iff in Hpre as [-> _]. done. }
  pose proof (fun r' e' => first_is_before s1 pre r post k e r' e' Hi Hen Hpre He) as Hfirst.
  unfold sse_event_check_inject. destruct (Z.eqb_spec (sse_event_state e) SBI_SSE_STATE_RUNNING) as [Es|Es].
  - cbn [snd fst]. apply keep_own.
    + intros st ->. apply deliver_nothing; [done|done|]. right. intros r' e' He' Hr'. rewrite Hev in He'.
      destruct (ready_spec s1 r' e' Hi He' Hr') as [R1 R2]. exists (mkFrame r (at_interrupted (ev_attrs e))), e.
      split; [rewrite <- Hhe; by apply running_in_stack|]. split; [by rewrite Hev|].
      destruct (Hfirst r' e' He' R2) as [->|]; [unfold active; lia|rewrite stops_spec, Hr'; apply orb_true_r| |done]. simplify_eq. lia.
    + apply (good_stays _ _ _ _ _ r e e); try done.
      * apply set_event_updated. by rewrite He.
      * destruct (iv_event _ _ _ Hi r e He) as (T & _ & Hh & _ & Hst). by split.
      * by apply stays_same.
      * by apply locks_set_event.
  - rewrite stops_spec, (proj2 (Z.eqb_neq _ _) Es) in Hstop. cbn in Hstop. rewrite Hstop. cbn [snd fst].
    destruct (ready_spec s1 r e Hi He Hstop) as [R1 _]. destruct (inject_keeps s1 r e k Hi He Hk) as [Hkp Hst].
    set (e' := (sse_event_inject v e k).1) in *.
    assert (event_frame r e = None) as F1 by (unfold event_frame; by rewrite R1).
    assert (event_frame r e' = Some (mkFrame r (saved_context k))) as F2 by (unfold event_frame; by rewrite Hst).
    destruct (top_changes [LList (v_self v)] s1 (set_event r e' s1) r e e' pre post) as [T1 T2 T3 T4]; try done.
    { apply set_event_updated. by rewrite He. }
    { right. unfold active. rewrite R1, Hst. split_and!; [lia|lia|done|done]. }
    { by apply locks_set_event. }
    split; [done|done|done|]. intros h Hh. destruct (T4 h Hh) as [T4a T4b]. split; [done|]. intros ->.
    destruct (T4b eq_refl) as (tl & E1 & E2). rewrite F1 in E1. rewrite F2 in E2. change (stack s1 (v_self v) = tl) in E1.
    change (stack (set_event r e' s1) (v_self v) = mkFrame r (saved_context k) :: tl) in E2. rewrite E2, <- E1.
    apply (deliver_event _ _ _ _ _ r e); [by rewrite Hev|done|done|done| |].
    + intros f Hf. destruct (in_stack s1 _ f Hi Hself Hf) as (ef & Ef & Sf & Hf' & _). exists ef. split; [by rewrite Hev|].
      destruct (Hfirst (f_event f) ef Ef Hf') as [Er|]; [unfold active; lia|by rewrite stops_spec, Sf| |done].
      rewrite Er in Ef. by simplify_eq.
    + intros r' e2 He' Hr'. rewrite Hev in He'. destruct (ready_spec s1 r' e2 Hi He' Hr') as [R3 R4].
      apply (Hfirst r' e2 He' R4); [unfold active; lia|]. rewrite stops_spec, Hr'. apply orb_true_r.
Qed.

Lemma process_ok k s :
  inv s -> locks [] s -> ctx_typed k ->
  exists k' s', sbi_sse_process_pending_events v k s = Some (k', s') /\ gd (own (delivered s k k')) [] s s'.
Proof.
  intros Hi HL Hk. unfold sbi_sse_process_pending_events. destruct (self_state s Hi) as [hs Hs]. rewrite Hs. cbn [mbind option_bind].
  destruct (masked hs) eqn:Em.
  { eexists _, _. split; [done|]. apply keep_own; [|by apply good_view]. intros st _. apply deliver_nothing; [done|done|]. left. by rewrite Hs, <- Em. }
  destruct (live_state s _ Hi Hself) as [hs' Hg].
  destruct (list_lock_rule v [] (v_self v) s hs' Hg (not_elem_of_nil _) HL) as (s1 & -> & Hv1 & HL1). cbn [mbind option_bind].
  pose proof (inv_view _ _ _ _ Hv1 Hi) as Hi1. destruct (iv_list _ _ _ Hi1 _ Hself) as [xs Hxs].
  rewrite (for_each_enabled_spec (v_sc v) live s1 _ xs _ Hi1 Hxs). cbn [mbind option_bind].
  change (fun e => (sse_event_check_inject v k e).1) with (stops k).
  destruct (find_split (event_has s1 (stops k)) xs) as (pre & post & -> & Hpre & -> & Ht). destruct post as [|r post]; cbn [hd_error].
  - destruct (live_state s1 _ Hi1 Hself) as [hs1 Hg1].
    destruct (list_unlock_rule v [] (v_self v) s1 hs1 Hg1 (not_elem_of_nil _) HL1) as (s2 & -> & Hv2 & HL2). cbn [mbind option_bind].
    eexists _, _. split; [done|]. apply keep_own; [|apply good_view; [done|by etrans|done]]. intros st _. apply deliver_nothing; [done|done|]. right.
    intros r e He Hr. rewrite <- (sw_event _ _ Hv1) in He. destruct (ready_spec s1 r e Hi1 He Hr) as [R1 R2]. exfalso.
    rewrite app_nil_r in Hxs. assert (r ∈ pre) as Hin by (apply (en_exact _ _ _ Hxs); exists e; split_and!; [done|unfold active; lia|done]).
    rewrite Forall_forall in Hpre. specialize (Hpre r Hin). unfold event_has in Hpre. rewrite He, stops_spec, Hr, orb_true_r in Hpre. done.
  - assert (r ∈ pre ++ r :: post) as Hr by set_solver. apply (en_exact _ _ _ Hxs) in Hr as (e & He & _).
    rewrite He. cbn [mbind option_bind]. specialize (Ht r eq_refl). unfold event_has in Ht. rewrite He in Ht.
    pose proof (deliver_step k s1 pre r post e s Hi1 Hv1 HL1 Hk Hxs Hpre He Ht) as Hd.
    destruct (sse_event_check_inject v k e) as [b [e' k']] eqn:Ec. cbn [snd fst] in Hd |- *.
    destruct (live_state _ _ (gd_inv _ _ _ _ _ _ Hd) Hself) as [hs2 Hg2].
    destruct (list_unlock_rule v [] (v_self v) _ hs2 Hg2 (not_elem_of_nil _) (gd_locks _ _ _ _ _ _ Hd)) as (s3 & -> & Hv3 & HL3). cbn [mbind option_bind].
    eexists _, _. split; [done|]. apply (good_keep_l _ _ _ [LList (v_self v)] _ _ s1); [by apply good_view|].
    apply (good_keep_r _ _ _ [LList (v_self v)] _ _ _ _ Hd). apply good_view; [apply Hd|done|done].
Qed.

(** What sbi_sse_complete does: the last handler entered ends, and the hart goes on
    with what that handler has interrupted. *)
Definition completed (k k' : sse_ctx) (ret : Z) (skip : bool) (st st' : list frame) : Prop :=
  match st with
  | [] => st' = [] /\ ret = 0 /\ skip = false /\ k' = k
  | f :: tl => st' = tl /\ ret = 0 /\ skip = true /\ k' = sse_event_resume v (f_saved f) k
  end.

Definition is_running (e : sbi_sse_event) : bool := sse_event_state e =? SBI_SSE_STATE_RUNNING.

Lemma complete_step L k s pre r post e :
  inv s -> locks L s -> enabled s (v_self v) (pre ++ r :: post) -> Forall (fun x => event_has s is_running x = false) pre ->
  event_at s r = Some e -> is_running e = true ->
  exists s', sse_event_complete v r k s = Some (0, true, sse_event_resume v (at_interrupted (ev_attrs e)) k, s') /\
    gd (own (completed k (sse_event_resume v (at_interrupted (ev_attrs e)) k) 0 true)) L s s'.
Proof.
  intros Hi HL Hen Hpre He Hrun. unfold sse_event_complete. rewrite He. cbn [mbind option_bind].
  change (sse_event_state e =? SBI_SSE_STATE_RUNNING) with (is_running e). rewrite Hrun. cbn [negb].
  assert (r ∈ pre ++ r :: post) as Hr by set_solver. apply (en_exact _ _ _ Hen) in Hr as (e0 & E0 & Ha & Hhe).
  assert (e0 = e) as -> by congruence. destruct (iv_event _ _ _ Hi r e He) as (T & _ & Hh & _).
  assert (at_hartid (ev_attrs e) = current_hartid v) as -> by (by rewrite Hh, Hhe). rewrite Z.eqb_refl. cbn [negb].
  set (e1 := sse_event_set_state e SBI_SSE_STATE_ENABLED). set (s1 := set_event r e1 s).
  pose proof (state_set_state e SBI_SSE_STATE_ENABLED T ltac:(lia)) as Es1. fold e1 in Es1.
  assert (event_at s1 r = Some e1) as He1 by (unfold s1; rewrite event_at_set, decide_True by (rewrite ?He; eauto); done).
  assert (Forall (fun x => frame_of s x = None) pre) as Hfr.
  { rewrite Forall_forall in Hpre |- *. intros x Hx. specialize (Hpre x Hx). unfold event_has, is_running in Hpre.
    destruct (event_at s x) as [ex|] eqn:Ex; [|done]. rewrite (frame_event s x ex Ex). unfold event_frame. by rewrite Hpre. }
  destruct (top_changes L s s1 r e e1 pre post) as [T1 T2 T3 T4]; try done.
  { apply set_event_updated. by rewrite He. }
  { by apply keeps_state. }
  { right. unfold active in *. rewrite Es1. split_and!; [done|lia|done|done]. }
  { by apply locks_set_event. }
  assert (gd (own (completed k (sse_event_resume v (at_interrupted (ev_attrs e)) k) 0 true)) L s s1) as Hg1.
  { split; [done|done|done|]. intros h Hhl. destruct (T4 h Hhl) as [T4a T4b]. split; [done|]. intros ->.
    destruct (T4b eq_refl) as (tl & E1 & E2). unfold event_frame in E1, E2. rewrite Es1 in E2. unfold is_running in Hrun. rewrite Hrun in E1.
    change (stack s (v_self v) = mkFrame r (at_interrupted (ev_attrs e)) :: tl) in E1. change (stack s1 (v_self v) = tl) in E2.
    rewrite E1, E2. done. }
  assert (exists s2, (if truthy (Z.land (at_config (ev_attrs e)) SBI_SSE_ATTR_CONFIG_ONESHOT)
    then '(_, s) ← sse_event_disable r s1; Some s else Some s1) = Some s2 /\ gd keep L s1 s2) as (s2 & -> & Hg2).
  { destruct (truthy _); [|exists s1; split; [done|]; by apply good_view].
    destruct (disable_ok L r e1 s1 T1 T2 He1) as (ret & s2 & -> & Hg & _). by exists s2. }
  cbn [mbind option_bind]. eexists. split; [done|].
  apply (good_keep_r _ _ _ L _ _ s2); [by apply (good_keep_r _ _ _ L _ _ s1)|].
  apply good_view; [apply Hg2|apply view_callback|apply locks_callback, Hg2].
Qed.

Lemma complete_ok k s :
  inv s -> locks [] s ->
  exists ret skip k' s', sbi_sse_complete v k s = Some (ret, skip, k', s') /\ gd (own (completed k k' ret skip)) [] s s'.
Proof.
  intros Hi HL. unfold sbi_sse_complete. destruct (live_state s _ Hi Hself) as [hs Hg].
  destruct (list_lock_rule v [] (v_self v) s hs Hg (not_elem_of_nil _) HL) as (s1 & -> & Hv1 & HL1). cbn [mbind option_bind].
  pose proof (inv_view _ _ _ _ Hv1 Hi) as Hi1. destruct (iv_list _ _ _ Hi1 _ Hself) as [xs Hxs].
  rewrite (for_each_enabled_spec (v_sc v) live s1 _ xs _ Hi1 Hxs). cbn [mbind option_bind].
  change (fun e => sse_event_state e =? SBI_SSE_STATE_RUNNING) with is_running.
  destruct (find_split (event_has s1 is_running) xs) as (pre & post & -> & Hpre & -> & Ht). destruct post as [|r post]; cbn [hd_error].
  - cbn [mbind option_bind]. destruct (live_state s1 _ Hi1 Hself) as [hs1 Hg1].
    destruct (list_unlock_rule v [] (v_self v) s1 hs1 Hg1 (not_elem_of_nil _) HL1) as (s2 & -> & Hv2 & HL2). cbn [mbind option_bind].
    eexists _, _, _, _. split; [done|]. apply keep_own; [|apply good_view; [done|by etrans|done]]. intros st ->.
    rewrite <- (stack_view s s1) by done. rewrite app_nil_r in Hxs. rewrite (stack_enabled (v_sc v) live s1 _ pre Hi1 Hxs).
    assert (omap (frame_of s1) pre = []) as ->; [|done]. clear - Hpre. induction Hpre as [|x pre Hx _ IH]; cbn; [done|].
    unfold frame_of. unfold event_has, is_running in Hx. destruct (event_at s1 x); cbn; by rewrite ?Hx.
  - assert (r ∈ pre ++ r :: post) as Hr by set_solver. apply (en_exact _ _ _ Hxs) in Hr as (e & He & _).
    specialize (Ht r eq_refl). unfold event_has in Ht. rewrite He in Ht.
    destruct (complete_step _ k s1 pre r post e Hi1 HL1 Hxs Hpre He Ht) as (s2 & -> & Hd). cbn [mbind option_bind].
    destruct (live_state _ _ (gd_inv _ _ _ _ _ _ Hd) Hself) as [hs2 Hg2].
    destruct (list_unlock_rule v [] (v_self v) _ hs2 Hg2 (not_elem_of_nil _) (gd_locks _ _ _ _ _ _ Hd)) as (s3 & -> & Hv3 & HL3). cbn [mbind option_bind].
    eexists _, _, _, _. split; [done|]. apply (good_keep_l _ _ _ [LList (v_self v)] _ _ s1); [by apply good_view|].
    apply (good_keep_r _ _ _ [LList (v_self v)] _ _ _ _ Hd). apply good_view; [apply Hd|done|done].
Qed.
End Calls.
