(* ===== verification/SseNest.v ===== *)
(** * Handlers of software events nest (lib/sbi/sbi_sse.c)

    Harts start, call into file Sse in any order ([run_op]), stop and start
    again; [sse_reachable] are the states they reach.  The theorems say that every
    call returns and that the handlers on a hart form a stack ([handlers_nest]),
    that the lists of enabled events are exact between calls
    ([enabled_lists_exact]), that the attributes keep to their types
    ([attributes_typed]), and that harts can stop and start
    ([harts_come_and_go]).

    A supervisor is taken to keep to three rules: it does not enable an event whose
    preferred hart is stopped ([enable_after_exit_hangs] shows what can happen
    otherwise), it does not change a buffer of attributes while the firmware reads
    it ([write_attrs_fetches_twice]), and it names harts by ids of 32 bits. *)

From stdpp Require Import gmap functions sorting.
From S2P Require Import Prelude Locks Fifo Bitops Bitmap Scratch Pmp Memregion Domain Hsm Trap Dlist Sse SseInv SseCalls.
Local Open Scope Z_scope.

(** ** A hart stops *)

Section Exit.
Context (v : sse_env) (live : gset Z).
Context (Hok : harts_ok (v_sc v)) (Hself : v_self v ∈ live).

#[local] Instance sees_dec r : Decision (sees v r).
Proof. destruct r; cbn; apply _. Defined.

(** What sbi_sse_exit does to an event, once it has visited the ids [A]. *)
Definition exit_event (A : list Z) (r : event_ref) (e : sbi_sse_event) : sbi_sse_event :=
  if bool_decide (sees v r /\ ev_id e ∈ A /\ at_hartid (ev_attrs e) = current_hartid v /\ SBI_SSE_STATE_REGISTERED < sse_event_state e)
  then sse_event_set_state e SBI_SSE_STATE_UNUSED else e.

Record exited (A : list Z) (s s' : sse_state) : Prop := {
  ex_event : forall r, event_at s' r = exit_event A r <$> event_at s r;
  ex_links : links s' = links s;
  ex_masked : forall h, masked <$> hart_states s' !! h = masked <$> hart_states s !! h;
  ex_fifo : inject_fifo s' = inject_fifo s;
  ex_supported : supported_events s' = supported_events s;
  ex_counts : local_event_count s' = local_event_count s /\ global_event_count s' = global_event_count s }.

Lemma exit_event_keeps A r e :
  let e' := exit_event A r e in
  ev_id e' = ev_id e /\ ev_hartindex e' = ev_hartindex e /\ at_hartid (ev_attrs e') = at_hartid (ev_attrs e) /\ (event_typed e -> event_typed e').
Proof.
  unfold exit_event. case_bool_decide; [|done]. split_and!; try done. intros T. apply typed_status; [done|].
  exact (proj1 (set_state_word _ 0 (ty_status e T) ltac:(lia))).
Qed.

Lemma exit_event_same A r e : e = exit_event A r e \/ (event_typed e -> sse_event_state (exit_event A r e) = 0).
Proof. unfold exit_event. case_bool_decide; [right|by left]. intros T. apply state_set_state; [done|lia]. Qed.

Lemma exited_view A s s1 s' : exited A s s1 -> view_eq s1 s' -> exited A s s'.
Proof.
  intros [X1 X2 X3 X4 X5 [X6 X7]] [V1 V2 V3 V4 V5 [V6 V7]]. split; try congruence; try (split; congruence); intros; by rewrite ?V1, ?V3, ?X1, ?X3.
Qed.

Lemma exit_loop_ok s0 : sse_inv (v_sc v) live s0 -> forall l A s,
  NoDup (A ++ (info_id <$> l)) -> exited A s0 s -> locks [] s ->
  exists s', exit_loop v l s = Some s' /\ exited (A ++ (info_id <$> l)) s0 s' /\ locks [] s'.
Proof.
  intros Hi. induction l as [|i l IH]; intros A s Hnd Hx HL; cbn [exit_loop].
  { exists s. by rewrite app_nil_r. }
  rewrite fmap_cons, cons_middle, app_assoc in Hnd |- *.
  assert (is_Some (hart_states s !! v_self v)) as Hs.
  { apply (is_some_masked s0); [apply Hx|]. by apply (iv_hart _ _ _ Hi). }
  destruct (event_get_rule v (info_id i) s Hs HL) as (res & s1 & -> & Hv & Hres). cbn [mbind option_bind].
  assert (info_id i ∉ A) as Hni.
  { apply NoDup_app in Hnd as (Hnd & _ & _). apply NoDup_app in Hnd as (_ & Hd & _). intros Hin. apply (Hd _ Hin). set_solver. }
  assert (forall r e, event_at s0 r = Some e -> (sees v r -> ev_id e <> info_id i) -> exit_event (A ++ [info_id i]) r e = exit_event A r e) as Hsame.
  { intros r e He Hne. unfold exit_event. case_bool_decide as H1; case_bool_decide as H2; try done; exfalso.
    - destruct H1 as (Hsee & Hin & H1). apply H2. split; [done|]. split; [|done]. apply elem_of_app in Hin as [Hin|Hin%list_elem_of_singleton]; [done|by destruct (Hne Hsee)].
    - apply H1. rewrite elem_of_app. tauto. }
  destruct res as [ret|r].
  - destruct Hres as (_ & -> & Hno). apply IH; [done| |done]. destruct Hx as [X1 X2 X3 X4 X5 X6]. split; try done.
    intros r. rewrite X1. destruct (event_at s0 r) as [e|] eqn:He; [|done]. cbn. f_equal. symmetry. apply Hsame; [done|]. intros Hsee Hid.
    destruct (iv_event _ _ _ Hi r e He) as (_ & G & _). unfold sse_event_is_global in G. rewrite Hid in G.
    assert (event_at s r = Some (exit_event A r e)) as He' by (by rewrite X1, He).
    apply (Hno r _ Hsee (eq_sym G) He'). by rewrite (proj1 (exit_event_keeps A r e)).
  - destruct Hres as (Hsee & Hg & HL1 & e & He & Hid). rewrite (ex_event _ _ _ Hx) in He.
    destruct (event_at s0 r) as [e0|] eqn:He0; cbn in He; [|done]. injection He as He.
    assert (ev_id e0 = info_id i) as Hid0 by (rewrite <- He, (proj1 (exit_event_keeps A r e0)) in Hid; done).
    assert (exit_event A r e0 = e0) as Eq.
    { unfold exit_event. case_bool_decide as Hb; [|done]. destruct Hb as (_ & Hb & _). by rewrite Hid0 in Hb. }
    assert (e = e0) as -> by congruence. clear He.
    assert (event_at s1 r = Some e0) as He1 by (rewrite (sw_event _ _ Hv), (ex_event _ _ _ Hx), He0; cbn; by rewrite Eq).
    rewrite He1. cbn [mbind option_bind]. set (s2 := if _ && _ then _ else s1).
    assert (updated s s2 r (exit_event (A ++ [info_id i]) r e0) (links s)) as Hu.
    { assert (exit_event (A ++ [info_id i]) r e0 = if (at_hartid (ev_attrs e0) =? current_hartid v) && (SBI_SSE_STATE_REGISTERED <? sse_event_state e0)
        then sse_event_set_state e0 SBI_SSE_STATE_UNUSED else e0) as ->.
      { unfold exit_event. destruct (_ && _) eqn:Eb; [rewrite bool_decide_true|rewrite bool_decide_false]; [done| |done|].
        - split_and!; [done|rewrite Hid0; set_solver|lia|lia].
        - intros (_ & _ & ? & ?). lia. }
      unfold s2. destruct (_ && _).
      - rewrite <- (sw_links _ _ Hv). eapply (updated_view s s1 _ _ r _ _ Hv); [|reflexivity]. apply set_event_updated. by rewrite He1.
      - destruct Hv as [V1 V2 V3 V4 V5 V6]. split; try done. intros r'. rewrite V1. destruct (decide (r' = r)) as [->|]; [|done]. by rewrite <- V1. }
    assert (locks (event_locks r) s2) as HL2 by (unfold s2; destruct (_ && _); [by apply locks_set_event|done]).
    destruct (exit_event_keeps (A ++ [info_id i]) r e0) as (K1 & _). destruct (iv_event _ _ _ Hi r e0 He0) as (_ & G & _).
    destruct (event_put_rule r (exit_event (A ++ [info_id i]) r e0) s2) as (s3 & -> & Hv3 & HL3); [|unfold sse_event_is_global in *; by rewrite K1|done|].
    { by rewrite (up_event _ _ _ _ _ Hu), decide_True. }
    cbn [mbind option_bind]. apply IH; [done| |done]. apply (exited_view _ _ s2); [|done].
    destruct Hu as [U1 U2 U3 U4 U5 [U6 U7]], Hx as [X1 X2 X3 X4 X5 [X6 X7]].
    split; try congruence; try (split; congruence).
    intros r'. rewrite U1. destruct (decide (r' = r)) as [->|Hne]; [by rewrite He0|]. rewrite X1.
    destruct (event_at s0 r') as [e'|] eqn:He'; [|done]. cbn. f_equal. symmetry. apply Hsame; [done|]. intros Hsee' Hid'. apply Hne.
    destruct (iv_event _ _ _ Hi r' e' He') as (_ & G' & _). unfold sse_event_is_global in G, G'. rewrite Hid0 in G. rewrite Hid', G in G'.
    apply (iv_uniq (v_sc v) live s0 r' r e' e0); try done; [|congruence]. destruct r, r'; try done. cbn in *. congruence.
Qed.

(** An event of the hart that was enabled or running is unused, the others have
    not changed. *)
Lemma exited_event s s' r e :
  sse_inv (v_sc v) live s -> exited (info_id <$> supported_events s) s s' -> event_at s r = Some e ->
  exists e', event_at s' r = Some e' /\ ev_id e' = ev_id e /\ ev_hartindex e' = ev_hartindex e /\
    at_hartid (ev_attrs e') = at_hartid (ev_attrs e) /\ event_typed e' /\
    (active e -> ev_hartindex e = v_self v -> ~ active e') /\ (~ (active e /\ ev_hartindex e = v_self v) -> e' = e).
Proof.
  intros Hi Hx He. eexists. rewrite (ex_event _ _ _ Hx), He. split; [done|]. destruct (iv_event _ _ _ Hi r e He) as (T & _ & Hh & Hl & _).
  destruct (exit_event_keeps (info_id <$> supported_events s) r e) as (K1 & K2 & K3 & K4). do 3 (split; [done|]). split; [by apply K4|].
  unfold exit_event. case_bool_decide as Hb.
  - split.
    + intros _ _. unfold active. rewrite state_set_state by (done || lia). lia.
    + intros Hn. destruct Hn. destruct Hb as (_ & _ & Hc & Hst). assert (active e) as Ha by (unfold active; lia). split; [done|].
      apply (live_hid v live Hok _ _ s Hi); [by apply (iv_dead _ _ _ Hi r)|done|]. rewrite <- Hh. exact Hc.
  - split; [|done]. intros Ha Hs. destruct Hb. split_and!.
    + destruct r as [j|h j]; [done|]. cbn. by rewrite <- (Hl h).
    + destruct (iv_shape _ _ _ Hi r e He) as (i & E & <-). apply list_elem_of_fmap_2. apply list_elem_of_lookup_2 in E.
      by apply list_elem_of_filter in E as [_ E].
    + rewrite Hh, Hs. done.
    + unfold active in Ha. lia.
Qed.

Lemma exited_enabled s s' h xs :
  sse_inv (v_sc v) live s -> exited (info_id <$> supported_events s) s s' -> h <> v_self v -> enabled s h xs ->
  enabled s' h xs /\ forall r, r ∈ xs -> event_at s' r = event_at s r.
Proof.
  intros Hi Hx Hne [E1 E2 E3].
  assert (forall r, r ∈ xs -> event_at s' r = event_at s r) as Hsame.
  { intros r (e & He & Ha & Hh)%E3. destruct (exited_event s s' r e Hi Hx He) as (e' & -> & _ & _ & _ & _ & _ & ->); [done|]. intros [_ ?]. congruence. }
  split; [|done]. split.
  - by rewrite (ex_links _ _ _ Hx).
  - by apply (sorted_same s).
  - intros r. split.
    + intros Hr. rewrite Hsame by done. by apply E3.
    + intros (e' & He' & Ha & Hh). apply E3. rewrite (ex_event _ _ _ Hx) in He'. destruct (event_at s r) as [e|] eqn:He; [|done].
      destruct (exited_event s s' r e Hi Hx He) as (e2 & E & _ & K & _ & _ & _ & Heq).
      rewrite (ex_event _ _ _ Hx), He in E. assert (e2 = e') as -> by congruence. rewrite Heq in *; [by exists e|..]; intros [_ ?]; congruence.
Qed.

Lemma exit_exited s :
  sse_inv (v_sc v) live s -> locks [] s ->
  exists s', sbi_sse_exit v s = Some s' /\ exited (info_id <$> supported_events s) s s' /\ locks [] s'.
Proof.
  intros Hi HL. destruct (exit_loop_ok s Hi (supported_events s) [] s) as (s' & E & Hx & HL'); [apply Hi| |done|by exists s'].
  split; try done. intros r. destruct (event_at s r) as [e|]; [|done]. cbn. unfold exit_event. case_bool_decide as Hb; [|done]. set_solver.
Qed.

Lemma exit_ok s :
  sse_inv (v_sc v) live s -> locks [] s ->
  exists s', sbi_sse_exit v s = Some s' /\ sse_inv (v_sc v) (live ∖ {[v_self v]}) s' /\ locks [] s' /\
    (forall h, h ∈ live -> h <> v_self v -> stack s' h = stack s h).
Proof.
  intros Hi HL. destruct (exit_exited s Hi HL) as (s' & E & Hx & HL'). exists s'. split; [done|].
  assert (forall h, h ∈ live ∖ {[v_self v]} <-> h ∈ live /\ h <> v_self v) as Hin by (intros h; set_solver).
  assert (forall r e', event_at s' r = Some e' -> exists e, event_at s r = Some e) as Hback.
  { intros r e'. rewrite (ex_event _ _ _ Hx). destruct (event_at s r); [eauto|done]. }
  assert (sse_inv (v_sc v) (live ∖ {[v_self v]}) s') as Hi'.
  { pose proof Hx as [X1 X2 X3 X4 X5 [X6 X7]]. split.
    - rewrite X5. apply Hi.
    - unfold infos. rewrite X5, X6, X7. apply (iv_counts _ _ _ Hi).
    - intros r e' He'. destruct (Hback r e' He') as [e He]. destruct (exited_event s s' r e Hi Hx He) as (e2 & E2 & K & _).
      assert (e2 = e') as -> by congruence. unfold infos. rewrite X5, K. by apply (iv_shape _ _ _ Hi).
    - intros h i Hh Hlt. rewrite X1. unfold infos in Hlt. rewrite X5 in Hlt. apply (is_some_masked s' s) in Hh; [|done].
      destruct (iv_full _ _ _ Hi h i Hh Hlt) as [e ->]. eauto.
    - intros r e' He'. destruct (Hback r e' He') as [e He]. destruct (exited_event s s' r e Hi Hx He) as (e2 & E2 & K1 & K2 & K3 & T & _).
      assert (e2 = e') as -> by congruence. destruct (iv_event _ _ _ Hi r e He) as (_ & G & Hh & L & S).
      split; [done|]. split; [unfold sse_event_is_global in *; by rewrite K1|]. rewrite K2, K3. do 2 (split; [done|]). by apply (home_masked _ s).
    - intros h [Hh Hne]%Hin. destruct (iv_list _ _ _ Hi h Hh) as [xs Hxs]. exists xs. by apply (exited_enabled s).
    - intros r e' He' Ha. apply Hin. destruct (Hback r e' He') as [e He]. destruct (exited_event s s' r e Hi Hx He) as (e2 & E2 & _ & K & _ & _ & N & Q).
      assert (e2 = e') as -> by congruence. rewrite K. destruct (decide (active e /\ ev_hartindex e = v_self v)) as [[A1 A2]|Hn].
      + by destruct (N A1 A2).
      + rewrite Q in Ha by done. split; [by apply (iv_dead _ _ _ Hi r)|tauto].
    - intros h [Hh _]%Hin. destruct (iv_hart _ _ _ Hi h Hh) as [R S]. split; [done|]. by apply (home_masked _ s).
    - intros h. rewrite X4. destruct (iv_fifo _ _ _ Hi h) as [|(N & F)]; [by left|right]. split; [|done]. intros [? _]%Hin. done. }
  split; [done|]. split; [done|]. intros h Hh Hne. destruct (iv_list _ _ _ Hi h Hh) as [xs Hxs].
  destruct (exited_enabled s s' h xs Hi Hx Hne Hxs) as [Hxs' Hsame].
  rewrite (stack_enabled _ _ _ _ _ Hi Hxs), (stack_enabled _ _ _ _ _ Hi' Hxs'). apply omap_ext_in. intros r Hr. unfold frame_of. by rewrite Hsame.
Qed.
End Exit.

(** ** A hart starts *)

Section Start.
Context (v : sse_env) (live : gset Z).
Context (Hok : harts_ok (v_sc v)) (Hdown : v_self v ∉ live).
Context (Hrange : 0 <= v_self v < sbi_scratch_hart_count (v_sc v)) (Hscratch : is_Some (sbi_hartindex_to_scratch (v_sc v) (v_self v))).

(** The invariant as it is just before the hart sets up its part: events may
    already prefer it. *)
Record starting (s : sse_state) : Prop := {
  st_infos : NoDup (info_id <$> supported_events s) /\ Forall (fun i => in_range 32 (info_id i)) (supported_events s) /\
    0 < Z.of_nat (length (supported_events s)) < 2 ^ 16;
  st_counts : local_event_count s = Z.of_nat (length (infos false s)) /\ global_event_count s = Z.of_nat (length (infos true s));
  st_shape : forall r e, event_at s r = Some e -> exists i, infos (ref_global r) s !! ref_index r = Some i /\ info_id i = ev_id e;
  st_full : forall h i, is_Some (hart_states s !! h) -> (i < length (infos false s))%nat -> is_Some (event_at s (RLocal h i));
  st_event : forall r e, event_at s r = Some e ->
    event_typed e /\ sse_event_is_global e = ref_global r /\ at_hartid (ev_attrs e) = hid (v_sc v) (ev_hartindex e) /\
    (forall h, ref_hart r = Some h -> ev_hartindex e = h) /\ (home_state (v_sc v) s (ev_hartindex e) \/ ev_hartindex e = v_self v);
  st_list : forall h, h ∈ live -> exists xs, enabled s h xs;
  st_dead : forall r e, event_at s r = Some e -> active e -> ev_hartindex e ∈ live;
  st_hart : forall h, h ∈ live -> 0 <= h < sbi_scratch_hart_count (v_sc v) /\ home_state (v_sc v) s h;
  st_fifo : forall h, fifo_ok (h ∈ live) (inject_fifo s h) }.

Lemma inv_starting s : sse_inv (v_sc v) live s -> starting s.
Proof.
  intros [I1 I2 I3 I4 I5 I6 I7 I8 I9]. split; try done. intros r e He. destruct (I5 r e He) as (T & G & H & L & S). split_and!; try done. by left.
Qed.

Lemma init_locals_lookup evs ifs i :
  length evs = length ifs -> init_locals v evs ifs !! i = (e ← evs !! i; info ← ifs !! i; Some (sse_event_init v e info)).
Proof.
  revert ifs i. induction evs as [|e evs IH]; intros [|x ifs] i Hl; try done. cbn [init_locals]. destruct i; [done|]. apply IH. cbn in Hl. lia.
Qed.

(** An event that is set up is well-typed and inactive. *)
Lemma event_init_ok e i :
  (event_typed e /\ ~ active e) \/ e = zero_event -> in_range 32 (info_id i) ->
  let e' := sse_event_init v e i in event_typed e' /\ ~ active e'.
Proof.
  intros He Hid. assert (in_range 32 (current_hartid v)) as Hc by (apply (ho_id _ Hok _ Hrange)).
  destruct He as [[T Hna]| ->].
  - assert (8 <= Z.lor (at_status (ev_attrs e)) (BIT SBI_SSE_ATTR_STATUS_INJECT_OFFSET) < 16 /\
      Z.land (Z.lor (at_status (ev_attrs e)) (BIT SBI_SSE_ATTR_STATUS_INJECT_OFFSET)) 3 = Z.land (at_status (ev_attrs e)) 3) as [Hs Hs'].
    { pose proof (status_cases _ (ty_status e T)) as Hst. repeat rewrite elem_of_cons in Hst. rewrite elem_of_nil in Hst.
      destruct Hst as [->|[->|[->|[->|[->|[->|[->|[->|[]]]]]]]]]; by vm_compute. }
    destruct T. split; [by split|]. unfold active, sse_event_state in *. cbn. by rewrite Hs'.
  - split; [|vm_compute; congruence]. split; cbn; try done; unfold in_range; try lia; try (split_and!; done || lia).
Qed.

(** The state of the hart: what it had, or new memory. *)
Lemma hart_alloc_ok ans s hs :
  starting s -> sse_hart_alloc v ans s = Some hs ->
  length (local_events hs) = length (infos false s) /\
  forall i e, local_events hs !! i = Some e -> (event_typed e /\ ~ active e) \/ e = zero_event.
Proof.
  intros Hs. unfold sse_hart_alloc. destruct (hart_states s !! v_self v) as [hs'|] eqn:Eh.
  - intros [= <-]. assert (forall i, event_at s (RLocal (v_self v) i) = local_events hs' !! i) as Hev by (intros i; cbn; by rewrite Eh). split.
    + apply Nat.le_antisymm.
      * destruct (Nat.le_gt_cases (length (local_events hs')) (length (infos false s))) as [|Hlt]; [done|].
        destruct (lookup_lt_is_Some_2 (local_events hs') _ Hlt) as [e He]. rewrite <- Hev in He.
        destruct (st_shape _ Hs _ _ He) as (i & Ei & _). apply lookup_lt_Some in Ei. cbn in Ei. lia.
      * destruct (Nat.le_gt_cases (length (infos false s)) (length (local_events hs'))) as [|Hlt]; [done|].
        destruct (st_full _ Hs (v_self v) (length (local_events hs')) (mk_is_Some _ _ Eh) Hlt) as [e He]. rewrite Hev in He.
        apply lookup_lt_Some in He. lia.
    + intros i e He. left. rewrite <- Hev in He. destruct (st_event _ Hs _ _ He) as (T & _ & _ & L & _). split; [done|]. intros Ha.
      apply (st_dead _ Hs _ _ He) in Ha. by rewrite (L _ eq_refl) in Ha.
  - destruct (negb _); [done|]. intros [= <-]. cbn. destruct (st_counts _ Hs) as [-> _]. rewrite length_replicate. split; [lia|].
    intros i e [-> _]%lookup_replicate. by right.
Qed.

(** The rest of sbi_sse_init. *)
Definition sse_hart_start (hs : sse_hart_state) (s : sse_state) : sse_state :=
  let s := sse_local_init v hs s in
  let n := u32 (global_event_count s + local_event_count s) in
  set_fifo (v_self v) (sbi_fifo_init (replicate (Z.to_nat (n * 4)) 0) (u16 n) 4) s.

Lemma start_event hs s r :
  length (local_events hs) = length (infos false s) ->
  event_at (sse_hart_start hs s) r =
    match r with
    | RLocal h i => if decide (h = v_self v) then e ← local_events hs !! i; info ← infos false s !! i; Some (sse_event_init v e info)
                    else event_at s r
    | RGlobal _ => event_at s r
    end.
Proof.
  intros Hl. destruct r as [i|h i]; [done|]. cbn. destruct (decide (h = v_self v)) as [->|].
  - rewrite lookup_insert_eq. cbn. by rewrite init_locals_lookup.
  - by rewrite lookup_insert_ne.
Qed.

Lemma start_other hs s r e :
  starting s -> length (local_events hs) = length (infos false s) -> event_at s r = Some e -> ev_hartindex e <> v_self v ->
  event_at (sse_hart_start hs s) r = Some e.
Proof.
  intros Hs Hl He Hne. rewrite start_event by done. destruct r as [i|h i]; [done|].
  destruct (st_event _ Hs _ _ He) as (_ & _ & _ & L & _). rewrite (L h eq_refl) in Hne. by rewrite decide_False.
Qed.

(** Every event of the new state was there before or is set up now. *)
Lemma start_back ans hs s r e :
  starting s -> sse_hart_alloc v ans s = Some hs -> event_at (sse_hart_start hs s) r = Some e ->
  (ref_hart r <> Some (v_self v) /\ event_at s r = Some e) \/
  (exists i info, r = RLocal (v_self v) i /\ infos false s !! i = Some info /\ ev_id e = info_id info /\
     at_hartid (ev_attrs e) = current_hartid v /\ ev_hartindex e = v_self v /\ event_typed e /\ ~ active e).
Proof.
  intros Hs Ha He. destruct (hart_alloc_ok ans s hs Hs Ha) as [Hl Hloc]. rewrite start_event in He by done. destruct r as [i|h i]; [by left|].
  destruct (decide (h = v_self v)) as [->|Hne]; [right|left; split; [cbn; congruence|done]].
  apply bind_Some in He as (e0 & E0 & He). apply bind_Some in He as (info & Ei & [= <-]). exists i, info.
  assert (in_range 32 (info_id info)) as Hid.
  { destruct (st_infos _ Hs) as (_ & Hr & _). rewrite Forall_forall in Hr. apply Hr. apply list_elem_of_lookup_2 in Ei.
    by apply list_elem_of_filter in Ei as [_ Ei]. }
  destruct (event_init_ok e0 info (Hloc i e0 E0) Hid) as [T Hna]. by split_and!.
Qed.

Lemma start_enabled hs s h xs :
  starting s -> length (local_events hs) = length (infos false s) -> h ∈ live -> enabled s h xs ->
  (forall r e, event_at (sse_hart_start hs s) r = Some e -> active e -> event_at s r = Some e) ->
  enabled (sse_hart_start hs s) h xs /\ forall r, r ∈ xs -> event_at (sse_hart_start hs s) r = event_at s r.
Proof.
  intros Hs Hl Hh [E1 E2 E3] Hact.
  assert (forall r, r ∈ xs -> event_at (sse_hart_start hs s) r = event_at s r) as Hsame.
  { intros r (e & He & Ha & Hhe)%E3. rewrite He. apply start_other; [done|done|done|]. rewrite Hhe. by intros ->. }
  split; [|done]. split.
  - apply dlist_init_other; [|done]. rewrite elem_of_cons. intros [[= <-]|(r & ? & _)%list_elem_of_fmap]; done.
  - by apply (sorted_same s).
  - intros r. split.
    + intros Hr. rewrite Hsame by done. by apply E3.
    + intros (e & He & Ha & Hhe). apply E3. exists e. split; [by apply Hact|done].
Qed.

Lemma start_fifo hs s : starting s -> exists n q, fifo_rel n 4 (inject_fifo (sse_hart_start hs s) (v_self v)) q.
Proof.
  intros Hs. destruct (st_infos _ Hs) as (_ & _ & Hn). destruct (st_counts _ Hs) as [Ec1 Ec2].
  assert (global_event_count s + local_event_count s = Z.of_nat (length (supported_events s))) as En.
  { rewrite Ec1, Ec2. unfold infos. clear. induction (supported_events s) as [|i l IH]; [done|]. rewrite !filter_cons.
    destruct (EVENT_IS_GLOBAL (info_id i)); cbn [length]; repeat (rewrite ?decide_True, ?decide_False by done); cbn [length]; lia. }
  exists (Z.of_nat (length (supported_events s))), []. cbn -[sbi_fifo_init]. rewrite fn_lookup_insert, En, !wrap_id by (unfold in_range; lia).
  apply fifo_init_rel; [lia|lia|]. rewrite length_replicate. lia.
Qed.

Section Started.
Context (ans : init_answers) (hs : sse_hart_state) (s : sse_state).
Context (Hs : starting s) (Halloc : sse_hart_alloc v ans s = Some hs).

Abbreviation s' := (sse_hart_start hs s).

Lemma start_active r e : event_at s' r = Some e -> active e -> event_at s r = Some e.
Proof.
  intros He Ha. by destruct (start_back ans hs s r e Hs Halloc He) as [[_ ?]|(? & ? & _ & _ & _ & _ & _ & _ & ?)].
Qed.

Lemma start_empty : enabled s' (v_self v) [].
Proof.
  split; [apply dlist_init|constructor|]. intros r. split; [by intros ?%elem_of_nil|]. intros (e & He & Ha & Hhe). exfalso. apply Hdown.
  rewrite <- Hhe. apply (st_dead _ Hs r e); [by apply start_active|done].
Qed.

Lemma start_home h : home_state (v_sc v) s h \/ h = v_self v -> home_state (v_sc v) s' h.
Proof.
  intros Hh. destruct (decide (h = v_self v)) as [->|Hne].
  - split; [done|]. cbn. rewrite lookup_insert_eq. eauto.
  - destruct Hh as [[H1 H2]|]; [|done]. split; [done|]. cbn. by rewrite lookup_insert_ne.
Qed.

Lemma start_event_ok r e : event_at s' r = Some e ->
  (exists i, infos (ref_global r) s !! ref_index r = Some i /\ info_id i = ev_id e) /\
  event_typed e /\ sse_event_is_global e = ref_global r /\ at_hartid (ev_attrs e) = hid (v_sc v) (ev_hartindex e) /\
  (forall h, ref_hart r = Some h -> ev_hartindex e = h) /\ home_state (v_sc v) s' (ev_hartindex e).
Proof.
  intros He. destruct (start_back ans hs s r e Hs Halloc He) as [[_ He']|(i & info & -> & Ei & Eid & Eh & Ex & T & _)].
  - destruct (st_event _ Hs r e He') as (T & G & H & L & S). split; [by apply (st_shape _ Hs)|]. split_and!; try done. by apply start_home.
  - split; [exists info; by rewrite Eid|]. split_and!; try done.
    + unfold sse_event_is_global. rewrite Eid. apply list_elem_of_lookup_2 in Ei. by apply list_elem_of_filter in Ei as [-> _].
    + rewrite Ex. exact Eh.
    + by intros h [= <-].
    + rewrite Ex. apply start_home. by right.
Qed.

Lemma start_inv : sse_inv (v_sc v) (live ∪ {[v_self v]}) s'.
Proof.
  destruct (hart_alloc_ok ans s hs Hs Halloc) as [Hl _].
  assert (forall h, h ∈ live ∪ {[v_self v]} <-> h ∈ live \/ h = v_self v) as Hin by (intros h; set_solver). split.
  - apply Hs.
  - apply (st_counts _ Hs).
  - intros r e He. by apply start_event_ok.
  - intros h i Hh Hlt. rewrite start_event by done. destruct (decide (h = v_self v)) as [->|Hne].
    + destruct (lookup_lt_is_Some_2 (infos false s) i Hlt) as [info ->].
      destruct (lookup_lt_is_Some_2 (local_events hs) i) as [e ->]; [by rewrite Hl|]. eauto.
    + apply (st_full _ Hs); [|done]. cbn in Hh. by rewrite lookup_insert_ne in Hh.
  - intros r e He. by apply start_event_ok.
  - intros h [Hh| ->]%Hin; [|exists []; apply start_empty]. destruct (st_list _ Hs h Hh) as [xs Hxs]. exists xs.
    apply (start_enabled hs s h xs); try done. apply start_active.
  - intros r e He Ha. apply Hin. left. apply (st_dead _ Hs r e); [by apply start_active|done].
  - intros h [Hh| ->]%Hin; [|split; [done|by apply start_home; right]]. destruct (st_hart _ Hs h Hh) as [R S]. split; [done|].
    apply start_home. by left.
  - intros h. destruct (decide (h = v_self v)) as [->|Hne]; [left; by apply start_fifo|]. cbn -[sbi_fifo_init].
    rewrite fn_lookup_insert_ne by done. destruct (st_fifo _ Hs h) as [|[N F]]; [by left|right]. split; [|done]. intros [|]%Hin; done.
Qed.

Lemma start_locks : locks [] s -> locks [] s'.
Proof.
  intros [L1 L2]. split; [exact L1|]. intros h hs'. cbn. destruct (decide (h = v_self v)) as [->|].
  - rewrite lookup_insert_eq. intros [= <-]. apply lock_free_is; [apply not_elem_of_nil|]. apply lock_free_init.
  - rewrite lookup_insert_ne by done. apply L2.
Qed.

Lemma start_stacks : stack s' (v_self v) = [] /\ forall h, h ∈ live -> stack s' h = stack s h.
Proof.
  split; [by rewrite (stack_enabled _ _ _ _ _ start_inv start_empty)|]. intros h Hh. destruct (st_list _ Hs h Hh) as [xs Hxs].
  destruct (start_enabled hs s h xs) as [Hxs' Hsame]; try done; [apply (hart_alloc_ok ans s hs Hs Halloc)|apply start_active|].
  rewrite (stack_enabled _ _ _ _ _ start_inv Hxs'), (stack_nodes s h xs Hxs) by exact (enabled_length _ _ _ _ _ start_inv Hxs').
  apply omap_ext_in. intros r Hr. unfold frame_of. by rewrite Hsame.
Qed.
End Started.
End Start.

(** The variables of the file before the cold boot, after drivers have added
    their events. *)
Inductive sse_registered : sse_state -> Prop :=
| registered_boot : sse_registered sse_boot
| registered_add event_id ops alloc_ok s :
    sse_registered s -> in_range 32 event_id -> sse_registered (sbi_sse_add_event event_id ops alloc_ok s).2.

Lemma registered_spec s :
  sse_registered s ->
  (NoDup (info_id <$> supported_events s) /\ Forall (fun i => in_range 32 (info_id i)) (supported_events s) /\ supported_events s <> []) /\
  local_event_count s = 0 /\ global_event_count s = 0 /\ global_events s = [] /\ hart_states s = ∅ /\ inject_fifo s = inject_fifo sse_boot.
Proof.
  induction 1 as [|event_id ops ok s Hs ((H1 & H2 & H3) & H4 & H5 & H6 & H7 & H8) Hid].
  - split_and!; try done; [|repeat constructor; done]. apply (bool_decide_unpack _). by vm_compute.
  - unfold sbi_sse_add_event. destruct (sse_event_info_get s event_id) as [i|] eqn:Ef; [by split_and!|].
    destruct (_ && _); [by split_and!|]. destruct (negb ok); [by split_and!|]. cbn. split_and!; try done; [|by constructor].
    apply NoDup_cons. split; [|done]. intros (i & Ei & Hi)%list_elem_of_fmap. apply list_elem_of_In in Hi.
    pose proof (find_none _ _ Ef i Hi) as Hn. cbn in Hn. lia.
Qed.

Section Boot.
Context (v : sse_env) (Hok : harts_ok (v_sc v)) (Hrange : 0 <= v_self v < sbi_scratch_hart_count (v_sc v)).

Lemma filter_length_le {A} (P : A -> Prop) `{forall x, Decision (P x)} (l : list A) : (length (filter P l) <= length l)%nat.
Proof. induction l as [|x l IH]; [done|]. rewrite filter_cons. destruct (decide (P x)); cbn; lia. Qed.

Lemma cold_starting ans s s' :
  sse_registered s -> Z.of_nat (length (supported_events s)) < 2 ^ 16 -> sse_cold_init v ans s = (0, s') -> starting v ∅ s' /\ locks [] s'.
Proof.
  intros Hs Hlen H. destruct (registered_spec s Hs) as ((Hnd & Hid & Hne) & E1 & E2 & E3 & E4 & E5).
  unfold sse_cold_init in H. destruct (negb (ans_globals ans)); [done|]. destruct (negb (ans_offsets ans)); [done|].
  assert (s' = sse_global_init v (sse_event_count_init s)) as ->.
  { destruct (ans_event ans <? 0) eqn:Ea; [|congruence]. injection H as H <-. lia. }
  assert (forall i e, event_at (sse_global_init v (sse_event_count_init s)) (RGlobal i) = Some e ->
    exists info, infos true s !! i = Some info /\ e = sse_event_init v zero_event info /\ in_range 32 (info_id info)) as Hev.
  { intros i e. cbn. rewrite list_lookup_fmap. destruct (filter _ _ !! i) as [info|] eqn:Ei; [|done]. intros [= <-]. exists info. split_and!; try done.
    rewrite Forall_forall in Hid. apply Hid. apply list_elem_of_lookup_2 in Ei. by apply list_elem_of_filter in Ei as [_ Ei]. }
  assert (forall h i, event_at (sse_global_init v (sse_event_count_init s)) (RLocal h i) = None) as Hloc by (intros h i; cbn; by rewrite E4).
  split; [split|].
  - split_and!; [done|done| |done]. cbn. destruct (supported_events s); [done|cbn; lia].
  - cbn. rewrite E1, E2. pose proof (filter_length_le (fun i => EVENT_IS_GLOBAL (info_id i) = false) (supported_events s)).
    pose proof (filter_length_le (fun i => EVENT_IS_GLOBAL (info_id i) = true) (supported_events s)). rewrite !wrap_id by (unfold in_range; lia). done.
  - intros [i|h i] e He; [|by rewrite Hloc in He]. destruct (Hev i e He) as (info & Ei & -> & _). by exists info.
  - intros h i [hs Hh] _. cbn in Hh. by rewrite E4 in Hh.
  - intros [i|h i] e He; [|by rewrite Hloc in He]. destruct (Hev i e He) as (info & Ei & -> & Hr).
    destruct (event_init_ok v Hok Hrange zero_event info (or_intror eq_refl) Hr) as [T _]. split_and!; try done; [|by right].
    apply list_elem_of_lookup_2 in Ei. by apply list_elem_of_filter in Ei as [Ei _].
  - intros h Hh. set_solver.
  - intros [i|h i] e He Ha; [|by rewrite Hloc in He]. destruct (Hev i e He) as (info & Ei & -> & Hr).
    by destruct (event_init_ok v Hok Hrange zero_event info (or_intror eq_refl) Hr) as [_ []].
  - intros h Hh. set_solver.
  - intros h. right. cbn. rewrite E5. split_and!; try done.
  - split; cbn.
    + intros i g Hg. rewrite list_lookup_fmap in Hg. destruct (filter _ _ !! i); [|done]. injection Hg as <-.
      apply lock_free_is; [apply not_elem_of_nil|apply lock_free_init].
    + intros h hs Hh. by rewrite E4 in Hh.
Qed.
End Boot.

(** ** The system *)

(** What happens on a hart: a call of the supervisor (funcid, arguments and its
    memory), an event from the firmware, the end of a trap, an IPI. *)
Inductive sse_op : Type :=
| Ecall (funcid a0 a1 a2 a3 a4 : Z) (m : longs)
| FwInject (event_id : Z)
| Process
| Ipi.

Definition run_op (v : sse_env) (o : sse_op) (k : sse_ctx) (s : sse_state) : option (Z * bool * sse_ctx * sse_state) :=
  match o with
  | Ecall funcid a0 a1 a2 a3 a4 m =>
      '(ret, skip, _, k, s) ← sbi_ecall_sse_handler v funcid a0 a1 a2 a3 a4 m m k s; Some (ret, skip, k, s)
  | FwInject event_id => '(ret, s) ← sbi_sse_inject_event v event_id s; Some (ret, false, k, s)
  | Process => '(k, s) ← sbi_sse_process_pending_events v k s; Some (0, false, k, s)
  | Ipi => s ← sse_ipi_inject_process v s; Some (0, false, k, s)
  end.

(** What a hart finds: it is up, harts that have started are up, and its domain
    has valid regions, none of which ends at the very top of the address space. *)
Record env_ok (sc : scratch_state) (live : gset Z) (v : sse_env) : Prop := {
  eo_sc : v_sc v = sc;
  eo_self : v_self v ∈ live;
  eo_started : forall h, sbi_hsm_hart_state (v_sc v) (v_hsm v) h = SBI_HSM_STATE_STARTED -> h ∈ live;
  eo_domain : forall d, v_dom v = Some d -> Forall valid (default [] (regions d)) /\ Forall top_free (default [] (regions d)) }.

(** Registers and memory hold 64-bit words, and the supervisor keeps to its
    rules. *)
Definition allowed (v : sse_env) (live : gset Z) (o : sse_op) (k : sse_ctx) (s : sse_state) : Prop :=
  match o with
  | Ecall funcid a0 a1 a2 a3 a4 m =>
      Forall (in_range 64) [a0; a1; a2; a3; a4] /\ (forall a, in_range 64 (m a)) /\
      (funcid = 1 -> forall i, u32 a1 + Z.of_nat i = SBI_SSE_ATTR_PREFERRED_HART -> in_range 32 (m (long_at a3 i))) /\
      (funcid = 4 -> forall r e, sees v r -> event_at s r = Some e -> ev_id e = u32 a0 -> ev_hartindex e ∈ live)
  | Process => ctx_typed k
  | FwInject _ | Ipi => True
  end.

(** What an operation may do to the context and to the stack of a hart: only the
    end of a trap enters a handler, only the call of a handler that is done
    leaves one, and a handler may edit what it will return to. *)
Definition effect (v : sse_env) (o : sse_op) (k : sse_ctx) (s : sse_state) (ret : Z) (skip : bool) (k' : sse_ctx) : stack_change :=
  fun h st st' =>
  match o with
  | Process => own v (delivered v s k k') h st st'
  | Ecall funcid _ _ _ _ _ _ =>
      if funcid =? 6 then own v (completed v k k' ret skip) h st st'
      else k' = k /\ (if funcid =? 1 then edits v h st st' else st' = st)
  | FwInject _ | Ipi => k' = k /\ st' = st
  end.

(** The states a machine reaches, with the harts that are up. *)
Inductive sse_reachable (sc : scratch_state) : gset Z -> sse_state -> Prop :=
| reach_boot v ans s s' :
    v_sc v = sc -> 0 <= v_self v < sbi_scratch_hart_count sc -> is_Some (sbi_hartindex_to_scratch sc (v_self v)) ->
    sse_registered s -> Z.of_nat (length (supported_events s)) < 2 ^ 16 -> sbi_sse_init v true ans s = (0, s') ->
    sse_reachable sc {[v_self v]} s'
| reach_start v ans live s ret s' :
    sse_reachable sc live s -> v_sc v = sc -> 0 <= v_self v < sbi_scratch_hart_count sc ->
    is_Some (sbi_hartindex_to_scratch sc (v_self v)) -> v_self v ∉ live -> sbi_sse_init v false ans s = (ret, s') ->
    sse_reachable sc (if ret =? 0 then live ∪ {[v_self v]} else live) s'
| reach_call v o k live s ret skip k' s' :
    sse_reachable sc live s -> env_ok sc live v -> allowed v live o k s -> run_op v o k s = Some (ret, skip, k', s') ->
    sse_reachable sc live s'
| reach_stop v live s s' :
    sse_reachable sc live s -> env_ok sc live v -> sbi_sse_exit v s = Some s' -> sse_reachable sc (live ∖ {[v_self v]}) s'.

Lemma good_imp (R R' : stack_change) sc live s s' :
  (forall h st st', R h st st' -> R' h st st') -> good R sc [] live s s' -> good R' sc [] live s s'.
Proof. intros HR [G1 G2 G3 G4]. split; auto. Qed.

Section Ops.
Context (v : sse_env) (live : gset Z) (Hok : harts_ok (v_sc v)) (Hv : env_ok (v_sc v) live v).

Lemma domain_check_returns addr size access :
  in_range 64 addr -> sbi_domain_check_addr_range (v_dom v) addr size PRV_S access <> None.
Proof.
  intros Ha. unfold sbi_domain_check_addr_range. destruct (v_dom v) as [d|] eqn:Ed; [|done]. destruct (eo_domain _ _ _ Hv d Ed) as [Hva Ht].
  unfold check_addr_range, check_addr_range_fuel. destruct (_ && _); [done|].
  destruct (check_range_loop_spec (default [] (regions d)) (u64 (addr + size)) PRV_S access (range_fuel (default [] (regions d))) addr)
    as (b & -> & _); try done; [apply Ha|by apply wrap_range|]. unfold range_fuel. pose proof (above_bound (default [] (regions d)) addr). lia.
Qed.

Lemma attr_check_returns base count lo hi access : in_range 64 lo -> sbi_sse_attr_check v base count lo hi access <> None.
Proof.
  intros Hlo. unfold sbi_sse_attr_check. repeat (case_match; [done|]).
  destruct (sbi_domain_check_addr_range _ _ _ _ _) eqn:E; [done|]. exfalso. revert E. by apply domain_check_returns.
Qed.

(** The calls that leave the stacks alone. *)
Lemma plain_ok funcid a0 a1 a2 a3 a4 m k s :
  sse_inv (v_sc v) live s -> locks [] s -> allowed v live (Ecall funcid a0 a1 a2 a3 a4 m) k s -> funcid <> 6 -> funcid <> 1 ->
  exists ret m' s', sbi_ecall_sse_handler v funcid a0 a1 a2 a3 a4 m m k s = Some (ret, false, m', k, s') /\ good keep (v_sc v) [] live s s'.
Proof.
  intros Hi HL (Hr & Hm & _ & Hen) N6 N1. repeat (apply Forall_cons in Hr as [? Hr]). pose proof (eo_self _ _ _ Hv) as Hself.
  unfold sbi_ecall_sse_handler. cbv zeta.
  assert (forall (r : option (Z * sse_state)) (m2 : longs), (exists ret s', r = Some (ret, s') /\ good keep (v_sc v) [] live s s') ->
    exists ret m' s', ('(ret, s) ← r; Some (ret, false, m2, k, s)) = Some (ret, false, m', k, s') /\ good keep (v_sc v) [] live s s') as Hplain.
  { intros r m2 (ret & s' & -> & Hg). by exists ret, m2, s'. }
  assert (exists ret s', Some (SBI_ENOTSUPP, s) = Some (ret, s') /\ good keep (v_sc v) [] live s s') as Hsame.
  { eexists _, _. split; [done|]. by apply good_view. }
  destruct (Z.eqb_spec funcid 0) as [->|].
  { destruct (read_attrs_ok v live Hself (u32 a0) (u32 a1) (u32 a2) a3 a4 m s Hi HL) as (ret & m' & s' & -> & Hg); [by apply attr_check_returns|].
    by exists ret, m', s'. }
  destruct (Z.eqb_spec funcid 1); [done|].
  destruct (Z.eqb_spec funcid 2).
  { apply Hplain, sbi_sse_register_ok; try done. by apply domain_check_returns. }
  destruct (Z.eqb_spec funcid 3); [by apply Hplain, sbi_sse_unregister_ok|].
  destruct (Z.eqb_spec funcid 4); [apply Hplain, sbi_sse_enable_ok; try done; by apply Hen|].
  destruct (Z.eqb_spec funcid 5); [by apply Hplain, sbi_sse_disable_ok|].
  destruct (Z.eqb_spec funcid 6); [done|].
  destruct (Z.eqb_spec funcid 7).
  { apply Hplain. unfold sbi_sse_inject_from_ecall. destruct (negb _); [|by apply inject_event_ok].
    eexists _, _. split; [done|]. by apply good_view. }
  destruct (Z.eqb_spec funcid 9).
  { apply Hplain. destruct (sbi_sse_hart_mask_ok v live Hself s Hi HL) as (ret & s' & -> & Hg). eauto. }
  destruct (Z.eqb_spec funcid 8).
  { apply Hplain. destruct (sbi_sse_hart_unmask_ok v live Hself s Hi HL) as (ret & s' & -> & Hg). eauto. }
  by apply Hplain.
Qed.

Lemma run_op_ok o k s :
  sse_inv (v_sc v) live s -> locks [] s -> allowed v live o k s ->
  exists ret skip k' s', run_op v o k s = Some (ret, skip, k', s') /\ good (effect v o k s ret skip k') (v_sc v) [] live s s'.
Proof.
  intros Hi HL Ha. pose proof (eo_self _ _ _ Hv) as Hself. pose proof (eo_started _ _ _ Hv) as Hst.
  assert (forall (R : stack_change) s', good keep (v_sc v) [] live s s' -> (forall h st, R h st st) -> good R (v_sc v) [] live s s') as Hkeep.
  { intros R s' Hg HR. apply (good_imp keep R); [|done]. intros h st st' ->. apply HR. }
  destruct o as [funcid a0 a1 a2 a3 a4 m|event_id| |]; cbn [run_op] in *.
  - destruct (decide (funcid = 6)) as [->|N6]; [|destruct (decide (funcid = 1)) as [->|N1]].
    + destruct (complete_ok v live Hok Hself Hst k s Hi HL) as (ret & skip & k' & s' & E & Hg). unfold sbi_ecall_sse_handler. cbn -[sbi_sse_complete].
      rewrite E. cbn. do 4 eexists. by split.
    + destruct Ha as (Hr & Hm & Hw & _). repeat (apply Forall_cons in Hr as [? Hr]).
      destruct (write_attrs_ok v live Hok Hself Hst (u32 a0) (u32 a1) (u32 a2) a3 a4 m s Hi HL) as (ret & s' & E & Hg);
        [by apply attr_check_returns|done|by apply Hw|]. unfold sbi_ecall_sse_handler. cbn -[sbi_sse_write_attrs].
      rewrite E. cbn. do 4 eexists. split; [done|]. by apply (good_imp (edits v)).
    + destruct (plain_ok funcid a0 a1 a2 a3 a4 m k s Hi HL Ha N6 N1) as (ret & m' & s' & E & Hg). rewrite E. cbn. do 4 eexists. split; [done|].
      apply Hkeep; [done|]. intros h st. cbn. rewrite (proj2 (Z.eqb_neq funcid 6)), (proj2 (Z.eqb_neq funcid 1)) by done. done.
  - destruct (inject_event_ok v live Hself event_id (current_hartid v) s Hi HL) as (ret & s' & E & Hg).
    unfold sbi_sse_inject_event. rewrite E. cbn. do 4 eexists. split; [done|]. by apply Hkeep.
  - destruct (process_ok v live Hok Hself Hst k s Hi HL Ha) as (k' & s' & E & Hg). rewrite E. cbn. do 4 eexists. by split.
  - destruct (inject_process_ok v live Hself s Hi HL) as (s' & E & Hg). rewrite E. cbn. do 4 eexists. split; [done|]. by apply Hkeep.
Qed.
End Ops.

Lemma reachable_inv sc live s : harts_ok sc -> sse_reachable sc live s -> sse_inv sc live s /\ locks [] s.
Proof.
  intros Hok. induction 1 as [v ans s s' <- Hr Hsc Hs Hlen H|v ans live s ret s' _ [Hi HL] <- Hr Hsc Hd H|v o k live s ret skip k' s' _ [Hi HL] Hv Ha H|v live s s' _ [Hi HL] Hv H].
  - unfold sbi_sse_init in H. destruct (sse_cold_init v ans s) as [r s1] eqn:Ec. destruct (truthy r) eqn:Et; [unfold truthy in Et; simplify_eq|].
    assert (r = 0) as -> by (unfold truthy in Et; lia). destruct (cold_starting v Hok Hr ans s s1 Hs Hlen Ec) as [Hst HL].
    destruct (sse_hart_alloc v ans s1) as [hs|] eqn:Ea; [|done]. injection H as <-.
    rewrite <- (union_empty_l_L {[v_self v]}). split; [by apply (start_inv v ∅ Hok ltac:(set_solver) Hr Hsc ans)|by apply start_locks].
  - unfold sbi_sse_init in H. cbn in H. destruct (sse_hart_alloc v ans s) as [hs|] eqn:Ea; simplify_eq; [|done].
    split; [|by apply start_locks]. apply (start_inv v live Hok Hd Hr Hsc ans); [by apply inv_starting|done].
  - pose proof (eo_sc _ _ _ Hv) as <-. destruct (run_op_ok v live Hok Hv o k s Hi HL Ha) as (? & ? & ? & ? & E & [G1 G2 _ _]).
    rewrite H in E. by simplify_eq.
  - pose proof (eo_sc _ _ _ Hv) as <-. destruct (exit_ok v live Hok (eo_self _ _ _ Hv) s Hi HL) as (s2 & E & Hi2 & HL2 & _). rewrite H in E. by simplify_eq.
Qed.

(** ** The theorems *)

(** C7: the handlers of software events on a hart form a stack, in
    every state the machine reaches.  Every call returns and leaves the stacks of
    all other harts alone.  The end of a trap may put one handler on top, with the
    interrupted context saved: that of the event that goes before all other events
    that are ready and before all handlers that run; if it enters none, events are
    masked or every event that is ready has to wait for a handler.  The call of a
    handler that is done takes the top off and resumes what was saved there.  A
    write of attributes may edit what the handlers of the calling hart return to.
    All other calls change neither the stacks nor the trap context. *)
Theorem handlers_nest sc live s v o k :
  harts_ok sc -> sse_reachable sc live s -> env_ok sc live v -> allowed v live o k s ->
  exists ret skip k' s', run_op v o k s = Some (ret, skip, k', s') /\
    forall h, h ∈ live -> effect v o k s ret skip k' h (stack s h) (stack s' h).
Proof.
  intros Hok Hr Hv Ha. destruct (reachable_inv sc live s Hok Hr) as [Hi HL]. pose proof (eo_sc _ _ _ Hv) as <-.
  destruct (run_op_ok v live Hok Hv o k s Hi HL Ha) as (ret & skip & k' & s' & E & Hg). exists ret, skip, k', s'. split; [done|apply Hg].
Qed.

(** C15: in every state the machine reaches all locks are free, and
    the list of enabled events of each hart that is up is a well-formed doubly
    linked list of exactly those events that prefer the hart and are enabled or
    running, by priority and then by id. *)
Theorem enabled_lists_exact sc live s :
  harts_ok sc -> sse_reachable sc live s -> locks [] s /\ forall h, h ∈ live -> exists xs, enabled s h xs.
Proof. intros Hok Hr. destruct (reachable_inv sc live s Hok Hr) as [Hi HL]. split; [done|]. apply (iv_list _ _ _ Hi). Qed.

(** C16: the attributes of every event keep to the types the interface
    documents: status bits, a priority and a hart id of 32 bits, the one-shot bit,
    an even entry point, six flags; the preferred hart is one that has
    initialised, and an event that is enabled or running prefers a hart that is
    up. *)
Theorem attributes_typed sc live s r e :
  harts_ok sc -> sse_reachable sc live s -> event_at s r = Some e ->
  event_typed e /\ at_hartid (ev_attrs e) = hid sc (ev_hartindex e) /\ home_state sc s (ev_hartindex e) /\
  (active e -> ev_hartindex e ∈ live).
Proof.
  intros Hok Hr He. destruct (reachable_inv sc live s Hok Hr) as [Hi _]. destruct (iv_event _ _ _ Hi r e He) as (T & _ & H & _ & S).
  split_and!; try done. by apply (iv_dead _ _ _ Hi r).
Qed.

(** C30: a hart that stops or starts does not disturb the others:
    sbi_sse_exit returns, sbi_sse_init fails only for want of memory and then
    changes nothing, a hart that has started has no handlers, and the handlers of
    all other harts are as they were. *)
Theorem harts_come_and_go sc live s v :
  harts_ok sc -> sse_reachable sc live s -> v_sc v = sc -> 0 <= v_self v < sbi_scratch_hart_count sc ->
  is_Some (sbi_hartindex_to_scratch sc (v_self v)) ->
  if decide (v_self v ∈ live) then
    exists s', sbi_sse_exit v s = Some s' /\ forall h, h ∈ live -> h <> v_self v -> stack s' h = stack s h
  else
    forall ans, let '(ret, s') := sbi_sse_init v false ans s in
    if ans_shs ans || bool_decide (is_Some (hart_states s !! v_self v))
    then ret = 0 /\ stack s' (v_self v) = [] /\ forall h, h ∈ live -> stack s' h = stack s h
    else ret = SBI_ENOMEM /\ s' = s.
Proof.
  intros Hok Hr Esc Hrange Hscratch. destruct (reachable_inv sc live s Hok Hr) as [Hi HL]. subst sc. destruct (decide _) as [Hin|Hout].
  - destruct (exit_ok v live Hok Hin s Hi HL) as (s' & E & _ & _ & Hst). eauto.
  - intros ans. unfold sbi_sse_init. cbn. destruct (sse_hart_alloc v ans s) as [hs|] eqn:Ea.
    + assert (ans_shs ans || bool_decide (is_Some (hart_states s !! v_self v)) = true) as ->.
      { unfold sse_hart_alloc in Ea. destruct (hart_states s !! v_self v); [by rewrite orb_true_r|]. by destruct (ans_shs ans). }
      split; [done|]. apply (start_stacks v live Hok Hout Hrange Hscratch ans hs s (inv_starting v live s Hi) Ea).
    + unfold sse_hart_alloc in Ea. destruct (hart_states s !! v_self v); [done|]. by destruct (ans_shs ans).
Qed.

(** ** Examples *)

Section Runs.
Context (v : sse_env) (live : gset Z) (k : sse_ctx).

Fixpoint run_ops (ops : list sse_op) (s : sse_state) : option sse_state :=
  match ops with [] => Some s | o :: ops => '(_, _, _, s) ← run_op v o k s; run_ops ops s end.

Lemma run_ops_reach ops s :
  harts_ok (v_sc v) -> env_ok (v_sc v) live v -> sse_reachable (v_sc v) live s ->
  Forall (fun o => forall s, sse_reachable (v_sc v) live s -> allowed v live o k s) ops ->
  exists s', run_ops ops s = Some s' /\ sse_reachable (v_sc v) live s'.
Proof.
  intros Hok Hv Hr Ha. revert s Hr. induction Ha as [|o ops Ho Hops IH]; intros s Hr; [by exists s|].
  destruct (reachable_inv _ _ _ Hok Hr) as [Hi HL].
  destruct (run_op_ok v live Hok Hv o k s Hi HL (Ho s Hr)) as (ret & skip & k' & s1 & E & _). cbn [run_ops]. rewrite E. cbn [mbind option_bind].
  apply IH. by eapply reach_call; eauto.
Qed.

(** Local events may be enabled at any time. *)
Lemma local_home s r e event_id :
  harts_ok (v_sc v) -> sse_reachable (v_sc v) live s -> v_self v ∈ live -> EVENT_IS_GLOBAL event_id = false ->
  sees v r -> event_at s r = Some e -> ev_id e = event_id -> ev_hartindex e ∈ live.
Proof.
  intros Hok Hr Hself Hg Hsee He Hid. destruct (reachable_inv _ _ _ Hok Hr) as [Hi _]. destruct (iv_event _ _ _ Hi r e He) as (_ & G & _ & L & _).
  unfold sse_event_is_global in G. rewrite Hid, Hg in G. destruct r as [i|h i]; [done|]. cbn in Hsee. subst h. by rewrite (L _ eq_refl).
Qed.
(** The same when all global events prefer harts that are up. *)
Lemma global_home s r e :
  harts_ok (v_sc v) -> sse_reachable (v_sc v) live s -> v_self v ∈ live ->
  Forall (fun g => ev_hartindex (ge_event g) ∈ live) (global_events s) ->
  sees v r -> event_at s r = Some e -> ev_hartindex e ∈ live.
Proof.
  intros Hok Hr Hself Hg Hsee He. destruct (reachable_inv _ _ _ Hok Hr) as [Hi _]. destruct (iv_event _ _ _ Hi r e He) as (_ & _ & _ & L & _).
  destruct r as [i|h i]; [|cbn in Hsee; subst h; by rewrite (L _ eq_refl)].
  cbn in He. destruct (global_events s !! i) as [g|] eqn:Eg; [|done]. injection He as <-. rewrite Forall_forall in Hg.
  by apply Hg, (list_elem_of_lookup_2 _ i).
Qed.
End Runs.

(** Three harts, of which hart 0 boots. *)
Definition sse_scratch : scratch_state := sbi_scratch_init plat_example scratch_boot.
Definition sse_domain : sbi_domain :=
  mkDomain 0 (mkHartmask [7; 0]) SPIN_LOCK_UNLOCKED (Some (mkHartmask [7; 0])) (Some regs_example) 4 0 0x80200000 1 true true true.
Definition sse_env_at (started : Z -> bool) (h : Z) : sse_env :=
  mkEnv isa_example sse_scratch (fun i => hart_example (if started i then SBI_HSM_STATE_STARTED else SBI_HSM_STATE_STOPPED))
    (Some sse_domain) h (fun _ => 0).
Definition hart0 : sse_env := sse_env_at (Z.eqb 0) 0.
Definition sse_ctx_example : sse_ctx := mkCtx (mkRegs 0x80201000 0x80) 6 7 (cpu_example 0x80 0).
Definition enough : init_answers := mkAns true true 0 true.
Definition booted : sse_state := (sbi_sse_init hart0 true enough sse_boot).2.

Lemma sse_harts_ok : harts_ok sse_scratch.
Proof.
  split; [vm_compute; split; congruence|]. intros h Hh. change (sbi_scratch_hart_count sse_scratch) with 3 in Hh.
  assert (h = 0 \/ h = 1 \/ h = 2) as [-> | [-> | ->]] by lia; vm_compute; (split; [split; congruence|done]).
Qed.

Lemma hart0_ok : env_ok sse_scratch {[0]} hart0.
Proof.
  split; [done|set_solver| |].
  - intros h. unfold sbi_hsm_hart_state. cbn [hart0 sse_env_at v_sc v_hsm]. destruct (sbi_hartindex_to_scratch _ _); [|done].
    destruct (Z.eqb_spec 0 h) as [<-|]; [set_solver|done].
  - intros d [= <-]. split; repeat constructor; vm_compute; congruence.
Qed.

Lemma booted_reach : sse_reachable sse_scratch {[0]} booted.
Proof.
  apply (reach_boot sse_scratch hart0 enough sse_boot booted); [done|vm_compute; split; congruence|vm_compute; eauto|constructor|done|].
  unfold booted. rewrite (surjective_pairing (sbi_sse_init _ _ _ _)) at 1. f_equal.
Qed.

(** Register the local software event, enable it, unmask events, inject it. *)
Definition ops_example : list sse_op :=
  let m := fun _ => 0 in
  [Ecall 2 0xffff0000 0x80200100 5 0 0 m; Ecall 4 0xffff0000 0 0 0 0 m; Ecall 8 0 0 0 0 0 m; FwInject 0xffff0000].

Lemma ops_example_reach : exists s, run_ops hart0 sse_ctx_example ops_example booted = Some s /\ sse_reachable sse_scratch {[0]} s.
Proof.
  apply (run_ops_reach hart0 {[0]} sse_ctx_example ops_example booted sse_harts_ok hart0_ok booted_reach).
  repeat (apply Forall_cons_2); [..|by apply Forall_nil_2]; intros s Hr; cbn [allowed]; try done;
    (split_and!; [repeat (apply Forall_cons_2; [unfold in_range; lia|]); by apply Forall_nil_2|intros _; unfold in_range; lia|done|]); try done.
  intros _ r e. apply (local_home hart0 {[0]} s r e); [apply sse_harts_ok|done|set_solver|done].
Qed.

Lemma handlers_nest_witness :
  exists s ret skip k' s', run_ops hart0 sse_ctx_example ops_example booted = Some s /\
    run_op hart0 Process sse_ctx_example s = Some (ret, skip, k', s') /\ stack s 0 = [] /\ f_event <$> stack s' 0 = [RLocal 0 0] /\
    forall h, h ∈ ({[0]} : gset Z) -> effect hart0 Process sse_ctx_example s ret skip k' h (stack s h) (stack s' h).
Proof.
  destruct ops_example_reach as (s & Es & Hr). exists s.
  destruct (handlers_nest sse_scratch {[0]} s hart0 Process sse_ctx_example sse_harts_ok Hr hart0_ok) as (ret & skip & k' & s' & E & Hst).
  { split; vm_compute; split; congruence. }
  exists ret, skip, k', s'. split; [exact Es|]. split; [exact E|].
  assert ((s ← run_ops hart0 sse_ctx_example ops_example booted; '(_, _, _, s') ← run_op hart0 Process sse_ctx_example s;
    Some (stack s 0, f_event <$> stack s' 0)) = Some ([], [RLocal 0 0])) as Hc by (vm_compute; reflexivity).
  rewrite Es in Hc. cbn [mbind option_bind] in Hc. rewrite E in Hc. cbn [mbind option_bind] in Hc. injection Hc as H1 H2.
  split; [exact H1|]. split; [exact H2|exact Hst].
Defined.

Lemma enabled_lists_exact_witness :
  exists s, run_ops hart0 sse_ctx_example ops_example booted = Some s /\ locks [] s /\ forall h, h ∈ ({[0]} : gset Z) -> exists xs, enabled s h xs.
Proof.
  destruct ops_example_reach as (s & Es & Hr). exists s. split; [exact Es|]. exact (enabled_lists_exact sse_scratch {[0]} s sse_harts_ok Hr).
Defined.

Lemma attributes_typed_witness :
  exists s e, run_ops hart0 sse_ctx_example ops_example booted = Some s /\ event_at s (RLocal 0 0) = Some e /\ at_status (ev_attrs e) = 0xe /\
    event_typed e /\ at_hartid (ev_attrs e) = hid sse_scratch (ev_hartindex e) /\ home_state sse_scratch s (ev_hartindex e) /\
    (active e -> ev_hartindex e ∈ ({[0]} : gset Z)).
Proof.
  destruct ops_example_reach as (s & Es & Hr). exists s.
  assert ((s ← run_ops hart0 sse_ctx_example ops_example booted; e ← event_at s (RLocal 0 0); Some (at_status (ev_attrs e))) = Some 0xe) as Hc
    by (vm_compute; reflexivity).
  rewrite Es in Hc. cbn [mbind option_bind] in Hc. destruct (event_at s (RLocal 0 0)) as [e|] eqn:He; [|discriminate Hc].
  cbn [mbind option_bind] in Hc. injection Hc as Hc. exists e. split; [exact Es|]. split; [reflexivity|]. split; [exact Hc|].
  exact (attributes_typed sse_scratch {[0]} s (RLocal 0 0) e sse_harts_ok Hr He).
Defined.

Lemma harts_come_and_go_witness :
  exists s, run_ops hart0 sse_ctx_example ops_example booted = Some s /\ (exists s', sbi_sse_exit hart0 s = Some s') /\
    (sbi_sse_init (sse_env_at (Z.eqb 0) 1) false enough s).1 = 0.
Proof.
  destruct ops_example_reach as (s & Es & Hr). exists s. split; [exact Es|]. split.
  - assert (0 <= v_self hart0 < sbi_scratch_hart_count sse_scratch) as Hrange by (vm_compute; split; congruence).
    pose proof (harts_come_and_go sse_scratch {[0]} s hart0 sse_harts_ok Hr eq_refl Hrange ltac:(vm_compute; eauto)) as H.
    destruct (decide _) as [Hin|Hout]; [|destruct Hout; set_solver]. destruct H as (s' & E & _). exists s'. exact E.
  - assert (0 <= v_self (sse_env_at (Z.eqb 0) 1) < sbi_scratch_hart_count sse_scratch) as Hrange by (vm_compute; split; congruence).
    pose proof (harts_come_and_go sse_scratch {[0]} s (sse_env_at (Z.eqb 0) 1) sse_harts_ok Hr eq_refl Hrange ltac:(vm_compute; eauto)) as H.
    destruct (decide _) as [Hin|Hout]; [apply elem_of_singleton in Hin; discriminate Hin|]. specialize (H enough).
    destruct (sbi_sse_init _ _ _ _) as [ret s']. exact (proj1 H).
Defined.

(** ** Where the rules are needed *)

Definition up (h : Z) : sse_env := sse_env_at (fun _ => true) h.

(** Hart 1 boots, hart 0 starts, hart 1 enables a global event and stops. *)
Definition after_exit : option sse_state :=
  let s := (sbi_sse_add_event SBI_SSE_EVENT_GLOBAL_HIGH_PRIO_RAS (fun _ => false) true sse_boot).2 in
  let s := (sbi_sse_init (up 1) true enough s).2 in
  let s := (sbi_sse_init (up 0) false enough s).2 in
  '(_, s) ← sbi_sse_register (up 1) SBI_SSE_EVENT_GLOBAL_HIGH_PRIO_RAS 0x80200100 0 s;
  '(_, s) ← sbi_sse_enable (up 1) SBI_SSE_EVENT_GLOBAL_HIGH_PRIO_RAS s;
  sbi_sse_exit (up 1) s.

(** Whether event [r] goes before the event at a node. *)
Definition node_after (s : sse_state) (r : event_ref) (n : sse_node) : bool :=
  match n with NEvent x => event_has s (fun tmp => event_has s (fun e => goes_before e tmp) r) x | _ => true end.

(** A run of the calls: the event that hart 1 left in its list is registered and
    enabled again by hart 0, and the call that enables the next event never
    returns. *)
Example enable_after_exit_run :
  exists s1 s2 s3 s4, after_exit = Some s1 /\
    sbi_sse_register (up 0) SBI_SSE_EVENT_GLOBAL_HIGH_PRIO_RAS 0x80200100 0 s1 = Some (0, s2) /\
    sbi_sse_enable (up 0) SBI_SSE_EVENT_GLOBAL_HIGH_PRIO_RAS s2 = Some (0, s3) /\
    lnext (links s3) (NEvent (RGlobal 0)) = NEvent (RGlobal 0) /\
    sbi_sse_register (up 0) SBI_SSE_EVENT_GLOBAL_SOFTWARE 0x80200100 0 s3 = Some (0, s4) /\
    (forall fuel, sbi_list_for_each fuel (links s4) (NHead 1) (node_after s4 (RGlobal 1)) = None) /\
    sbi_sse_enable (up 0) SBI_SSE_EVENT_GLOBAL_SOFTWARE s4 = None.
Proof.
  set (reg := fun id => sbi_sse_register (up 0) id 0x80200100 0). set (en := sbi_sse_enable (up 0)).
  assert ((s1 ← after_exit; '(r2, s2) ← reg SBI_SSE_EVENT_GLOBAL_HIGH_PRIO_RAS s1; '(r3, s3) ← en SBI_SSE_EVENT_GLOBAL_HIGH_PRIO_RAS s2;
    '(r4, s4) ← reg SBI_SSE_EVENT_GLOBAL_SOFTWARE s3;
    Some (r2, r3, r4, lnext (links s3) (NEvent (RGlobal 0)), lnext (links s4) (NHead 1), lnext (links s4) (NEvent (RGlobal 0)),
      node_after s4 (RGlobal 1) (NEvent (RGlobal 0)), match en SBI_SSE_EVENT_GLOBAL_SOFTWARE s4 with None => true | _ => false end)) =
    Some (0, 0, 0, NEvent (RGlobal 0), NEvent (RGlobal 0), NEvent (RGlobal 0), false, true)) as H by (vm_compute; reflexivity).
  destruct after_exit as [s1|]; [|done]. cbn [mbind option_bind] in H. exists s1.
  destruct (reg _ s1) as [[r2 s2]|] eqn:E2; [|done]. cbn [mbind option_bind] in H. exists s2.
  destruct (en _ s2) as [[r3 s3]|] eqn:E3; [|done]. cbn [mbind option_bind] in H. exists s3.
  destruct (reg _ s3) as [[r4 s4]|] eqn:E4; [|done]. cbn [mbind option_bind] in H. exists s4.
  destruct (en _ s4) eqn:E5; [by injection H|]. injection H as -> -> -> H1 H2 H3 H4. do 5 (split; [done|]). split; [|done].
  intros fuel. unfold sbi_list_for_each. rewrite H2. by apply for_each_loops.
Qed.

(** *** Enabling an event that is still in a list *)

Lemma goes_before_asym e1 e2 : goes_before e1 e2 = true -> goes_before e2 e1 = false.
Proof. unfold goes_before. lia. Qed.

Lemma find_skip {A} (p : A -> bool) (l l' : list A) :
  Forall (fun x => p x = false) l -> (forall x, hd_error l' = Some x -> p x = true) -> find p (l ++ l') = hd_error l'.
Proof.
  intros Hl Hp. induction Hl as [|x l Hx Hl IH]; cbn; [|by rewrite Hx].
  destruct l' as [|y l']; [done|]. cbn. by rewrite (Hp y).
Qed.

(** A list in order, with a registered event [r] in it that is not meant to be. *)
Record lingering (w : sse_env) (s : sse_state) (r : event_ref) (e : sbi_sse_event) (pre post : list event_ref) : Prop := {
  lg_event : event_at s r = Some e;
  lg_state : sse_event_state e = SBI_SSE_STATE_REGISTERED;
  lg_list : dlist (links s) (NHead (ev_hartindex e)) (NEvent <$> pre ++ r :: post);
  lg_sorted : StronglySorted (before s) (pre ++ r :: post);
  lg_fuel : (length (pre ++ r :: post) <= walk_fuel s)%nat;
  lg_home : is_Some (sse_get_hart_state w s (ev_hartindex e)) }.

Section Lingering.
Context (w : sse_env) (s : sse_state) (r : event_ref) (e : sbi_sse_event) (pre post : list event_ref).
Context (Hg : lingering w s r e pre post).

Let e' := sse_event_set_state e SBI_SSE_STATE_ENABLED.
Let s' := set_event r e' s.

Lemma lingering_pre x : x ∈ pre -> x <> r /\ exists ex, event_at s x = Some ex /\ goes_before ex e = true.
Proof.
  intros Hx. pose proof (lg_sorted _ _ _ _ _ _ Hg) as Hs. pose proof (lg_list _ _ _ _ _ _ Hg) as [Hnd _].
  rewrite fmap_app in Hnd. apply NoDup_cons in Hnd as [_ Hnd]. apply NoDup_app in Hnd as (_ & Hd & _).
  apply StronglySorted_app in Hs as (Hs & _ & _).
  destruct (Hs x r Hx ltac:(set_solver)) as (ex & er & Ex & Er & Hb). rewrite (lg_event _ _ _ _ _ _ Hg) in Er. simplify_eq.
  split; [|by exists ex]. intros ->. apply (Hd (NEvent r)); [by apply list_elem_of_fmap_2|]. rewrite fmap_cons. apply list_elem_of_here.
Qed.

Lemma lingering_post x : hd_error post = Some x -> x <> r /\ exists ex, event_at s x = Some ex /\ goes_before e ex = true.
Proof.
  intros Hx. pose proof (lg_sorted _ _ _ _ _ _ Hg) as Hs. pose proof (lg_list _ _ _ _ _ _ Hg) as [Hnd _].
  destruct post as [|y post']; [done|]. injection Hx as ->. rewrite fmap_app in Hnd. apply NoDup_cons in Hnd as [_ Hnd].
  apply NoDup_app in Hnd as (_ & _ & Hnd). rewrite !fmap_cons in Hnd. apply NoDup_cons in Hnd as [Hnr _].
  apply StronglySorted_app_1_r, StronglySorted_inv in Hs as [_ Hall]. apply Forall_cons in Hall as [(er & ex & Er & Ex & Hb) _].
  rewrite (lg_event _ _ _ _ _ _ Hg) in Er. simplify_eq. split; [|by exists ex]. intros ->. apply Hnr, list_elem_of_here.
Qed.

Lemma lingering_at x : event_at s' x = if decide (x = r) then Some e' else event_at s x.
Proof. apply event_at_set. by rewrite (lg_event _ _ _ _ _ _ Hg). Qed.

(** The event goes behind itself. *)
Lemma lingering_place : find (event_has s' (goes_before e')) (pre ++ r :: post) = hd_error post.
Proof.
  assert (goes_before e' e' = false) as Hself by (unfold goes_before; lia).
  assert (forall ex, goes_before e' ex = goes_before e ex) as Heq by (intros; by apply goes_before_same).
  assert (Forall (fun x => event_has s' (goes_before e') x = false) (pre ++ [r])) as Hpre.
  { apply Forall_app. split; [|apply Forall_singleton; unfold event_has; by rewrite lingering_at, decide_True].
    apply Forall_forall. intros x Hx. destruct (lingering_pre x Hx) as (Hne & ex & Ex & Hb). unfold event_has.
    rewrite lingering_at, decide_False, Ex, Heq by done. by apply goes_before_asym. }
  rewrite cons_middle, app_assoc. apply find_skip; [done|]. intros x Hx. destruct (lingering_post x Hx) as (Hne & ex & Ex & Hb).
  unfold event_has. by rewrite lingering_at, decide_False, Ex, Heq by done.
Qed.

Lemma enable_again :
  exists s2, sse_event_enable w r s = Some (0, s2) /\
    links s2 = sbi_list_add_tail (NEvent r) (hd_node (NHead (ev_hartindex e)) (NEvent <$> post)) (links s) /\
    forall x, event_at s2 x = event_at s' x.
Proof.
  destruct (set_event_rest r e' s) as (R1 & R2 & _ & _ & R5 & R6). fold s' in R1, R2, R5, R6.
  unfold sse_event_enable. rewrite (lg_event _ _ _ _ _ _ Hg). cbn [mbind option_bind]. rewrite (lg_state _ _ _ _ _ _ Hg). cbn [Z.eqb Pos.eqb negb].
  fold e'. fold s'. unfold sse_event_add_to_list. rewrite lingering_at, decide_True by done. cbn [mbind option_bind].
  change (ev_hartindex e') with (ev_hartindex e). destruct (lg_home _ _ _ _ _ _ Hg) as [hs Hhs]. unfold sse_get_hart_state in *.
  destruct (sbi_hartindex_to_scratch _ _); [|done].
  destruct (is_some_masked s s' (ev_hartindex e) (R2 _) (mk_is_Some _ _ Hhs)) as [hs' ->]. cbn [mbind option_bind].
  rewrite (for_each_nodes s' _ (pre ++ r :: post)); [|rewrite R1; apply Hg|unfold walk_fuel; rewrite R5, R6; apply Hg|].
  - rewrite lingering_place. cbn [mbind option_bind]. rewrite hd_node_refs, R1. eexists. split; [done|].
    set (s3 := set_links _ _). assert (view_eq s3 (sse_event_invoke_cb e' enable_cb [] s3)) as Hv by apply view_callback.
    assert (forall c, view_eq s3 (call c (sse_event_invoke_cb e' enable_cb [] s3))) as Hv2 by (intros c; etrans; [exact Hv|apply view_call]).
    destruct (_ && _); [destruct (Hv2 (IpiSend (at_hartid (ev_attrs e')))) as [V1 V2 _ _ _ _]|destruct Hv as [V1 V2 _ _ _ _]]; by split.
  - intros x Hx. rewrite lingering_at. destruct (decide (x = r)); [eauto|]. apply elem_of_app in Hx as [Hx|[->|Hx]%elem_of_cons]; [|done|].
    + destruct (lingering_pre x Hx) as (_ & ex & -> & _). eauto.
    + pose proof (lg_sorted _ _ _ _ _ _ Hg) as Hs. apply StronglySorted_app_1_r, StronglySorted_inv in Hs as [_ Hall].
      rewrite Forall_forall in Hall. destruct (Hall x Hx) as (? & ex & _ & -> & _). eauto.
Qed.

(** From then on no less urgent event of the hart can be enabled. *)
Lemma lingering_hangs s2 r2 e2 :
  links s2 = sbi_list_add_tail (NEvent r) (hd_node (NHead (ev_hartindex e)) (NEvent <$> post)) (links s) ->
  (forall x, event_at s2 x = event_at s' x) ->
  event_at s2 r2 = Some e2 -> sse_event_state e2 = SBI_SSE_STATE_REGISTERED -> ev_hartindex e2 = ev_hartindex e ->
  goes_before e e2 = true ->
  (forall fuel, sbi_list_for_each fuel (links s2) (NHead (ev_hartindex e)) (node_after s2 r2) = None) /\ sse_event_enable w r2 s2 = None.
Proof.
  intros El Ev He2 Hst Hh Hb. set (e2' := sse_event_set_state e2 SBI_SSE_STATE_ENABLED). set (s3 := set_event r2 e2' s2).
  assert (forall x, event_at s3 x = if decide (x = r2) then Some e2' else event_at s2 x) as Hat by (intros x; apply event_at_set; by rewrite He2).
  assert (forall ex, event_at s2 r = Some ex -> goes_before e2 ex = false) as Hr.
  { intros ex. rewrite Ev, lingering_at, decide_True by done. intros [= <-]. apply goes_before_asym. rewrite <- Hb. by apply goes_before_same. }
  assert (forall fuel p, (forall x ex, event_at s2 x = Some ex -> p (NEvent x) = goes_before e2 ex) ->
    sbi_list_for_each fuel (links s2) (NHead (ev_hartindex e)) p = None) as Hloop.
  { intros fuel p Hp. rewrite El. pose proof (lg_list _ _ _ _ _ _ Hg) as Hl. rewrite fmap_app, fmap_cons in Hl.
    apply (dlist_add_again _ _ _ _ _ Hl).
    - intros n (x & -> & Hx)%list_elem_of_fmap. destruct (lingering_pre x Hx) as (Hne & ex & Ex & Hbx).
      rewrite (Hp x ex) by (by rewrite Ev, lingering_at, decide_False). apply goes_before_asym. by eapply goes_before_trans.
    - rewrite (Hp r e') by (by rewrite Ev, lingering_at, decide_True). apply Hr. by rewrite Ev, lingering_at, decide_True. }
  split; [intros fuel; apply Hloop; intros x ex Ex; unfold node_after, event_has; by rewrite Ex, He2|].
  unfold sse_event_enable. rewrite He2. cbn [mbind option_bind]. rewrite Hst. cbn [Z.eqb Pos.eqb negb]. fold e2' s3.
  unfold sse_event_add_to_list. rewrite Hat, decide_True by done. cbn [mbind option_bind]. change (ev_hartindex e2') with (ev_hartindex e2). rewrite Hh.
  destruct (sse_get_hart_state _ _ _); [|done]. cbn [mbind option_bind]. unfold for_each_enabled. destruct (set_event_rest r2 e2' s2) as (R1 & _). fold s3 in R1.
  rewrite R1, Hloop; [done|]. intros x ex Ex. rewrite Hat. destruct (decide (x = r2)) as [->|]; simplify_eq; [|rewrite Ex]; by apply goes_before_same.
Qed.
End Lingering.

(** What a stopped hart leaves behind, once one of its events is registered
    again. *)
Lemma exit_lingering v live w s s0 i e pc arg :
  harts_ok (v_sc v) -> sse_inv (v_sc v) live s -> v_self v ∈ live -> v_sc w = v_sc v ->
  in_range 64 pc -> Z.testbit pc 0 = false -> in_range 64 arg ->
  exited v (info_id <$> supported_events s) s s0 -> event_at s (RGlobal i) = Some e -> active e -> ev_hartindex e = v_self v ->
  exists s1 e1 pre post, sse_event_register (RGlobal i) pc arg s0 = Some (0, s1) /\ lingering w s1 (RGlobal i) e1 pre post /\
    ev_hartindex e1 = v_self v /\ at_prio (ev_attrs e1) = at_prio (ev_attrs e) /\ ev_id e1 = ev_id e.
Proof.
  intros Hok Hi Hself Hw Hpc Hb Harg Hx He Ha Hh. set (r := RGlobal i) in *.
  destruct (active_in_list v live s r e Hi He Ha) as (pre & post & Hen & _).
  destruct (exited_event v live Hok Hself s s0 r e Hi Hx He) as (e0 & He0 & K1 & K2 & K3 & T & Hna & _). specialize (Hna Ha Hh).
  assert (forall x ex, event_at s x = Some ex -> exists ex', event_at s0 x = Some ex' /\ at_prio (ev_attrs ex') = at_prio (ev_attrs ex) /\ ev_id ex' = ev_id ex) as Hsame.
  { intros x ex Ex. rewrite (ex_event _ _ _ _ Hx), Ex. eexists. split; [done|]. unfold exit_event. by case_bool_decide. }
  assert (sse_event_state e0 = SBI_SSE_STATE_UNUSED) as Hst.
  { pose proof (ex_event _ _ _ _ Hx r) as E. rewrite He0, He in E. injection E as ->. destruct (iv_event _ _ _ Hi r e He) as (T0 & _).
    destruct (exit_event_same v (info_id <$> supported_events s) r e) as [E|E]; [by rewrite <- E in Hna|by apply E]. }
  destruct (Hsame r e He) as (e0' & E0' & Hp & _). simplify_eq.
  set (e1 := sse_event_set_state (set_entry (mkEntry pc arg) e0) SBI_SSE_STATE_REGISTERED).
  assert (sse_event_state e1 = SBI_SSE_STATE_REGISTERED) as Hst1 by (apply state_set_state; [destruct T; by split|lia]).
  set (s1 := sse_event_invoke_cb e1 register_cb [] (set_event r e1 s0)).
  assert (view_eq (set_event r e1 s0) s1) as [V1 V2 V3 _ _ [V4 V5]] by apply view_callback.
  destruct (set_event_rest r e1 s0) as (R1 & R2 & _ & _ & R5 & R6). destruct Hx as [X1 X2 X3 _ _ [X4 X5]].
  assert (forall x, event_at s1 x = if decide (x = r) then Some e1 else event_at s0 x) as Hat
    by (intros x; rewrite V1; apply event_at_set; by rewrite He0).
  exists s1, e1, pre, post. split; [unfold sse_event_register; rewrite He0; cbn [mbind option_bind]; by rewrite Hst|].
  assert (ev_hartindex e1 = v_self v) as Hh1 by (change (ev_hartindex e1) with (ev_hartindex e0); congruence).
  split_and!; [|done|done|done]. rewrite Hh in Hen. split; rewrite ?Hh1.
  - by rewrite Hat, decide_True.
  - done.
  - rewrite V2, R1, X2. apply Hen.
  - apply (sorted_prio s); [|apply Hen]. intros x ex _ Ex. rewrite Hat. destruct (decide (x = r)) as [->|]; [|by apply Hsame].
    exists e1. simplify_eq. done.
  - unfold walk_fuel. rewrite V4, V5, R5, R6, X4, X5. exact (enabled_length _ _ _ _ _ Hi Hen).
  - destruct (iv_hart _ _ _ Hi _ Hself) as [_ [[p Ep] Hs]]. unfold sse_get_hart_state. rewrite Hw, Ep.
    apply (is_some_masked s); [|done]. by rewrite V3, R2, X3.
Qed.

(** C39: sbi_sse_exit makes the events of the hart unused but leaves them in
    its list.  If such a global event is registered and enabled again while the
    hart is stopped, by another hart and with its priority unchanged, both succeed
    and link the event to itself.  From then on an attempt to enable any less
    urgent event that prefers the stopped hart walks the list for ever, with the
    locks of the event and of the list held. *)
Theorem enable_after_exit_hangs sc live s v w i e pc arg :
  harts_ok sc -> sse_reachable sc live s -> v_sc v = sc -> v_self v ∈ live -> v_sc w = sc ->
  in_range 64 pc -> Z.testbit pc 0 = false -> in_range 64 arg ->
  event_at s (RGlobal i) = Some e -> active e -> ev_hartindex e = v_self v ->
  exists s0 s1 s2, sbi_sse_exit v s = Some s0 /\ sse_event_register (RGlobal i) pc arg s0 = Some (0, s1) /\
    sse_event_enable w (RGlobal i) s1 = Some (0, s2) /\ lnext (links s2) (NEvent (RGlobal i)) = NEvent (RGlobal i) /\
    forall r2 e2, event_at s2 r2 = Some e2 -> sse_event_state e2 = SBI_SSE_STATE_REGISTERED -> ev_hartindex e2 = v_self v ->
      goes_before e e2 = true ->
      (forall fuel, sbi_list_for_each fuel (links s2) (NHead (v_self v)) (node_after s2 r2) = None) /\ sse_event_enable w r2 s2 = None.
Proof.
  intros Hok Hr <- Hself Hw Hpc Hb Harg He Ha Hh. destruct (reachable_inv _ live s Hok Hr) as [Hi HL].
  destruct (exit_exited v live Hok Hself s Hi HL) as (s0 & E0 & Hx & _).
  destruct (exit_lingering v live w s s0 i e pc arg) as (s1 & e1 & pre & post & E1 & Hg & Hh1 & Hp1 & Hid1); try done.
  destruct (enable_again w s1 (RGlobal i) e1 pre post Hg) as (s2 & E2 & El & Ev). exists s0, s1, s2. do 3 (split; [done|]). split.
  - rewrite El. pose proof (lg_list _ _ _ _ _ _ Hg) as Hl. rewrite fmap_app, fmap_cons in Hl. apply (dlist_add_again _ _ _ _ _ Hl).
  - intros r2 e2 He2 Hst2 Hh2 Hb2. rewrite <- Hh1. apply (lingering_hangs w s1 (RGlobal i) e1 pre post Hg s2 r2 e2); try done; [congruence|].
    rewrite <- Hb2. by apply goes_before_same.
Qed.

(** Hart 0 registers two global events and enables the more urgent one; hart 1
    starts. *)
Definition ras_boot : sse_state := (sbi_sse_add_event SBI_SSE_EVENT_GLOBAL_HIGH_PRIO_RAS (fun _ => false) true sse_boot).2.
Definition ras_registered : option sse_state :=
  run_ops hart0 sse_ctx_example [Ecall 2 SBI_SSE_EVENT_GLOBAL_HIGH_PRIO_RAS 0x80200100 5 0 0 (fun _ => 0);
    Ecall 2 SBI_SSE_EVENT_GLOBAL_SOFTWARE 0x80200100 5 0 0 (fun _ => 0)] (sbi_sse_init hart0 true enough ras_boot).2.
Definition ras_enabled : option sse_state :=
  s ← ras_registered;
  '(_, _, _, s) ← run_op hart0 (Ecall 4 SBI_SSE_EVENT_GLOBAL_HIGH_PRIO_RAS 0 0 0 0 (fun _ => 0)) sse_ctx_example s;
  Some (sbi_sse_init (up 1) false enough s).2.

Lemma ras_registered_reach : exists s, ras_registered = Some s /\ sse_reachable sse_scratch {[0]} s.
Proof.
  apply (run_ops_reach hart0 {[0]} sse_ctx_example _ _ sse_harts_ok hart0_ok).
  - apply (reach_boot sse_scratch hart0 enough ras_boot); [done|vm_compute; split; congruence|vm_compute; eauto| |done|].
    + apply registered_add; [constructor|]. unfold in_range. vm_compute. split; congruence.
    + rewrite (surjective_pairing (sbi_sse_init _ _ _ _)) at 1. f_equal.
  - repeat (apply Forall_cons_2); [..|by apply Forall_nil_2]; intros s Hr; cbn [allowed];
      (split_and!; [repeat (apply Forall_cons_2; [unfold in_range; vm_compute; split; congruence|]); by apply Forall_nil_2
                   |intros _; unfold in_range; lia|done|done]).
Qed.

Lemma ras_enabled_reach : exists s, ras_enabled = Some s /\ sse_reachable sse_scratch {[0; 1]} s.
Proof.
  destruct ras_registered_reach as (s & Es & Hr). unfold ras_enabled. rewrite Es. cbn [mbind option_bind].
  assert ((fun s => (fun g => ev_hartindex (ge_event g)) <$> global_events s) <$> ras_registered = Some [0; 0]) as Hh by (vm_compute; reflexivity).
  rewrite Es in Hh. injection Hh as Hh. set (o := Ecall 4 _ _ _ _ _ _).
  assert (allowed hart0 {[0]} o sse_ctx_example s) as Ha.
  { unfold o. cbn [allowed]. split_and!; [repeat (apply Forall_cons_2; [unfold in_range; vm_compute; split; congruence|]); by apply Forall_nil_2|intros _; unfold in_range; lia|done|].
    intros _ r e Hs He _. apply (global_home hart0 {[0]} s r e); [apply sse_harts_ok|exact Hr|set_solver| |exact Hs|exact He].
    assert (Forall (fun h => h ∈ ({[0]} : gset Z)) [0; 0]) as Hall by (repeat constructor; set_solver).
    rewrite <- Hh in Hall. by apply Forall_fmap in Hall. }
  destruct (reachable_inv _ _ _ sse_harts_ok Hr) as [Hi HL].
  destruct (run_op_ok hart0 {[0]} sse_harts_ok hart0_ok o sse_ctx_example s Hi HL Ha) as (ret & skip & k' & s1 & E & _). rewrite E.
  cbn [mbind option_bind]. eexists. split; [done|].
  destruct (sbi_sse_init (up 1) false enough s1) as [ret' s2] eqn:E2. cbn [snd].
  assert ((s ← ras_registered; '(_, _, _, s) ← run_op hart0 o sse_ctx_example s; Some (sbi_sse_init (up 1) false enough s).1) = Some 0) as Hz
    by (vm_compute; reflexivity).
  rewrite Es in Hz. cbn [mbind option_bind] in Hz. rewrite E in Hz. cbn [mbind option_bind] in Hz. rewrite E2 in Hz. injection Hz as ->.
  pose proof (reach_call sse_scratch hart0 o sse_ctx_example {[0]} s ret skip k' s1 Hr hart0_ok Ha E) as Hr1.
  assert (0 <= v_self (up 1) < sbi_scratch_hart_count sse_scratch) as Hrange by (vm_compute; split; congruence).
  assert (is_Some (sbi_hartindex_to_scratch sse_scratch (v_self (up 1)))) as Hsc by (vm_compute; eauto).
  exact (reach_start sse_scratch (up 1) enough {[0]} s1 0 s2 Hr1 eq_refl Hrange Hsc ltac:(cbn; set_solver) E2).
Qed.

(** sse_write_attrs reads the supervisor's buffer twice.  A hart id that
    is refused when it is there from the start is stored if it is written between
    the check and the second read; the call that then enables the event follows
    the state of a hart that does not exist. *)
Theorem write_attrs_fetches_twice :
  let write := fun m1 m2 => sbi_sse_write_attrs hart0 SBI_SSE_EVENT_GLOBAL_SOFTWARE SBI_SSE_ATTR_PREFERRED_HART 1 0x80300000 0 m1 m2 booted in
  let m1 := fun _ => 4 in let m2 := fun _ => 99 in
  (exists s, write m2 m2 = Some (SBI_EINVAL, s)) /\
  exists s1 s2 e, write m1 m2 = Some (0, s1) /\ event_at s1 (RGlobal 0) = Some e /\ at_hartid (ev_attrs e) = 99 /\
    sse_get_hart_state hart0 s1 (ev_hartindex e) = None /\
    sbi_sse_register hart0 SBI_SSE_EVENT_GLOBAL_SOFTWARE 0x80200100 0 s1 = Some (0, s2) /\
    sbi_sse_enable hart0 SBI_SSE_EVENT_GLOBAL_SOFTWARE s2 = None.
Proof.
  intros write m1 m2. set (reg := sbi_sse_register hart0 SBI_SSE_EVENT_GLOBAL_SOFTWARE 0x80200100 0).
  set (en := sbi_sse_enable hart0 SBI_SSE_EVENT_GLOBAL_SOFTWARE). split.
  - assert (fst <$> write m2 m2 = Some SBI_EINVAL) as H by (vm_compute; reflexivity).
    destruct (write m2 m2) as [[r s]|]; [|done]. exists s. cbn in H. congruence.
  - assert (('(r1, s1) ← write m1 m2; e ← event_at s1 (RGlobal 0); '(r2, s2) ← reg s1;
      Some (r1, r2, at_hartid (ev_attrs e), match sse_get_hart_state hart0 s1 (ev_hartindex e) with None => true | _ => false end,
        match en s2 with None => true | _ => false end)) = Some (0, 0, 99, true, true)) as H by (vm_compute; reflexivity).
    destruct (write m1 m2) as [[r1 s1]|]; [|done]. cbn [mbind option_bind] in H.
    destruct (event_at s1 (RGlobal 0)) as [e|] eqn:Ee; [|done]. cbn [mbind option_bind] in H.
    destruct (reg s1) as [[r2 s2]|] eqn:E2; [|done]. cbn [mbind option_bind] in H. exists s1, s2, e.
    destruct (sse_get_hart_state hart0 s1 (ev_hartindex e)) eqn:E3; [by injection H|]. destruct (en s2) eqn:E4; [by injection H|].
    injection H as -> -> H. by split_and!.
Qed.

Lemma enable_after_exit_hangs_witness :
  exists s s0 s1 s2, ras_enabled = Some s /\ sbi_sse_exit (up 0) s = Some s0 /\
    sse_event_register (RGlobal 0) 0x80200200 0 s0 = Some (0, s1) /\ sse_event_enable (up 1) (RGlobal 0) s1 = Some (0, s2) /\
    lnext (links s2) (NEvent (RGlobal 0)) = NEvent (RGlobal 0) /\ sse_event_enable (up 1) (RGlobal 1) s2 = None.
Proof.
  destruct ras_enabled_reach as (s & Es & Hr). exists s.
  assert ((s ← ras_enabled; e ← event_at s (RGlobal 0); Some (bool_decide (active e), ev_hartindex e)) = Some (true, 0)) as Hc by (vm_compute; reflexivity).
  rewrite Es in Hc. cbn [mbind option_bind] in Hc. destruct (event_at s (RGlobal 0)) as [e|] eqn:He; [|discriminate Hc].
  cbn [mbind option_bind] in Hc. injection Hc as Ha%bool_decide_eq_true Hh.
  assert (in_range 64 0x80200200 /\ in_range 64 0) as [Hpc Harg] by (unfold in_range; lia).
  destruct (enable_after_exit_hangs sse_scratch {[0; 1]} s (up 0) (up 1) 0 e 0x80200200 0 sse_harts_ok Hr eq_refl ltac:(cbn; set_solver) eq_refl
    Hpc eq_refl Harg He Ha Hh) as (s0 & s1 & s2 & E0 & E1 & E2 & El & H).
  exists s0, s1, s2. do 5 (split; [done|]).
  assert ((s ← ras_enabled; e ← event_at s (RGlobal 0); s0 ← sbi_sse_exit (up 0) s; '(_, s1) ← sse_event_register (RGlobal 0) 0x80200200 0 s0;
    '(_, s2) ← sse_event_enable (up 1) (RGlobal 0) s1; e2 ← event_at s2 (RGlobal 1);
    Some (sse_event_state e2, ev_hartindex e2, goes_before e e2)) = Some (SBI_SSE_STATE_REGISTERED, 0, true)) as Hc by (vm_compute; reflexivity).
  rewrite Es in Hc. cbn [mbind option_bind] in Hc. rewrite He in Hc. cbn [mbind option_bind] in Hc. rewrite E0 in Hc. cbn [mbind option_bind] in Hc.
  rewrite E1 in Hc. cbn [mbind option_bind] in Hc. rewrite E2 in Hc. cbn [mbind option_bind] in Hc.
  destruct (event_at s2 (RGlobal 1)) as [e2|] eqn:He2; [|discriminate Hc]. cbn [mbind option_bind] in Hc. injection Hc as H1 H2 H3.
  apply (H (RGlobal 1) e2 He2 H1 H2 H3).
Defined.
