(* ===== verification/SseResume.v ===== *)
(** * What a handler of a software event interrupts (lib/sbi/sbi_sse.c)

    sse_event_inject and sse_event_resume on the hart of file Trap: a hart traps
    into the firmware, which enters a handler instead of returning; the handler
    calls back when it is done and the firmware resumes what was interrupted.
    [handler_roundtrip] says what the handler finds and that the interrupted code
    goes on as if nothing had happened.  It needs hstatus.SPV to be clear in code
    that is not a guest: [hypervisor_resumed_as_guest] shows what happens
    otherwise. *)

From S2P Require Import Prelude Locks Fifo Bitops Bitmap Scratch Pmp Memregion Domain Hsm Trap Resume Dlist Sse.
Local Open Scope Z_scope.

(** ** Words bit by bit *)

Lemma tb_restore k x b n :
  0 <= k < 64 -> 0 <= n < 64 -> Z.testbit (restore_bit x (2 ^ k) b) n = if n =? k then b else Z.testbit x n.
Proof.
  intros Hk Hn. unfold restore_bit. destruct b; rewrite ?tb_lor_bit, tb_land_not by lia; destruct (Z.eqb_spec n k) as [->|];
    cbn [negb]; by rewrite ?orb_true_r, ?andb_false_r, ?andb_true_r, ?orb_false_r.
Qed.

Lemma truthy_mpp x : truthy (Z.land x (MSTATUS MPP)) = Z.testbit x 11 || Z.testbit x 12.
Proof.
  change (MSTATUS MPP) with (Z.lor (2 ^ 11) (2 ^ 12)). rewrite <- !truthy_bit by lia. rewrite Z.land_lor_distr_r. unfold truthy.
  destruct (Z.eqb_spec (Z.land x (2 ^ 11)) 0) as [->|N1]; [done|]. cbn [negb orb].
  destruct (Z.eqb_spec (Z.lor (Z.land x (2 ^ 11)) (Z.land x (2 ^ 12))) 0) as [E|]; [|done]. apply Z.lor_eq_0_iff in E as [E _]. done.
Qed.

Lemma tb_inject_status s n :
  0 <= n < 64 ->
  Z.testbit (inject_status s) n = if n =? 8 then Z.testbit s 11 || Z.testbit s 12 else if n =? 5 then Z.testbit s 1 else Z.testbit s n.
Proof.
  intros Hn. unfold inject_status. set (s0 := Z.land s _).
  assert (forall k, 0 <= k < 64 -> Z.testbit s0 k = Z.testbit s k && negb ((k =? 8) || (k =? 5))) as H0.
  { intros k Hk. unfold s0. change (Z.lor (MSTATUS SPP) (MSTATUS SPIE)) with (Z.lor (2 ^ 8) (2 ^ 5)).
    by rewrite Z.land_spec, testbit_not_w, Z.lor_spec, !tb_pow2 by lia. }
  rewrite truthy_mpp. change (MSTATUS SPP) with (2 ^ 8). change (MSTATUS SPIE) with (2 ^ 5). change (MSTATUS SIE) with (2 ^ 1).
  rewrite truthy_bit by lia.
  rewrite (H0 11), (H0 12) by lia. cbn [Z.eqb Pos.eqb orb negb]. rewrite !andb_true_r.
  assert (forall b : bool, Z.testbit (if b then Z.lor s0 (2 ^ 8) else s0) 1 = Z.testbit s 1) as E1.
  { intros []; rewrite ?tb_lor_bit, H0 by lia; cbn; by rewrite ?orb_false_r, ?andb_true_r. }
  rewrite E1. destruct (Z.testbit s 1) eqn:Es1, (Z.testbit s 11 || Z.testbit s 12); rewrite ?tb_lor_bit, ?tb_lor_bit, H0 by lia;
    at_bits n [8; 5]; cbn [Z.eqb Pos.eqb orb negb]; by rewrite ?andb_false_r, ?orb_true_r, ?andb_true_r, ?orb_false_r.
Qed.

Lemma tb_handler_status s n :
  0 <= n < 64 ->
  Z.testbit (handler_status s) n =
  if (n =? 11) || (n =? 24) then true else if (n =? 12) || (n =? 1) || (n =? 23) || (n =? 39) then false else Z.testbit s n.
Proof.
  intros Hn. unfold handler_status. change (MSTATUS MPV) with (2 ^ 39). change (MSTATUS SDT) with (2 ^ 24).
  change (Z.shiftl PRV_S 11) with (2 ^ 11). rewrite tb_land_not, !tb_lor_bit by lia.
  change (Z.lor (MSTATUS MPP) _) with (Z.lor (MSTATUS MPP) (Z.lor (2 ^ 1) (2 ^ 23))).
  rewrite Z.land_spec, testbit_not_w, !Z.lor_spec, tb_mpp, !tb_pow2 by lia.
  at_bits n [11; 24; 12; 1; 23; 39]; cbn [Z.eqb Pos.eqb orb negb]; by rewrite ?andb_false_r, ?orb_true_r, ?andb_true_r, ?orb_false_r.
Qed.

Lemma tb_resume_status v s hs fl n :
  0 <= n < 64 ->
  Z.testbit (resume_status v s hs fl) n =
  if n =? 24 then truthy (Z.land fl FLAGS_SSTATUS_SDT) else if n =? 23 then truthy (Z.land fl FLAGS_SSTATUS_SPELP)
  else if n =? 8 then truthy (Z.land fl FLAGS_SSTATUS_SPP) else if n =? 5 then truthy (Z.land fl FLAGS_SSTATUS_SPIE)
  else if n =? 1 then Z.testbit s 5
  else if n =? 39 then (if has_h (v_isa v) then Z.testbit hs 7 else Z.testbit s 39)
  else if n =? 11 then Z.testbit s 8 else if n =? 12 then false else Z.testbit s n.
Proof.
  intros Hn. unfold resume_status. cbv zeta. set (s0 := Z.land s _).
  assert (forall k, 0 <= k < 64 -> Z.testbit s0 k = Z.testbit s k && negb ((k =? 11) || (k =? 12))) as H0.
  { intros k Hk. unfold s0. by rewrite Z.land_spec, testbit_not_w, tb_mpp by lia. }
  change (MSTATUS SPP) with (2 ^ 8). change (MSTATUS SPIE) with (2 ^ 5). change (MSTATUS SIE) with (2 ^ 1).
  change (MSTATUS MPV) with (2 ^ 39). change (MSTATUS SPELP) with (2 ^ 23). change (MSTATUS SDT) with (2 ^ 24).
  change HSTATUS_SPV with (2 ^ 7). change (Z.shiftl PRV_S 11) with (2 ^ 11). set (s1 := if truthy (Z.land s0 (2 ^ 8)) then _ else s0).
  assert (forall k, 0 <= k < 64 -> Z.testbit s1 k = if k =? 11 then Z.testbit s 8 else if k =? 12 then false else Z.testbit s k) as H1.
  { intros k Hk. unfold s1. rewrite (truthy_bit s0) by lia. rewrite (H0 8) by lia. cbn [Z.eqb Pos.eqb orb negb]. rewrite andb_true_r.
    destruct (Z.testbit s 8) eqn:E8; rewrite ?tb_lor_bit, H0 by lia; at_bits k [11; 12]; cbn [orb negb];
      by rewrite ?andb_false_r, ?orb_true_r, ?andb_true_r, ?orb_false_r. }
  set (s2 := if has_h (v_isa v) then _ else s1).
  assert (forall k, 0 <= k < 64 -> Z.testbit s2 k = if k =? 39 then (if has_h (v_isa v) then Z.testbit hs 7 else Z.testbit s 39)
    else Z.testbit s1 k) as H2.
  { intros k Hk. unfold s2. destruct (has_h (v_isa v)).
    - by rewrite tb_restore, truthy_bit by lia.
    - at_bits k [39]; [|done]. by rewrite H1 by lia. }
  rewrite !tb_restore, truthy_bit by lia. at_bits n [24; 23; 8; 5; 1]; try done.
  - rewrite H2, H1 by lia. done.
  - rewrite H2, H1 by lia. by at_bits n [39; 11; 12].
Qed.

(** ** hstatus *)

Lemma pmm_bits x : get_field x HSTATUS_HUPMM = Z.b2z (Z.testbit x 48) + 2 * Z.b2z (Z.testbit x 49).
Proof.
  unfold get_field. change (low_bit HSTATUS_HUPMM) with (2 ^ 48). change HSTATUS_HUPMM with (Z.shiftl (Z.ones 2) 48).
  rewrite <- Z.shiftr_div_pow2, Z.shiftr_land, Z.shiftr_shiftl_l, Z.sub_diag, Z.shiftl_0_r, Z.land_ones by lia.
  rewrite !Z.testbit_spec', Z.shiftr_div_pow2 by lia. Z.div_mod_to_equations. lia.
Qed.

Lemma set_same_pmm x : in_range 64 x -> set_field x HSTATUS_HUPMM (get_field x HSTATUS_HUPMM) = x.
Proof.
  intros Hx. unfold set_field, get_field. change (low_bit HSTATUS_HUPMM) with (2 ^ 48). set (M := HSTATUS_HUPMM).
  assert (Z.land x M / 2 ^ 48 * 2 ^ 48 = Z.land x M) as ->.
  { apply Z.bits_inj'. intros n Hn. rewrite <- Z.shiftr_div_pow2, <- Z.shiftl_mul_pow2 by lia.
    destruct (Z.lt_ge_cases n 48); [rewrite Z.shiftl_spec_low by lia|rewrite Z.shiftl_spec_high, Z.shiftr_spec by lia; f_equal; lia].
    rewrite Z.land_spec. change M with (Z.shiftl (Z.ones 2) 48). by rewrite Z.shiftl_spec_low, andb_false_r by lia. }
  apply (word_eq_bits 64); [lia| |done|].
  - apply lor_range; [lia|by apply land_range|]. apply land_range; [lia|by apply wrap_range].
  - intros n Hn. rewrite Z.lor_spec, !Z.land_spec, testbit_wrap, Z.land_spec, testbit_not_w by lia.
    by destruct (Z.testbit x n), (Z.testbit M n).
Qed.

(** Values the hardware keeps: the reserved encoding of HUPMM is not used. *)
Definition hstatus_legal (x : Z) : Prop := in_range 64 x /\ get_field x HSTATUS_HUPMM <> 1.

Lemma tb_hswrite e old val n :
  hstatus_legal val -> 0 <= n < 64 ->
  Z.testbit (hstatus_write e old val) n = if Z.testbit (hstatus_mask e) n then Z.testbit val n else Z.testbit old n.
Proof.
  intros [Hr Hl] Hn. unfold hstatus_write. rewrite (proj2 (Z.eqb_neq _ _)) by done. rewrite set_same_pmm by done. by apply tb_masked.
Qed.

Lemma hswrite_range e old val : hstatus_legal val -> in_range 64 old -> in_range 64 (hstatus_write e old val).
Proof.
  intros [Hr Hl] Ho. unfold hstatus_write. rewrite (proj2 (Z.eqb_neq _ _)), set_same_pmm by done.
  apply lor_range; [lia| |]; by apply land_range.
Qed.

Lemma tb_inject_hstatus hs s n :
  0 <= n < 64 ->
  Z.testbit (inject_hstatus hs s) n =
  if n =? 7 then Z.testbit hs 7 || Z.testbit s 39 else if n =? 8 then (Z.testbit hs 7 || Z.testbit s 39) && Z.testbit s 8
  else Z.testbit hs n.
Proof.
  intros Hn. unfold inject_hstatus. change (MSTATUS MPV) with (2 ^ 39). change (MSTATUS SPP) with (2 ^ 8).
  change HSTATUS_SPV with (2 ^ 7). change HSTATUS_SPVP with (2 ^ 8). rewrite !truthy_bit by lia.
  set (h1 := if Z.testbit s 39 then _ else hs).
  assert (forall k, 0 <= k < 64 -> Z.testbit h1 k = if k =? 7 then Z.testbit hs 7 || Z.testbit s 39 else Z.testbit hs k) as H1.
  { intros k Hk. unfold h1. destruct (Z.testbit s 39); rewrite ?tb_lor_bit by lia; at_bits k [7]; by rewrite ?orb_true_r, ?orb_false_r. }
  rewrite tb_land_not, (H1 7) by lia. cbn [Z.eqb Pos.eqb negb]. rewrite andb_true_r.
  destruct (_ && Z.testbit s 8) eqn:E; rewrite ?tb_lor_bit, tb_land_not, H1 by lia; at_bits n [7; 8]; cbn [Z.eqb Pos.eqb negb];
    by rewrite ?andb_true_r, ?andb_false_r, ?orb_true_r, ?orb_false_r.
Qed.

Lemma tb_resume_hstatus hs fl n :
  0 <= n < 64 ->
  Z.testbit (resume_hstatus hs fl) n =
  if n =? 7 then truthy (Z.land fl FLAGS_HSTATUS_SPV) else if n =? 8 then truthy (Z.land fl FLAGS_HSTATUS_SPVP) else Z.testbit hs n.
Proof.
  intros Hn. unfold resume_hstatus. change HSTATUS_SPV with (2 ^ 7). change HSTATUS_SPVP with (2 ^ 8).
  destruct (truthy (Z.land fl FLAGS_HSTATUS_SPV)), (truthy (Z.land fl FLAGS_HSTATUS_SPVP));
    rewrite ?tb_lor_bit, ?tb_lor_bit, Z.land_spec, testbit_not_w, Z.lor_spec, !tb_pow2 by lia;
    at_bits n [7; 8]; cbn [Z.eqb Pos.eqb orb negb]; by rewrite ?andb_true_r, ?andb_false_r, ?orb_true_r, ?orb_false_r.
Qed.

Lemma inject_hstatus_legal hs s : hstatus_legal hs -> hstatus_legal (inject_hstatus hs s).
Proof.
  intros [Hr Hl]. split.
  - unfold inject_hstatus. repeat case_match; repeat first [apply land_range|apply lor_range]; try done; unfold in_range; lia.
  - rewrite pmm_bits in *. by rewrite !tb_inject_hstatus by lia.
Qed.

Lemma resume_hstatus_legal hs fl : hstatus_legal hs -> hstatus_legal (resume_hstatus hs fl).
Proof.
  intros [Hr Hl]. split.
  - unfold resume_hstatus. repeat case_match; repeat first [apply land_range|apply lor_range]; try done; unfold in_range; lia.
  - rewrite pmm_bits in *. by rewrite !tb_resume_hstatus by lia.
Qed.

(** ** The flags *)

Lemma flags_bits v m hs :
  let fl := sse_interrupted_flags v m hs in
  truthy (Z.land fl FLAGS_SSTATUS_SPIE) = Z.testbit m 5 /\ truthy (Z.land fl FLAGS_SSTATUS_SPP) = Z.testbit m 8 /\
  truthy (Z.land fl FLAGS_SSTATUS_SPELP) = Z.testbit m 23 /\ truthy (Z.land fl FLAGS_SSTATUS_SDT) = Z.testbit m 24 /\
  (has_h (v_isa v) = true -> truthy (Z.land fl FLAGS_HSTATUS_SPV) = Z.testbit hs 7 /\ truthy (Z.land fl FLAGS_HSTATUS_SPVP) = Z.testbit hs 8).
Proof.
  cbv zeta. unfold sse_interrupted_flags, flag_if. change (MSTATUS SPIE) with (2 ^ 5). change (MSTATUS SPP) with (2 ^ 8).
  change (MSTATUS SPELP) with (2 ^ 23). change (MSTATUS SDT) with (2 ^ 24). change HSTATUS_SPV with (2 ^ 7). change HSTATUS_SPVP with (2 ^ 8).
  rewrite !truthy_bit by lia.
  destruct (has_h (v_isa v)), (Z.testbit m 5), (Z.testbit m 8), (Z.testbit m 23), (Z.testbit m 24), (Z.testbit hs 7), (Z.testbit hs 8);
    split_and!; done.
Qed.

(** ** Entering the handler *)

Section Enter.
Context (v : sse_env) (c : cpu) (t : trap_t) (ev : sbi_sse_event) (a6 a7 : Z).
Abbreviation e := (v_isa v).
Context (Hm : m_dte e = false) (Hh : h_dte e = false) (Hc : cpu_ok e c) (Hel : c_elp c = false).
Abbreviation m := (mstatus (c_m c)).
Abbreviation r0 := (mstatus_read e (trap_word e c t)).

(** The trap context in which the firmware enters the handler, the event and the
    context afterwards, and the hart when the firmware has returned to the
    handler. *)
Definition interrupted_ctx : sse_ctx := mkCtx (trap_enter e (trapped e c t)).1 a6 a7 (trapped e c t).
Definition injected : sbi_sse_event * sse_ctx := sse_event_inject v ev interrupted_ctx.
Definition in_handler : cpu := trap_leave e (k_cpu injected.2) (k_regs injected.2).

(** The status word of the handler. *)
Definition handler_bit (n : Z) : bool :=
  if n =? 1 then false else if n =? 5 then Z.testbit m 1 else if n =? 8 then c_prv c =? 1
  else if n =? 23 then (if has_zicfilp e then false else Z.testbit m 23) else Z.testbit m n.

Lemma handler_word_bits n :
  0 <= n < 63 -> m_only n = false -> n <> 3 -> wnew e (trap_word e c t) (handler_status (inject_status r0)) n = handler_bit n.
Proof.
  intros Hn Hex H3. assert (0 <= n < 64 /\ n <> 63) as [Hn' H63] by lia. destruct (wm_facts e Hm) as (W1 & W5 & W8 & W23 & W24 & _). destruct (word_special e c t Hm Hh Hc) as (S24 & _).
  destruct (return_fields e c Hm Hc Hel t) as (R11 & R12 & _).
  unfold wnew. rewrite (tb_handler_status _ n), (tb_inject_status _ n) by done. unfold handler_bit.
  destruct (decide (n = 24)) as [->|H24].
  { rewrite W24, S24. cbn. symmetry. apply (co_sdt e c Hc). }
  destruct (word_bits e c t Hm Hc n Hn' H24 Hex H3 H63) as [E1 E2].
  assert ((n =? 12) = false /\ (n =? 11) = false /\ (n =? 39) = false) as (-> & -> & ->) by (clear - Hex; unfold m_only in Hex; lia).
  rewrite (proj2 (Z.eqb_neq n 24)) by done. cbn [orb].
  at_bits n [1; 5; 8; 23]; cbn [Z.eqb Pos.eqb orb]; rewrite ?W1, ?W5, ?W8, ?W23; try done.
  - apply (word_bits e c t Hm Hc 1); done.
  - rewrite R11, R12. apply orb_false_r.
  - destruct (has_zicfilp e); [done|exact E2].
  - rewrite E1, E2. by destruct (wm e n).
Qed.

Lemma in_handler_spec :
  let n := at_entry (ev_attrs ev) in let hs := hstatus (c_h c) in
  c_pc in_handler = epc_read e (epc_write (entry_pc n)) /\ c_prv in_handler = 1 /\ c_v in_handler = false /\ c_elp in_handler = false /\
  c_s in_handler = mkX (x_tvec (c_s c)) (x_cause (c_s c)) (epc_write (c_pc c)) (x_tval (c_s c)) /\
  c_h in_handler = (if has_h e then mkH (hstatus_write e hs (inject_hstatus hs (inject_status r0))) (htval (c_h c)) (htinst (c_h c)) (hedeleg (c_h c))
                    else c_h c) /\
  c_vs in_handler = c_vs c /\ c_vsstatus in_handler = c_vsstatus c /\
  forall k, 0 <= k < 64 -> m_only k = false -> Z.testbit (mstatus (c_m in_handler)) k = handler_bit k.
Proof.
  cbv zeta. unfold in_handler, injected, interrupted_ctx, sse_event_inject. cbv zeta. rewrite (enter_trapped e c Hm Hh Hc t).
  cbn [fst snd k_regs k_cpu r_mepc r_mstatus k_a6 k_a7].
  change (at_entry (ev_attrs (set_status _ _))) with (at_entry (ev_attrs ev)).
  set (c' := with_sepc _ _). set (w := handler_status (inject_status r0)).
  destruct (word_special e c t Hm Hh Hc) as (S24 & S42 & S7 & S39). destruct (return_fields e c Hm Hc Hel t) as (R11 & R12 & R41 & _).
  assert (c_m c' = c_m (trapped e c t) /\ c_elp c' = false /\ c_vsstatus c' = c_vsstatus c /\ c_vs c' = c_vs c) as (Em & Ee & Evs & Ev)
    by (unfold c'; destruct (has_h e); done).
  destruct (leave_spec e c' (mkRegs (entry_pc (at_entry (ev_attrs ev))) w) PRV_S) as (Lpc & Lprv & Lv & Lelp & Ls & Lh & Lvs & Lvss & Lm).
  { exact Hm. } { rewrite Em. exact S24. } { rewrite Em. exact S42. } { apply prv_s_low. }
  { unfold w. cbn [r_mstatus]. by rewrite tb_handler_status by (clear; lia). } { unfold w. cbn [r_mstatus]. by rewrite tb_handler_status by (clear; lia). }
  { intros Ez. unfold w. cbn [r_mstatus]. rewrite tb_handler_status, tb_inject_status by (clear; lia). cbn. by apply R41. }
  { exact Ee. } { intros H. discriminate H. }
  rewrite Em in Lv, Lm. change (mstatus (c_m (trapped e c t))) with (trap_word e c t) in Lv, Lm. cbn [r_mstatus r_mepc] in *.
  split; [exact Lpc|]. split; [exact Lprv|]. split.
  { rewrite Lv. unfold w. rewrite tb_handler_status by (clear; lia). cbn. destruct (has_h e) eqn:Eh; [done|by apply S39]. }
  split; [exact Lelp|]. split; [rewrite Ls; unfold c'; by destruct (has_h e)|]. split; [rewrite Lh; unfold c'; by destruct (has_h e)|].
  split; [by rewrite Lvs|]. split; [by rewrite Lvss|]. intros k Hk Hex. rewrite Lm by done.
  destruct (Z.eqb_spec k 63) as [->|H63].
  { unfold dirty, w. rewrite !handler_word_bits by (done || (clear; lia)). unfold handler_bit. cbn [Z.eqb Pos.eqb]. symmetry. apply (sd_bit e c Hm Hh Hc). }
  destruct (Z.eqb_spec k 3) as [->|H3]; [|apply handler_word_bits; try done; clear - Hk H63; lia].
  unfold w. rewrite tb_handler_status, tb_inject_status by (clear; lia). exact S7.
Qed.

(** ** Leaving the handler *)

(** The handler, which finds everything but the program counter as it was when it
    started, traps again to say that it is done. *)
Section Leave.
Context (c3 : cpu) (t3 : trap_t) (b6 b7 : Z).
Context (Hc3 : cpu_ok e c3) (Hview : same_view e (with_pc c3 (c_pc in_handler)) in_handler).
Context (Hvs : vs_legal (c_vsstatus c)) (Hsepc : epc_write (epc_read e (x_epc (c_s c))) = x_epc (c_s c)).
Context (Hhs : hstatus_legal (hstatus (c_h c))) (Hspv : has_h e = true -> Z.testbit (hstatus_mask e) 7 = true).

Definition returning_ctx : sse_ctx := mkCtx (trap_enter e (trapped e c3 t3)).1 b6 b7 (trapped e c3 t3).
Definition resumed_ctx : sse_ctx := sse_event_resume v (at_interrupted (ev_attrs injected.1)) returning_ctx.
Definition resumed : cpu := trap_leave e (k_cpu resumed_ctx) (k_regs resumed_ctx).

Abbreviation fl := (sse_interrupted_flags v r0 (hstatus (c_h c))).
Abbreviation r3 := (mstatus_read e (trap_word e c3 t3)).
Abbreviation z := (resume_status v r3 (hstatus (c_h c3)) fl).

Lemma saved_attrs : at_interrupted (ev_attrs injected.1) = mkIntr (epc_read e (x_epc (c_s c))) fl a6 a7.
Proof. unfold injected, interrupted_ctx, sse_event_inject. rewrite (enter_trapped e c Hm Hh Hc t). done. Qed.

Lemma handler_bits n : 0 <= n < 64 -> m_only n = false -> Z.testbit (mstatus (c_m c3)) n = handler_bit n.
Proof.
  intros Hn Hex. destruct in_handler_spec as (_ & _ & _ & _ & _ & _ & _ & _ & Hb). rewrite <- Hb by done. apply (sv_mstatus _ _ _ Hview n Hn Hex).
Qed.

(** The word the firmware writes, outside the fields of machine mode. *)
Lemma resume_word_bits n :
  0 <= n < 63 -> m_only n = false -> n <> 3 -> wnew e (trap_word e c3 t3) z n = Z.testbit m n.
Proof.
  intros Hn Hex H3. assert (0 <= n < 64 /\ n <> 63) as [Hn' H63] by lia. destruct (wm_facts e Hm) as (W1 & W5 & W8 & W23 & W24 & _).
  destruct (word_special e c3 t3 Hm Hh Hc3) as (S24 & _). destruct (flags_bits v r0 (hstatus (c_h c))) as (F5 & F8 & F23 & _).
  unfold wnew. rewrite (tb_resume_status _ _ _ _ n) by done.
  destruct (decide (n = 24)) as [->|H24].
  { rewrite W24, S24. symmetry. apply (co_sdt e c Hc). }
  destruct (word_bits e c3 t3 Hm Hc3 n Hn' H24 Hex H3 H63) as [E1 E2]. destruct (word_bits e c t Hm Hc n Hn' H24 Hex H3 H63) as [E1' E2'].
  rewrite handler_bits in E1, E2 by done. unfold handler_bit in E1, E2.
  assert ((n =? 12) = false /\ (n =? 11) = false /\ (n =? 39) = false) as (-> & -> & ->) by (clear - Hex; unfold m_only in Hex; lia).
  rewrite (proj2 (Z.eqb_neq n 24)) by done. rewrite F5, F8, F23.
  at_bits n [23; 8; 5; 1]; cbn [Z.eqb Pos.eqb] in *; rewrite ?W1, ?W5, ?W8, ?W23; try done.
  - destruct (has_zicfilp e); [exact E1'|exact E2].
  - destruct (word_bits e c3 t3 Hm Hc3 5) as [-> _]; try done. by rewrite handler_bits by done.
  - rewrite E1, E2. by destruct (wm e n).
Qed.

(** hstatus in the handler, and after it. *)
Lemma handler_hstatus : has_h e = true ->
  c_h c3 = mkH (hstatus_write e (hstatus (c_h c)) (inject_hstatus (hstatus (c_h c)) (inject_status r0))) (htval (c_h c)) (htinst (c_h c)) (hedeleg (c_h c)).
Proof.
  intros Eh. destruct in_handler_spec as (_ & _ & _ & _ & _ & Lh & _). rewrite Eh in Lh. rewrite <- Lh. exact (sv_h _ _ _ Hview Eh).
Qed.

Lemma hstatus_restored : has_h e = true -> hstatus_write e (hstatus (c_h c3)) (resume_hstatus (hstatus (c_h c3)) fl) = hstatus (c_h c).
Proof.
  intros Eh. pose proof (f_equal hstatus (handler_hstatus Eh)) as E. cbn [hstatus] in E. set (hs := hstatus (c_h c)) in *.
  destruct (flags_bits v r0 hs) as (_ & _ & _ & _ & Hf). destruct (Hf Eh) as [F7 F8].
  pose proof (inject_hstatus_legal hs (inject_status r0) Hhs) as Hi.
  assert (forall n, 0 <= n < 64 -> Z.testbit (hstatus (c_h c3)) n =
    if Z.testbit (hstatus_mask e) n then Z.testbit (inject_hstatus hs (inject_status r0)) n else Z.testbit hs n) as Hb.
  { intros n Hn. rewrite E. by apply tb_hswrite. }
  assert (hstatus_legal (hstatus (c_h c3))) as Hl.
  { split; [rewrite E; apply hswrite_range; [done|apply Hhs]|]. rewrite pmm_bits, !Hb, !tb_inject_hstatus by (clear; lia). cbn [Z.eqb Pos.eqb].
    destruct Hhs as [_ Hp]. rewrite pmm_bits in Hp. by destruct (Z.testbit (hstatus_mask e) 48), (Z.testbit (hstatus_mask e) 49). }
  apply (word_eq_bits 64); [clear; lia|apply hswrite_range; [by apply resume_hstatus_legal|apply Hl]|apply Hhs|].
  intros n Hn. rewrite tb_hswrite by (done || by apply resume_hstatus_legal). rewrite tb_resume_hstatus, Hb, tb_inject_hstatus, F7, F8 by done.
  at_bits n [7; 8]; [destruct (Z.testbit (hstatus_mask e) 7)|destruct (Z.testbit (hstatus_mask e) 8)|destruct (Z.testbit (hstatus_mask e) n)]; done.
Qed.

(** The mode the firmware takes from hstatus for a return to a guest. *)
Lemma resume_virt : has_h e = true -> Z.testbit (hstatus (c_h c3)) 7 = Z.testbit (hstatus (c_h c)) 7 || c_v c.
Proof.
  intros Eh. pose proof (f_equal hstatus (handler_hstatus Eh)) as E. cbn [hstatus] in E. rewrite E.
  rewrite tb_hswrite by (lia || by apply inject_hstatus_legal). rewrite Hspv, tb_inject_hstatus by (done || lia). cbn [Z.eqb Pos.eqb].
  destruct (return_fields e c Hm Hc Hel t) as (_ & _ & _ & R39). rewrite tb_inject_status by lia. cbn [Z.eqb Pos.eqb]. by rewrite R39.
Qed.

Lemma resumed_spec :
  c_pc resumed = c_pc c /\ c_prv resumed = c_prv c /\ c_v resumed = (has_h e && Z.testbit (hstatus (c_h c)) 7) || c_v c /\
  c_elp resumed = false /\ c_s resumed = c_s c /\ (has_h e = true -> c_h resumed = c_h c) /\ c_vs resumed = c_vs c /\
  c_vsstatus resumed = c_vsstatus c /\ k_a6 resumed_ctx = a6 /\ k_a7 resumed_ctx = a7 /\
  forall n, 0 <= n < 64 -> m_only n = false -> Z.testbit (mstatus (c_m resumed)) n = Z.testbit m n.
Proof.
  destruct in_handler_spec as (_ & _ & Hv2 & _ & Hs2 & _ & Hvs2 & Hvss2 & _). destruct Hview as [(_ & Vprv & Vv & Vel) _ Vs _ [Vvs Vvss]].
  cbn [with_pc c_prv c_v c_elp c_s c_vs c_vsstatus] in *. rewrite Hs2 in Vs. rewrite Hvs2 in Vvs. rewrite Hvss2 in Vvss. destruct (co_pc e c Hc) as [P1 P2].
  destruct (word_special e c3 t3 Hm Hh Hc3) as (S24 & S42 & S7 & S39). destruct (return_fields e c3 Hm Hc3) with (t := t3) as (_ & _ & R41 & _);
    [rewrite Vel; apply in_handler_spec|].
  unfold resumed, resumed_ctx, sse_event_resume, returning_ctx. rewrite saved_attrs, (enter_trapped e c3 Hm Hh Hc3 t3).
  cbn [fst k_regs k_cpu k_a6 k_a7 r_mstatus r_mepc i_flags i_a6 i_a7 i_sepc trapped set_privilege with_m c_s c_h].
  rewrite Vs. cbn [x_epc]. rewrite P1, P2.
  set (c' := with_sepc _ _).
  assert (c_m c' = c_m (trapped e c3 t3) /\ c_elp c' = false /\ c_vsstatus c' = c_vsstatus c /\ c_vs c' = c_vs c) as (Em & Ee & Evs & Ev)
    by (unfold c'; destruct (has_h e); cbn; done).
  destruct (leave_spec e c' (mkRegs (c_pc c) z) (c_prv c)) as (Lpc & Lprv & Lv & Lelp & Ls & Lh & Lvs & Lvss & Lm).
  { exact Hm. } { rewrite Em. exact S24. } { rewrite Em. exact S42. } { apply (co_prv e c Hc). }
  { cbn [r_mstatus]. rewrite tb_resume_status by (clear; lia). cbn [Z.eqb Pos.eqb].
    destruct (word_bits e c3 t3 Hm Hc3 8) as [-> _]; try done. by rewrite handler_bits by done. }
  { cbn [r_mstatus]. by rewrite tb_resume_status by (clear; lia). }
  { intros Ez. cbn [r_mstatus]. rewrite tb_resume_status by (clear; lia). by apply R41. }
  { exact Ee. } { intros _ _. rewrite Evs. by apply vs_mret. }
  rewrite Em in Lv, Lm. change (mstatus (c_m (trapped e c3 t3))) with (trap_word e c3 t3) in Lv, Lm. cbn [r_mstatus r_mepc] in *.
  split; [by rewrite Lpc, P1, P2|]. split; [exact Lprv|]. split.
  { rewrite Lv. pose proof resume_virt as Hrv. destruct (has_h e) eqn:Eh; cbn [andb orb].
    - rewrite tb_resume_status by (clear; lia). cbn [Z.eqb Pos.eqb]. rewrite Eh. by apply Hrv.
    - rewrite S39 by done. destruct (c_v c) eqn:Ecv; [|done]. pose proof (co_v e c Hc Ecv). congruence. }
  split; [exact Lelp|]. split.
  { rewrite Ls. unfold c'. destruct (has_h e); cbn [with_sepc with_hstatus c_s]; rewrite Hsepc;
      change (c_s (trapped e c3 t3)) with (c_s c3); rewrite Vs; by destruct (c_s c). }
  split.
  { intros Eh. rewrite Lh. unfold c'. rewrite Eh. cbn [with_sepc with_hstatus c_h].
    change (c_h (trapped e c3 t3)) with (c_h c3). rewrite (hstatus_restored Eh).
    rewrite (handler_hstatus Eh). cbn [htval htinst hedeleg]. by destruct (c_h c). }
  split; [by rewrite Lvs|]. split; [by rewrite Lvss|]. do 2 (split; [done|]). intros n Hn Hex. rewrite Lm by done.
  destruct (Z.eqb_spec n 63) as [->|H63].
  { unfold dirty. rewrite !resume_word_bits by (done || (clear; lia)). symmetry. apply (sd_bit e c Hm Hh Hc). }
  destruct (Z.eqb_spec n 3) as [->|H3]; [|apply resume_word_bits; try done; clear - Hn H63; lia].
  rewrite tb_resume_status by (clear; lia). cbn [Z.eqb Pos.eqb]. rewrite S7. by rewrite handler_bits by done.
Qed.
End Leave.
End Enter.

(** ** The round trip *)

(** A hart in a lower mode with legal registers, about to take an exception that
    is not delegated; it does not expect a landing pad. *)
Record interruptible (e : isa) (c : cpu) (t : trap_t) : Prop := {
  in_ok : cpu_ok e c;
  in_elp : c_elp c = false;
  in_cause : 0 <= t_cause t < 64;
  in_medeleg : Z.testbit (medeleg (c_m c)) (t_cause t) = false;
  in_vsstatus : vs_legal (c_vsstatus c);
  in_sepc : epc_write (epc_read e (x_epc (c_s c))) = x_epc (c_s c);
  in_hstatus : hstatus_legal (hstatus (c_h c));
  in_spv : has_h e = true -> Z.testbit (hstatus_mask e) 7 = true }.

(** A handler that started as [c2] calls back from [c3]: what it sees is as it was
    but for the program counter. *)
Record calls_back (e : isa) (c2 c3 : cpu) (t : trap_t) : Prop := {
  cb_ok : cpu_ok e c3;
  cb_view : same_view e (with_pc c3 (c_pc c2)) c2;
  cb_cause : 0 <= t_cause t < 64;
  cb_medeleg : Z.testbit (medeleg (c_m c3)) (t_cause t) = false }.

Section Roundtrip.
Context (v : sse_env).
Abbreviation e := (v_isa v).
Context (Hm : m_dte e = false) (Hh : h_dte e = false).

(** What the handler finds: its entry point and argument, supervisor mode with
    interrupts off, the address and the mode it has interrupted. *)
Record handler_entry (ev : sbi_sse_event) (c : cpu) (k : sse_ctx) (c2 : cpu) : Prop := {
  he_pc : c_pc c2 = epc_read e (epc_write (entry_pc (at_entry (ev_attrs ev))));
  he_args : k_a6 k = current_hartid v /\ k_a7 k = entry_arg (at_entry (ev_attrs ev));
  he_mode : c_prv c2 = PRV_S /\ c_v c2 = false /\ c_elp c2 = false;
  he_sepc : epc_read e (x_epc (c_s c2)) = c_pc c;
  he_sie : Z.testbit (mstatus (c_m c2)) (mpos SIE) = false;
  he_spie : Z.testbit (mstatus (c_m c2)) (mpos SPIE) = Z.testbit (mstatus (c_m c)) (mpos SIE);
  he_spp : Z.testbit (mstatus (c_m c2)) (mpos SPP) = (c_prv c =? PRV_S);
  he_vs : c_vs c2 = c_vs c /\ c_vsstatus c2 = c_vsstatus c }.

Lemma handler_entered c t ev a6 a7 :
  interruptible e c t -> let k := (injected v c t ev a6 a7).2 in handler_entry ev c k (in_handler v c t ev a6 a7).
Proof.
  intros [Hc Hel _ _ _ _ _ _]. destruct (in_handler_spec v c t ev a6 a7 Hm Hh Hc Hel) as (H1 & H2 & H3 & H4 & H5 & _ & H6 & H7 & H8).
  destruct (co_pc e c Hc) as [P1 P2]. split; try done.
  - rewrite H5. cbn [x_epc]. by rewrite P1, P2.
  - by rewrite H8.
  - by rewrite H8.
  - by rewrite H8.
Qed.

Lemma interrupted_goes_on c t ev a6 a7 c3 t3 b6 b7 :
  interruptible e c t -> calls_back e (in_handler v c t ev a6 a7) c3 t3 ->
  (has_h e = true -> Z.testbit (hstatus (c_h c)) 7 = true -> c_v c = true) ->
  let k4 := resumed_ctx v c t ev a6 a7 c3 t3 b6 b7 in
  same_view e (trap_leave e (k_cpu k4) (k_regs k4)) c /\ k_a6 k4 = a6 /\ k_a7 k4 = a7.
Proof.
  intros [Hc Hel _ _ Hvs Hse Hhs Hspv] [Hc3 Hview _ _] Hv.
  destruct (resumed_spec v c t ev a6 a7 Hm Hh Hc Hel c3 t3 b6 b7 Hc3 Hview Hvs Hse Hhs Hspv)
    as (R1 & R2 & R3 & R4 & R5 & R6 & R7 & R8 & R9 & R10 & R11).
  split; [|done]. split; [|exact R11|exact R5|exact R6|done]. unfold resumed in *. rewrite R1, R2, R3, R4, Hel. split_and!; try done.
  destruct (has_h e); [|done]. destruct (Z.testbit (hstatus (c_h c)) 7); [|done]. by rewrite Hv.
Qed.

(** C8: a handler of a software event is invisible to the code it
    interrupts.  A hart takes an exception, the firmware enters the handler of an
    event instead of returning: the handler starts at its entry point in
    supervisor mode, with interrupts off, its argument in a7, the hart id in a6,
    and finds in sepc, SPP and SPIE what it has interrupted.  When it calls back
    and has left the registers it sees as they were, the firmware returns to the
    interrupted code and all the supervisor and its guests can see of the hart,
    a6 and a7 included, is as before.  hstatus.SPV is not set unless the
    interrupted code is a guest. *)
Theorem handler_roundtrip c t ev a6 a7 :
  interruptible e c t -> (has_h e = true -> Z.testbit (hstatus (c_h c)) 7 = true -> c_v c = true) ->
  exists c1, take_trap e c t = Some c1 /\
  let '(ev1, k1) := sse_event_inject v ev (mkCtx (trap_enter e c1).1 a6 a7 c1) in
  let c2 := trap_leave e (k_cpu k1) (k_regs k1) in
  handler_entry ev c k1 c2 /\
  forall c3 t3 b6 b7, calls_back e c2 c3 t3 -> exists c4, take_trap e c3 t3 = Some c4 /\
    let k4 := sse_event_resume v (at_interrupted (ev_attrs ev1)) (mkCtx (trap_enter e c4).1 b6 b7 c4) in
    same_view e (trap_leave e (k_cpu k4) (k_regs k4)) c /\ k_a6 k4 = a6 /\ k_a7 k4 = a7.
Proof.
  intros Hi Hv. exists (trapped e c t). pose proof Hi as [Hc _ Hca Hd _ _ _ _]. split; [by apply take_trap_m|].
  pose proof (handler_entered c t ev a6 a7 Hi) as He. pose proof (interrupted_goes_on c t ev a6 a7) as Hg.
  unfold in_handler, resumed_ctx, returning_ctx, injected, interrupted_ctx in *. destruct (sse_event_inject v ev _) as [ev1 k1]. cbn [fst snd] in *.
  split; [exact He|]. intros c3 t3 b6 b7 Hcb. exists (trapped e c3 t3). split; [|by apply Hg].
  destruct Hcb. by apply take_trap_m.
Qed.

(** C38: if the interrupted code is a hypervisor (not a guest) and
    hstatus.SPV is set, as it is after an exit of one of its guests, the firmware
    does not clear SPV when it enters the handler, takes it for the mode of the
    interrupted code when the handler is done, and returns to the hypervisor's
    code in a guest's mode. *)
Theorem hypervisor_resumed_as_guest c t ev a6 a7 c3 t3 b6 b7 :
  interruptible e c t -> has_h e = true -> c_v c = false -> Z.testbit (hstatus (c_h c)) 7 = true ->
  let k1 := sse_event_inject v ev (mkCtx (trap_enter e (trapped e c t)).1 a6 a7 (trapped e c t)) in
  calls_back e (trap_leave e (k_cpu k1.2) (k_regs k1.2)) c3 t3 ->
  let k4 := sse_event_resume v (at_interrupted (ev_attrs k1.1)) (mkCtx (trap_enter e (trapped e c3 t3)).1 b6 b7 (trapped e c3 t3)) in
  let c5 := trap_leave e (k_cpu k4) (k_regs k4) in
  c_pc c5 = c_pc c /\ c_prv c5 = c_prv c /\ c_v c5 = true.
Proof.
  intros [Hc Hel _ _ Hvs Hse Hhs Hspv] Eh Ev E7 k1 [Hc3 Hview _ _] k4 c5.
  destruct (resumed_spec v c t ev a6 a7 Hm Hh Hc Hel c3 t3 b6 b7 Hc3 Hview Hvs Hse Hhs Hspv) as (R1 & R2 & R3 & _).
  rewrite Eh, E7 in R3. done.
Qed.
End Roundtrip.

(** ** Examples *)

Definition resume_env : sse_env := mkEnv isa_example scratch_boot (fun _ => hart_example SBI_HSM_STATE_STARTED) None 0 (fun _ => 0).
Definition resume_event : sbi_sse_event := mkEvent (mkAttrs 0xe 0 0 0 (mkEntry 0x80200100 5) (mkIntr 0 0 0 0)) 0xffff0000 0 None.
Definition ecall_example : trap_t := mkTrap 9 0 0 0 false.

(** A guest in user mode, and a hypervisor after the exit of a guest. *)
Definition guest_example : cpu := cpu_example 0x80 0.
Definition hypervisor_example : cpu :=
  mkCpu 0x80201000 PRV_S false false (mkM 0x82 (mkX 0x80000000 0 0 0) 0 0 0) (mkX 0x80200100 0 0 0) (mkH 0x200000080 0 0 0) 0 (mkX 0x400000 0 0 0).

(** The handler is done at 0x80200200. *)
Definition done_example (c : cpu) : cpu := with_pc (in_handler resume_env c (fault_example 13) resume_event 6 7) 0x80200200.

Lemma guest_interruptible : interruptible isa_example guest_example (fault_example 13).
Proof. by split. Qed.

Lemma hypervisor_interruptible : interruptible isa_example hypervisor_example (fault_example 13).
Proof. by split. Qed.

Lemma same_view_pc e c pc : same_view e (with_pc (with_pc c pc) (c_pc c)) c.
Proof. by split. Qed.

Lemma done_calls_back c :
  cpu_ok isa_example (done_example c) -> medeleg (c_m (done_example c)) = 0 ->
  calls_back isa_example (in_handler resume_env c (fault_example 13) resume_event 6 7) (done_example c) ecall_example.
Proof. intros Hok Hd. split; [exact Hok|apply same_view_pc|cbn; lia|rewrite Hd; reflexivity]. Qed.

(** A property of a hart that can be computed. *)
Ltac computed c := let x := eval vm_compute in c in replace c with x by (vm_compute; reflexivity).

Lemma guest_done : calls_back isa_example (in_handler resume_env guest_example (fault_example 13) resume_event 6 7) (done_example guest_example) ecall_example.
Proof. apply done_calls_back; [|vm_compute; reflexivity]. computed (done_example guest_example). by split. Qed.

Lemma hypervisor_done :
  calls_back isa_example (in_handler resume_env hypervisor_example (fault_example 13) resume_event 6 7) (done_example hypervisor_example) ecall_example.
Proof. apply done_calls_back; [|vm_compute; reflexivity]. computed (done_example hypervisor_example). by split. Qed.

Lemma handler_roundtrip_witness :
  exists k, same_view isa_example (trap_leave isa_example (k_cpu k) (k_regs k)) guest_example /\ k_a6 k = 6 /\ k_a7 k = 7.
Proof.
  pose proof guest_done as Hcb. change isa_example with (v_isa resume_env) in *.
  destruct (handler_roundtrip resume_env eq_refl eq_refl guest_example (fault_example 13) resume_event 6 7 guest_interruptible) as (c1 & E1 & H).
  { intros _ _. reflexivity. }
  rewrite (take_trap_m (v_isa resume_env) guest_example (fault_example 13)) in E1;
    [|reflexivity|reflexivity|apply guest_interruptible|cbn; lia|reflexivity]. injection E1 as <-.
  unfold in_handler, injected, interrupted_ctx in Hcb.
  revert Hcb H. destruct (sse_event_inject resume_env resume_event _) as [ev1 k1]. intros Hcb [_ H].
  destruct (H _ _ 0 0 Hcb) as (c4 & _ & H4). eexists. exact H4.
Defined.

Lemma hypervisor_resumed_as_guest_witness :
  exists k, c_pc (trap_leave isa_example (k_cpu k) (k_regs k)) = 0x80201000 /\ c_v (trap_leave isa_example (k_cpu k) (k_regs k)) = true.
Proof.
  destruct (hypervisor_resumed_as_guest resume_env eq_refl eq_refl hypervisor_example (fault_example 13) resume_event 6 7
    (done_example hypervisor_example) ecall_example 0 0 hypervisor_interruptible eq_refl eq_refl eq_refl) as (H1 & _ & H3).
  { exact hypervisor_done. }
  eexists. split; [exact H1|exact H3].
Defined.
