(* ===== verification/Ecall.v ===== *)
(** * Environment calls (lib/sbi/sbi_ecall.c, lib/sbi/sbi_ecall_base.c)

    The supervisor calls the firmware with the number of an extension in a7 and
    of a function in a6.  The extensions of an image register themselves at boot
    in a list of the kind of file Dlist; [sbi_ecall_handler] looks the number up
    in that list, runs the extension's handler and puts the result into the
    caller's registers.  The registration callbacks of all sixteen extensions
    (lib/sbi/sbi_ecall_*.c) and the handler of the base extension are defined
    here; the other handlers are an argument of the dispatcher.  The loops over
    the list have one round per extension structure as fuel, which is always
    enough ([find_spec]). *)

From stdpp Require Import functions strings.
From S2P Require Import Prelude Dlist.

Local Open Scope Z_scope.

(** ** Extensions *)

(** The structures of the image, by the names of their variables. *)
Inductive ecall_ext :=
  | ecall_time | ecall_rfence | ecall_ipi | ecall_base | ecall_hsm | ecall_srst | ecall_susp | ecall_pmu
  | ecall_dbcn | ecall_cppc | ecall_fwft | ecall_legacy | ecall_vendor | ecall_dbtr | ecall_sse | ecall_mpxy.

#[export] Instance ecall_ext_eq : EqDecision ecall_ext.
Proof. solve_decision. Defined.

Definition all_exts : list ecall_ext :=
  [ecall_time; ecall_rfence; ecall_ipi; ecall_base; ecall_hsm; ecall_srst; ecall_susp; ecall_pmu;
   ecall_dbcn; ecall_cppc; ecall_fwft; ecall_legacy; ecall_vendor; ecall_dbtr; ecall_sse; ecall_mpxy].

(** The list pointers are in the memory of file Dlist.  A callback is present or
    NULL; which function it is follows from the variable.  No structure has a
    probe callback: [x_probe] is its result and its output. *)
Record sbi_ecall_extension := mkExt {
  x_name : string;
  x_start : Z;
  x_end : Z;
  x_experimental : bool;
  x_register : bool;
  x_probe : option (Z -> Z * Z);
  x_handle : bool }.

Abbreviation SBI_ENODEV := (-1000).
Abbreviation SBI_EXT_BASE := 0x10.
Abbreviation SBI_EXT_VENDOR_START := 0x09000000.
Abbreviation SBI_EXT_VENDOR_END := 0x09FFFFFF.
Abbreviation SBI_EXT_0_1_SET_TIMER := 0x0.
Abbreviation SBI_EXT_0_1_CONSOLE_GETCHAR := 0x2.
Abbreviation SBI_EXT_0_1_SHUTDOWN := 0x8.

(** Their initial values, at the end of each lib/sbi/sbi_ecall_*.c. *)
Definition ecall_struct (e : ecall_ext) : sbi_ecall_extension :=
  let ext name a b := mkExt name a b false true None true in
  match e with
  | ecall_time => ext "time" 0x54494D45 0x54494D45
  | ecall_rfence => ext "rfnc" 0x52464E43 0x52464E43
  | ecall_ipi => ext "ipi" 0x735049 0x735049
  | ecall_base => ext "base" SBI_EXT_BASE SBI_EXT_BASE
  | ecall_hsm => ext "hsm" 0x48534D 0x48534D
  | ecall_srst => ext "srst" 0x53525354 0x53525354
  | ecall_susp => ext "susp" 0x53555350 0x53555350
  | ecall_pmu => ext "pmu" 0x504D55 0x504D55
  | ecall_dbcn => ext "dbcn" 0x4442434E 0x4442434E
  | ecall_cppc => ext "cppc" 0x43505043 0x43505043
  | ecall_fwft => ext "fwft" 0x46574654 0x46574654
  | ecall_legacy => ext "legacy" SBI_EXT_0_1_SET_TIMER SBI_EXT_0_1_SHUTDOWN
  | ecall_vendor => ext "vendor" SBI_EXT_VENDOR_START SBI_EXT_VENDOR_END
  | ecall_dbtr => ext "dbtr" 0x44425452 0x44425452
  | ecall_sse => ext "sse" 0x535345 0x535345
  | ecall_mpxy => ext "mpxy" 0x4D505859 0x4D505859
  end.

(** ** The registry *)

Inductive enode := exts_list | ext_node (e : ecall_ext).

#[export] Instance enode_eq : EqDecision enode.
Proof. solve_decision. Defined.

Record ecall_state := mkEcall { e_impid : Z; e_links : links enode; e_ext : ecall_ext -> sbi_ecall_extension }.

(** The static initialisers: SBI_OPENSBI_IMPID, an empty list, zero pointers
    elsewhere. *)
Definition ecall_boot : ecall_state :=
  mkEcall 1 (SBI_INIT_LIST_HEAD exts_list (mkLinks (fun _ => exts_list) (fun _ => exts_list))) ecall_struct.

Definition sbi_ecall_set_impid (impid : Z) (st : ecall_state) : ecall_state := mkEcall impid (e_links st) (e_ext st).
Definition set_links (m : links enode) (st : ecall_state) : ecall_state := mkEcall (e_impid st) m (e_ext st).
Definition set_range (e : ecall_ext) (a b : Z) (st : ecall_state) : ecall_state :=
  let x := e_ext st e in
  mkEcall (e_impid st) (e_links st)
    (<[e := mkExt (x_name x) a b (x_experimental x) (x_register x) (x_probe x) (x_handle x)]> (e_ext st)).

(** sbi_list_for_each_entry over the list: the entry it leaves at, or NULL. *)
Definition first_entry (st : ecall_state) (p : ecall_ext -> bool) : option (option ecall_ext) :=
  let at_node n := match n with exts_list => None | ext_node e => Some e end in
  pos ← sbi_list_for_each (length all_exts) (e_links st) exts_list (fun n => from_option p false (at_node n));
  Some (at_node pos).

Definition covers (x : sbi_ecall_extension) (extid : Z) : bool := (x_start x <=? extid) && (extid <=? x_end x).

Definition sbi_ecall_find_extension (extid : Z) (st : ecall_state) : option (option ecall_ext) :=
  first_entry st (fun t => covers (e_ext st t) extid).

Definition sbi_ecall_register_extension (ext : option ecall_ext) (st : ecall_state) : option (Z * ecall_state) :=
  match ext with
  | None => Some (SBI_EINVAL, st)
  | Some ext =>
      let x := e_ext st ext in
      if (x_end x <? x_start x) || negb (x_handle x) then Some (SBI_EINVAL, st)
      else
        t ← first_entry st (fun t => negb ((x_end (e_ext st t) <? x_start x) || (x_end x <? x_start (e_ext st t))));
        match t with
        | Some _ => Some (SBI_EINVAL, st)
        | None => Some (0, set_links (sbi_list_add_tail (ext_node ext) exts_list (e_links st)) st)
        end
  end.

Definition sbi_ecall_unregister_extension (ext : option ecall_ext) (st : ecall_state) : option ecall_state :=
  match ext with
  | None => Some st
  | Some ext =>
      t ← first_entry st (fun t => bool_decide (t = ext));
      match t with
      | Some _ => Some (set_links (sbi_list_del_init (ext_node ext) (e_links st)) st)
      | None => Some st
      end
  end.

(** ** Boot *)

(** What the registration callbacks and the base handler ask of other parts and
    of the hart: sbi_system_reset_supported, sbi_system_suspend_supported,
    sbi_console_get_device, sbi_cppc_get_device, sbi_dbtr_get_total_triggers,
    sbi_mpxy_channel_available, sbi_platform_vendor_ext_check, and the
    registers mvendorid, marchid and mimpid. *)
Record ecall_env := mkEnv {
  v_reset : Z -> Z -> bool;
  v_suspend : Z -> bool;
  v_console : bool;
  v_cppc : bool;
  v_triggers : Z;
  v_mpxy : bool;
  v_vendor : bool;
  v_mvendorid : Z;
  v_marchid : Z;
  v_mimpid : Z }.

(** SBI_SRST_RESET_TYPE_LAST is 2, SBI_SRST_RESET_REASON_NONE is 0. *)
Definition srst_available (v : ecall_env) : bool := existsb (fun type => v_reset v type 0) [0; 1; 2].

(** SBI_SUSP_SLEEP_TYPE_LAST is 0. *)
Definition susp_available (v : ecall_env) : bool := existsb (v_suspend v) [0].

Definition sbi_ecall_vendor_id (v : ecall_env) : Z :=
  wrap 64 (SBI_EXT_VENDOR_START + Z.land (v_mvendorid v) (SBI_EXT_VENDOR_END - SBI_EXT_VENDOR_START)).

Definition sbi_ecall_vendor_register_extensions (v : ecall_env) (st : ecall_state) : option (Z * ecall_state) :=
  let extid := sbi_ecall_vendor_id v in
  if negb (v_vendor v) then Some (0, st)
  else sbi_ecall_register_extension (Some ecall_vendor) (set_range ecall_vendor extid extid st).

(** The callback of each structure: sbi_ecall_srst_register_extensions and those of
    its kind in the other files. *)
Definition register_extensions (v : ecall_env) (e : ecall_ext) (st : ecall_state) : option (Z * ecall_state) :=
  let if_available b := if negb b then Some (0, st) else sbi_ecall_register_extension (Some e) st in
  match e with
  | ecall_srst => if_available (srst_available v)
  | ecall_susp => if_available (susp_available v)
  | ecall_dbcn => if_available (v_console v)
  | ecall_cppc => if_available (v_cppc v)
  | ecall_dbtr => if_available (negb (v_triggers v =? 0))
  | ecall_mpxy => if_available (v_mpxy v)
  | ecall_vendor => sbi_ecall_vendor_register_extensions v st
  | _ => sbi_ecall_register_extension (Some e) st
  end.

(** [exts] is the array sbi_ecall_exts, which the build makes from the
    configuration. *)
Fixpoint sbi_ecall_init (v : ecall_env) (exts : list ecall_ext) (st : ecall_state) : option (Z * ecall_state) :=
  match exts with
  | [] => Some (0, st)
  | ext :: exts =>
      '(ret, st) ← (if x_register (e_ext st ext) then register_extensions v ext st else Some (SBI_ENODEV, st));
      if ret =? 0 then sbi_ecall_init v exts st else Some (ret, st)
  end.

(** ** The base extension *)

(** Result and output of the probe. *)
Definition sbi_ecall_base_probe (extid : Z) (st : ecall_state) : option (Z * Z) :=
  t ← sbi_ecall_find_extension extid st;
  match t with
  | None => Some (0, 0)
  | Some ext => match x_probe (e_ext st ext) with Some probe => Some (probe extid) | None => Some (0, 1) end
  end.

(** The registers of the caller: mepc, mstatus, and a0 to a7 by number. *)
Record ecall_regs := mkERegs { g_mepc : Z; g_mstatus : Z; g_a : Z -> Z }.
Definition set_a (i x : Z) (regs : ecall_regs) : ecall_regs :=
  mkERegs (g_mepc regs) (g_mstatus regs) (<[i := x]> (g_a regs)).

Record sbi_ecall_return := mkRet { skip_regs_update : bool; o_value : Z }.

(** Version 3.0 of the specification, version 1.8 of the implementation; the
    output is 0 before the call. *)
Definition sbi_ecall_base_handler (v : ecall_env) (funcid : Z) (regs : ecall_regs) (st : ecall_state) :
    option (Z * sbi_ecall_return) :=
  let value x := Some (0, mkRet false x) in
  match funcid with
  | 0 => value (Z.lor (Z.land (Z.shiftl 3 24) (Z.shiftl 0x7f 24)) 0)
  | 1 => value (e_impid st)
  | 2 => value (Z.lor (Z.shiftl 1 16) 8)
  | 4 => value (v_mvendorid v)
  | 5 => value (v_marchid v)
  | 6 => value (v_mimpid v)
  | 3 => '(ret, x) ← sbi_ecall_base_probe (g_a regs 0) st; Some (ret, mkRet false x)
  | _ => Some (SBI_ENOTSUPP, mkRet false 0)
  end.

(** ** The dispatcher *)

Abbreviation SBI_LAST_ERR := (-14).

Section Dispatch.
(** The rest of the firmware, and the handlers of the other extensions: result,
    output and registers. *)
Context {W : Type}.
Context (handler : ecall_ext -> Z -> Z -> ecall_regs -> W -> option (Z * sbi_ecall_return * ecall_regs * W)).

Definition ext_handle (v : ecall_env) (e : ecall_ext) (st : ecall_state) (extid funcid : Z) (regs : ecall_regs) (w : W) :
    option (Z * sbi_ecall_return * ecall_regs * W) :=
  match e with
  | ecall_base => '(ret, out) ← sbi_ecall_base_handler v funcid regs st; Some (ret, out, regs, w)
  | _ => handler e extid funcid regs w
  end.

Definition sbi_ecall_handler (v : ecall_env) (st : ecall_state) (regs : ecall_regs) (w : W) : option (ecall_regs * W) :=
  let extension_id := g_a regs 7 in
  let func_id := g_a regs 6 in
  ext ← sbi_ecall_find_extension extension_id st;
  '(ret, out, regs, w, is_0_1_spec) ←
    match ext with
    | Some e =>
        if x_handle (e_ext st e) then
          '(ret, out, regs, w) ← ext_handle v e st extension_id func_id regs w;
          Some (ret, out, regs, w, (SBI_EXT_0_1_SET_TIMER <=? extension_id) && (extension_id <=? SBI_EXT_0_1_SHUTDOWN))
        else Some (SBI_ENOTSUPP, mkRet false 0, regs, w, false)
    | None => Some (SBI_ENOTSUPP, mkRet false 0, regs, w, false)
    end;
  if skip_regs_update out then Some (regs, w)
  else
    let ret := if (ret <? SBI_LAST_ERR) || (negb (extension_id =? SBI_EXT_0_1_CONSOLE_GETCHAR) && (0 <? ret))
               then SBI_EFAIL else ret in
    let regs := set_a 0 (wrap 64 ret) (mkERegs (wrap 64 (g_mepc regs + 4)) (g_mstatus regs) (g_a regs)) in
    Some (if is_0_1_spec : bool then regs else set_a 1 (o_value out) regs, w).
End Dispatch.

(** ** What the registry holds *)

(** The list has the extensions [ps]; they have a handler and a range, and no two
    of them answer to the same number. *)
Record registry (ps : list ecall_ext) (st : ecall_state) : Prop := {
  reg_list : dlist (e_links st) exts_list (ext_node <$> ps);
  reg_valid : forall e, e ∈ ps -> x_handle (e_ext st e) = true /\ x_start (e_ext st e) <= x_end (e_ext st e);
  reg_unique : forall e1 e2 extid, e1 ∈ ps -> e2 ∈ ps ->
    covers (e_ext st e1) extid = true -> covers (e_ext st e2) extid = true -> e1 = e2 }.

Lemma covers_spec x extid : covers x extid = true <-> x_start x <= extid <= x_end x.
Proof. unfold covers. lia. Qed.

Lemma all_exts_all e : e ∈ all_exts.
Proof. destruct e; set_solver. Qed.

Lemma all_exts_nodup : NoDup all_exts.
Proof. by apply (bool_decide_unpack (NoDup all_exts)). Qed.

Lemma registry_nodup ps st : registry ps st -> NoDup ps.
Proof. intros [[Hnd _] _ _]. apply NoDup_cons in Hnd as [_ Hnd]. by apply NoDup_fmap_1 in Hnd. Qed.

(** Sixteen rounds are enough. *)
Lemma registry_length ps st : registry ps st -> (length ps <= length all_exts)%nat.
Proof.
  intros Hr. apply submseteq_length, NoDup_submseteq; [by eapply registry_nodup|]. intros e _. apply all_exts_all.
Qed.

Lemma find_nodes (p : ecall_ext -> bool) (q : enode -> bool) ps :
  (forall e, q (ext_node e) = p e) -> find q (ext_node <$> ps) = ext_node <$> find p ps.
Proof. intros Hq. induction ps as [|e ps IH]; [done|]. cbn. rewrite Hq. by destruct (p e). Qed.

Lemma first_entry_spec ps st p : registry ps st -> first_entry st p = Some (find p ps).
Proof.
  intros Hr. unfold first_entry. rewrite (for_each_spec _ _ _ _ (ext_node <$> ps)); [|apply Hr|].
  - cbn [mbind option_bind]. rewrite (find_nodes p) by done. by destruct (find p ps).
  - rewrite length_fmap. by eapply registry_length.
Qed.

Lemma find_spec ps st extid :
  registry ps st -> exists r, sbi_ecall_find_extension extid st = Some r /\
    forall e, r = Some e <-> e ∈ ps /\ covers (e_ext st e) extid = true.
Proof.
  intros Hr. exists (find (fun t => covers (e_ext st t) extid) ps). split; [by apply first_entry_spec|].
  intros e. split.
  - intros [Hin Hp]%find_some. by apply list_elem_of_In in Hin.
  - intros [Hin Hp]. destruct (find _ ps) as [t|] eqn:E.
    + apply find_some in E as [Ht Hpt]. f_equal. apply (reg_unique _ _ Hr _ _ extid); [by apply list_elem_of_In| | |]; done.
    + apply list_elem_of_In, (find_none _ _ E) in Hin. congruence.
Qed.

(** The registry depends on the structures of its extensions only. *)
Lemma registry_frame ps st st' :
  e_links st' = e_links st -> (forall e, e ∈ ps -> e_ext st' e = e_ext st e) -> registry ps st -> registry ps st'.
Proof.
  intros El Ee [Hl Hh Hu]. split; [by rewrite El|intros e He; rewrite Ee by done; by apply Hh|].
  intros e1 e2 extid H1 H2. rewrite !Ee by done. by apply Hu.
Qed.

(** Free to register: a handler, a range, and no number in use. *)
Definition registrable (ps : list ecall_ext) (st : ecall_state) (e : ecall_ext) : Prop :=
  x_handle (e_ext st e) = true /\ x_start (e_ext st e) <= x_end (e_ext st e) /\
  forall t extid, t ∈ ps -> covers (e_ext st t) extid = true -> covers (e_ext st e) extid = false.

Lemma registry_add ps st e :
  registry ps st -> registrable ps st e ->
  registry (ps ++ [e]) (set_links (sbi_list_add_tail (ext_node e) exts_list (e_links st)) st).
Proof.
  intros Hr (Hh & Hle & Hd).
  assert (e ∉ ps) as Hn.
  { intros He. assert (covers (e_ext st e) (x_start (e_ext st e)) = true) as Hi by (apply covers_spec; lia).
    pose proof (Hd _ _ He Hi). congruence. }
  split.
  - rewrite fmap_app. cbn. apply (dlist_add_tail _ exts_list _ []); rewrite app_nil_r; [apply Hr|].
    intros [?|He]%elem_of_cons; [done|]. apply list_elem_of_fmap in He as (? & [= <-] & ?). done.
  - cbn. intros t [Ht| ->%list_elem_of_singleton]%elem_of_app; [by apply (reg_valid _ _ Hr)|done].
  - cbn. intros e1 e2 extid [H1| ->%list_elem_of_singleton]%elem_of_app [H2| ->%list_elem_of_singleton]%elem_of_app E1 E2.
    + by apply (reg_unique _ _ Hr e1 e2 extid).
    + rewrite (Hd e1 extid) in E2 by done. done.
    + rewrite (Hd e2 extid) in E1 by done. done.
    + done.
Qed.

Lemma filter_ne (e : ecall_ext) (ps : list ecall_ext) : e ∉ ps -> filter (.≠ e) ps = ps.
Proof.
  induction ps as [|t ps IH]; [done|]. intros Hn. rewrite filter_cons_True by set_solver. f_equal. apply IH. set_solver.
Qed.

Lemma registry_remove ps st e :
  registry ps st -> e ∈ ps ->
  registry (filter (.≠ e) ps) (set_links (sbi_list_del_init (ext_node e) (e_links st)) st).
Proof.
  intros Hr He. pose proof (registry_nodup _ _ Hr) as Hnd. apply list_elem_of_split in He as (l1 & l2 & ->).
  apply NoDup_app in Hnd as (_ & H12 & [H2 _]%NoDup_cons).
  assert (filter (.≠ e) (l1 ++ e :: l2) = l1 ++ l2) as ->.
  { rewrite filter_app, filter_cons_False by auto. f_equal; apply filter_ne; [|done].
    intros Hx. apply (H12 _ Hx), list_elem_of_here. }
  split; cbn.
  - rewrite fmap_app. apply dlist_del_init. pose proof (reg_list _ _ Hr) as Hl. by rewrite fmap_app in Hl.
  - intros t Ht. apply (reg_valid _ _ Hr). set_solver.
  - intros e1 e2 extid H1 H3. apply (reg_unique _ _ Hr); set_solver.
Qed.

(** ** The operations on the registry *)

Lemma overlap_spec (x y : sbi_ecall_extension) :
  x_start x <= x_end x -> x_start y <= x_end y ->
  negb ((x_end y <? x_start x) || (x_end x <? x_start y)) = false <->
  forall extid, covers y extid = true -> covers x extid = false.
Proof.
  intros Hx Hy. split.
  - intros H extid Hi. apply covers_spec in Hi. unfold covers. lia.
  - intros H. destruct (Z_le_gt_dec (x_start x) (x_start y)).
    + specialize (H (x_start y)). rewrite covers_spec in H. unfold covers in H. lia.
    + specialize (H (x_start x)). rewrite covers_spec in H. unfold covers in H. lia.
Qed.

Lemma register_accepted ps st e :
  registry ps st -> registrable ps st e ->
  sbi_ecall_register_extension (Some e) st = Some (0, set_links (sbi_list_add_tail (ext_node e) exts_list (e_links st)) st).
Proof.
  intros Hr (Hh & Hle & Hd). unfold sbi_ecall_register_extension. cbv zeta.
  rewrite Hh, (proj2 (Z.ltb_ge _ _)) by done. cbn [orb negb]. rewrite (first_entry_spec _ _ _ Hr). cbn [mbind option_bind].
  destruct (find _ ps) as [t|] eqn:E; [|done]. apply find_some in E as [Ht%list_elem_of_In Hp].
  assert (negb ((x_end (e_ext st t) <? x_start (e_ext st e)) || (x_end (e_ext st e) <? x_start (e_ext st t))) = false) as Hf.
  { apply overlap_spec; [done|by apply (reg_valid _ _ Hr)|]. intros extid. by apply Hd. }
  cbv beta in Hp. rewrite Hf in Hp. done.
Qed.

Lemma register_refused ps st e :
  registry ps st -> ~ registrable ps st e ->
  sbi_ecall_register_extension (Some e) st = Some (SBI_EINVAL, st).
Proof.
  intros Hr Hn. unfold sbi_ecall_register_extension. cbv zeta.
  destruct (_ || negb _) eqn:Eb; [done|]. apply orb_false_iff in Eb as [Hle%Z.ltb_ge Hh%negb_false_iff].
  rewrite (first_entry_spec _ _ _ Hr). cbn [mbind option_bind]. destruct (find _ ps) as [t|] eqn:E; [done|].
  destruct Hn. split_and!; [done|done|]. intros t extid Ht. apply overlap_spec; [done|by apply (reg_valid _ _ Hr)|].
  apply (find_none _ _ E). by apply list_elem_of_In.
Qed.

Lemma unregister_removes ps st e :
  registry ps st -> exists st', sbi_ecall_unregister_extension (Some e) st = Some st' /\
    registry (filter (.≠ e) ps) st' /\ e_ext st' = e_ext st.
Proof.
  intros Hr. unfold sbi_ecall_unregister_extension. rewrite (first_entry_spec _ _ _ Hr). cbn [mbind option_bind].
  destruct (find _ ps) as [t|] eqn:E.
  - apply find_some in E as [Ht%list_elem_of_In ->%bool_decide_eq_true]. eexists. split; [done|].
    split; [by apply registry_remove|done].
  - exists st. split_and!; [done| |done]. rewrite filter_ne; [done|]. intros He%list_elem_of_In.
    apply (find_none _ _ E) in He. by rewrite bool_decide_eq_false in He.
Qed.

Lemma registrable_dec ps st e : registry ps st -> registrable ps st e \/ ~ registrable ps st e.
Proof.
  intros Hr. destruct (x_handle (e_ext st e)) eqn:Hh; [|right; by intros (? & _); congruence].
  destruct (decide (x_start (e_ext st e) <= x_end (e_ext st e))) as [Hle|]; [|right; by intros (_ & ? & _)].
  destruct (existsb (fun t => negb ((x_end (e_ext st t) <? x_start (e_ext st e)) || (x_end (e_ext st e) <? x_start (e_ext st t)))) ps)
    eqn:Ex.
  - right. intros (_ & _ & Hd). apply existsb_exists in Ex as (t & Ht%list_elem_of_In & Ho).
    rewrite (proj2 (overlap_spec _ _ Hle (proj2 (reg_valid _ _ Hr t Ht)))) in Ho; [done|]. intros extid. by apply Hd.
  - left. split_and!; [done|done|]. intros t extid Ht. apply overlap_spec; [done|by apply (reg_valid _ _ Hr)|].
    apply not_true_is_false. intros Ho. apply not_true_iff_false in Ex. apply Ex, existsb_exists.
    exists t. by split; [apply list_elem_of_In|].
Qed.

(** ** Boot *)

(** The structures as they are registered, and which of them are. *)
Definition narrowed (v : ecall_env) (e : ecall_ext) : sbi_ecall_extension :=
  match e with
  | ecall_vendor => mkExt "vendor" (sbi_ecall_vendor_id v) (sbi_ecall_vendor_id v) false true None true
  | _ => ecall_struct e
  end.

Definition available (v : ecall_env) (e : ecall_ext) : bool :=
  match e with
  | ecall_srst => v_reset v 0 0 || v_reset v 1 0 || v_reset v 2 0
  | ecall_susp => v_suspend v 0
  | ecall_dbcn => v_console v
  | ecall_cppc => v_cppc v
  | ecall_dbtr => negb (v_triggers v =? 0)
  | ecall_mpxy => v_mpxy v
  | ecall_vendor => v_vendor v
  | _ => true
  end.

Lemma vendor_id_range v : SBI_EXT_VENDOR_START <= sbi_ecall_vendor_id v <= SBI_EXT_VENDOR_END.
Proof.
  unfold sbi_ecall_vendor_id. change (SBI_EXT_VENDOR_END - SBI_EXT_VENDOR_START) with (Z.ones 24).
  rewrite Z.land_ones by lia. pose proof (Z.mod_pos_bound (v_mvendorid v) (2 ^ 24)) as Hm.
  unfold wrap. rewrite Z.mod_small; lia.
Qed.

(** No number belongs to two structures. *)
Lemma narrowed_unique v e1 e2 extid :
  covers (narrowed v e1) extid = true -> covers (narrowed v e2) extid = true -> e1 = e2.
Proof.
  rewrite !covers_spec. pose proof (vendor_id_range v) as Hv.
  destruct e1, e2; cbn [narrowed ecall_struct x_start x_end]; intros H1 H2; try reflexivity; exfalso; lia.
Qed.

Lemma narrowed_handle v e : x_handle (narrowed v e) = true.
Proof. by destruct e. Qed.

Lemma narrowed_range v e : x_start (narrowed v e) <= x_end (narrowed v e).
Proof. destruct e; cbn; lia. Qed.

(** During boot: [ps] are registered with their final ranges, the others are as
    the image has them. *)
Record booting (v : ecall_env) (ps : list ecall_ext) (st : ecall_state) : Prop := {
  boot_registry : registry ps st;
  boot_in : forall e, e ∈ ps -> e_ext st e = narrowed v e;
  boot_out : forall e, e ∉ ps -> e_ext st e = ecall_struct e }.

(** The state in which a callback calls sbi_ecall_register_extension. *)
Definition narrow_range (v : ecall_env) (e : ecall_ext) (st : ecall_state) : ecall_state :=
  match e with ecall_vendor => set_range e (sbi_ecall_vendor_id v) (sbi_ecall_vendor_id v) st | _ => st end.

Lemma register_extensions_eq v e st :
  register_extensions v e st = if available v e then sbi_ecall_register_extension (Some e) (narrow_range v e st) else Some (0, st).
Proof.
  destruct e; cbn -[sbi_ecall_register_extension]; try done; unfold srst_available, susp_available; cbn -[sbi_ecall_register_extension].
  - rewrite !orb_false_r, orb_assoc. by destruct (_ || _).
  - rewrite orb_false_r. by destruct (v_suspend v 0).
  - by destruct (v_console v).
  - by destruct (v_cppc v).
  - unfold sbi_ecall_vendor_register_extensions. by destruct (v_vendor v).
  - by destruct (v_triggers v =? 0).
  - by destruct (v_mpxy v).
Qed.

Lemma narrow_range_ext v e st t :
  e_ext st e = ecall_struct e -> e_ext (narrow_range v e st) t = if decide (t = e) then narrowed v e else e_ext st t.
Proof.
  intros He. destruct (decide (t = e)) as [->|Hne].
  - destruct e; cbn; try done. rewrite fn_lookup_insert. by rewrite He.
  - destruct e; cbn; try done. by rewrite fn_lookup_insert_ne.
Qed.

Lemma narrow_range_links v e st : e_links (narrow_range v e st) = e_links st.
Proof. by destruct e. Qed.

Lemma booting_narrow v ps e st : booting v ps st -> e ∉ ps -> registry ps (narrow_range v e st) /\ registrable ps (narrow_range v e st) e.
Proof.
  intros [Hr Hi Ho] He.
  assert (forall t, t ∈ ps -> e_ext (narrow_range v e st) t = e_ext st t) as Hsame.
  { intros t Ht. rewrite narrow_range_ext, decide_False; [done| |by apply Ho]. by intros ->. }
  split; [by apply (registry_frame ps st); [apply narrow_range_links|..]|].
  unfold registrable. rewrite narrow_range_ext, decide_True by auto.
  split_and!; [apply narrowed_handle|apply narrowed_range|]. intros t extid Ht. rewrite Hsame, Hi by done. intros Hx.
  apply not_true_is_false. intros Hy. by rewrite (narrowed_unique v e t extid) in He.
Qed.

Lemma booting_step v ps e st :
  booting v ps st -> e ∉ ps ->
  exists st', register_extensions v e st = Some (0, st') /\ booting v (if available v e then ps ++ [e] else ps) st'.
Proof.
  intros Hb He. rewrite register_extensions_eq. destruct (available v e); [|by exists st].
  destruct (booting_narrow v ps e st Hb He) as [Hr Hf]. eexists. split; [by eapply register_accepted|].
  destruct Hb as [_ Hi Ho]. split; [by apply registry_add| |]; cbn [e_ext set_links]; intros t Ht;
    rewrite narrow_range_ext by auto; destruct (decide (t = e)) as [->|Hne]; [done| | |].
  - apply Hi. set_solver.
  - set_solver.
  - apply Ho. set_solver.
Qed.

Lemma booting_register v ps e st : booting v ps st -> x_register (e_ext st e) = true.
Proof.
  intros [_ Hi Ho]. destruct (decide (e ∈ ps)) as [H|H]; [rewrite (Hi _ H)|rewrite (Ho _ H)]; by destruct e.
Qed.

(** All callbacks succeed; what is available is registered, in the order of the
    array. *)
Lemma init_ok v exts : forall ps st,
  booting v ps st -> NoDup (ps ++ exts) ->
  exists st', sbi_ecall_init v exts st = Some (0, st') /\ booting v (ps ++ filter (available v) exts) st'.
Proof.
  induction exts as [|e exts IH]; intros ps st Hb Hnd; [exists st; by rewrite app_nil_r|].
  cbn [sbi_ecall_init]. rewrite (booting_register v ps e st) by done.
  assert (e ∉ ps) as He by (apply NoDup_app in Hnd as (_ & Hd & _); intros H; apply (Hd _ H), list_elem_of_here).
  destruct (booting_step v ps e st Hb He) as (st1 & -> & Hb1). cbn [mbind option_bind]. rewrite Z.eqb_refl.
  destruct (available v e) eqn:Ea.
  - destruct (IH _ _ Hb1) as (st' & -> & Hb'); [by rewrite <- app_assoc|]. exists st'. split; [done|].
    rewrite filter_cons_True by (by apply Is_true_true). by rewrite <- app_assoc in Hb'.
  - destruct (IH _ _ Hb1) as (st' & -> & Hb').
    { rewrite <- Permutation_middle in Hnd. by apply NoDup_cons in Hnd as [_ Hnd]. }
    exists st'. split; [done|]. rewrite filter_cons_False by (by rewrite Is_true_true, Ea). done.
Qed.

Lemma boot_starts v : booting v [] ecall_boot.
Proof.
  split; [split| |]; cbn [e_ext ecall_boot]; try set_solver. apply dlist_init.
Qed.

(** A number finds the extension it belongs to after boot, if it is in the image
    and available. *)
Lemma booted v exts :
  NoDup exts -> exists st, sbi_ecall_init v exts ecall_boot = Some (0, st) /\
    registry (filter (available v) exts) st /\
    (forall e, e ∈ exts -> available v e = true -> e_ext st e = narrowed v e) /\
    forall extid, exists r, sbi_ecall_find_extension extid st = Some r /\
      forall e, r = Some e <-> e ∈ exts /\ available v e = true /\ covers (narrowed v e) extid = true.
Proof.
  intros Hnd. destruct (init_ok v exts [] ecall_boot (boot_starts v) Hnd) as (st & Hi & Hb). exists st.
  split_and!; [done|apply Hb| |].
  { intros e He Ha. apply (boot_in _ _ _ Hb), list_elem_of_filter. by rewrite Ha. }
  intros extid. destruct (find_spec _ st extid (boot_registry _ _ _ Hb)) as (r & Hf & Hs).
  exists r. split; [done|]. intros e. rewrite Hs. cbn [app]. rewrite list_elem_of_filter. split.
  - intros [[Ha%Is_true_true He] Hx]. rewrite (boot_in _ _ _ Hb) in Hx; [done|].
    apply list_elem_of_filter. by rewrite Ha.
  - intros (He & Ha & Hx). assert (e ∈ filter (available v) exts) as Hin by (apply list_elem_of_filter; by rewrite Ha).
    rewrite (boot_in _ _ _ Hb) by done. by rewrite Ha.
Qed.

(** ** The registry as a partial map *)

(** The states after boot and any number of registrations and removals. *)
Inductive ecall_reachable (v : ecall_env) : ecall_state -> Prop :=
  | reach_init exts st : NoDup exts -> sbi_ecall_init v exts ecall_boot = Some (0, st) -> ecall_reachable v st
  | reach_register ext st ret st' :
      ecall_reachable v st -> sbi_ecall_register_extension ext st = Some (ret, st') -> ecall_reachable v st'
  | reach_unregister ext st st' :
      ecall_reachable v st -> sbi_ecall_unregister_extension ext st = Some st' -> ecall_reachable v st'
  | reach_impid impid st : ecall_reachable v st -> ecall_reachable v (sbi_ecall_set_impid impid st).

Lemma reachable_registry v st : ecall_reachable v st -> exists ps, registry ps st.
Proof.
  induction 1 as [exts st Hnd Hi|ext st ret st' _ [ps IH] Hs|ext st st' _ [ps IH] Hs|impid st _ [ps IH]].
  - destruct (booted v exts Hnd) as (st0 & Hi' & Hr & _). simplify_eq. eauto.
  - destruct ext as [e|]; [|cbn in Hs; simplify_eq; eauto]. destruct (registrable_dec ps st e IH) as [Hf|Hf].
    + rewrite (register_accepted ps) in Hs by done. simplify_eq. exists (ps ++ [e]). by apply registry_add.
    + rewrite (register_refused ps) in Hs by done. simplify_eq. eauto.
  - destruct ext as [e|]; [|cbn in Hs; simplify_eq; eauto].
    destruct (unregister_removes ps st e IH) as (st0 & Hu & Hr & _). simplify_eq. eauto.
  - exists ps. by apply (registry_frame ps st).
Qed.

(** Two lookups with the same extensions in range have the same result. *)
Lemma find_ext ps st extid r :
  registry ps st -> (forall e, r = Some e <-> e ∈ ps /\ covers (e_ext st e) extid = true) ->
  sbi_ecall_find_extension extid st = Some r.
Proof.
  intros Hr Hs. destruct (find_spec ps st extid Hr) as (r' & -> & Hs'). f_equal. apply option_eq. intros e.
  by rewrite Hs, Hs'.
Qed.

(** A free number finds nothing. *)
Lemma registrable_find ps st e :
  registry ps st -> registrable ps st e <->
  x_handle (e_ext st e) = true /\ x_start (e_ext st e) <= x_end (e_ext st e) /\
  forall extid, covers (e_ext st e) extid = true -> sbi_ecall_find_extension extid st = Some None.
Proof.
  intros Hr. unfold registrable. apply and_iff_compat_l, and_iff_compat_l. split.
  - intros Hd extid Hx. apply (find_ext ps); [done|]. intros t. split; [done|]. intros [Ht Hy].
    rewrite (Hd t extid) in Hx; done.
  - intros Hf t extid Ht Hy. apply not_true_is_false. intros Hx.
    destruct (find_spec ps st extid Hr) as (r & Hr' & Hs). rewrite (Hf extid Hx) in Hr'. simplify_eq.
    by assert (None = Some t) by by apply Hs.
Qed.

Lemma find_after_add ps st e extid :
  registry ps st -> registrable ps st e ->
  sbi_ecall_find_extension extid (set_links (sbi_list_add_tail (ext_node e) exts_list (e_links st)) st) =
    if covers (e_ext st e) extid then Some (Some e) else sbi_ecall_find_extension extid st.
Proof.
  intros Hr Hf. pose proof (registry_add _ _ _ Hr Hf) as Hr'. destruct (covers _ _) eqn:Hx.
  - apply (find_ext (ps ++ [e])); [done|]. cbn. intros t. split.
    + intros [= <-]. split; [set_solver|done].
    + intros [Ht Hy]. f_equal. apply (reg_unique _ _ Hr' e t extid); [set_solver|done..].
  - destruct (find_spec ps st extid Hr) as (r & -> & Hs). apply (find_ext (ps ++ [e])); [done|]. cbn. intros t.
    rewrite Hs, elem_of_app, list_elem_of_singleton. split; [tauto|]. intros [[Ht| ->] Hy]; [done|congruence].
Qed.

Lemma find_after_remove ps st st' e extid :
  registry ps st -> registry (filter (.≠ e) ps) st' -> e_ext st' = e_ext st ->
  sbi_ecall_find_extension extid st' =
    (r ← sbi_ecall_find_extension extid st; Some (if decide (r = Some e) then None else r)).
Proof.
  intros Hr Hr' Ee. destruct (find_spec ps st extid Hr) as (r & -> & Hs). cbn [mbind option_bind].
  apply (find_ext (filter (.≠ e) ps)); [done|]. intros t. rewrite Ee, list_elem_of_filter. destruct (decide (r = Some e)) as [->|Hne].
  - split; [done|]. intros [[Hn Ht] Hy]. assert (Some e = Some t) by by apply Hs. congruence.
  - rewrite Hs. split; [|tauto]. intros [Ht Hy]. split_and!; [|done|done]. intros ->. apply Hne. by apply Hs.
Qed.

(** C26: The list of extensions behaves as a partial map from extension numbers
    to extensions, in every state reachable after boot.  A lookup returns, and
    what it finds covers the number.  A registration succeeds exactly if the
    structure has a handler and a range of which no number is taken; then its
    numbers map to it and all others are as before, otherwise nothing changes.
    A removal frees the numbers of the extension and no others. *)
Theorem registration_exact v st :
  ecall_reachable v st ->
  (forall extid, exists r, sbi_ecall_find_extension extid st = Some r /\
     forall e, r = Some e -> covers (e_ext st e) extid = true) /\
  (forall e, exists ret st', sbi_ecall_register_extension (Some e) st = Some (ret, st') /\
     (ret = 0 <-> x_handle (e_ext st e) = true /\ x_start (e_ext st e) <= x_end (e_ext st e) /\
        forall extid, covers (e_ext st e) extid = true -> sbi_ecall_find_extension extid st = Some None) /\
     (ret = 0 -> forall extid, sbi_ecall_find_extension extid st' =
        if covers (e_ext st e) extid then Some (Some e) else sbi_ecall_find_extension extid st) /\
     (ret <> 0 -> ret = SBI_EINVAL /\ st' = st)) /\
  (forall e, exists st', sbi_ecall_unregister_extension (Some e) st = Some st' /\
     forall extid, sbi_ecall_find_extension extid st' =
       (r ← sbi_ecall_find_extension extid st; Some (if decide (r = Some e) then None else r))).
Proof.
  intros [ps Hr]%reachable_registry. split_and!.
  - intros extid. destruct (find_spec ps st extid Hr) as (r & Hf & Hs). exists r. split; [done|].
    intros e He. by apply Hs.
  - intros e. pose proof (registrable_find ps st e Hr) as Hq. destruct (registrable_dec ps st e Hr) as [Hf|Hf].
    + eexists _, _. split; [by apply (register_accepted ps)|]. rewrite <- Hq. split_and!; [done| |done]. intros _ extid. by apply (find_after_add ps).
    + eexists _, _. split; [by apply (register_refused ps)|]. rewrite <- Hq. by split_and!.
  - intros e. destruct (unregister_removes ps st e Hr) as (st' & Hu & Hr' & Ee). exists st'. split; [done|].
    intros extid. by apply (find_after_remove ps).
Qed.

(** ** A board *)

(** All extensions built in; a console and a way to shut down, nothing else. *)
Definition env_example : ecall_env :=
  mkEnv (fun type _ => type =? 0) (fun _ => false) true false 0 false false 0x489 0 0.
Definition state_example : ecall_state :=
  match sbi_ecall_init env_example all_exts ecall_boot with Some (_, st) => st | None => ecall_boot end.

(** The legacy range is taken, that of the missing vendor extension free. *)
Lemma registration_exact_witness :
  ecall_reachable env_example state_example /\
  sbi_ecall_find_extension 5 state_example = Some (Some ecall_legacy) /\
  (exists ret st', sbi_ecall_register_extension (Some ecall_vendor) state_example = Some (ret, st') /\ ret = 0 /\
     sbi_ecall_find_extension 0x09000489 state_example = Some None /\
     sbi_ecall_find_extension 0x09000489 st' = Some (Some ecall_vendor)) /\
  exists st', sbi_ecall_unregister_extension (Some ecall_legacy) state_example = Some st' /\
     sbi_ecall_find_extension 5 st' = Some None /\ sbi_ecall_find_extension 0x10 st' = Some (Some ecall_base).
Proof.
  assert (ecall_reachable env_example state_example) as Hr.
  { apply (reach_init _ all_exts); [apply all_exts_nodup|reflexivity]. }
  destruct (registration_exact env_example state_example Hr) as (_ & Hreg & Hun).
  split_and!; [exact Hr|reflexivity| |].
  - destruct (Hreg ecall_vendor) as (ret & st' & Hs & _ & Hok & _). exists ret, st'.
    assert (ret = 0) as -> by (vm_compute in Hs; congruence).
    split_and!; [exact Hs|reflexivity|reflexivity|]. rewrite (Hok eq_refl). reflexivity.
  - destruct (Hun ecall_legacy) as (st' & Hs & Hf). exists st'. split_and!; [exact Hs|rewrite Hf; reflexivity..].
Defined.

(** ** Calls after boot *)

Section Calls.
Context {W : Type}.
Context (handler : ecall_ext -> Z -> Z -> ecall_regs -> W -> option (Z * sbi_ecall_return * ecall_regs * W)).

(** What the supervisor gets back from a handler that left the registers [regs]:
    the code a handler may return, in a0; its output in a1, except from the
    calls of version 0.1, which have none. *)
Record returned (extid ret : Z) (out : sbi_ecall_return) (regs regs' : ecall_regs) : Prop := {
  ret_skip : skip_regs_update out = true -> regs' = regs;
  ret_pc : skip_regs_update out = false -> g_mepc regs' = wrap 64 (g_mepc regs + 4) /\ g_mstatus regs' = g_mstatus regs;
  ret_code : skip_regs_update out = false -> -14 <= ret <= 0 \/ extid = 2 /\ 0 < ret -> g_a regs' 0 = wrap 64 ret;
  ret_invalid : skip_regs_update out = false -> ret < -14 \/ extid <> 2 /\ 0 < ret -> g_a regs' 0 = 2 ^ 64 - 1;
  ret_value : skip_regs_update out = false -> 8 < extid -> g_a regs' 1 = o_value out;
  ret_legacy : skip_regs_update out = false -> 0 <= extid <= 8 -> g_a regs' 1 = g_a regs 1;
  ret_others : skip_regs_update out = false -> forall i, i <> 0 -> i <> 1 -> g_a regs' i = g_a regs i }.

Lemma set_a_get i x regs k : g_a (set_a i x regs) k = if decide (k = i) then x else g_a regs k.
Proof. cbn. destruct (decide (k = i)) as [->|]; [apply fn_lookup_insert|by apply fn_lookup_insert_ne]. Qed.

Lemma handler_found v st regs w e ret out regs1 w1 :
  sbi_ecall_find_extension (g_a regs 7) st = Some (Some e) -> x_handle (e_ext st e) = true ->
  ext_handle handler v e st (g_a regs 7) (g_a regs 6) regs w = Some (ret, out, regs1, w1) ->
  exists regs', sbi_ecall_handler handler v st regs w = Some (regs', w1) /\ returned (g_a regs 7) ret out regs1 regs'.
Proof.
  intros Hf Hh Hc. unfold sbi_ecall_handler. cbv zeta. rewrite Hf. cbn [mbind option_bind]. rewrite Hh, Hc.
  cbn [mbind option_bind]. generalize (g_a regs 7). intros extid. destruct (skip_regs_update out) eqn:Es.
  { eexists. split; [done|]. by split; rewrite Es. }
  eexists. split; [done|]. destruct ((0 <=? extid) && (extid <=? 8)) eqn:El;
    split; rewrite ?Es; intros; try done; rewrite ?set_a_get; cbn [decide]; try lia;
    repeat case_decide; try lia; try done.
  all: match goal with |- wrap 64 (if ?b then _ else _) = _ => destruct b eqn:Eb end; try done; lia.
Qed.

Lemma handler_missing v st regs w :
  sbi_ecall_find_extension (g_a regs 7) st = Some None ->
  sbi_ecall_handler handler v st regs w =
    Some (set_a 1 0 (set_a 0 (2 ^ 64 - 2) (mkERegs (wrap 64 (g_mepc regs + 4)) (g_mstatus regs) (g_a regs))), w).
Proof.
  intros Hf. unfold sbi_ecall_handler. cbv zeta. rewrite Hf. cbn [mbind option_bind skip_regs_update].
  destruct (_ || _) eqn:Eb; [|done]. unfold SBI_ENOTSUPP in Eb. lia.
Qed.

Lemma probe_ok v exts st :
  (forall e, e ∈ exts -> available v e = true -> e_ext st e = narrowed v e) ->
  (forall extid, exists r, sbi_ecall_find_extension extid st = Some r /\
     forall e, r = Some e <-> e ∈ exts /\ available v e = true /\ covers (narrowed v e) extid = true) ->
  forall extid, exists x, sbi_ecall_base_probe extid st = Some (0, x) /\
    x = if existsb (fun e => available v e && covers (narrowed v e) extid) exts then 1 else 0.
Proof.
  intros Hx Hf extid. unfold sbi_ecall_base_probe. destruct (Hf extid) as ([e|] & -> & Hs); cbn [mbind option_bind].
  - destruct (proj1 (Hs e) eq_refl) as (He & Ha & Hr). rewrite (Hx e He Ha). exists 1. split; [by destruct e|].
    rewrite (proj2 (existsb_exists _ _)); [done|]. exists e. rewrite Ha, Hr. split; [by apply list_elem_of_In|done].
  - exists 0. split; [done|]. destruct (existsb _ _) eqn:E; [|done].
    apply existsb_exists in E as (e & He%list_elem_of_In & [Ha Hr]%andb_true_iff).
    by assert (None = Some e) by by apply Hs.
Qed.

(** C17: After boot every call reaches the extension it names, and probing tells
    which calls those are.  Whatever the platform offers and whichever
    extensions the image has, all registrations succeed.  A number that no
    available extension of the image has gets SBI_ERR_NOT_SUPPORTED, runs no
    handler and goes on after the call; any other number runs the handler of the
    one extension that has it, and its result is passed on as [returned] says,
    with codes the specification does not know turned into SBI_ERR_FAILED.  The
    probe function of the base extension answers 1 or 0 accordingly. *)
Theorem calls_reach_extensions v exts :
  NoDup exts ->
  exists st, sbi_ecall_init v exts ecall_boot = Some (0, st) /\
  (forall regs w, (forall e, e ∈ exts -> available v e = true -> covers (narrowed v e) (g_a regs 7) = false) ->
     sbi_ecall_handler handler v st regs w =
       Some (set_a 1 0 (set_a 0 (2 ^ 64 - 2) (mkERegs (wrap 64 (g_mepc regs + 4)) (g_mstatus regs) (g_a regs))), w)) /\
  (forall e regs w ret out regs1 w1,
     e ∈ exts -> available v e = true -> covers (narrowed v e) (g_a regs 7) = true ->
     ext_handle handler v e st (g_a regs 7) (g_a regs 6) regs w = Some (ret, out, regs1, w1) ->
     exists regs', sbi_ecall_handler handler v st regs w = Some (regs', w1) /\ returned (g_a regs 7) ret out regs1 regs') /\
  (ecall_base ∈ exts -> forall regs w, g_a regs 7 = 0x10 -> g_a regs 6 = 3 ->
     exists regs', sbi_ecall_handler handler v st regs w = Some (regs', w) /\ g_a regs' 0 = 0 /\
       g_a regs' 1 = if existsb (fun e => available v e && covers (narrowed v e) (g_a regs 0)) exts then 1 else 0).
Proof.
  intros Hnd. destruct (booted v exts Hnd) as (st & Hi & _ & Hx & Hf). exists st. split; [done|]. split_and!.
  - intros regs w Hno. apply handler_missing. destruct (Hf (g_a regs 7)) as ([e|] & -> & Hs); [|done].
    destruct (proj1 (Hs e) eq_refl) as (He & Ha & Hr). rewrite (Hno e) in Hr; done.
  - intros e regs w ret out regs1 w1 He Ha Hr. apply handler_found; [|rewrite Hx by done; apply narrowed_handle].
    destruct (Hf (g_a regs 7)) as (r & -> & Hs). f_equal. by apply Hs.
  - intros Hb regs w E7 E6. destruct (probe_ok v exts st Hx Hf (g_a regs 0)) as (x & Hp & Ex).
    destruct (handler_found v st regs w ecall_base 0 (mkRet false x) regs w) as (regs' & Hc & Hr).
    + rewrite E7. destruct (Hf 0x10) as (r & -> & Hs). f_equal. by apply Hs.
    + rewrite Hx by done. done.
    + rewrite E6. cbn -[sbi_ecall_base_probe]. by rewrite Hp.
    + exists regs'. split_and!; [done| |].
      * by rewrite (ret_code _ _ _ _ _ Hr) by (done || lia).
      * rewrite (ret_value _ _ _ _ _ Hr) by (done || lia). exact Ex.
Qed.
End Calls.

(** Probing the missing system suspend and the timer extension; a call to
    either. *)
Lemma calls_reach_extensions_witness :
  let handler (_ : ecall_ext) (_ _ : Z) (regs : ecall_regs) (_ : unit) := Some (-1003, mkRet false 7, regs, tt) in
  let call a7 a6 a0 := mkERegs 0x80200000 0 (fun i => if i =? 7 then a7 else if i =? 6 then a6 else if i =? 0 then a0 else 0) in
  NoDup all_exts /\
  exists st, sbi_ecall_init env_example all_exts ecall_boot = Some (0, st) /\
  (exists regs', sbi_ecall_handler handler env_example st (call 0x10 3 0x53555350) tt = Some (regs', tt) /\ g_a regs' 1 = 0) /\
  (exists regs', sbi_ecall_handler handler env_example st (call 0x10 3 0x54494D45) tt = Some (regs', tt) /\ g_a regs' 1 = 1) /\
  (exists regs', sbi_ecall_handler handler env_example st (call 0x54494D45 0 1) tt = Some (regs', tt) /\
     g_a regs' 0 = 2 ^ 64 - 1 /\ g_a regs' 1 = 7 /\ g_mepc regs' = 0x80200004) /\
  exists regs', sbi_ecall_handler handler env_example st (call 0x53555350 0 0) tt = Some (regs', tt) /\ g_a regs' 0 = 2 ^ 64 - 2.
Proof.
  intros handler call. assert (NoDup all_exts) as Hnd by apply all_exts_nodup. split; [exact Hnd|].
  destruct (calls_reach_extensions handler env_example all_exts Hnd) as (st & Hi & Hno & Hyes & Hprobe).
  exists st. split; [exact Hi|].
  pose proof (all_exts_all ecall_base) as Hbase. split_and!.
  - destruct (Hprobe Hbase (call 0x10 3 0x53555350) tt eq_refl eq_refl) as (regs' & Hc & _ & Ha). eauto.
  - destruct (Hprobe Hbase (call 0x10 3 0x54494D45) tt eq_refl eq_refl) as (regs' & Hc & _ & Ha). eauto.
  - destruct (Hyes ecall_time (call 0x54494D45 0 1) tt (-1003) (mkRet false 7) (call 0x54494D45 0 1) tt
      (all_exts_all _) eq_refl eq_refl eq_refl) as (regs' & Hc & Hr).
    exists regs'. split_and!; [exact Hc|apply (ret_invalid _ _ _ _ _ Hr); [reflexivity|left; lia]| |].
    + apply (ret_value _ _ _ _ _ Hr); [reflexivity|cbn; lia].
    + apply (ret_pc _ _ _ _ _ Hr). reflexivity.
  - eexists. split; [apply Hno; intros e _; destruct e; reflexivity || discriminate|reflexivity].
Defined.
