(* ===== verification/Ring.v ===== *)
(** * The work ring between Go and the interpreter thread

    Models [src/bridge2/sandbox.c] and [sandbox.h] (the ring, [ring_push],
    [ring_pop], [dispatch] and [interpreter_thread_main]) together with the
    producer side of [src/bridge2/sandbox.go] ([Push] and [WaitResult]), which
    works on the same shared memory.

    [ring_push] and [ring_pop] are given twice: as the C functions, and cut
    into one step per access to shared memory, so that the producer and the
    interpreter thread interleave between any two accesses.  Accesses are
    taken in the order of the program (sequential consistency); the C code
    asks for release and acquire order, which is weaker.  A futex sleeper is
    woken by [futex_wake] only. *)

From S2P Require Import Prelude.
Local Open Scope Z_scope.

(** ** Data of sandbox.h *)

Abbreviation WORK_STATE_EMPTY := 0.
Abbreviation WORK_STATE_DONE := 2.
Abbreviation OPCODE_SHUTDOWN := 0xFFFFFFFF.
Abbreviation RING_CAPACITY := 1024.

Record work_item_t := mkItem {
  wi_state : Z; wi_opcode : Z; wi_arg0 : Z; wi_arg1 : Z; wi_arg2 : Z; wi_result : Z }.

Record spsc_ring_t := mkRing {
  r_head : Z; r_tail : Z; r_sleeping : Z; r_capacity : Z; r_items : list work_item_t }.

Definition zero_item : work_item_t := mkItem 0 0 0 0 0 0.

Definition set_head (r : spsc_ring_t) (v : Z) : spsc_ring_t :=
  mkRing v (r_tail r) (r_sleeping r) (r_capacity r) (r_items r).
Definition set_tail (r : spsc_ring_t) (v : Z) : spsc_ring_t :=
  mkRing (r_head r) v (r_sleeping r) (r_capacity r) (r_items r).
Definition set_sleeping (r : spsc_ring_t) (v : Z) : spsc_ring_t :=
  mkRing (r_head r) (r_tail r) v (r_capacity r) (r_items r).

(** [r->items[si]] and the assignments to it; the index is always masked. *)
Definition item_at (r : spsc_ring_t) (si : Z) : work_item_t :=
  default zero_item (r_items r !! Z.to_nat si).
Definition set_item (r : spsc_ring_t) (si : Z) (it : work_item_t) : spsc_ring_t :=
  mkRing (r_head r) (r_tail r) (r_sleeping r) (r_capacity r)
    (<[Z.to_nat si := it]> (r_items r)).
Definition set_result (it : work_item_t) (v : Z) : work_item_t :=
  mkItem (wi_state it) (wi_opcode it) (wi_arg0 it) (wi_arg1 it) (wi_arg2 it) v.
Definition set_state (it : work_item_t) (v : Z) : work_item_t :=
  mkItem v (wi_opcode it) (wi_arg0 it) (wi_arg1 it) (wi_arg2 it) (wi_result it).

(** [x & (r->capacity - 1)]. *)
Definition slot (r : spsc_ring_t) (x : Z) : Z := Z.land x (r_capacity r - 1).

(** ** The ring operations of sandbox.c *)

(** Memory from [mmap] is zero; [None] is the failed mapping. *)
Definition ring_create (mmap_ok : bool) : option spsc_ring_t :=
  if mmap_ok
  then Some (mkRing 0 0 0 RING_CAPACITY (replicate (Z.to_nat RING_CAPACITY) zero_item))
  else None.

Definition ring_push (r : spsc_ring_t) (item : work_item_t) : bool * spsc_ring_t :=
  let head := r_head r in
  let tail := r_tail r in
  if r_capacity r <=? u64 (head - tail) then (false, r)
  else (true, set_head (set_item r (slot r head) item) (u64 (head + 1))).

Definition ring_pop (r : spsc_ring_t) : option work_item_t * spsc_ring_t :=
  let tail := r_tail r in
  let head := r_head r in
  if head =? tail then (None, r)
  else (Some (item_at r (slot r tail)), set_tail r (u64 (tail + 1))).

Definition dispatch (item : work_item_t) : bool * work_item_t :=
  if wi_opcode item =? OPCODE_SHUTDOWN then (false, set_result item 0)
  else if wi_opcode item =? 0 then (true, set_result item 0xDEADBEEF)
  else (true, set_result item (2 ^ 64 - 1)).

Definition cgo_add (a b : Z) : Z := u64 (a + b).

(** ** The interpreter thread *)

(** Program points of [interpreter_thread_main], with the locals live there. *)
Inductive cpc : Type :=
| CStart                                       (* load last_head *)
| CPopTail                                     (* ring_pop: load tail *)
| CPopHead (tail : Z)                          (* load head and compare *)
| CPopRead (tail : Z)                          (* copy the item out *)
| CPopStore (tail : Z) (item : work_item_t)    (* store tail + 1 *)
| CSlot (keep : bool) (item : work_item_t)     (* load tail for the slot index *)
| CResult (keep : bool) (item : work_item_t) (si : Z)   (* store the result *)
| CDone (keep : bool) (si : Z)                 (* store WORK_STATE_DONE *)
| CLast                                        (* load last_head, continue *)
| CSleepLoad                                   (* load h32 *)
| CSleepSet (h32 : Z)                          (* sleeping = 1 *)
| CFutex (h32 : Z)                             (* futex_wait *)
| CBlocked                                     (* inside the kernel *)
| CWake                                        (* sleeping = 0 *)
| CSpin                                        (* spin and yield phase *)
| CReturned.

Record locals := mkLocals { l_spin : Z; l_sleeping : bool; l_idle_start : Z; l_last_head : Z }.

Abbreviation IDLE_SPIN_NS := 100000000.

(** The spin and yield phase; [now] and [now'] are the two clock readings, and
    the flag says that [last_head] is loaded afterwards. *)
Definition idle_phase (now now' : Z) (l : locals) : locals * bool :=
  let start := if l_spin l =? 0 then now else l_idle_start l in
  let spin := u32 (l_spin l + 1) in
  if spin <? 1000 then (mkLocals spin (l_sleeping l) start (l_last_head l), false)
  else if spin <? 5000 then (mkLocals spin (l_sleeping l) start (l_last_head l), false)
  else if IDLE_SPIN_NS <=? u64 (now' - start)
  then (mkLocals spin true start (l_last_head l), true)
  else (mkLocals 4000 (l_sleeping l) start (l_last_head l), true).

Definition set_last_head (l : locals) (v : Z) : locals :=
  mkLocals (l_spin l) (l_sleeping l) (l_idle_start l) v.

(** One access of the interpreter thread; [None]: blocked or returned. *)
Definition cons_step (now now' : Z) (r : spsc_ring_t) (l : locals) (pc : cpc)
  : option (spsc_ring_t * locals * cpc) :=
  match pc with
  | CStart => Some (r, set_last_head l (r_head r), CPopTail)
  | CPopTail => Some (r, l, CPopHead (r_tail r))
  | CPopHead tail =>
      Some (r, l, if r_head r =? tail then (if l_sleeping l then CSleepLoad else CSpin)
                  else CPopRead tail)
  | CPopRead tail => Some (r, l, CPopStore tail (item_at r (slot r tail)))
  | CPopStore tail item =>
      let '(keep, item') := dispatch item in
      Some (set_tail r (u64 (tail + 1)), mkLocals 0 false (l_idle_start l) (l_last_head l),
            CSlot keep item')
  | CSlot keep item => Some (r, l, CResult keep item (slot r (u64 (r_tail r - 1))))
  | CResult keep item si =>
      Some (set_item r si (set_result (item_at r si) (wi_result item)), l, CDone keep si)
  | CDone keep si =>
      Some (set_item r si (set_state (item_at r si) WORK_STATE_DONE), l,
            if keep then CLast else CReturned)
  | CLast => Some (r, set_last_head l (r_head r), CPopTail)
  | CSleepLoad => Some (r, l, CSleepSet (u32 (r_head r)))
  | CSleepSet h32 => Some (set_sleeping r 1, l, CFutex h32)
  | CFutex h32 => Some (r, l, if u32 (r_head r) =? h32 then CBlocked else CWake)
  | CBlocked => None
  | CWake => Some (set_sleeping r 0, l, CLast)
  | CSpin => let '(l', load) := idle_phase now now' l in
             Some (r, l', if load then CLast else CPopTail)
  | CReturned => None
  end.

(** ** The Go producer *)

(** What a caller asks for: opcode and three arguments. *)
Definition request : Type := Z * Z * Z * Z.

Definition req_of (it : work_item_t) : request :=
  (wi_opcode it, wi_arg0 it, wi_arg1 it, wi_arg2 it).

(** The field stores of [Push]; [result] keeps its old value. *)
Definition post_item (old : work_item_t) (q : request) : work_item_t :=
  let '(op, a0, a1, a2) := q in mkItem WORK_STATE_EMPTY op a0 a1 a2 (wi_result old).

(** Program points of [Push] and [WaitResult]; indices are the 64-bit values
    of [head]. *)
Inductive ppc : Type :=
| PIdle
| PTail (q : request) (head : Z)     (* load tail and test for room *)
| PWrite (q : request) (head : Z)    (* fill the slot *)
| PHead (q : request) (head : Z)     (* store head + 1 *)
| PSleep (head : Z)                  (* load sleeping *)
| PWake (head : Z)                   (* futex_wake *)
| PWait (idx : Z)                    (* WaitResult: poll the state *)
| PResult (idx : Z).                 (* WaitResult: read the result *)

(** Shared memory, both threads, and three logs: requests published, requests
    taken off the ring, and results returned to callers with the number of
    requests published when the wait began. *)
Record rsys := mkSys {
  ring : spsc_ring_t; prod : ppc; cons : cpc; loc : locals;
  sent : list request; taken : list request; answers : list (Z * Z) }.

Inductive action : Type :=
| APush (q : request)          (* a caller enters Push *)
| AWait (idx : Z)              (* a caller enters WaitResult *)
| AProd                        (* next access of the producer *)
| ACons (now now' : Z).        (* next access of the interpreter thread *)

Definition with_prod (s : rsys) (p : ppc) : rsys :=
  mkSys (ring s) p (cons s) (loc s) (sent s) (taken s) (answers s).

(** With [sync] a caller of [Push] waits for the result of its own request
    before anything else is pushed, as [Destroy] and the round trips do. *)
Definition after_push (sync : bool) (head : Z) : ppc := if sync then PWait head else PIdle.

Definition prod_step (sync : bool) (s : rsys) : option rsys :=
  let r := ring s in
  match prod s with
  | PIdle => None
  | PTail q head =>
      Some (with_prod s (if r_capacity r <=? u64 (head - r_tail r) then PIdle
                         else PWrite q head))
  | PWrite q head =>
      let si := slot r head in
      Some (mkSys (set_item r si (post_item (item_at r si) q)) (PHead q head) (cons s) (loc s)
              (sent s) (taken s) (answers s))
  | PHead q head =>
      Some (mkSys (set_head r (u64 (head + 1))) (PSleep head) (cons s) (loc s)
              (sent s ++ [q]) (taken s) (answers s))
  | PSleep head =>
      Some (with_prod s (if truthy (r_sleeping r) then PWake head else after_push sync head))
  | PWake head =>
      Some (mkSys r (after_push sync head)
              (match cons s with CBlocked => CWake | pc => pc end) (loc s)
              (sent s) (taken s) (answers s))
  | PWait idx =>
      Some (with_prod s (if wi_state (item_at r (slot r idx)) =? WORK_STATE_DONE
                         then PResult idx else PWait idx))
  | PResult idx =>
      Some (mkSys r PIdle (cons s) (loc s) (sent s) (taken s)
              (answers s ++ [(idx, wi_result (item_at r (slot r idx)))]))
  end.

Definition rstep (sync : bool) (a : action) (s : rsys) : option rsys :=
  match a with
  | APush q => match prod s with PIdle => Some (with_prod s (PTail q (r_head (ring s)))) | _ => None end
  | AWait idx => match prod s with
                 | PIdle => if sync then None else Some (with_prod s (PWait idx))
                 | _ => None
                 end
  | AProd => prod_step sync s
  | ACons now now' =>
      match cons_step now now' (ring s) (loc s) (cons s) with
      | Some (r, l, pc) =>
          Some (mkSys r (prod s) pc l (sent s)
                  (match cons s with CPopStore _ it => taken s ++ [req_of it] | _ => taken s end)
                  (answers s))
      | None => None
      end
  end.

Definition step (sync : bool) (s s' : rsys) : Prop := exists a, rstep sync a s = Some s'.

(** [NewRing]: the ring is created and the interpreter thread started. *)
Definition start_sys (r : spsc_ring_t) : rsys :=
  mkSys r PIdle CStart (mkLocals 0 false 0 0) [] [] [].

Definition rinit (s : rsys) : Prop := exists r, ring_create true = Some r /\ s = start_sys r.

Fixpoint run (sync : bool) (acts : list action) (s : rsys) : option rsys :=
  match acts with
  | [] => Some s
  | a :: acts => match rstep sync a s with Some s' => run sync acts s' | None => None end
  end.

(** ** The ring is a queue *)

Definition ring_ok (r : spsc_ring_t) : Prop :=
  r_capacity r = 1024 /\ length (r_items r) = 1024%nat.

Lemma slot_u64 r i : ring_ok r -> slot r (u64 i) = i mod 1024.
Proof.
  intros [Hc _]. unfold slot. rewrite Hc. change (1024 - 1) with (2 ^ 10 - 1).
  rewrite land_ones_mod by lia. change (2 ^ 10) with 1024. wrap_lia.
Qed.

Lemma item_at_set r si it sj :
  ring_ok r -> 0 <= si < 1024 -> 0 <= sj < 1024 ->
  item_at (set_item r si it) sj = if si =? sj then it else item_at r sj.
Proof.
  intros [_ Hl] Hi Hj. unfold item_at, set_item; simpl. case_bool; bool_to_prop.
  - subst. by rewrite list_lookup_insert_eq by lia.
  - by rewrite list_lookup_insert_ne by lia.
Qed.

Lemma ring_ok_set_item r si it : ring_ok r -> ring_ok (set_item r si it).
Proof. intros [? ?]. split; [done|]. simpl. by rewrite length_insert. Qed.

(** A write that keeps the request of its slot keeps every request. *)
Lemma req_of_set r si it sj :
  req_of it = req_of (item_at r si) ->
  req_of (item_at (set_item r si it) sj) = req_of (item_at r sj).
Proof.
  intros Hq. unfold item_at, set_item in *; simpl.
  destruct (decide (Z.to_nat si = Z.to_nat sj)) as [He|He].
  - rewrite He in *. destruct (decide (Z.to_nat sj < length (r_items r))%nat).
    + by rewrite list_lookup_insert_eq.
    + by rewrite list_insert_ge by lia.
  - by rewrite list_lookup_insert_ne.
Qed.

Definition n_sent (s : rsys) : Z := Z.of_nat (length (sent s)).
Definition n_taken (s : rsys) : Z := Z.of_nat (length (taken s)).

(** What the producer and the interpreter thread know between two accesses. *)
Definition prod_ok (s : rsys) : Prop :=
  match prod s with
  | PTail _ h => h = r_head (ring s)
  | PWrite _ h => h = r_head (ring s) /\ n_sent s < n_taken s + 1024
  | PHead q h => h = r_head (ring s) /\ n_sent s < n_taken s + 1024 /\
                 req_of (item_at (ring s) (n_sent s mod 1024)) = q
  | _ => True
  end.

Definition cons_ok (s : rsys) : Prop :=
  match cons s with
  | CPopHead t => t = r_tail (ring s)
  | CPopRead t => t = r_tail (ring s) /\ n_taken s < n_sent s
  | CPopStore t it => t = r_tail (ring s) /\ n_taken s < n_sent s /\
                      sent s !! length (taken s) = Some (req_of it)
  | _ => True
  end.

Record rinv (s : rsys) : Prop := {
  ri_ring : ring_ok (ring s);
  ri_head : r_head (ring s) = u64 (n_sent s);
  ri_tail : r_tail (ring s) = u64 (n_taken s);
  ri_room : n_taken s <= n_sent s <= n_taken s + 1024;
  ri_taken : taken s = take (length (taken s)) (sent s);
  ri_items : forall i, n_taken s <= i < n_sent s ->
    sent s !! Z.to_nat i = Some (req_of (item_at (ring s) (i mod 1024)));
  ri_prod : prod_ok s;
  ri_cons : cons_ok s }.

Lemma rinv_init s : rinit s -> rinv s.
Proof.
  intros (r & [= <-] & ->).
  split; unfold start_sys, n_sent, n_taken, prod_ok, cons_ok; try done; try (simpl; lia).
Qed.

Lemma rinv_call s p :
  rinv s -> prod s = PIdle ->
  (forall q h, p = PTail q h -> h = r_head (ring s)) ->
  (match p with PTail _ _ | PWait _ => True | _ => False end) -> rinv (with_prod s p).
Proof.
  intros [] Hp Hh Hc. split; try done. unfold prod_ok. simpl. destruct p; naive_solver.
Qed.

(** Changes of the program points alone. *)
Lemma rinv_prod s p : rinv s -> prod_ok (with_prod s p) -> rinv (with_prod s p).
Proof. intros [] Hp. by split. Qed.

Lemma rinv_write s q h :
  rinv s -> prod s = PWrite q h -> let r := ring s in
  rinv (mkSys (set_item r (slot r h) (post_item (item_at r (slot r h)) q)) (PHead q h)
          (cons s) (loc s) (sent s) (taken s) (answers s)).
Proof.
  intros [Hr Hh Ht Hroom Htk Hit Hp Hc] Hpc. unfold prod_ok in Hp. rewrite Hpc in Hp.
  destruct Hp as [-> Hlt]. cbv zeta. rewrite Hh, slot_u64 by done.
  assert (Hm : forall i, 0 <= i mod 1024 < 1024) by (intros; apply Z.mod_pos_bound; lia).
  split; try done.
  - by apply ring_ok_set_item.
  - intros i Hi. unfold n_sent, n_taken in *. simpl in *. rewrite item_at_set by done.
    rewrite (proj2 (Z.eqb_neq _ _)); [by apply Hit|]. intros He.
    pose proof (Z.div_mod i 1024). pose proof (Z.div_mod (Z.of_nat (length (sent s))) 1024). lia.
  - unfold prod_ok. simpl. split_and!; [done|done|]. unfold n_sent in *. simpl.
    rewrite item_at_set by done. rewrite Z.eqb_refl. by destruct q as [[[]]].
Qed.

Lemma rinv_publish s q h :
  rinv s -> prod s = PHead q h ->
  rinv (mkSys (set_head (ring s) (u64 (h + 1))) (PSleep h) (cons s) (loc s)
          (sent s ++ [q]) (taken s) (answers s)).
Proof.
  intros [Hr Hh Ht Hroom Htk Hit Hp Hc] Hpc. unfold prod_ok in Hp. rewrite Hpc in Hp.
  destruct Hp as (-> & Hlt & Hq).
  assert (Hn : forall r p c l t a, n_sent (mkSys r p c l (sent s ++ [q]) t a) = n_sent s + 1).
  { intros. unfold n_sent. simpl. rewrite length_app. simpl. lia. }
  split; try done.
  - rewrite Hn. simpl. rewrite Hh. by autorewrite with wordz.
  - rewrite Hn. unfold n_taken in *. simpl in *. lia.
  - simpl. rewrite take_app_le; [done|]. unfold n_sent, n_taken in *. lia.
  - intros i. rewrite Hn. intros Hi. simpl.
    change (n_taken s <= i < n_sent s + 1) in Hi.
    change (item_at (set_head (ring s) (u64 (r_head (ring s) + 1)))) with (item_at (ring s)).
    destruct (decide (i = n_sent s)) as [->|Hne].
    + rewrite Hq. unfold n_sent. rewrite Nat2Z.id. by rewrite list_lookup_middle.
    + rewrite lookup_app_l by (unfold n_sent, n_taken in *; lia). apply Hit. lia.
  - unfold cons_ok in *. rewrite Hn. simpl. unfold n_taken in *. simpl in *.
    destruct (cons s); try done; [naive_solver lia|].
    destruct Hc as (-> & Hl & Hs). split_and!; [done|lia|]. by apply lookup_app_l_Some.
Qed.

Lemma rinv_prod_step sync s s' : rinv s -> prod_step sync s = Some s' -> rinv s'.
Proof.
  intros Hi Hs. unfold prod_step in Hs. destruct (prod s) eqn:Hpc; simplify_eq/=.
  - apply rinv_prod; [done|]. pose proof (ri_prod _ Hi) as Hp. unfold prod_ok in Hp.
    rewrite Hpc in Hp. subst. case_bool; [done|]. bool_to_prop. unfold prod_ok. simpl.
    split; [done|]. destruct Hi as [[Hcap _] Hh Ht Hroom _ _ _ _].
    rewrite Hh, Ht, Hcap in E. autorewrite with wordz in E.
    change (n_sent (with_prod s _)) with (n_sent s).
    change (n_taken (with_prod s _)) with (n_taken s). wrap_lia.
  - by apply rinv_write.
  - by apply rinv_publish.
  - apply rinv_prod; [done|]. unfold prod_ok. simpl. by repeat case_bool; destruct sync.
  - destruct Hi. split; try done; unfold prod_ok, cons_ok in *; simpl in *.
    + by destruct sync.
    + by destruct (cons s).
  - apply rinv_prod; [done|]. unfold prod_ok. simpl. by case_bool.
  - destruct Hi. by split.
Qed.

(** Steps of the interpreter thread that write at most [result], [state] or
    [sleeping] keep the queue. *)
Lemma rinv_cons s r pc l :
  rinv s -> ring_ok r -> r_head r = r_head (ring s) -> r_tail r = r_tail (ring s) ->
  (forall j, req_of (item_at r j) = req_of (item_at (ring s) j)) ->
  cons_ok (mkSys r (prod s) pc l (sent s) (taken s) (answers s)) ->
  rinv (mkSys r (prod s) pc l (sent s) (taken s) (answers s)).
Proof.
  intros [Hr Hh Ht Hroom Htk Hit Hp Hc] Hok Hh' Ht' Hq Hc'.
  split; try done; unfold n_sent, n_taken in *; simpl in *.
  - by rewrite Hh'.
  - by rewrite Ht'.
  - intros i Hi. rewrite Hq. by apply Hit.
  - unfold prod_ok, n_sent, n_taken in *; simpl. destruct (prod s); try done; rewrite Hh'; try done.
    by rewrite Hq.
Qed.

Lemma rinv_take s t it l pc :
  rinv s -> cons s = CPopStore t it ->
  (match pc with CSlot _ _ => True | _ => False end) ->
  rinv (mkSys (set_tail (ring s) (u64 (t + 1))) (prod s) pc l (sent s)
          (taken s ++ [req_of it]) (answers s)).
Proof.
  intros [Hr Hh Ht Hroom Htk Hit Hp Hc] Hpc Hn. unfold cons_ok in Hc. rewrite Hpc in Hc.
  destruct Hc as (-> & Hlt & Hs).
  assert (Hl : forall r p c l a, n_taken (mkSys r p c l (sent s) (taken s ++ [req_of it]) a) = n_taken s + 1).
  { intros. unfold n_taken. simpl. rewrite length_app. simpl. lia. }
  split; try done.
  - rewrite Hl. simpl. rewrite Ht. by autorewrite with wordz.
  - rewrite Hl. unfold n_sent in *. simpl. lia.
  - simpl. rewrite length_app. simpl. rewrite Nat.add_1_r. rewrite (take_S_r _ _ _ Hs).
    by rewrite <- Htk.
  - intros i. rewrite Hl. intros Hi. apply Hit. unfold n_sent in *. simpl in Hi. lia.
  - unfold prod_ok in *. rewrite Hl. simpl. unfold n_sent in *. simpl in *.
    destruct (prod s); naive_solver lia.
  - unfold cons_ok. simpl. by destruct pc.
Qed.

Lemma rinv_cons_step now now' s r l pc :
  rinv s -> cons_step now now' (ring s) (loc s) (cons s) = Some (r, l, pc) ->
  rinv (mkSys r (prod s) pc l (sent s)
          (match cons s with CPopStore _ it => taken s ++ [req_of it] | _ => taken s end) (answers s)).
Proof.
  intros Hi Hs. pose proof (ri_ring _ Hi) as Hok. pose proof (ri_cons _ Hi) as Hc.
  unfold cons_ok in Hc. unfold cons_step in Hs.
  destruct (cons s) eqn:Hpc; simplify_eq/=; try (by apply rinv_cons).
  - apply rinv_cons; try done. unfold cons_ok; simpl. repeat case_bool; try done.
    split; [done|]. bool_to_prop. rewrite (ri_head _ Hi), (ri_tail _ Hi) in E.
    pose proof (ri_room _ Hi). unfold n_sent, n_taken in *. simpl.
    destruct (decide (Z.of_nat (length (sent s)) = Z.of_nat (length (taken s)))) as [He|]; [|lia].
    by rewrite He in E.
  - apply rinv_cons; try done. unfold cons_ok; simpl. destruct Hc as [-> Hlt].
    split_and!; [done|done|]. rewrite (ri_tail _ Hi), slot_u64 by done.
    pose proof (ri_items _ Hi (n_taken s)) as Hx. unfold n_taken in *. rewrite Nat2Z.id in Hx.
    apply Hx. lia.
  - destruct (dispatch item) as [keep item']. simplify_eq/=. by apply (rinv_take _ tail).
  - apply rinv_cons; try done; [by apply ring_ok_set_item|]. intros j. by apply req_of_set.
  - apply rinv_cons; try done; [by apply ring_ok_set_item| |]; [intros j; by apply req_of_set|].
    by destruct keep.
  - apply rinv_cons; try done. by case_bool.
  - destruct (idle_phase _ _ _) as [l' load]. simplify_eq. apply rinv_cons; try done. by destruct load.
Qed.

Lemma rinv_step sync s s' : rinv s -> step sync s s' -> rinv s'.
Proof.
  intros Hi [a Ha]. destruct a as [q|idx| |now now']; simpl in Ha.
  - destruct (prod s) eqn:Hp; simplify_eq. apply rinv_call; naive_solver.
  - destruct (prod s) eqn:Hp; try done. destruct sync; simplify_eq. by apply rinv_call.
  - by eapply rinv_prod_step.
  - destruct (cons_step _ _ _ _ _) as [[[r l] pc]|] eqn:E; simplify_eq. by eapply rinv_cons_step.
Qed.

Lemma rinv_reachable sync s : reachable rinit (step sync) s -> rinv s.
Proof. apply invariant_reachable; [exact rinv_init | exact (rinv_step sync)]. Qed.

(** C13: in every interleaving of the Go producer with the interpreter
    thread the requests taken off the ring are a prefix of those published, in
    order and each once, at most 1024 are outstanding, and the slot the
    producer fills is never the one the interpreter thread is copying, also
    after the 64-bit counters have wrapped. *)
Theorem ring_is_fifo sync s :
  reachable rinit (step sync) s ->
  taken s `prefix_of` sent s /\ n_sent s - n_taken s <= RING_CAPACITY /\
  (forall q h t, prod s = PWrite q h -> cons s = CPopRead t -> slot (ring s) h <> slot (ring s) t).
Proof.
  intros Hr. apply rinv_reachable in Hr as [Hok Hh Ht Hroom Htk Hit Hp Hc]. split_and!.
  - rewrite Htk. apply prefix_take.
  - lia.
  - intros q h t Ep Ec. unfold prod_ok, cons_ok in *. rewrite Ep in Hp. rewrite Ec in Hc.
    destruct Hp as [-> Hl], Hc as [-> Hl']. rewrite Hh, Ht, !slot_u64 by done. intros He.
    pose proof (Z.div_mod (n_sent s) 1024). pose proof (Z.div_mod (n_taken s) 1024). lia.
Qed.

(** ** One request at a time *)

(** The result [dispatch] gives a request. *)
Definition reply (q : request) : Z := wi_result (dispatch (post_item zero_item q)).2.

Definition quiet (pc : cpc) : bool :=
  match pc with
  | CPopRead _ | CPopStore _ _ | CSlot _ _ | CResult _ _ _ | CDone _ _ => false
  | _ => true
  end.

(** How far the last request, in slot [si], has got. *)
Definition waiting_ok (s : rsys) (q : request) (si : Z) : Prop :=
  let it := item_at (ring s) si in
  (n_taken s = n_sent s - 1 /\ wi_state it = WORK_STATE_EMPTY /\
   match cons s with CSlot _ _ | CResult _ _ _ | CDone _ _ => False | _ => True end) \/
  (n_taken s = n_sent s /\
   match cons s with
   | CSlot _ x => wi_result x = reply q /\ wi_state it = WORK_STATE_EMPTY
   | CResult _ x sj => wi_result x = reply q /\ wi_state it = WORK_STATE_EMPTY /\ sj = si
   | CDone _ sj => wi_result it = reply q /\ wi_state it = WORK_STATE_EMPTY /\ sj = si
   | pc => quiet pc = true /\ wi_state it = WORK_STATE_DONE /\ wi_result it = reply q
   end).

(** The last request, its index and its slot. *)
Definition last_req (s : rsys) (h : Z) (q : request) : Prop :=
  last (sent s) = Some q /\ h = u64 (n_sent s - 1).

Definition sync_ok (s : rsys) : Prop :=
  let si := (n_sent s - 1) mod 1024 in
  match prod s with
  | PIdle | PTail _ _ | PWrite _ _ => n_taken s = n_sent s /\ quiet (cons s) = true
  | PHead _ _ => n_taken s = n_sent s /\ quiet (cons s) = true /\
      wi_state (item_at (ring s) (n_sent s mod 1024)) = WORK_STATE_EMPTY
  | PSleep h | PWake h | PWait h => exists q, last_req s h q /\ waiting_ok s q si
  | PResult h => exists q, last_req s h q /\ n_taken s = n_sent s /\ quiet (cons s) = true /\
      wi_result (item_at (ring s) si) = reply q
  end.

Definition answered (s : rsys) : Prop :=
  Forall (fun '(h, v) => exists i q, h = u64 (Z.of_nat i) /\ sent s !! i = Some q /\ v = reply q)
    (answers s).

Lemma reply_dispatch it : wi_result (dispatch it).2 = reply (req_of it).
Proof. unfold reply, dispatch, req_of. simpl. by repeat case_bool. Qed.

Lemma last_req_slot s h q :
  rinv s -> last_req s h q -> slot (ring s) h = (n_sent s - 1) mod 1024.
Proof. intros Hi [_ ->]. apply slot_u64, Hi. Qed.

Lemma last_req_lookup s h q :
  last_req s h q -> exists i, n_sent s = Z.of_nat (S i) /\ h = u64 (Z.of_nat i) /\ sent s !! i = Some q.
Proof.
  intros [Hl ->]. rewrite last_lookup in Hl. unfold n_sent.
  destruct (sent s) as [|q0 l]; [done|]. exists (length l). simpl in *. split_and!; try done.
  f_equal. lia.
Qed.

Lemma answered_more s s' h q v :
  answered s -> last_req s h q -> v = reply q -> sent s' = sent s ->
  answers s' = answers s ++ [(h, v)] -> answered s'.
Proof.
  intros Ha Hl -> Hs He. unfold answered. rewrite He, Hs. apply Forall_app. split; [done|].
  apply Forall_singleton. apply last_req_lookup in Hl as (i & _ & ? & ?). eauto.
Qed.

Lemma answered_sent s s' q :
  answered s -> sent s' = sent s ++ [q] -> answers s' = answers s -> answered s'.
Proof.
  intros Ha Hs He. unfold answered in *. rewrite He, Hs. eapply Forall_impl; [exact Ha|].
  intros [h v] (i & q' & ? & ? & ?). exists i, q'. split_and!; try done. by apply lookup_app_l_Some.
Qed.

Record sinv (s : rsys) : Prop := {
  si_rinv : rinv s; si_sync : sync_ok s; si_ans : answered s }.

Lemma mod_slot i : 0 <= i mod 1024 < 1024.
Proof. apply Z.mod_pos_bound. lia. Qed.

Lemma sync_ok_prod s s' : sinv s -> prod_step true s = Some s' -> sync_ok s' /\ answered s'.
Proof.
  intros [Hi Hs Ha] Hp. pose proof (ri_prod _ Hi) as Hpo. unfold prod_step in Hp.
  unfold sync_ok, prod_ok in *. destruct (prod s) eqn:Epc; simplify_eq/=.
  - split; [|done]. by case_bool.
  - split; [|done]. destruct Hpo as [-> _]. destruct Hs as [? ?]. split_and!; try done.
    unfold n_sent. simpl. rewrite (ri_head _ Hi), slot_u64 by apply Hi.
    rewrite item_at_set by (first [apply Hi | apply mod_slot]). unfold n_sent. rewrite Z.eqb_refl.
    by destruct q as [[[]]].
  - destruct Hpo as (-> & Hl & Hq), Hs as (Hn & Hqu & Hst).
    split; [|by eapply answered_sent; [exact Ha| |]].
    exists q. unfold last_req, waiting_ok, n_sent, n_taken in *. simpl in *.
    rewrite length_app, last_snoc. simpl.
    replace (Z.of_nat (length (sent s) + 1) - 1) with (Z.of_nat (length (sent s))) by lia.
    split; [by rewrite (ri_head _ Hi)|]. left. split_and!; [lia|done|]. by destruct (cons s).
  - split; [|done]. destruct Hs as (q & Hl & Hw). case_bool; by exists q.
  - split; [|done]. destruct Hs as (q & Hl & Hw). exists q. split; [done|].
    unfold waiting_ok in *. simpl. by destruct (cons s).
  - split; [|done]. destruct Hs as (q & Hl & Hw). rewrite (last_req_slot s idx q) by done.
    case_bool; exists q; [|done]. bool_to_prop. split; [done|].
    destruct Hw as [(Hn & He & _)|[Hn Hw]]; [by rewrite He in E|]. split; [done|].
    destruct (cons s); simpl in *; destruct_and?; try done;
      match goal with H : wi_state _ = WORK_STATE_EMPTY |- _ => by rewrite H in E end.
  - destruct Hs as (q & Hl & Hn & Hqu & Hr). split; [done|].
    eapply (answered_more s); try done. by rewrite (last_req_slot s idx q).
Qed.

(** A step of the interpreter thread that stays among the quiet points and
    keeps the items. *)
Lemma sync_ok_quiet s r pc l :
  sync_ok s -> quiet (cons s) = true -> quiet pc = true -> r_items r = r_items (ring s) ->
  sync_ok (mkSys r (prod s) pc l (sent s) (taken s) (answers s)).
Proof.
  intros Hs Hq Hq' Hr.
  assert (Hit : forall j, item_at r j = item_at (ring s) j) by (intros; unfold item_at; by rewrite Hr).
  unfold sync_ok, waiting_ok, last_req, n_sent, n_taken in *. simpl.
  destruct (prod s); try (by rewrite ?Hit; naive_solver);
    destruct Hs as (q & Hl & Hw); exists q; (split; [done|]); rewrite Hit.
  all: try (destruct Hw as [(? & ? & ?)|[? Hw]]; [left|right]; (split; [done|]);
    destruct pc, (cons s); try done; naive_solver).
Qed.

Definition in_call (p : ppc) (h : Z) : Prop := p = PSleep h \/ p = PWake h \/ p = PWait h.

(** While the interpreter thread works on a request its caller is waiting. *)
Lemma sync_ok_busy s :
  sync_ok s -> quiet (cons s) = false ->
  exists h q, in_call (prod s) h /\ last_req s h q /\ waiting_ok s q ((n_sent s - 1) mod 1024).
Proof.
  unfold sync_ok, in_call. intros Hs Hq.
  destruct (prod s) as [| | | |h|h|h|h]; try (destruct_and!; congruence);
    destruct Hs as (q & Hl & Hw); [exists h, q; tauto..|].
  destruct Hw as (_ & Hqu & _). congruence.
Qed.

Lemma sync_ok_call s h q :
  in_call (prod s) h -> last_req s h q -> waiting_ok s q ((n_sent s - 1) mod 1024) -> sync_ok s.
Proof. unfold sync_ok. intros [->|[->| ->]] Hl Hw; by exists q. Qed.

Lemma sync_ok_pop s t r l :
  sinv s -> cons s = CPopHead t -> r = ring s -> r_head r <> t ->
  sync_ok (mkSys r (prod s) (CPopRead t) l (sent s) (taken s) (answers s)).
Proof.
  intros [Hi Hs _] Hc -> Hne. pose proof (ri_cons _ Hi) as Hco. unfold cons_ok in Hco.
  rewrite Hc in Hco. subst t. rewrite (ri_head _ Hi), (ri_tail _ Hi) in Hne.
  assert (n_taken s <> n_sent s) as Hn by (intros He; by rewrite He in Hne).
  unfold sync_ok in Hs. destruct (prod s) as [| | | |h|h|h|h] eqn:Hp; try (exfalso; naive_solver).
  all: destruct Hs as (q & Hl & [(H1 & H2 & H3)|[H1 _]]); [|done].
  all: apply (sync_ok_call _ h q); [unfold in_call; simpl; auto|done|]; by left.
Qed.

Lemma sync_ok_busy_step now now' s r l pc :
  sinv s -> quiet (cons s) = false -> cons_step now now' (ring s) (loc s) (cons s) = Some (r, l, pc) ->
  sync_ok (mkSys r (prod s) pc l (sent s)
    (match cons s with CPopStore _ it => taken s ++ [req_of it] | _ => taken s end) (answers s)).
Proof.
  intros [Hi Hs _] Hq Hst. destruct (sync_ok_busy s Hs Hq) as (h & q & Hp & Hl & Hw).
  apply (sync_ok_call _ h q); [done|done|]. pose proof (ri_ring _ Hi) as Hok.
  set (si := (n_sent s - 1) mod 1024) in *. assert (0 <= si < 1024) as Hsi by apply mod_slot.
  pose proof (ri_cons _ Hi) as Hco. unfold cons_ok in Hco. unfold waiting_ok in Hw |- *.
  change (n_sent (mkSys r (prod s) pc l (sent s) _ (answers s))) with (n_sent s). fold si.
  unfold cons_step in Hst. destruct (cons s) eqn:Hc; try done; simplify_eq/=.
  - destruct Hw as [Hw|Hw]; [by left|naive_solver].
  - destruct Hw as [(Hn & He & _)|Hw]; [|naive_solver]. destruct (dispatch item) as [keep it'] eqn:Ed.
    simplify_eq/=. right. unfold n_taken in *. simpl. rewrite length_app. simpl.
    split; [lia|]. split; [|done]. destruct Hco as (_ & _ & Hlk).
    destruct (last_req_lookup _ _ _ Hl) as (i & Hi1 & _ & Hi2).
    replace (length (taken s)) with i in Hlk by lia. rewrite Hi2 in Hlk. simplify_eq.
    rewrite <- reply_dispatch. by rewrite Ed.
  - destruct Hw as [(_ & _ & [])|(Hn & Hr & He)]. right. split; [done|]. split_and!; try done.
    rewrite (ri_tail _ Hi). autorewrite with wordz. rewrite slot_u64 by done. by rewrite Hn.
  - destruct Hw as [(_ & _ & [])|(Hn & Hr & He & ->)]. right. split; [done|].
    rewrite item_at_set by done. by rewrite Z.eqb_refl.
  - destruct Hw as [(_ & _ & [])|(Hn & Hr & He & ->)]. right. split; [done|].
    rewrite item_at_set by done. rewrite Z.eqb_refl. by destruct keep.
Qed.

Lemma sync_ok_cons_step now now' s r l pc :
  sinv s -> cons_step now now' (ring s) (loc s) (cons s) = Some (r, l, pc) ->
  sync_ok (mkSys r (prod s) pc l (sent s)
    (match cons s with CPopStore _ it => taken s ++ [req_of it] | _ => taken s end) (answers s)).
Proof.
  intros Hi Hst. destruct (quiet (cons s)) eqn:Hq; [|by eapply sync_ok_busy_step].
  pose proof (si_sync _ Hi) as Hs. unfold cons_step in Hst.
  destruct (cons s) eqn:Hc; try done; simplify_eq/=;
    try (by apply (sync_ok_quiet s); [done|rewrite Hc|..]).
  - destruct (r_head (ring s) =? tail) eqn:E.
    + apply (sync_ok_quiet s); [done|by rewrite Hc| |done]. by destruct (l_sleeping _).
    + bool_to_prop. by apply sync_ok_pop.
  - apply (sync_ok_quiet s); [done|by rewrite Hc| |done]. by case_bool.
  - destruct (idle_phase _ _ _) as [l' load]. simplify_eq.
    apply (sync_ok_quiet s); [done|by rewrite Hc| |done]. by destruct load.
Qed.

Lemma sinv_step s s' : sinv s -> step true s s' -> sinv s'.
Proof.
  intros Hi Hs. pose proof (rinv_step _ _ _ (si_rinv _ Hi) Hs) as Hr.
  destruct Hs as [a Ha]. destruct a as [q|idx| |now now']; simpl in Ha.
  - destruct (prod s) eqn:Hp; simplify_eq. destruct Hi as [_ Hs Ha]. split; [done| |done].
    unfold sync_ok in *. by rewrite Hp in Hs.
  - by destruct (prod s).
  - destruct (sync_ok_prod s s' Hi Ha). by split.
  - destruct (cons_step _ _ _ _ _) as [[[r l] pc]|] eqn:E; simplify_eq.
    split; [done|by eapply sync_ok_cons_step|]. by destruct Hi.
Qed.

Lemma sinv_reachable s : reachable rinit (step true) s -> sinv s.
Proof.
  apply invariant_reachable; [|exact sinv_step]. intros s0 Hi. pose proof (rinv_init _ Hi).
  destruct Hi as (r & [= <-] & ->). split; [done| |constructor]. split; done.
Qed.

(** ** Progress of the interpreter thread *)

(** Points from which the interpreter thread reaches a published request
    without sleeping, with the number of accesses to its completion. *)
Definition distance (pc : cpc) : option nat :=
  match pc with
  | CDone _ _ => Some 1 | CResult _ _ _ => Some 2 | CSlot _ _ => Some 3 | CPopStore _ _ => Some 4
  | CPopRead _ => Some 5 | CPopHead _ => Some 6 | CPopTail => Some 7
  | CStart | CLast => Some 8 | CWake | CSpin => Some 9
  | _ => None
  end%nat.

Definition slot_done (s : rsys) : Prop :=
  wi_state (item_at (ring s) ((n_sent s - 1) mod 1024)) = WORK_STATE_DONE.

Lemma cons_progress now now' s h d :
  sinv s -> prod s = PWait h -> distance (cons s) = Some d -> ~ slot_done s ->
  exists s', rstep true (ACons now now') s = Some s' /\ sinv s' /\ prod s' = PWait h /\
    sent s' = sent s /\ answers s' = answers s /\
    (slot_done s' \/ exists d', distance (cons s') = Some d' /\ (d' < d)%nat).
Proof.
  intros Hi Hp Hd Hns. pose proof (si_sync _ Hi) as Hs. unfold sync_ok in Hs. rewrite Hp in Hs.
  destruct Hs as (q & Hl & Hw).
  assert (exists r l pc, cons_step now now' (ring s) (loc s) (cons s) = Some (r, l, pc)) as (r & l & pc & E).
  { unfold cons_step. destruct (cons s); try done; eauto;
      [destruct (dispatch _)|destruct (idle_phase _ _ _)]; eauto. }
  eexists. cbn [rstep]. rewrite E. split; [reflexivity|]. split.
  { eapply sinv_step; [exact Hi|]. exists (ACons now now'). cbn [rstep]. by rewrite E. }
  cbn [prod sent answers cons]. split_and!; [done..|]. unfold slot_done in *.
  change (n_sent (mkSys _ _ _ _ (sent s) _ _)) with (n_sent s). cbn [ring].
  unfold cons_step in E. unfold waiting_ok in Hw.
  destruct (cons s) eqn:Hc; simplify_eq/=; try (right; eexists; split; [done|lia]).
  - rewrite (proj2 (Z.eqb_neq _ _)); [right; eexists; split; [done|lia]|].
    pose proof (ri_cons _ (si_rinv _ Hi)) as Hco. unfold cons_ok in Hco. rewrite Hc in Hco. subst.
    rewrite (ri_head _ (si_rinv _ Hi)), (ri_tail _ (si_rinv _ Hi)).
    destruct Hw as [(Hn & _)|Hw]; [|naive_solver]. wrap_lia.
  - destruct (dispatch item). simplify_eq/=. right; eexists; split; [done|lia].
  - destruct Hw as [(_ & _ & [])|(_ & _ & _ & ->)]. left.
    rewrite item_at_set by (first [apply Hi | apply mod_slot]). by rewrite Z.eqb_refl.
  - destruct (idle_phase _ _ _) as [l' load]. simplify_eq.
    right. destruct load; eexists; (split; [done|lia]).
Qed.

Lemma run_app sync a b s : run sync (a ++ b) s = match run sync a s with Some s' => run sync b s' | None => None end.
Proof. revert s. induction a as [|x a IH]; intros s; simpl; [done|]. by destruct (rstep _ _ _). Qed.

(** Once the slot is marked, the caller's next two accesses end the call. *)
Lemma call_done s h :
  sinv s -> prod s = PWait h -> slot_done s ->
  exists q s', last (sent s) = Some q /\ run true [AProd; AProd] s = Some s' /\
    prod s' = PIdle /\ answers s' = answers s ++ [(h, reply q)].
Proof.
  intros Hi Hp Hdone. pose proof (si_sync _ Hi) as Hs. unfold sync_ok in Hs. rewrite Hp in Hs.
  destruct Hs as (q & Hl & Hw). pose proof (last_req_slot s h q (si_rinv _ Hi) Hl) as Hslot.
  exists q. eexists. split; [apply Hl|].
  cbn [run rstep]. unfold prod_step. rewrite Hp, Hslot. unfold slot_done in Hdone.
  rewrite Hdone. cbn. rewrite Hslot. split; [reflexivity|]. split; [done|]. cbn. do 3 f_equal.
  destruct Hw as [(_ & He & _)|[_ Hw]]; [by rewrite He in Hdone|].
  destruct (cons s); try done; destruct_and?; try done;
    match goal with H : wi_state _ = WORK_STATE_EMPTY |- _ => by rewrite H in Hdone end.
Qed.

Lemma call_completes now now' h d s :
  sinv s -> prod s = PWait h -> slot_done s \/ (exists d', distance (cons s) = Some d' /\ (d' <= d)%nat) ->
  exists n q s', (n <= d)%nat /\ last (sent s) = Some q /\
    run true (replicate n (ACons now now') ++ [AProd; AProd]) s = Some s' /\
    prod s' = PIdle /\ answers s' = answers s ++ [(h, reply q)].
Proof.
  revert s. induction d as [|d IH]; intros s Hi Hp Hd.
  - destruct Hd as [Hdone|(d' & Hd & Hle)]; [|by destruct (cons s); simplify_eq/=; lia].
    destruct (call_done s h Hi Hp Hdone) as (q & s' & Hx). exists 0%nat, q, s'. by split.
  - destruct (decide (slot_done s)) as [Hdone|Hnd].
    { destruct (call_done s h Hi Hp Hdone) as (q & s' & Hx). exists 0%nat, q, s'. split; [lia|done]. }
    destruct Hd as [|(d' & Hd & Hle)]; [done|].
    destruct (cons_progress now now' s h d' Hi Hp Hd Hnd) as (s1 & E & Hi1 & Hp1 & Hs1 & Ha1 & Hnx).
    destruct (IH s1 Hi1 Hp1) as (n & q & s' & Hn & Hq & Hrun & Hx).
    { destruct Hnx as [|(d'' & ? & ?)]; [by left|right; exists d''; split; [done|lia]]. }
    exists (S n), q, s'. split; [lia|]. rewrite <- Hs1, <- Ha1. split; [done|].
    cbn [replicate app run]. by rewrite E.
Qed.

(** C29: a caller that waits for each request gets the reply of [dispatch]
    to that very request, whatever the interleaving; and when the interpreter
    thread is not going to sleep, at most nine accesses of it complete the
    call. *)
Theorem call_returns_reply s :
  reachable rinit (step true) s ->
  (forall h v, (h, v) ∈ answers s -> exists i q, h = u64 (Z.of_nat i) /\ sent s !! i = Some q /\ v = reply q) /\
  (forall h d now now', prod s = PWait h -> distance (cons s) = Some d ->
   exists n q s', (n <= d <= 9)%nat /\ last (sent s) = Some q /\
     run true (replicate n (ACons now now') ++ [AProd; AProd]) s = Some s' /\
     prod s' = PIdle /\ answers s' = answers s ++ [(h, reply q)]).
Proof.
  intros Hr. apply sinv_reachable in Hr as Hi. split.
  - intros h v Hin. pose proof (si_ans _ Hi) as Ha. unfold answered in Ha.
    rewrite Forall_forall in Ha. by apply (Ha (h, v)).
  - intros h d now now' Hp Hd. destruct (call_completes now now' h d s Hi Hp) as (n & q & s' & Hn & Hx);
      [right; by exists d|].
    exists n, q, s'. split; [|done]. destruct (cons s); simplify_eq/=; lia.
Qed.

(** ** The C operations without interference *)

(** The items between [tail] and [head], oldest first. *)
Definition ring_abs (r : spsc_ring_t) : list work_item_t :=
  (fun k => item_at r (slot r (u64 (r_tail r + k)))) <$> seqZ 0 (u64 (r_head r - r_tail r)).

Lemma ring_push_abs r it :
  ring_ok r -> u64 (r_head r - r_tail r) <= 1024 -> in_range 64 (r_head r) ->
  let '(ok, r') := ring_push r it in
  ok = (u64 (r_head r - r_tail r) <? 1024) /\
  ring_abs r' = if ok then ring_abs r ++ [it] else ring_abs r.
Proof.
  intros Hok Hn Hh. unfold ring_push. rewrite (proj1 Hok). set (n := u64 (r_head r - r_tail r)) in *.
  assert (0 <= n) as Hn0 by (apply wrap_range; lia). case_bool; bool_to_prop; [by split; [lia|]|].
  split; [lia|]. unfold ring_abs. cbn [set_head set_item r_head r_tail].
  replace (u64 (u64 (r_head r + 1) - r_tail r)) with (n + 1) by (unfold n; wrap_lia). fold n.
  rewrite seqZ_app, fmap_app, Z.add_0_l by lia. change (seqZ n 1) with [n]. cbn [fmap list_fmap].
  assert (forall k, slot r (u64 (r_tail r + k)) = (r_tail r + k) mod 1024) as Hs by (intros; by apply slot_u64).
  assert (slot r (r_head r) = (r_tail r + n) mod 1024) as Hsh.
  { rewrite <- (wrap_id 64 (r_head r)), slot_u64 by done. unfold n. wrap_lia. }
  f_equal.
  - apply list_fmap_ext. intros i k Hk. apply lookup_seqZ in Hk as [-> Hi].
    change (slot (set_head _ _)) with (slot r). change (item_at (set_head ?x _)) with (item_at x).
    rewrite Hs, Hsh, item_at_set by (done || apply mod_slot).
    rewrite (proj2 (Z.eqb_neq _ _)); [done|]. Z.div_mod_to_equations; lia.
  - f_equal. change (slot (set_head _ _)) with (slot r). change (item_at (set_head ?x _)) with (item_at x).
    rewrite Hs, Hsh, item_at_set by (done || apply mod_slot). by rewrite Z.eqb_refl.
Qed.

Lemma ring_pop_abs r :
  in_range 64 (r_head r) -> in_range 64 (r_tail r) ->
  let '(o, r') := ring_pop r in
  match o with Some it => ring_abs r = it :: ring_abs r' | None => ring_abs r = [] /\ r' = r end.
Proof.
  intros Hh Ht. unfold ring_pop. case_bool; bool_to_prop.
  - split; [|done]. unfold ring_abs. by rewrite E, Z.sub_diag.
  - unfold ring_abs. cbn [set_tail r_head r_tail]. set (n := u64 (r_head r - r_tail r)).
    assert (0 < n) as Hn by (unfold n; wrap_lia).
    replace (u64 (r_head r - u64 (r_tail r + 1))) with (n - 1) by (unfold n; wrap_lia).
    rewrite (seqZ_cons 0 n) by lia. rewrite fmap_cons. f_equal.
    + by rewrite Z.add_0_r, (wrap_id 64 (r_tail r)).
    + change (Z.succ 0) with 1. replace (Z.pred n) with (n - 1) by lia.
      apply list_eq. intros i. rewrite !list_lookup_fmap. destruct (decide (Z.of_nat i < n - 1)).
      * rewrite !lookup_seqZ_lt by lia. simpl. do 2 f_equal. unfold slot, set_tail; simpl.
        autorewrite with wordz. do 2 f_equal. lia.
      * by rewrite !lookup_seqZ_ge by lia.
Qed.

Fixpoint cons_run (n : nat) (now now' : Z) (r : spsc_ring_t) (l : locals) (pc : cpc)
  : option (spsc_ring_t * locals * cpc) :=
  match n with
  | O => Some (r, l, pc)
  | S n => match cons_step now now' r l pc with
           | Some (r, l, pc) => cons_run n now now' r l pc
           | None => None
           end
  end.

(** The accesses of the interpreter thread that make up [ring_pop]. *)
Lemma cons_steps_pop now now' r l :
  match ring_pop r with
  | (None, r') => r' = r /\
      cons_run 2 now now' r l CPopTail = Some (r, l, if l_sleeping l then CSleepLoad else CSpin)
  | (Some it, r') =>
      cons_run 4 now now' r l CPopTail =
      Some (r', mkLocals 0 false (l_idle_start l) (l_last_head l),
            CSlot (dispatch it).1 (dispatch it).2)
  end.
Proof.
  unfold ring_pop. destruct (r_head r =? r_tail r) eqn:E; simpl; rewrite E; [done|].
  simpl. by destruct (dispatch _).
Qed.

(** ** Two executions that go wrong *)

Lemma run_rtc sync acts s s' : run sync acts s = Some s' -> rtc (step sync) s s'.
Proof.
  revert s. induction acts as [|a acts IH]; intros s E; simpl in E; [by simplify_eq|].
  destruct (rstep sync a s) as [s1|] eqn:E1; [|done]. eapply rtc_l; [by exists a|by apply IH].
Qed.

Definition ring0 : spsc_ring_t :=
  mkRing 0 0 0 RING_CAPACITY (replicate (Z.to_nat RING_CAPACITY) zero_item).

Lemma run_reachable sync acts s :
  run sync acts (start_sys ring0) = Some s -> reachable rinit (step sync) s.
Proof.
  intros E. exists (start_sys ring0). split; [by exists ring0|]. by eapply run_rtc.
Qed.

(** The interpreter thread idles until it decides to sleep and finds the ring
    empty once more; then a whole [Push] runs; then it goes to sleep. *)
Definition lost_schedule : list action :=
  replicate (Z.to_nat 15004) (ACons 0 IDLE_SPIN_NS) ++
  APush (0, 1, 2, 3) :: replicate 4 AProd ++ replicate 3 (ACons 0 0).

Definition lost_state : rsys :=
  mkSys (mkRing 1 0 1 RING_CAPACITY (<[0%nat := mkItem 0 0 1 2 3 0]> (r_items ring0)))
    (PWait 0) CBlocked (mkLocals 5000 true 0 0) [(0, 1, 2, 3)] [] [].

(** A wake-up can be lost.  [interpreter_thread_main] takes the value
    it sleeps on after it has seen the ring empty, so a [Push] in between finds
    [sleeping] still clear and wakes nobody, and the thread sleeps on the new
    value: the request stays in the ring and its caller polls for ever. *)
Theorem wakeup_can_be_lost :
  exists s, reachable rinit (step true) s /\ prod s = PWait 0 /\ cons s = CBlocked /\
    sent s = [(0, 1, 2, 3)] /\ taken s = [] /\ (forall s', step true s s' -> s' = s).
Proof.
  exists lost_state. split; [apply (run_reachable _ lost_schedule); vm_compute; reflexivity|].
  split_and!; [done..|]. intros s' [[q|idx| |now now'] Ha]; try done.
  vm_compute in Ha. injection Ha as <-. vm_compute. reflexivity.
Qed.

(** 1024 requests fill the ring; one is taken, and before its result is
    written back a ping is pushed into the slot it has left. *)
Definition stale_schedule : list action :=
  concat (replicate 1024 (APush (1, 0, 0, 0) :: replicate 4 AProd)) ++
  replicate 5 (ACons 0 0) ++ APush (0, 7, 7, 7) :: replicate 4 AProd ++
  replicate 3 (ACons 0 0) ++ [AWait 1024; AProd; AProd].

Definition stale_state : rsys :=
  default (start_sys ring0) (run false stale_schedule (start_sys ring0)).

(** [interpreter_thread_main] frees the slot before it writes the
    result into it.  With a full ring the next [Push] may reuse the slot in
    between, and its caller is then told that the request is done, with the
    result of another one, before it has been taken off the ring. *)
Theorem result_can_go_to_wrong_request :
  reachable rinit (step false) stale_state /\ n_taken stale_state = 1 /\
  sent stale_state !! 1024%nat = Some (0, 7, 7, 7) /\ reply (0, 7, 7, 7) = 0xDEADBEEF /\
  answers stale_state = [(1024, 2 ^ 64 - 1)].
Proof.
  split; [|split_and!; vm_compute; reflexivity].
  apply (run_reachable _ stale_schedule). unfold stale_state.
  destruct (run false stale_schedule (start_sys ring0)) eqn:E; [done|]. vm_compute in E. done.
Qed.

Lemma ring_is_fifo_witness :
  taken lost_state `prefix_of` sent lost_state /\ n_sent lost_state - n_taken lost_state <= RING_CAPACITY.
Proof.
  destruct (ring_is_fifo true lost_state) as (H1 & H2 & _).
  - apply (run_reachable _ lost_schedule). vm_compute. reflexivity.
  - split; [exact H1|exact H2].
Defined.

Definition call_example : rsys :=
  default (start_sys ring0) (run true (APush (0, 7, 7, 7) :: replicate 4 AProd) (start_sys ring0)).

Lemma call_returns_reply_witness :
  exists n q s', (n <= 8 <= 9)%nat /\ last (sent call_example) = Some q /\
    run true (replicate n (ACons 0 0) ++ [AProd; AProd]) call_example = Some s' /\
    prod s' = PIdle /\ answers s' = answers call_example ++ [(0, reply q)].
Proof.
  apply (call_returns_reply call_example).
  - apply (run_reachable _ (APush (0, 7, 7, 7) :: replicate 4 AProd)). vm_compute. reflexivity.
  - vm_compute. reflexivity.
  - vm_compute. reflexivity.
Defined.
