(* ===== verification/Bridge.v ===== *)
(** * The worker ring of the first bridge

    Models [src/bridge/bridge.c] and [bridge.h] (the worker loop with its
    sleep on a condition variable, and the signal), together with the producer
    [Push] of [src/bridge/bridge.go], one step per access to shared memory.

    Memory is that of the x86: each thread has a buffer of stores that have not
    reached memory yet, oldest first, and reads through it.  The atomic stores of
    the worker are release or relaxed, that is plain stores; Go's [AddUint64] and
    the functions on the mutex and the condition variable synchronise memory, so
    they wait until the buffer of their thread is empty.  The mutex and the
    condition variable behave as POSIX says, spurious wake-ups included. *)

From S2P Require Import Prelude.
Local Open Scope Z_scope.

Abbreviation RING_SIZE := 1024.
Abbreviation IDLE_TIMEOUT_NS := 100000000.

(** The value of the enumerator in C11's [memory_order]. *)
Definition memory_order_release : Z := 3.

Inductive owner : Type := Nobody | Worker | Producer.

Record RingBuffer := mkRB {
  rb_head : Z; rb_tail : Z; rb_buffer : list Z; rb_mutex : owner; rb_is_sleeping : Z }.

Definition rb_set_head (b : RingBuffer) (v : Z) : RingBuffer :=
  mkRB v (rb_tail b) (rb_buffer b) (rb_mutex b) (rb_is_sleeping b).
Definition rb_set_tail (b : RingBuffer) (v : Z) : RingBuffer :=
  mkRB (rb_head b) v (rb_buffer b) (rb_mutex b) (rb_is_sleeping b).
Definition rb_store (b : RingBuffer) (i v : Z) : RingBuffer :=
  mkRB (rb_head b) (rb_tail b) (<[Z.to_nat i := v]> (rb_buffer b)) (rb_mutex b) (rb_is_sleeping b).
Definition rb_set_mutex (b : RingBuffer) (o : owner) : RingBuffer :=
  mkRB (rb_head b) (rb_tail b) (rb_buffer b) o (rb_is_sleeping b).
Definition rb_set_sleeping (b : RingBuffer) (v : Z) : RingBuffer :=
  mkRB (rb_head b) (rb_tail b) (rb_buffer b) (rb_mutex b) v.

(** A store on its way to memory. *)
Inductive bwrite : Type :=
| ToSlot (i v : Z)
| ToTail (v : Z)
| ToSleeping (v : Z).

Definition commit (b : RingBuffer) (w : bwrite) : RingBuffer :=
  match w with
  | ToSlot i v => rb_store b i v
  | ToTail v => rb_set_tail b v
  | ToSleeping v => rb_set_sleeping b v
  end.

(** What a thread reads in a slot: the youngest of its own stores, else memory. *)
Definition read_slot (b : RingBuffer) (buf : list bwrite) (i : Z) : Z :=
  default 0 (rb_buffer (foldl commit b buf) !! Z.to_nat i).

(** Program points of [ring_buffer_worker]. *)
Inductive wpc : Type :=
| WLoad                     (* load head *)
| WWork                     (* double the value in its slot *)
| WTail                     (* store tail *)
| WIdle                     (* look at the clock *)
| WLock                     (* pthread_mutex_lock *)
| WSet                      (* is_sleeping = 1 *)
| WCheck                    (* load head again *)
| WCondWait                 (* pthread_cond_wait: release and block *)
| WBlocked
| WRelock                   (* pthread_cond_wait: take the mutex again *)
| WClear                    (* is_sleeping = 0 *)
| WUnlock.

(** Program points of [Push] and of [ring_buffer_signal], which it calls. *)
Inductive bpc : Type :=
| BIdle
| BFull (v head : Z)        (* load tail, spin while the ring is full *)
| BWrite (v head : Z)       (* store the value *)
| BAdd                      (* head += 1 *)
| BSleep                    (* load is_sleeping *)
| BLock | BSignal | BUnlock.

(** [wbuf] and [pbuf] are the store buffers of the worker and of the producer. *)
Record bsys := mkBsys {
  rb : RingBuffer; work : wpc; push : bpc; current_tail : Z; last_work_time : Z; wbuf : list bwrite; pbuf : list bwrite }.

Definition with_work (s : bsys) (w : wpc) : bsys :=
  mkBsys (rb s) w (push s) (current_tail s) (last_work_time s) (wbuf s) (pbuf s).
Definition with_push (s : bsys) (p : bpc) : bsys :=
  mkBsys (rb s) (work s) p (current_tail s) (last_work_time s) (wbuf s) (pbuf s).
Definition with_rb (s : bsys) (b : RingBuffer) : bsys :=
  mkBsys b (work s) (push s) (current_tail s) (last_work_time s) (wbuf s) (pbuf s).
Definition with_wbuf (s : bsys) (l : list bwrite) : bsys :=
  mkBsys (rb s) (work s) (push s) (current_tail s) (last_work_time s) l (pbuf s).
Definition with_pbuf (s : bsys) (l : list bwrite) : bsys :=
  mkBsys (rb s) (work s) (push s) (current_tail s) (last_work_time s) (wbuf s) l.

(** A store of the worker, and of the producer. *)
Definition work_store (s : bsys) (w : bwrite) : bsys := with_wbuf s (wbuf s ++ [w]).
Definition push_store (s : bsys) (w : bwrite) : bsys := with_pbuf s (pbuf s ++ [w]).

(** An access that synchronises memory waits for the buffer. *)
Definition synced {A} (buf : list bwrite) (r : option A) : option A := match buf with [] => r | _ => None end.

(** One access of the worker at time [now]; [None]: it waits. *)
Definition work_step (now : Z) (s : bsys) : option bsys :=
  let b := rb s in
  match work s with
  | WLoad => Some (with_work s (if rb_head b =? current_tail s then WIdle else WWork))
  | WWork =>
      let slot := current_tail s mod RING_SIZE in
      Some (with_work (work_store s (ToSlot slot (u64 (read_slot b (wbuf s) slot * 2)))) WTail)
  | WTail =>
      (* the value stored is the second argument of the call *)
      Some (mkBsys b WLoad (push s) (u64 (current_tail s + 1)) now (wbuf s ++ [ToTail memory_order_release]) (pbuf s))
  | WIdle => Some (with_work s (if IDLE_TIMEOUT_NS <? u64 (now - last_work_time s) then WLock else WLoad))
  | WLock => synced (wbuf s)
             match rb_mutex b with
             | Nobody => Some (with_work (with_rb s (rb_set_mutex b Worker)) WSet)
             | _ => None
             end
  | WSet => Some (with_work (work_store s (ToSleeping 1)) WCheck)
  | WCheck => Some (with_work s (if rb_head b =? current_tail s then WCondWait else WClear))
  | WCondWait => synced (wbuf s) (Some (with_work (with_rb s (rb_set_mutex b Nobody)) WBlocked))
  | WBlocked => None
  | WRelock => synced (wbuf s)
               match rb_mutex b with
               | Nobody => Some (with_work (with_rb s (rb_set_mutex b Worker)) WClear)
               | _ => None
               end
  | WClear => Some (with_work (work_store s (ToSleeping 0)) WUnlock)
  | WUnlock => synced (wbuf s) (Some (mkBsys (rb_set_mutex b Nobody) WLoad (push s) (current_tail s) now (wbuf s) (pbuf s)))
  end.

Definition push_step (s : bsys) : option bsys :=
  let b := rb s in
  match push s with
  | BIdle => None
  | BFull v head =>
      Some (with_push s (if RING_SIZE <=? u64 (head - rb_tail b) then BFull v head else BWrite v head))
  | BWrite v head => Some (with_push (push_store s (ToSlot (head mod RING_SIZE) v)) BAdd)
  | BAdd => synced (pbuf s) (Some (with_push (with_rb s (rb_set_head b (u64 (rb_head b + 1)))) BSleep))
  | BSleep => Some (with_push s (if rb_is_sleeping b =? 1 then BLock else BIdle))
  | BLock => synced (pbuf s)
             match rb_mutex b with
             | Nobody => Some (with_push (with_rb s (rb_set_mutex b Producer)) BSignal)
             | _ => None
             end
  | BSignal => synced (pbuf s) (Some (with_push (with_work s (match work s with WBlocked => WRelock | w => w end)) BUnlock))
  | BUnlock => synced (pbuf s) (Some (with_push (with_rb s (rb_set_mutex b Nobody)) BIdle))
  end.

Inductive baction : Type :=
| BCall (v : Z)             (* a caller enters Push *)
| BPush                     (* next access of the producer *)
| BWork (now : Z)           (* next access of the worker *)
| BWorkFlush                (* the oldest store of the worker reaches memory *)
| BPushFlush                (* the oldest store of the producer reaches memory *)
| BSpurious.                (* the condition variable wakes the worker by itself *)

Definition bstep_fun (a : baction) (s : bsys) : option bsys :=
  match a with
  | BCall v => match push s with BIdle => Some (with_push s (BFull v (rb_head (rb s)))) | _ => None end
  | BPush => push_step s
  | BWork now => work_step now s
  | BWorkFlush => match wbuf s with w :: l => Some (with_wbuf (with_rb s (commit (rb s) w)) l) | [] => None end
  | BPushFlush => match pbuf s with w :: l => Some (with_pbuf (with_rb s (commit (rb s) w)) l) | [] => None end
  | BSpurious => match work s with WBlocked => Some (with_work s WRelock) | _ => None end
  end.

Definition bstep (s s' : bsys) : Prop := exists a, bstep_fun a s = Some s'.

Fixpoint brun (acts : list baction) (s : bsys) : option bsys :=
  match acts with
  | [] => Some s
  | a :: acts => match bstep_fun a s with Some s' => brun acts s' | None => None end
  end.

(** [NewRingBuffer] zeroes the structure; the worker has just been started. *)
Definition bstart (now : Z) : bsys :=
  mkBsys (mkRB 0 0 (replicate (Z.to_nat RING_SIZE) 0) Nobody 0) WLoad BIdle 0 now [] [].

Definition binit (s : bsys) : Prop := exists now, s = bstart now.

Lemma brun_rtc acts s s' : brun acts s = Some s' -> rtc bstep s s'.
Proof.
  revert s. induction acts as [|a acts IH]; intros s E; simpl in E; [by simplify_eq|].
  destruct (bstep_fun a s) as [s1|] eqn:E1; [|done]. eapply rtc_l; [by exists a|by apply IH].
Qed.

(** ** The worker is woken *)

Definition worker_locks (w : wpc) : bool :=
  match w with WSet | WCheck | WCondWait | WClear | WUnlock => true | _ => false end.
Definition producer_locks (p : bpc) : bool :=
  match p with BSignal | BUnlock => true | _ => false end.

(** A producer past the test for a full ring that has yet to look at
    [is_sleeping] or to signal. *)
Definition on_its_way (p : bpc) : bool :=
  match p with BWrite _ _ | BAdd | BSleep | BLock | BSignal => true | _ => false end.

(** Of these, one that has moved [head]. *)
Definition will_signal (p : bpc) : bool :=
  match p with BSleep | BLock | BSignal => true | _ => false end.

(** Who holds the mutex, by the program points. *)
Definition holder (w : wpc) (p : bpc) : owner :=
  if worker_locks w then Worker else if producer_locks p then Producer else Nobody.

(** The store of [is_sleeping], by the program point of the worker. *)
Definition sleep_ok (s : bsys) : Prop :=
  match work s with
  | WSet => wbuf s = []
  | WCheck | WCondWait => wbuf s = [ToSleeping 1] \/ wbuf s = [] /\ rb_is_sleeping (rb s) = 1
  | WBlocked | WRelock => wbuf s = [] /\ rb_is_sleeping (rb s) = 1
  | _ => True
  end.

Definition pbuf_ok (s : bsys) : Prop :=
  match push s with BAdd => pbuf s = [] \/ exists i v, pbuf s = [ToSlot i v] | _ => pbuf s = [] end.

Record binv (s : bsys) : Prop := {
  bi_mutex : rb_mutex (rb s) = holder (work s) (push s);
  bi_excl : worker_locks (work s) && producer_locks (push s) = false;
  bi_sleep : sleep_ok s;
  bi_pbuf : pbuf_ok s }.

Lemma commit_mutex b w : rb_mutex (commit b w) = rb_mutex b.
Proof. by destruct w. Qed.

Lemma commit_head b w : rb_head (commit b w) = rb_head b.
Proof. by destruct w. Qed.

Lemma binv_init s : binit s -> binv s.
Proof. by intros [now ->]. Qed.

Ltac bsolve := split; unfold holder, sleep_ok, pbuf_ok in *; simpl in *; rewrite ?andb_false_r, ?andb_true_r in *;
  try first [done | intuition congruence].

Lemma binv_push s s' : binv s -> push_step s = Some s' -> binv s'.
Proof.
  intros [Hm Hx Hs Hp] Ha. unfold push_step, synced in Ha. unfold pbuf_ok in Hp.
  destruct (push s) eqn:E; simplify_eq; simpl in *.
  - case_bool; bsolve.
  - bsolve. right. rewrite Hp. by eexists _, _.
  - destruct (pbuf s) eqn:Eb; simplify_eq. bsolve.
  - case_bool; bsolve.
  - rewrite Hp in Ha. destruct (rb_mutex (rb s)) eqn:Em; simplify_eq. unfold holder in Hm.
    destruct (worker_locks (work s)) eqn:El; [done|]. bsolve; by rewrite El.
  - rewrite Hp in Ha. simplify_eq. rewrite andb_true_r in Hx. unfold sleep_ok in Hs.
    destruct (work s) eqn:Ew; bsolve.
  - rewrite Hp in Ha. simplify_eq. rewrite andb_true_r in Hx. bsolve. by rewrite Hx.
Qed.

Lemma binv_work now s s' : binv s -> work_step now s = Some s' -> binv s'.
Proof.
  intros [Hm Hx Hs Hp] Ha. unfold work_step, synced in Ha. unfold sleep_ok in Hs.
  destruct (work s) eqn:E; simplify_eq; simpl in *;
    try solve [bsolve | case_bool; bool_to_prop; bsolve].
  - destruct (wbuf s) eqn:Eb; [|done]. destruct (rb_mutex (rb s)); simplify_eq. unfold holder in Hm. simpl in Hm.
    destruct (producer_locks (push s)) eqn:El; [done|]. bsolve.
  - bsolve. left. by rewrite Hs.
  - destruct (wbuf s) eqn:Eb; simplify_eq. bsolve. by rewrite Hx.
  - destruct (wbuf s) eqn:Eb; [|done]. destruct (rb_mutex (rb s)); simplify_eq. unfold holder in Hm. simpl in Hm.
    destruct (producer_locks (push s)) eqn:El; [done|]. bsolve.
  - destruct (wbuf s) eqn:Eb; simplify_eq. bsolve. by rewrite Hx.
Qed.

Lemma binv_work_flush s s' : binv s -> bstep_fun BWorkFlush s = Some s' -> binv s'.
Proof.
  intros [Hm Hx Hs Hp] Ha. simpl in Ha. destruct (wbuf s) as [|w l] eqn:Eb; simplify_eq.
  split; simpl; [by rewrite commit_mutex|done| |done]. unfold sleep_ok in *. simpl. rewrite Eb in Hs.
  destruct (work s); try done; try (by destruct Hs). all: destruct Hs as [Hs|[Hs _]]; simplify_eq; by right.
Qed.

Lemma binv_push_flush s s' : binv s -> bstep_fun BPushFlush s = Some s' -> binv s'.
Proof.
  intros [Hm Hx Hs Hp] Ha. simpl in Ha. destruct (pbuf s) as [|w l] eqn:Eb; simplify_eq.
  unfold pbuf_ok in Hp. rewrite Eb in Hp. destruct (push s) eqn:Ep; try done. destruct Hp as [|(i & v & ?)]; simplify_eq.
  split; unfold sleep_ok, pbuf_ok in *; simpl; rewrite ?Ep; [done|done|done|by left].
Qed.

Lemma binv_step s s' : binv s -> bstep s s' -> binv s'.
Proof.
  intros Hi [a Ha]. destruct a as [v| |now| | |]; simpl in Ha.
  - destruct Hi as [Hm Hx Hs Hp]. unfold holder, pbuf_ok in *. destruct (push s) eqn:E; simplify_eq. by split.
  - by eapply binv_push.
  - by eapply binv_work.
  - by eapply binv_work_flush.
  - by eapply binv_push_flush.
  - destruct Hi as [Hm Hx Hs Hp]. unfold holder, sleep_ok in *. destruct (work s) eqn:E; simplify_eq. by split.
Qed.

Lemma binv_reachable s : reachable binit bstep s -> binv s.
Proof. apply (invariant_reachable binit bstep binv binv_init binv_step). Qed.

(** *** Pushes that look at [is_sleeping] too early *)

(** The producer looks at [is_sleeping] when the worker has looked at [head] for
    the second time and its store of [is_sleeping] has not reached memory. *)
Definition too_early (a : baction) (s : bsys) : bool :=
  match a, push s, work s, wbuf s with BPush, BSleep, WCondWait, _ :: _ => true | _, _, _, _ => false end.

Definition timely_step (s s' : bsys) : Prop := exists a, too_early a s = false /\ bstep_fun a s = Some s'.

(** A schedule in which no [Push] looks too early. *)
Fixpoint timely_run (acts : list baction) (s : bsys) : option bsys :=
  match acts with
  | [] => Some s
  | a :: acts => if too_early a s then None else match bstep_fun a s with Some s' => timely_run acts s' | None => None end
  end.

Lemma timely_run_rtc acts s s' : timely_run acts s = Some s' -> rtc timely_step s s'.
Proof.
  revert s. induction acts as [|a acts IH]; intros s E; simpl in E; [by simplify_eq|].
  destruct (too_early a s) eqn:Et; [done|]. destruct (bstep_fun a s) as [s1|] eqn:E1; [|done].
  eapply rtc_l; [by exists a|by apply IH].
Qed.

Lemma timely_bstep s s' : timely_step s s' -> bstep s s'.
Proof. intros (a & _ & E). by exists a. Qed.

(** A value published while the worker is about to sleep is followed by a
    signal. *)
Definition signalled (s : bsys) : Prop :=
  work s = WCondWait \/ work s = WBlocked -> rb_head (rb s) <> current_tail s -> will_signal (push s) = true.

Lemma signalled_step s s' : binv s /\ signalled s -> timely_step s s' -> binv s' /\ signalled s'.
Proof.
  intros [Hi Hk] Ht. split; [by eapply binv_step; [|apply timely_bstep]|]. destruct Ht as (a & He & Ha), Hi as [_ Hx Hs _].
  unfold signalled, sleep_ok in *. destruct a as [v| |now| | |]; simpl in Ha.
  - destruct (push s) eqn:E; simplify_eq. simpl. intros H1 H2. by specialize (Hk H1 H2).
  - unfold push_step, synced in Ha. simpl in He. destruct (push s) eqn:E; simplify_eq; simpl in *.
    + intros H1 H2. by specialize (Hk H1 H2).
    + intros H1 H2. by specialize (Hk H1 H2).
    + by destruct (pbuf s); simplify_eq.
    + case_bool; bool_to_prop; [done|]. intros [Hw|Hw] _; rewrite Hw in *; destruct E0;
        [destruct Hs as [Hs|[Hs ?]]; rewrite Hs in *; done|by destruct Hs].
    + destruct (pbuf s); [|done]. destruct (rb_mutex (rb s)); by simplify_eq.
    + destruct (pbuf s); simplify_eq. simpl. destruct (work s); simpl in *; intuition congruence.
    + destruct (pbuf s); simplify_eq. simpl. intros H1 H2. by specialize (Hk H1 H2).
  - unfold work_step, synced in Ha. destruct (work s) eqn:E; simplify_eq; simpl in *; try (intuition congruence).
    + case_bool; intuition congruence.
    + case_bool; intuition congruence.
    + destruct (wbuf s); [|done]. destruct (rb_mutex (rb s)); simplify_eq; simpl in *; intuition congruence.
    + case_bool; bool_to_prop; simpl; intuition congruence.
    + destruct (wbuf s); simplify_eq. simpl. intros _. apply Hk. by left.
    + destruct (wbuf s); [|done]. destruct (rb_mutex (rb s)); simplify_eq; simpl in *; intuition congruence.
    + destruct (wbuf s); simplify_eq. simpl. intuition congruence.
  - destruct (wbuf s); simplify_eq. simpl. by rewrite commit_head.
  - destruct (pbuf s); simplify_eq. simpl. by rewrite commit_head.
  - destruct (work s) eqn:E; simplify_eq. simpl. intuition congruence.
Qed.

Lemma signalled_reachable s : reachable binit timely_step s -> signalled s.
Proof.
  intros Hr. apply (invariant_reachable binit timely_step (fun s => binv s /\ signalled s)); [|exact signalled_step|done].
  intros s0 H0. split; [by apply binv_init|]. destruct H0 as [now ->]. intros [H|H]; done.
Qed.

(** Once the worker is blocked, memory says so, and a [Push] that has still to look
    wakes it. *)
Lemma push_wakes s :
  binv s -> work s = WBlocked -> on_its_way (push s) = true ->
  exists acts s', (length acts <= 6)%nat /\ Forall (fun a => a = BPush \/ a = BPushFlush) acts /\
    brun acts s = Some s' /\ work s' = WRelock.
Proof.
  intros [Hm _ Hs Hp] Hw Hon. unfold sleep_ok, pbuf_ok, holder in *. rewrite Hw in *. destruct Hs as [_ Hs].
  destruct s as [b w p ct t wb pb]. cbn [rb work push wbuf pbuf current_tail last_work_time] in *. subst w.
  assert (forall l, Forall (fun a => a = BPush \/ a = BPushFlush) (replicate l BPush)) as Hrep
    by (intros; apply Forall_replicate; by left).
  destruct p as [| |v h| | | | |]; try done; cbn [worker_locks producer_locks] in Hm.
  - exists [BPush; BPushFlush; BPush; BPush; BPush; BPush]. subst pb. eexists. split; [simpl; lia|].
    split; [repeat constructor; tauto|]. cbn. rewrite Hs. cbn. rewrite Hm. by cbn.
  - destruct Hp as [-> |(i & x & ->)].
    + exists (replicate 4 BPush). eexists. split; [simpl; lia|]. split; [done|]. cbn. rewrite Hs. cbn. rewrite Hm. by cbn.
    + exists (BPushFlush :: replicate 4 BPush). eexists. split; [simpl; lia|].
      split; [constructor; [by right|done]|]. cbn. rewrite Hs. cbn. rewrite Hm. by cbn.
  - exists (replicate 3 BPush). subst pb. eexists. split; [simpl; lia|]. split; [done|]. cbn. rewrite Hs. cbn. rewrite Hm. by cbn.
  - exists (replicate 2 BPush). subst pb. eexists. split; [simpl; lia|]. split; [done|]. cbn. rewrite Hm. by cbn.
  - exists [BPush]. subst pb. eexists. split; [simpl; lia|]. split; [by apply (Hrep 1%nat)|]. by cbn.
Qed.

(** C34: when the worker sleeps in [pthread_cond_wait], a [Push] that has still
    to look at [is_sleeping] wakes it within six steps of its own.  If moreover no
    [Push] so far has looked too early (between the second look of the worker at
    [head] and the arrival of its store of [is_sleeping] in memory), then a worker
    that sleeps although a value has been published is about to be woken by the
    [Push] of that value. *)
Theorem bridge_wakes_worker s :
  reachable binit bstep s -> work s = WBlocked ->
  on_its_way (push s) = true \/ reachable binit timely_step s /\ rb_head (rb s) <> current_tail s ->
  exists acts s', (length acts <= 6)%nat /\ Forall (fun a => a = BPush \/ a = BPushFlush) acts /\
    brun acts s = Some s' /\ work s' = WRelock.
Proof.
  intros Hr Hw Hon. apply push_wakes; [by apply binv_reachable|done|]. destruct Hon as [|[Ht Hne]]; [done|].
  pose proof (signalled_reachable s Ht (or_intror Hw) Hne) as Hs. by destruct (push s).
Qed.

(** The proviso is needed: nothing in the code orders the store of [is_sleeping]
    before the second look at [head].  The worker goes to sleep although a value is
    published and no [Push] is on its way to wake it. *)
Definition lost_schedule : list baction :=
  [BCall 21; BPush; BPush; BPushFlush] ++ [BWork 0; BWork 200000000; BWork 0; BWork 0; BWork 0] ++ [BPush; BPush] ++ [BWorkFlush; BWork 0].

Theorem bridge_wakeup_lost :
  exists s, reachable binit bstep s /\ work s = WBlocked /\ rb_head (rb s) = 1 /\ current_tail s = 0 /\ push s = BIdle /\ wbuf s = [].
Proof.
  destruct (brun lost_schedule (bstart 0)) as [s|] eqn:E; [|by vm_compute in E]. exists s.
  split; [exists (bstart 0); split; [by exists 0|by apply (brun_rtc lost_schedule)]|].
  assert ((fun s => (work s, rb_head (rb s), current_tail s, push s, wbuf s)) <$> brun lost_schedule (bstart 0)
    = Some (WBlocked, 1, 0, BIdle, [])) as H by (vm_compute; reflexivity).
  rewrite E in H. by injection H as -> -> -> -> ->.
Qed.

(** ** The ring never moves on *)

(** What is stored in [tail]. *)
Definition tail_three (w : bwrite) : Prop := match w with ToTail v => v = 3 | _ => True end.

Definition no_tail (w : bwrite) : Prop := match w with ToTail _ => False | _ => True end.

Definition bufs_ok (s : bsys) : Prop := Forall tail_three (wbuf s) /\ Forall no_tail (pbuf s).

Definition tail_ok (s : bsys) : Prop :=
  (rb_tail (rb s) = 0 \/ rb_tail (rb s) = 3) /\ 0 <= rb_head (rb s) <= 1027 /\
  match push s with
  | BFull _ h => h = rb_head (rb s)
  | BWrite _ h => h = rb_head (rb s) /\ rb_head (rb s) < 1027
  | BAdd => rb_head (rb s) < 1027
  | _ => True
  end.

Lemma synced_inv {A} buf (r : option A) x : synced buf r = Some x -> r = Some x.
Proof. by destruct buf. Qed.

Ltac open_step H :=
  try apply synced_inv in H;
  try match type of H with match rb_mutex ?b with _ => _ end = _ => destruct (rb_mutex b) end.

Lemma bufs_ok_step s s' : bufs_ok s -> bstep s s' -> bufs_ok s'.
Proof.
  intros [Hw Hp] [a Ha]. unfold bufs_ok. destruct a as [v| |now| | |]; simpl in Ha.
  - by destruct (push s); simplify_eq.
  - unfold push_step in Ha. destruct (push s); open_step Ha; simplify_eq; simpl;
      split; try done. by apply Forall_app_2; [|apply Forall_singleton].
  - unfold work_step in Ha. destruct (work s); open_step Ha; simplify_eq; simpl;
      split; try done; by apply Forall_app_2; [|apply Forall_singleton].
  - destruct (wbuf s); simplify_eq. by apply Forall_cons in Hw as [_ Hw].
  - destruct (pbuf s); simplify_eq. by apply Forall_cons in Hp as [_ Hp].
  - by destruct (work s); simplify_eq.
Qed.

(** A flush moves neither thread nor [head], and leaves [tail] alone or stores 3. *)
Lemma flush_tail a s s' :
  a = BWorkFlush \/ a = BPushFlush -> bufs_ok s -> bstep_fun a s = Some s' ->
  push s' = push s /\ rb_head (rb s') = rb_head (rb s) /\ (rb_tail (rb s') = rb_tail (rb s) \/ rb_tail (rb s') = 3).
Proof.
  intros Hd [Hw Hp] Ha. destruct Hd as [-> | ->]; simpl in Ha.
  - destruct (wbuf s) as [|w l]; simplify_eq. apply Forall_cons in Hw as [Hw _]. destruct w; simpl in *; subst; auto.
  - destruct (pbuf s) as [|w l]; simplify_eq. apply Forall_cons in Hp as [Hp _]. destruct w; simpl in *; auto. done.
Qed.

Ltac tsolve := simpl; split_and!; first [done | lia].

Lemma tail_ok_step s s' : bufs_ok s -> tail_ok s -> bstep s s' -> tail_ok s'.
Proof.
  intros Hb (Ht & Hh & Hp) [a Ha]. unfold tail_ok. destruct a as [v| |now| | |].
  - simpl in Ha. destruct (push s); simplify_eq. by tsolve.
  - simpl in Ha. unfold push_step in Ha. destruct (push s) eqn:Ep; open_step Ha;
      simplify_eq; simpl in *; try by tsolve.
    + subst. split_and!; [done|lia..|]. case_bool; bool_to_prop; [done|].
      split; [done|]. destruct Ht as [Ht|Ht]; rewrite Ht in *; wrap_lia.
    + split_and!; [done|wrap_lia..|done].
    + split_and!; [done|lia..|]. by case_bool.
  - simpl in Ha. unfold work_step in Ha. destruct (work s); open_step Ha;
      simplify_eq; simpl in *; by tsolve.
  - destruct (flush_tail BWorkFlush s s' (or_introl eq_refl) Hb Ha) as (-> & -> & H). split; [|done]. lia.
  - destruct (flush_tail BPushFlush s s' (or_intror eq_refl) Hb Ha) as (-> & -> & H). split; [|done]. lia.
  - simpl in Ha. destruct (work s); simplify_eq. by tsolve.
Qed.

Lemma tail_ok_reachable s : reachable binit bstep s -> bufs_ok s /\ tail_ok s.
Proof.
  apply (invariant_reachable binit bstep (fun s => bufs_ok s /\ tail_ok s)).
  - intros s0 [now ->]. split; [by split|]. unfold tail_ok. simpl. split; [by left|]. by tsolve.
  - intros s0 s1 [Hb Ht] H. split; [by eapply bufs_ok_step|by eapply tail_ok_step].
Qed.

(** The value stored has passed [head] by: no further value gets in. *)
Definition stalled (h : Z) (s : bsys) : Prop :=
  rb_tail (rb s) = 3 /\ rb_head (rb s) = h /\
  match push s with BFull _ h' => h' = h | BWrite _ _ | BAdd => False | _ => True end.

Lemma stalled_step h s s' : 0 <= h < 3 -> bufs_ok s -> stalled h s -> bstep s s' -> stalled h s'.
Proof.
  intros Hh Hb (Ht & <- & Hp) [a Ha]. unfold stalled. destruct a as [v| |now| | |].
  - simpl in Ha. destruct (push s); simplify_eq. done.
  - simpl in Ha. unfold push_step in Ha. destruct (push s) eqn:Ep; open_step Ha;
      simplify_eq; simpl in *; try done.
    + split_and!; [done|done|]. rewrite Ht, (proj2 (Z.leb_le _ _)); [done|wrap_lia].
    + split_and!; [done|done|]. by case_bool.
  - simpl in Ha. unfold work_step in Ha. destruct (work s); open_step Ha; by simplify_eq.
  - destruct (flush_tail BWorkFlush s s' (or_introl eq_refl) Hb Ha) as (-> & -> & H). split; [|done]. lia.
  - destruct (flush_tail BPushFlush s s' (or_intror eq_refl) Hb Ha) as (-> & -> & H). split; [|done]. lia.
  - simpl in Ha. destruct (work s); by simplify_eq.
Qed.

(** The worker stores the constant [memory_order_release] (3) into
    [tail], the two last arguments of [atomic_store_explicit] being swapped.
    Hence at most 1027 values ever enter the ring; and if the worker is done
    with the first value before a third one is in, no caller of [Push] ever
    gets past the test for a full ring again. *)
Theorem bridge_stalls s :
  reachable binit bstep s ->
  rb_head (rb s) <= 1027 /\
  (rb_tail (rb s) = 3 -> rb_head (rb s) < 3 -> (forall v h, push s <> BWrite v h) -> push s <> BAdd ->
   forall s', rtc bstep s s' -> rb_head (rb s') = rb_head (rb s)).
Proof.
  intros Hr. apply tail_ok_reachable in Hr as (Hb & Ht & Hh & Hp). split; [lia|].
  intros Ht3 Hh3 Hw Ha s' Hs. assert (stalled (rb_head (rb s)) s) as Hst.
  { split_and!; [done|done|]. destruct (push s); naive_solver. }
  set (h := rb_head (rb s)) in *. assert (0 <= h < 3) as Hh' by lia. clearbody h.
  assert (bufs_ok s' /\ stalled h s') as (_ & _ & ? & _); [|done].
  clear Ht Hh Hp Ht3 Hh3 Hw Ha. induction Hs as [|s s1 s2 H1 _ IH]; [done|].
  apply IH; [by eapply bufs_ok_step|by eapply stalled_step].
Qed.

(** ** Examples *)

(** One value pushed and doubled. *)
Definition stall_schedule : list baction := 
  [BCall 21; BPush; BPush; BPushFlush; BPush; BPush] ++ replicate 3 (BWork 0) ++ [BWorkFlush; BWorkFlush].

Definition stall_state : bsys := default (bstart 0) (brun stall_schedule (bstart 0)).

Lemma bridge_stalls_witness :
  rb_buffer (rb stall_state) !! 0%nat = Some 42 /\ rb_head (rb stall_state) = 1 /\
  (forall s', rtc bstep stall_state s' -> rb_head (rb s') = 1).
Proof.
  split; [vm_compute; reflexivity|]. split; [vm_compute; reflexivity|].
  apply (bridge_stalls stall_state).
  - exists (bstart 0). split; [by exists 0|]. apply (brun_rtc stall_schedule). vm_compute. reflexivity.
  - vm_compute. reflexivity.
  - vm_compute. reflexivity.
  - intros v h. vm_compute. congruence.
  - vm_compute. congruence.
Defined.

(** The worker falls asleep while a [Push] is between its addition to [head] and
    its look at [is_sleeping]; its store has reached memory. *)
Definition wake_schedule : list baction :=
  [BCall 21; BPush; BPush; BPushFlush] ++
  [BWork 0; BWork 200000000; BWork 0; BWork 0; BWork 0; BWorkFlush] ++ [BPush; BWork 0].

Definition wake_state : bsys := default (bstart 0) (timely_run wake_schedule (bstart 0)).

Lemma wake_reachable : reachable binit timely_step wake_state.
Proof. exists (bstart 0). split; [by exists 0|]. apply (timely_run_rtc wake_schedule). by vm_compute. Qed.

Lemma timely_reachable s : reachable binit timely_step s -> reachable binit bstep s.
Proof. intros (s0 & H0 & Hs). exists s0. split; [done|]. eapply rtc_subrel; [|exact Hs]. exact timely_bstep. Qed.

Lemma bridge_wakes_worker_witness :
  rb_head (rb wake_state) = 1 /\ current_tail wake_state = 0 /\
  exists acts s', (length acts <= 6)%nat /\ Forall (fun a => a = BPush \/ a = BPushFlush) acts /\
    brun acts wake_state = Some s' /\ work s' = WRelock.
Proof.
  split; [vm_compute; reflexivity|]. split; [vm_compute; reflexivity|].
  apply (bridge_wakes_worker wake_state); [exact (timely_reachable _ wake_reachable)|vm_compute; reflexivity|].
  right. split; [exact wake_reachable|]. vm_compute. congruence.
Defined.
