(* ===== verification/SandboxMem.v ===== *)
(** * Guard pages and W^X of the sandbox memory

    Models [round_up_page], [sandbox_mem_create], [sandbox_seal_code] and
    [sandbox_mem_destroy] of [src/bridge2/sandbox.c] on an address space that
    maps page numbers to protections.

    The kernel chooses where a mapping goes: [mmap_base] is a parameter, and
    [MmapLaws] says what POSIX promises of its choice (whole free pages, below
    the top of user space, no empty mapping).  The page size is a power of two.
    [mprotect] and [munmap] of pages just mapped succeed, and the code ignores
    their results. *)

From stdpp Require Import gmap.
From S2P Require Import Prelude.
Local Open Scope Z_scope.

Definition PROT_NONE : Z := 0.
Definition PROT_READ : Z := 1.
Definition PROT_WRITE : Z := 2.
Definition PROT_EXEC : Z := 4.
Definition PROT_RW : Z := Z.lor PROT_READ PROT_WRITE.
Definition PROT_RX : Z := Z.lor PROT_READ PROT_EXEC.

(** Mapped pages and their protections. *)
Abbreviation vm := (gmap Z Z).

Definition set_pages (v : vm) (p n prot : Z) : vm :=
  foldr (fun i v => <[i := prot]> v) v (seqZ p n).
Definition del_pages (v : vm) (p n : Z) : vm := foldr (fun i v => delete i v) v (seqZ p n).

Record sandbox_mem_t := mkSbm {
  code : Z; code_size : Z; data : Z; data_size : Z; stack_top : Z; stack_size : Z }.

Section Sandbox.
Context (ps : Z) (mmap_base : vm -> Z -> option Z).

(** System calls on page ranges: a length counts every page it touches. *)
Definition n_pages (len : Z) : Z := (len + ps - 1) / ps.
Definition mmap (v : vm) (len prot : Z) : option (Z * vm) :=
  match mmap_base v len with
  | Some b => Some (b, set_pages v (b / ps) (n_pages len) prot)
  | None => None
  end.
Definition mprotect (v : vm) (addr len prot : Z) : vm := set_pages v (addr / ps) (n_pages len) prot.
Definition munmap (v : vm) (addr len : Z) : vm := del_pages v (addr / ps) (n_pages len).

Definition round_up_page (n : Z) : Z := Z.land (u64 (n + ps - 1)) (not_w 64 (ps - 1)).

(** [None]: an assertion fails and the program aborts. *)
Definition sandbox_mem_create (v : vm) (code_sz data_sz stack_sz : Z) : option (sandbox_mem_t * vm) :=
  let code_sz := round_up_page code_sz in
  match mmap v code_sz PROT_RW with
  | None => None
  | Some (code, v) =>
      let data_sz := round_up_page data_sz in
      let data_total := u64 (ps + data_sz + ps) in
      match mmap v data_total PROT_RW with
      | None => None
      | Some (data_base, v) =>
          let v := mprotect v data_base ps PROT_NONE in
          let v := mprotect v (data_base + ps + data_sz) ps PROT_NONE in
          let stack_sz := round_up_page stack_sz in
          let stack_total := u64 (ps + stack_sz) in
          match mmap v stack_total PROT_RW with
          | None => None
          | Some (stack_base, v) =>
              let v := mprotect v stack_base ps PROT_NONE in
              Some (mkSbm code code_sz (data_base + ps) data_sz (stack_base + stack_total) stack_sz, v)
          end
      end
  end.

Definition sandbox_seal_code (v : vm) (m : sandbox_mem_t) : vm :=
  mprotect v (code m) (code_size m) PROT_RX.

Definition sandbox_mem_destroy (v : vm) (m : sandbox_mem_t) : sandbox_mem_t * vm :=
  let v := if truthy (code m) then munmap v (code m) (code_size m) else v in
  let v := if truthy (data m)
           then munmap v (data m - ps) (ps + data_size m + ps) else v in
  let v := if truthy (stack_top m)
           then munmap v (stack_top m - stack_size m - ps) (ps + stack_size m) else v in
  (mkSbm 0 0 0 0 0 0, v).
End Sandbox.

(** What the kernel promises of the place of a new mapping. *)
Class MmapLaws (ps : Z) (mmap_base : vm -> Z -> option Z) : Prop := {
  page_pow2 : exists k, 2 <= k <= 20 /\ ps = 2 ^ k;
  mmap_place v len b : mmap_base v len = Some b ->
    0 < len /\ b mod ps = 0 /\ 0 < b /\ b + len <= 2 ^ 63 /\
    forall p, b / ps <= p < b / ps + n_pages ps len -> v !! p = None }.

Lemma lookup_set_pages v p n prot q :
  set_pages v p n prot !! q = if decide (p <= q < p + n) then Some prot else v !! q.
Proof.
  unfold set_pages. assert (forall l, foldr (fun i v => <[i := prot]> v) v l !! q =
    if decide (q ∈ l) then Some prot else v !! q) as ->.
  { induction l as [|i l IH]; [done|]. cbn [foldr]. destruct (decide (q = i)) as [->|Hne].
    - rewrite lookup_insert_eq. by rewrite decide_True by set_solver.
    - rewrite lookup_insert_ne, IH by done. repeat case_decide; set_solver. }
  repeat case_decide; try done; rewrite elem_of_seqZ in *; lia.
Qed.

Lemma lookup_del_pages v p n q :
  del_pages v p n !! q = if decide (p <= q < p + n) then None else v !! q.
Proof.
  unfold del_pages. assert (forall l, foldr (fun i v => delete i v) v l !! q =
    if decide (q ∈ l) then None else v !! q) as ->.
  { induction l as [|i l IH]; [done|]. cbn [foldr]. destruct (decide (q = i)) as [->|Hne].
    - rewrite lookup_delete_eq. by rewrite decide_True by set_solver.
    - rewrite lookup_delete_ne, IH by done. repeat case_decide; set_solver. }
  repeat case_decide; try done; rewrite elem_of_seqZ in *; lia.
Qed.

(** ** Layout *)

Section Layout.
Context (ps : Z) (mmap_base : vm -> Z -> option Z) {Laws : MmapLaws ps mmap_base}.

Lemma ps_range : 4 <= ps <= 2 ^ 20.
Proof.
  destruct page_pow2 as (k & Hk & ->).
  split; [change 4 with (2 ^ 2)|]; apply pow2_le; lia.
Qed.

Lemma n_pages_mul k : n_pages ps (k * ps) = k.
Proof.
  pose proof ps_range. unfold n_pages. replace (k * ps + ps - 1) with ((ps - 1) + k * ps) by lia.
  rewrite Z.div_add, Z.div_small by lia. lia.
Qed.

(** Rounding up gives the least multiple of the page size. *)
Lemma round_up_page_spec n :
  0 <= n <= 2 ^ 62 -> exists k, round_up_page ps n = k * ps /\ n <= k * ps < n + ps /\ 0 <= k.
Proof.
  intros Hn. pose proof ps_range. unfold round_up_page. rewrite wrap_id by lia.
  destruct page_pow2 as (k & Hk & Hps). replace (not_w 64 (ps - 1)) with (not_w 64 (2 ^ k - 1)) by (by rewrite Hps).
  rewrite land_not_mask by (try split; lia). rewrite <- Hps. exists ((n + ps - 1) / ps). pose proof (Z.div_mod (n + ps - 1) ps).
  pose proof (Z.mod_pos_bound (n + ps - 1) ps). split_and!; [lia..|]. apply Z.div_pos; lia.
Qed.

(** A mapping of [k] pages. *)
Lemma mmap_pages v k prot b v' :
  mmap ps mmap_base v (k * ps) prot = Some (b, v') ->
  exists p, b = p * ps /\ 0 < p /\ 0 < k /\ p * ps + k * ps <= 2 ^ 63 /\
    v' = set_pages v p k prot /\ (forall q, p <= q < p + k -> v !! q = None).
Proof.
  intros Hm. pose proof ps_range. unfold mmap in Hm.
  destruct (mmap_base v (k * ps)) as [b'|] eqn:E; [|done]. simplify_eq.
  apply mmap_place in E as (Hl & Ha & Hb & Ht & Hf). rewrite n_pages_mul in *.
  assert (b = b / ps * ps) as Hbp by (pose proof (Z.div_mod b ps); lia).
  exists (b / ps). split_and!; try done; nia.
Qed.

Lemma mprotect_pages v p k prot : mprotect ps v (p * ps) (k * ps) prot = set_pages v p k prot.
Proof.
  pose proof ps_range. unfold mprotect. by rewrite n_pages_mul, Z.div_mul by lia.
Qed.

Lemma mprotect_page v p prot : mprotect ps v (p * ps) ps prot = set_pages v p 1 prot.
Proof. rewrite <- mprotect_pages. by rewrite Z.mul_1_l. Qed.

Lemma munmap_pages v p k : munmap ps v (p * ps) (k * ps) = del_pages v p k.
Proof.
  pose proof ps_range. unfold munmap. by rewrite n_pages_mul, Z.div_mul by lia.
Qed.

(** The three mappings by page numbers. *)
Record layout (v v' : vm) (m : sandbox_mem_t) (cp cn dp dn sp sn : Z) : Prop := {
  lo_code : code m = cp * ps /\ code_size m = cn * ps;
  lo_data : data m = (dp + 1) * ps /\ data_size m = dn * ps;
  lo_stack : stack_top m = (sp + 1 + sn) * ps /\ stack_size m = sn * ps;
  lo_pos : 0 < cp /\ 0 < dp /\ 0 < sp /\ 0 < cn /\ 0 <= dn /\ 0 <= sn;
  lo_vm : v' = set_pages (set_pages (set_pages (set_pages (set_pages (set_pages v
    cp cn PROT_RW) dp (dn + 2) PROT_RW) dp 1 PROT_NONE) (dp + 1 + dn) 1 PROT_NONE)
    sp (sn + 1) PROT_RW) sp 1 PROT_NONE;
  lo_code_free : forall q, cp <= q < cp + cn -> v !! q = None;
  lo_data_free : forall q, dp <= q < dp + dn + 2 -> v !! q = None /\ ~ cp <= q < cp + cn;
  lo_stack_free : forall q, sp <= q < sp + sn + 1 ->
    v !! q = None /\ ~ cp <= q < cp + cn /\ ~ dp <= q < dp + dn + 2 }.

Lemma free_outside v p n prot q :
  set_pages v p n prot !! q = None -> v !! q = None /\ ~ p <= q < p + n.
Proof. rewrite lookup_set_pages. by case_decide. Qed.

Lemma create_layout v c d s m v' :
  0 <= c <= 2 ^ 62 -> 0 <= d <= 2 ^ 62 -> 0 <= s <= 2 ^ 62 ->
  sandbox_mem_create ps mmap_base v c d s = Some (m, v') ->
  exists cp cn dp dn sp sn, layout v v' m cp cn dp dn sp sn /\
    c <= cn * ps < c + ps /\ d <= dn * ps < d + ps /\ s <= sn * ps < s + ps.
Proof.
  intros Hc Hd Hs Hcr. pose proof ps_range. unfold sandbox_mem_create in Hcr.
  destruct (round_up_page_spec c Hc) as (cn & Ec & Hcn & _).
  destruct (round_up_page_spec d Hd) as (dn & Ed & Hdn & Hdn0).
  destruct (round_up_page_spec s Hs) as (sn & Es & Hsn & Hsn0).
  rewrite Ec, Ed, Es in Hcr. rewrite !(wrap_id 64) in Hcr by lia.
  destruct (mmap _ _ v _ _) as [[cb v1]|] eqn:M1; [|done].
  apply mmap_pages in M1 as (cp & -> & Hcp & Hcn0 & _ & Hv1 & Hf1).
  replace (ps + dn * ps + ps) with ((dn + 2) * ps) in Hcr by lia.
  destruct (mmap _ _ v1 _ _) as [[db v2]|] eqn:M2; [|done].
  apply mmap_pages in M2 as (dp & -> & Hdp & _ & _ & Hv2 & Hf2).
  replace (ps + sn * ps) with ((sn + 1) * ps) in Hcr by lia.
  replace (dp * ps + ps + dn * ps) with ((dp + 1 + dn) * ps) in Hcr by lia.
  rewrite !mprotect_page in Hcr.
  destruct (mmap _ _ (set_pages _ _ _ _) _ _) as [[sb v3]|] eqn:M3; [|done].
  apply mmap_pages in M3 as (sp & -> & Hsp & _ & _ & Hv3 & Hf3). rewrite mprotect_page in Hcr.
  simplify_eq. exists cp, cn, dp, dn, sp, sn. split; [|done]. split; simpl; try lia; try done.
  - intros q Hq. apply free_outside with (prot := PROT_RW), Hf2. lia.
  - intros q Hq. assert (sp <= q < sp + (sn + 1)) as Hq' by lia.
    apply Hf3, free_outside in Hq' as [Hq' _]. apply free_outside in Hq' as [Hq' _].
    apply free_outside in Hq' as [Hq' Hn2]. apply free_outside in Hq' as [Hq' Hn1].
    split_and!; [done|done|lia].
Qed.

(** ** Properties *)

Definition prot_of (v : vm) (a : Z) : option Z := v !! (a / ps).

Definition wx_free (v : vm) : Prop :=
  forall q prot, v !! q = Some prot -> Z.land prot PROT_WRITE = 0 \/ Z.land prot PROT_EXEC = 0.

Lemma page_of a p n : p * ps <= a < (p + n) * ps -> p <= a / ps < p + n.
Proof.
  intros Ha. pose proof ps_range. pose proof (Z.div_mod a ps). pose proof (Z.mod_pos_bound a ps). nia.
Qed.

Lemma wx_set_pages v p n prot :
  wx_free v -> Z.land prot PROT_WRITE = 0 \/ Z.land prot PROT_EXEC = 0 -> wx_free (set_pages v p n prot).
Proof. intros Hv Hp q x. rewrite lookup_set_pages. case_decide; [by intros [= <-]|apply Hv]. Qed.

(** Removing the mappings in the order of [sandbox_mem_destroy] restores the
    address space, whatever protections the code pages have got. *)
Lemma destroy_layout v v' m cp cn dp dn sp sn prot :
  layout v v' m cp cn dp dn sp sn ->
  (sandbox_mem_destroy ps (set_pages v' cp cn prot) m).2 = v.
Proof.
  intros [[C1 C2] [D1 D2] [S1 S2] Hpos -> Hcf Hdf Hsf]. pose proof ps_range.
  unfold sandbox_mem_destroy. rewrite C1, C2, D1, D2, S1, S2.
  assert (forall x, 0 < x -> truthy (x * ps) = true) as Ht.
  { intros x Hx. unfold truthy. apply negb_true_iff, Z.eqb_neq. nia. }
  rewrite !Ht by lia. cbn [snd].
  replace ((dp + 1) * ps - ps) with (dp * ps) by lia.
  replace (ps + dn * ps + ps) with ((dn + 2) * ps) by lia.
  replace ((sp + 1 + sn) * ps - sn * ps - ps) with (sp * ps) by lia.
  replace (ps + sn * ps) with ((sn + 1) * ps) by lia.
  rewrite !munmap_pages. apply map_eq. intros q. rewrite !lookup_del_pages, !lookup_set_pages.
  repeat case_decide; try done; symmetry; first [by apply Hcf; lia | apply Hdf; lia | apply Hsf; lia | lia].
Qed.
End Layout.

(** C23: when [sandbox_mem_create] returns, code, data and stack are readable
    and writable and at least as large as asked for, the data has an
    inaccessible page on each side and the stack one below it;
    [sandbox_seal_code] makes exactly the code executable and read-only; no page
    is ever writable and executable; and [sandbox_mem_destroy] gives back the
    address space as it was. *)
Theorem sandbox_memory_guarded ps mmap_base v c d s m v' :
  MmapLaws ps mmap_base -> 0 <= c <= 2 ^ 62 -> 0 <= d <= 2 ^ 62 -> 0 <= s <= 2 ^ 62 ->
  sandbox_mem_create ps mmap_base v c d s = Some (m, v') ->
  let sealed := sandbox_seal_code ps v' m in
  (c <= code_size m /\ d <= data_size m /\ s <= stack_size m) /\
  (forall a, code m <= a < code m + code_size m ->
     prot_of ps v' a = Some PROT_RW /\ prot_of ps sealed a = Some PROT_RX) /\
  (forall a, data m <= a < data m + data_size m -> prot_of ps sealed a = Some PROT_RW) /\
  (forall a, data m - ps <= a < data m \/ data m + data_size m <= a < data m + data_size m + ps ->
     prot_of ps sealed a = Some PROT_NONE) /\
  (forall a, stack_top m - stack_size m <= a < stack_top m -> prot_of ps sealed a = Some PROT_RW) /\
  (forall a, stack_top m - stack_size m - ps <= a < stack_top m - stack_size m ->
     prot_of ps sealed a = Some PROT_NONE) /\
  (wx_free v -> wx_free v' /\ wx_free sealed) /\
  (sandbox_mem_destroy ps sealed m).2 = v.
Proof.
  intros Laws Hc Hd Hs Hcr sealed. pose proof (ps_range ps mmap_base) as Hps.
  destruct (create_layout ps mmap_base v c d s m v' Hc Hd Hs Hcr)
    as (cp & cn & dp & dn & sp & sn & Hl & Bc & Bd & Bs).
  assert (sealed = set_pages v' cp cn PROT_RX) as Hse.
  { unfold sealed, sandbox_seal_code. destruct (lo_code _ _ _ _ _ _ _ _ _ _ Hl) as [-> ->].
    by apply (mprotect_pages ps mmap_base). }
  pose proof (destroy_layout ps mmap_base v v' m cp cn dp dn sp sn PROT_RX Hl) as Hdes.
  rewrite Hse. clear sealed Hse.
  destruct Hl as [[-> ->] [-> ->] [-> ->] Hpos -> Hcf Hdf Hsf].
  unfold prot_of. split; [lia|]. pose proof (page_of ps mmap_base) as Hpg.
  split_and!; [| | | | |intros Hv; split; repeat apply wx_set_pages; done || (vm_compute; tauto)|done].
  - intros a Ha. specialize (Hpg a cp cn ltac:(lia)). rewrite !lookup_set_pages.
    repeat case_decide; try done; try lia;
      first [destruct (Hdf (a / ps)); lia | destruct (Hsf (a / ps)) as (? & ? & ?); lia].
  - intros a Ha. specialize (Hpg a (dp + 1) dn ltac:(lia)). rewrite !lookup_set_pages.
    destruct (Hdf (a / ps)) as [_ Hn]; [lia|].
    repeat case_decide; try done; try lia; destruct (Hsf (a / ps)) as (? & ? & ?); lia.
  - intros a Ha. rewrite !lookup_set_pages.
    assert (dp <= a / ps < dp + 1 \/ dp + 1 + dn <= a / ps < dp + 1 + dn + 1) as Hp.
    { destruct Ha; [left|right]; apply Hpg; lia. }
    destruct (Hdf (a / ps)) as [_ Hn]; [lia|].
    repeat case_decide; try done; try lia; destruct (Hsf (a / ps)) as (? & ? & ?); lia.
  - intros a Ha. specialize (Hpg a (sp + 1) sn ltac:(lia)). rewrite !lookup_set_pages.
    destruct (Hsf (a / ps)) as (_ & Hn & Hn'); [lia|]. repeat case_decide; try done; lia.
  - intros a Ha. specialize (Hpg a sp 1 ltac:(lia)). rewrite !lookup_set_pages.
    destruct (Hsf (a / ps)) as (_ & Hn & Hn'); [lia|]. repeat case_decide; try done; lia.
Qed.

(** ** A kernel that maps above everything mapped *)

Definition top_page (v : vm) : Z := foldr Z.max 16 (map_to_list v).*1.

Definition mmap_above (v : vm) (len : Z) : option Z :=
  let b := (top_page v + 1) * 4096 in
  if (0 <? len) && (b + len <=? 2 ^ 63) then Some b else None.

Lemma top_page_bound v : 16 <= top_page v /\ forall p, top_page v < p -> v !! p = None.
Proof.
  unfold top_page. split.
  - induction (map_to_list v).*1; simpl; lia.
  - intros p Hp. destruct (v !! p) as [x|] eqn:E; [|done].
    apply elem_of_map_to_list in E. assert (p ∈ (map_to_list v).*1) as Hin.
    { apply list_elem_of_fmap. by exists (p, x). }
    revert Hp Hin. induction (map_to_list v).*1 as [|y l IH]; simpl; [set_solver|].
    intros Hp [->|Hin]%elem_of_cons; [lia|]. apply IH; [lia|done].
Qed.

Lemma mmap_above_laws : MmapLaws 4096 mmap_above.
Proof.
  split; [exists 12; split; [lia|done]|]. intros v len b Hb. unfold mmap_above in Hb.
  destruct (top_page_bound v) as [H16 Hfree]. case_bool; [|done]. bool_to_prop. simplify_eq.
  rewrite Z.div_mul by lia. split_and!; try lia; [apply Z.mod_mul; lia|].
  intros p Hp. apply Hfree. lia.
Qed.

Definition sandbox_example : option (sandbox_mem_t * vm) :=
  sandbox_mem_create 4096 mmap_above ∅ 100 5000 65536.

Lemma sandbox_memory_guarded_witness :
  match sandbox_example with
  | Some (m, v') => data_size m = 8192 /\ prot_of 4096 v' (data m - 1) = Some PROT_NONE /\
      (sandbox_mem_destroy 4096 (sandbox_seal_code 4096 v' m) m).2 = ∅
  | None => False
  end.
Proof.
  destruct sandbox_example as [[m v']|] eqn:E; [|vm_compute in E; congruence].
  pose proof (sandbox_memory_guarded 4096 mmap_above ∅ 100 5000 65536 m v' mmap_above_laws
    ltac:(lia) ltac:(lia) ltac:(lia) E) as (_ & _ & _ & _ & _ & _ & _ & Hd).
  split_and!; [| |exact Hd].
  - vm_compute in E. injection E as <- <-. reflexivity.
  - vm_compute in E. injection E as <- <-. vm_compute. reflexivity.
Defined.
