(* ===== verification/JitSandbox.v ===== *)
(** * The call into JIT-compiled code

    Models [jit_sandbox_call] of [src/jit_sandbox.c] and the trampoline
    [jit_trampoline_asm] of [src/jit_sandbox_amd64.S]: the guest registers are
    copied into a shadow register file inside guest memory, the native block
    runs on a stack of its own, and registers, results and the guest memory
    under the shadow are copied back.

    Memory is one flat array of bytes and every pointer an address in it, the
    local array of [jit_sandbox_call] on the C stack included ([saved]).  The
    native block is code the JIT has generated: a parameter, with the calling
    convention of the trampoline's comments as hypotheses ([jit_conforms]). *)

From S2P Require Import Prelude Strings.
Local Open Scope Z_scope.

(** ** Little-endian accesses *)

Fixpoint store_le (n : nat) (m : mem) (a v : Z) : mem :=
  match n with
  | O => m
  | S n => store_le n (upd m a (u8 v)) (a + 1) (Z.shiftr v 8)
  end.

Fixpoint load_le (n : nat) (m : mem) (a : Z) : Z :=
  match n with O => 0 | S n => m a + 256 * load_le n m (a + 1) end.

Abbreviation store64 := (store_le 8).
Abbreviation load64 := (load_le 8).
Abbreviation store32 := (store_le 4).
Abbreviation load32 := (load_le 4).

(** The library's [memcpy] and [memset] on objects that do not overlap. *)
Definition memcpy (m : mem) (dst src n : Z) : mem :=
  fun x => if (dst <=? x) && (x <? dst + n) then m (src + (x - dst)) else m x.
Definition memset (m : mem) (dst c n : Z) : mem :=
  fun x => if (dst <=? x) && (x <? dst + n) then c else m x.

(** ** The trampoline *)

(** The registers the trampoline saves, with the stack pointer. *)
Record cpu := mkCpu { rsp : Z; rbx : Z; rbp : Z; r12 : Z; r13 : Z; r14 : Z; r15 : Z }.

(** What a block finds in its argument registers. *)
Record jit_args := mkArgs { a_rdi : Z; a_rsi : Z; a_r8 : Z; a_r9 : Z; a_r15 : Z; a_rsp : Z }.

(** A native block, up to its RET: memory and registers after it. *)
Definition jit_code : Type := mem -> jit_args -> mem * cpu.

Definition push (m : mem) (c : cpu) (v : Z) : mem * cpu :=
  let sp := rsp c - 8 in
  (store64 m sp v, mkCpu sp (rbx c) (rbp c) (r12 c) (r13 c) (r14 c) (r15 c)).

(** Up to and including the call instruction, which pushes [ret]. *)
Definition tramp_enter (m : mem) (c : cpu) (ret sandbox_sp : Z) : mem * Z :=
  let '(m, c) := push m c (rbx c) in
  let '(m, c) := push m c (rbp c) in
  let '(m, c) := push m c (r12 c) in
  let '(m, c) := push m c (r13 c) in
  let '(m, c) := push m c (r14 c) in
  let '(m, c) := push m c (r15 c) in
  let rax := rsp c in
  let m := store64 m (sandbox_sp + 32) rax in
  let budget := load64 m (sandbox_sp + 24) in
  (store64 m (sandbox_sp - 8) ret, budget).

(** After the block's RET: the pops run in the reverse order of the pushes. *)
Definition tramp_leave (m : mem) (c : cpu) : mem * cpu :=
  let m := store64 m (rsp c + 24) (r15 c) in
  let sp := load64 m (rsp c + 32) in
  (m, mkCpu (sp + 48) (load64 m (sp + 40)) (load64 m (sp + 32)) (load64 m (sp + 24))
        (load64 m (sp + 16)) (load64 m (sp + 8)) (load64 m sp)).

Definition jit_trampoline_asm (m : mem) (c : cpu) (ret : Z) (fn : jit_code)
    (sret regfile memBase memMask sandbox_sp : Z) : mem * cpu :=
  let '(m, budget) := tramp_enter m c ret sandbox_sp in
  let '(m, c) := fn m (mkArgs sret regfile memBase memMask budget (sandbox_sp - 8)) in
  tramp_leave m c.

(** ** jit_sandbox_call *)

Abbreviation SHADOW_REG_SIZE := 536.
Abbreviation RF_MEMBASE_OFF := 520.
Abbreviation RF_MEMMASK_OFF := 528.

Record JitResult := mkResult { pc : Z; status : Z; fault_addr : Z; ic : Z }.

(** The arguments of the call; pointers are addresses. *)
Record call_args := mkCall {
  go_x : Z; go_f : Z; go_fcsr : Z; mem_base : Z; mem_mask : Z; reg_file : Z;
  sandbox_stack_top : Z; dc_base : Z; dc_mask : Z; vaddr_begin : Z; seg_size : Z;
  resv_addr : Z; resv_valid : Z; budget : Z }.

Definition sret_of (k : call_args) : Z := sandbox_stack_top k - 160.

(** Go's registers into the shadow register file. *)
Definition jit_shadow (m : mem) (k : call_args) : mem :=
  let rf := reg_file k in
  let m := memcpy m rf (go_x k) 256 in
  let m := memcpy m (rf + 256) (go_f k) 256 in
  let m := store32 m (rf + 512) (load32 m (go_fcsr k)) in
  let m := store64 m (rf + RF_MEMBASE_OFF) (mem_base k) in
  store64 m (rf + RF_MEMMASK_OFF) (mem_mask k).

(** The sret buffer. *)
Definition jit_sret (m : mem) (k : call_args) : mem :=
  let sret := sret_of k in
  let m := memset m sret 0 160 in
  let m := store64 m (sret + 24) (budget k) in
  let m := store64 m (sret + 80) (u64 (reg_file k + 512)) in
  let m := store64 m (sret + 88) (dc_base k) in
  let m := store64 m (sret + 96) (dc_mask k) in
  let m := store64 m (sret + 104) (vaddr_begin k) in
  let m := store64 m (sret + 112) (seg_size k) in
  let m := store64 m (sret + 144) (load64 m (resv_addr k)) in
  store64 m (sret + 152) (load64 m (resv_valid k)).

Definition jit_setup (m : mem) (k : call_args) : mem := jit_sret (jit_shadow m k) k.

(** The reservation and the registers back to Go. *)
Definition jit_copy_back (m : mem) (k : call_args) : mem :=
  let rf := reg_file k in
  let sret := sret_of k in
  let m := store64 m (resv_addr k) (load64 m (sret + 144)) in
  let m := store64 m (resv_valid k) (load64 m (sret + 152)) in
  let m := memcpy m (go_x k) rf 256 in
  let m := memcpy m (go_f k) (rf + 256) 256 in
  store32 m (go_fcsr k) (load32 m (rf + 512)).

(** The part after the trampoline; [saved] is the address of the copy of the bytes
    under the shadow. *)
Definition jit_finish (m : mem) (k : call_args) (saved : Z) : JitResult * mem :=
  let rf := reg_file k in
  let sret := sret_of k in
  let remaining := load64 m (sret + 24) in
  let result := mkResult (load64 m sret) (load64 m (sret + 8)) (load64 m (sret + 16))
    (if remaining <=? budget k then budget k - remaining else 0) in
  let m := jit_copy_back m k in
  (result, memcpy m rf saved SHADOW_REG_SIZE).

(** [saved] is where the compiler has put the array of that name in the frame of
    the function. *)
Definition jit_sandbox_call (m : mem) (c : cpu) (ret saved : Z) (fn : jit_code) (k : call_args)
  : JitResult * mem * cpu :=
  let m := memcpy m saved (reg_file k) SHADOW_REG_SIZE in
  let m := jit_setup m k in
  let '(m, c) := jit_trampoline_asm m c ret fn (sret_of k) (reg_file k) (mem_base k)
                   (mem_mask k) (sret_of k) in
  let '(r, m) := jit_finish m k saved in
  (r, m, c).

(** ** Framing *)

Definition agree (m m' : mem) (a n : Z) : Prop := forall x, a <= x < a + n -> m x = m' x.
Definition apart (a n b k : Z) : Prop := a + n <= b \/ b + k <= a.
Definition bytes (m : mem) : Prop := forall x, 0 <= m x < 256.

Lemma apart_sub a n b k a' n' b' k' :
  apart a n b k -> a <= a' -> a' + n' <= a + n -> b <= b' -> b' + k' <= b + k -> apart a' n' b' k'.
Proof. unfold apart. lia. Qed.

Lemma apart_sym a n b k : apart a n b k -> apart b k a n.
Proof. unfold apart. lia. Qed.

Lemma store_le_out n : forall m a v x,
  ~ (a <= x < a + Z.of_nat n) -> store_le n m a v x = m x.
Proof.
  induction n as [|n IH]; intros m a v x Hx; [done|]. cbn [store_le].
  rewrite IH by lia. apply upd_ne. lia.
Qed.

Lemma load_ext n : forall m m' a, agree m m' a (Z.of_nat n) -> load_le n m a = load_le n m' a.
Proof.
  induction n as [|n IH]; intros m m' a H; [done|]. cbn [load_le].
  rewrite (H a) by lia. do 2 f_equal. apply IH. intros x Hx. apply H. lia.
Qed.

Lemma store_le_agree n m a v b k : apart a (Z.of_nat n) b k -> agree (store_le n m a v) m b k.
Proof. unfold apart. intros H x Hx. apply store_le_out. lia. Qed.

Lemma load_store_apart k n m a v b :
  apart a (Z.of_nat n) b (Z.of_nat k) -> load_le k (store_le n m a v) b = load_le k m b.
Proof. intros. by apply load_ext, store_le_agree. Qed.

Lemma load_store_same n : forall m a v,
  in_range (8 * Z.of_nat n) v -> load_le n (store_le n m a v) a = v.
Proof.
  induction n as [|n IH]; intros m a v Hv; unfold in_range in *.
  { simpl in *. lia. }
  cbn [load_le store_le]. rewrite store_le_out by lia. rewrite upd_eq by done.
  rewrite IH.
  - rewrite Z.shiftr_div_pow2 by lia. unfold wrap. pose proof (Z.div_mod v (2 ^ 8)). lia.
  - unfold in_range. rewrite Z.shiftr_div_pow2 by lia.
    replace (2 ^ (8 * Z.of_nat (S n))) with (2 ^ 8 * 2 ^ (8 * Z.of_nat n)) in Hv
      by (rewrite <- Z.pow_add_r by lia; f_equal; lia).
    split; [apply Z.div_pos; lia|]. apply Z.div_lt_upper_bound; lia.
Qed.

Lemma load_range n : forall m a, bytes m -> in_range (8 * Z.of_nat n) (load_le n m a).
Proof.
  unfold in_range. induction n as [|n IH]; intros m a Hm; [simpl; lia|]. cbn [load_le].
  specialize (IH m (a + 1) Hm). pose proof (Hm a).
  replace (2 ^ (8 * Z.of_nat (S n))) with (2 ^ 8 * 2 ^ (8 * Z.of_nat n))
    by (rewrite <- Z.pow_add_r by lia; f_equal; lia). lia.
Qed.

Lemma bytes_store n : forall m a v, bytes m -> bytes (store_le n m a v).
Proof.
  induction n as [|n IH]; intros m a v Hm; [done|]. apply IH. intros x. unfold upd.
  case_bool; [apply (wrap_range 8); lia|apply Hm].
Qed.

Lemma bytes_memcpy m d s n : bytes m -> bytes (memcpy m d s n).
Proof. intros Hm x. unfold memcpy. case_bool; apply Hm. Qed.

Lemma bytes_memset m d n : bytes m -> bytes (memset m d 0 n).
Proof. intros Hm x. unfold memset. case_bool; [lia|apply Hm]. Qed.

Lemma memcpy_agree m d s n b k : apart d n b k -> agree (memcpy m d s n) m b k.
Proof. unfold apart, memcpy. intros H x Hx. case_bool; bool_to_prop; [lia|done]. Qed.

Lemma memcpy_at m d s n i : 0 <= i < n -> memcpy m d s n (d + i) = m (s + i).
Proof. intros H. unfold memcpy. case_bool; bool_to_prop; [f_equal; lia|lia]. Qed.

Lemma memset_agree m d n b k : apart d n b k -> agree (memset m d 0 n) m b k.
Proof. unfold apart, memset. intros H x Hx. case_bool; bool_to_prop; [lia|done]. Qed.

Lemma agree_trans m1 m2 m3 a n : agree m1 m2 a n -> agree m2 m3 a n -> agree m1 m3 a n.
Proof. intros H1 H2 x Hx. by rewrite H1, H2. Qed.

Lemma agree_at m m' a n i : agree m m' a n -> 0 <= i < n -> m (a + i) = m' (a + i).
Proof. intros H Hi. apply H. lia. Qed.

Ltac all_bytes :=
  repeat match goal with
  | |- bytes (store_le _ _ _ _) => apply bytes_store
  | |- bytes (memcpy _ _ _ _) => apply bytes_memcpy
  | |- bytes (memset _ _ _ _) => apply bytes_memset
  end; assumption.

(** Two areas are apart by a hypothesis about areas that hold them, or because
    they are at known offsets of one another. *)
Ltac sep :=
  first
    [ by unfold apart; lia
    | match goal with
      | H : apart _ _ _ _ |- apart _ _ _ _ =>
          solve [eapply apart_sub; [exact H|lia..] | eapply apart_sub; [apply apart_sym, H|lia..]]
      end ].

(** Peels the writes off a memory, one agreement at a time. *)
Ltac peel :=
  repeat first
    [ solve [intros ? ?; reflexivity]
    | eapply agree_trans; [first [apply store_le_agree; sep | apply memcpy_agree; sep | apply memset_agree; sep]|] ].

(** ** What the call does *)

(** The areas of memory the call works on. *)
Definition areas (c : cpu) (saved : Z) (k : call_args) : list (Z * Z) :=
  [(saved, 536); (reg_file k, 536); (sret_of k - 8, 168); (go_x k, 256); (go_f k, 256); (go_fcsr k, 4);
   (resv_addr k, 8); (resv_valid k, 8); (rsp c - 48, 48)].

Definition separate (l : list (Z * Z)) : Prop :=
  ForallOrdPairs (fun p q => apart p.1 p.2 q.1 q.2) l.

(** [x] belongs to none of the areas. *)
Definition outside (l : list (Z * Z)) (x : Z) : Prop := Forall (fun p => apart p.1 p.2 x 1) l.

Ltac open_areas H :=
  unfold separate, outside, areas in H;
  repeat match goal with
  | H : ForallOrdPairs _ (_ :: _) |- _ => inversion_clear H
  | H : Forall _ (_ :: _) |- _ => apply Forall_cons in H as [? H]
  | H : Forall _ [] |- _ => clear H
  | H : ForallOrdPairs _ [] |- _ => clear H
  end; cbn [fst snd] in *.

Record args_ok (k : call_args) : Prop := {
  ak_base : in_range 64 (mem_base k); ak_mask : in_range 64 (mem_mask k);
  ak_dcb : in_range 64 (dc_base k); ak_dcm : in_range 64 (dc_mask k);
  ak_vb : in_range 64 (vaddr_begin k); ak_seg : in_range 64 (seg_size k);
  ak_budget : in_range 64 (budget k) }.

(** The memory a block is entered with: Go's registers in the shadow register
    file, and the sret buffer filled in. *)
Record entry_ok (m m_in : mem) (k : call_args) : Prop := {
  en_x i : 0 <= i < 256 -> m_in (reg_file k + i) = m (go_x k + i);
  en_f i : 0 <= i < 256 -> m_in (reg_file k + 256 + i) = m (go_f k + i);
  en_fcsr : load32 m_in (reg_file k + 512) = load32 m (go_fcsr k);
  en_base : load64 m_in (reg_file k + 520) = mem_base k;
  en_mask : load64 m_in (reg_file k + 528) = mem_mask k;
  en_budget : load64 m_in (sret_of k + 24) = budget k;
  en_pfcsr : load64 m_in (sret_of k + 80) = u64 (reg_file k + 512);
  en_dcb : load64 m_in (sret_of k + 88) = dc_base k;
  en_dcm : load64 m_in (sret_of k + 96) = dc_mask k;
  en_vb : load64 m_in (sret_of k + 104) = vaddr_begin k;
  en_seg : load64 m_in (sret_of k + 112) = seg_size k;
  en_resv : load64 m_in (sret_of k + 144) = load64 m (resv_addr k);
  en_valid : load64 m_in (sret_of k + 152) = load64 m (resv_valid k) }.

Ltac load_known := repeat rewrite load_store_apart by sep; apply load_store_same.

Lemma bytes_shadow m k : bytes m -> bytes (jit_shadow m k).
Proof. intros. unfold jit_shadow. all_bytes. Qed.

Lemma shadow_frame m k b n : apart (reg_file k) 536 b n -> agree (jit_shadow m k) m b n.
Proof. intros H. unfold jit_shadow. cbv zeta. peel. Qed.

Lemma sret_frame m k b n : apart (sret_of k - 8) 168 b n -> agree (jit_sret m k) m b n.
Proof. intros H. unfold jit_sret. cbv zeta. peel. Qed.

Lemma setup_entry m c saved k :
  bytes m -> separate (areas c saved k) -> args_ok k -> entry_ok m (jit_setup m k) k.
Proof.
  intros Hm Hs []. open_areas Hs. unfold jit_setup.
  assert (forall b n, apart (sret_of k - 8) 168 b n -> forall i, 0 <= i < n ->
    jit_sret (jit_shadow m k) k (b + i) = jit_shadow m k (b + i)) as Hout.
  { intros b n Hb i Hi. by apply (agree_at _ _ _ n); [apply sret_frame|]. }
  assert (forall (n : nat) b, apart (sret_of k - 8) 168 b (Z.of_nat n) ->
    load_le n (jit_sret (jit_shadow m k) k) b = load_le n (jit_shadow m k) b) as Hload.
  { intros n b Hb. by apply load_ext, sret_frame. }
  pose proof (bytes_shadow m k Hm) as Hmb. split.
  - intros i Hi. rewrite (Hout _ 256) by (sep || lia). unfold jit_shadow.
    rewrite (agree_at _ (memcpy m (reg_file k) (go_x k) 256) _ 256 i) by (lia || peel). by apply memcpy_at.
  - intros i Hi. rewrite (Hout _ 256) by (sep || lia). unfold jit_shadow.
    rewrite (agree_at _ (memcpy (memcpy m (reg_file k) (go_x k) 256) (reg_file k + 256) (go_f k) 256) _ 256 i)
      by (lia || peel).
    rewrite memcpy_at by done. apply (agree_at _ _ _ 256); [peel|lia].
  - rewrite Hload by sep. unfold jit_shadow. cbv zeta.
    rewrite !load_store_apart by sep.
    rewrite load_store_same by (apply load_range; all_bytes). apply load_ext. peel.
  - rewrite Hload by sep. unfold jit_shadow. by load_known.
  - rewrite Hload by sep. unfold jit_shadow. by load_known.
  - unfold jit_sret. by load_known.
  - unfold jit_sret. load_known. apply (wrap_range 64). lia.
  - unfold jit_sret. by load_known.
  - unfold jit_sret. by load_known.
  - unfold jit_sret. by load_known.
  - unfold jit_sret. by load_known.
  - unfold jit_sret. cbv zeta. rewrite load_store_apart by sep.
    rewrite load_store_same by (apply load_range; all_bytes).
    etransitivity; [apply (load_ext 8 _ (jit_shadow m k)); peel|]. apply load_ext, shadow_frame. sep.
  - unfold jit_sret. cbv zeta. rewrite load_store_same by (apply load_range; all_bytes).
    etransitivity; [apply (load_ext 8 _ (jit_shadow m k)); peel|]. apply load_ext, shadow_frame. sep.
Qed.

(** ** The trampoline keeps the caller's registers *)

Record cpu_ok (c : cpu) : Prop := {
  ck_rsp : 48 <= rsp c < 2 ^ 64;
  ck_rbx : in_range 64 (rbx c); ck_rbp : in_range 64 (rbp c); ck_r12 : in_range 64 (r12 c);
  ck_r13 : in_range 64 (r13 c); ck_r14 : in_range 64 (r14 c); ck_r15 : in_range 64 (r15 c) }.

(** The stack frame of the trampoline and the stashed stack pointer. *)
Record frame_ok (m : mem) (c : cpu) (sret : Z) : Prop := {
  fr_sp : load64 m (sret + 32) = rsp c - 48;
  fr_rbx : load64 m (rsp c - 8) = rbx c; fr_rbp : load64 m (rsp c - 16) = rbp c;
  fr_r12 : load64 m (rsp c - 24) = r12 c; fr_r13 : load64 m (rsp c - 32) = r13 c;
  fr_r14 : load64 m (rsp c - 40) = r14 c; fr_r15 : load64 m (rsp c - 48) = r15 c }.

(** The argument registers of a block. *)
Definition jit_args_of (k : call_args) : jit_args :=
  mkArgs (sret_of k) (reg_file k) (mem_base k) (mem_mask k) (budget k) (sret_of k - 8).

(** The calling convention of the generated code: it returns with the stack
    pointer it was entered with (less the popped return address), never touches
    bytes 32 to 79 of the sret buffer nor the system stack (the registers the
    trampoline has pushed there, and the array [saved]), and machine state stays
    machine state. *)
Definition jit_conforms (c : cpu) (saved : Z) (fn : jit_code) (k : call_args) : Prop :=
  forall m, bytes m ->
    let '(m', c') := fn m (jit_args_of k) in
    bytes m' /\ rsp c' = sret_of k /\ in_range 64 (r15 c') /\
    agree m' m (sret_of k + 32) 48 /\ agree m' m (rsp c - 48) 48 /\ agree m' m saved SHADOW_REG_SIZE.

Lemma enter_frame m c ret sret :
  cpu_ok c -> apart (sret - 8) 168 (rsp c - 48) 48 -> in_range 64 (load64 m (sret + 24)) ->
  let '(m', b) := tramp_enter m c ret sret in
  frame_ok m' c sret /\ b = load64 m (sret + 24) /\
  (forall a n, apart (sret + 32) 8 a n -> apart (sret - 8) 8 a n -> apart (rsp c - 48) 48 a n ->
   agree m' m a n).
Proof.
  intros [] Hap Hb. unfold tramp_enter, push. cbn [rsp rbx rbp r12 r13 r14 r15].
  replace (rsp c - 8 - 8 - 8 - 8 - 8 - 8) with (rsp c - 48) by lia.
  replace (rsp c - 8 - 8 - 8 - 8 - 8) with (rsp c - 40) by lia.
  replace (rsp c - 8 - 8 - 8 - 8) with (rsp c - 32) by lia.
  replace (rsp c - 8 - 8 - 8) with (rsp c - 24) by lia.
  replace (rsp c - 8 - 8) with (rsp c - 16) by lia.
  split_and!.
  - split; load_known; unfold in_range in *; lia.
  - by rewrite !load_store_apart by sep.
  - intros a n H1 H2 H3. peel.
Qed.

Lemma leave_frame m m' c c' sret :
  frame_ok m c sret -> rsp c' = sret -> apart (sret - 8) 168 (rsp c - 48) 48 ->
  agree m' m (sret + 32) 48 -> agree m' m (rsp c - 48) 48 ->
  tramp_leave m' c' = (store64 m' (sret + 24) (r15 c'), c).
Proof.
  intros [] Hsp Hap H1 H2. unfold tramp_leave. rewrite Hsp. f_equal.
  assert (forall a, sret + 32 <= a <= sret + 72 \/ rsp c - 48 <= a <= rsp c - 8 ->
    load64 (store64 m' (sret + 24) (r15 c')) a = load64 m a) as Hl.
  { intros a Ha. transitivity (load64 m' a).
    - apply load_store_apart. destruct Ha; sep.
    - apply load_ext. intros x Hx. destruct Ha; [apply H1|apply H2]; lia. }
  rewrite (Hl (sret + 32)) by lia. rewrite fr_sp0.
  replace (rsp c - 48 + 40) with (rsp c - 8) by lia. replace (rsp c - 48 + 32) with (rsp c - 16) by lia.
  replace (rsp c - 48 + 24) with (rsp c - 24) by lia. replace (rsp c - 48 + 16) with (rsp c - 32) by lia.
  replace (rsp c - 48 + 8) with (rsp c - 40) by lia. replace (rsp c - 48 + 48) with (rsp c) by lia.
  rewrite !Hl by lia. destruct c; simpl in *. congruence.
Qed.

Lemma entry_agree m m1 m2 k :
  entry_ok m m1 k -> agree m2 m1 (reg_file k) 536 -> agree m2 m1 (sret_of k + 24) 8 ->
  agree m2 m1 (sret_of k + 80) 80 -> entry_ok m m2 k.
Proof.
  intros [] H1 H2 H3.
  assert (forall (n : nat) a, reg_file k <= a -> a + Z.of_nat n <= reg_file k + 536 ->
    load_le n m2 a = load_le n m1 a) as L1 by (intros; apply load_ext; intros x Hx; apply H1; lia).
  assert (forall (n : nat) a, sret_of k + 80 <= a -> a + Z.of_nat n <= sret_of k + 160 ->
    load_le n m2 a = load_le n m1 a) as L2 by (intros; apply load_ext; intros x Hx; apply H3; lia).
  split; try (rewrite ?L1, ?L2 by lia; assumption).
  - intros i Hi. rewrite H1 by lia. auto.
  - intros i Hi. rewrite H1 by lia. auto.
  - rewrite (load_ext 8 m2 m1) by done. done.
Qed.

(** What Go gets back, given the memory [m] left by the trampoline. *)
Record exit_ok (m m' : mem) (k : call_args) : Prop := {
  ex_x i : 0 <= i < 256 -> m' (go_x k + i) = m (reg_file k + i);
  ex_f i : 0 <= i < 256 -> m' (go_f k + i) = m (reg_file k + 256 + i);
  ex_fcsr : load32 m' (go_fcsr k) = load32 m (reg_file k + 512);
  ex_resv : load64 m' (resv_addr k) = load64 m (sret_of k + 144);
  ex_valid : load64 m' (resv_valid k) = load64 m (sret_of k + 152) }.

Lemma copy_back_spec m c saved k :
  bytes m -> separate (areas c saved k) -> exit_ok m (jit_copy_back m k) k.
Proof.
  intros Hm Hs. open_areas Hs. unfold jit_copy_back. cbv zeta.
  set (m1 := store64 m (resv_addr k) _). set (m2 := store64 m1 (resv_valid k) _).
  set (m3 := memcpy m2 (go_x k) _ _). set (m4 := memcpy m3 (go_f k) _ _).
  assert (forall a n, apart (resv_addr k) 8 a n -> apart (resv_valid k) 8 a n -> agree m2 m a n) as A2
    by (intros; unfold m2, m1; peel).
  split.
  - intros i Hi. rewrite (agree_at _ m3 _ 256 i) by (lia || (unfold m4; peel)). unfold m3.
    rewrite memcpy_at by done. apply (agree_at _ _ _ 256); [apply A2; sep|lia].
  - intros i Hi. rewrite (agree_at _ m4 _ 256 i) by (lia || peel). unfold m4.
    rewrite memcpy_at by done. rewrite (agree_at _ m2 _ 256 i) by (lia || (unfold m3; peel)).
    apply (agree_at _ _ _ 256); [apply A2; sep|lia].
  - rewrite load_store_same by (apply load_range; unfold m4, m3, m2, m1; all_bytes).
    transitivity (load32 m2 (reg_file k + 512)); apply load_ext; [unfold m4, m3; peel|apply A2; sep].
  - transitivity (load64 m1 (resv_addr k)); [apply load_ext; unfold m4, m3, m2; peel|].
    apply load_store_same, load_range, Hm.
  - transitivity (load64 m2 (resv_valid k)); [apply load_ext; unfold m4, m3; peel|].
    unfold m2. rewrite load_store_same by (apply load_range; unfold m1; all_bytes).
    apply load_ext. unfold m1. peel.
Qed.

(** Restoring the bytes under the shadow touches nothing Go gets back. *)
Lemma exit_restore m m' m'' c saved k :
  separate (areas c saved k) -> (forall x, ~ reg_file k <= x < reg_file k + 536 -> m'' x = m' x) ->
  exit_ok m m' k -> exit_ok m m'' k.
Proof.
  intros Hs Hr []. open_areas Hs.
  assert (forall a n, apart (reg_file k) 536 a n -> agree m'' m' a n) as Ha.
  { unfold apart. intros a n Han x Hx. apply Hr. lia. }
  split.
  - intros i Hi. rewrite (agree_at _ m' _ 256 i) by (lia || (apply Ha; sep)). auto.
  - intros i Hi. rewrite (agree_at _ m' _ 256 i) by (lia || (apply Ha; sep)). auto.
  - rewrite (load_ext 4 m'' m'); [done|apply Ha; sep].
  - rewrite (load_ext 8 m'' m'); [done|apply Ha; sep].
  - rewrite (load_ext 8 m'' m'); [done|apply Ha; sep].
Qed.

Lemma exit_source m m1 m' k :
  exit_ok m1 m' k -> agree m1 m (reg_file k) 536 -> agree m1 m (sret_of k + 144) 16 -> exit_ok m m' k.
Proof.
  intros [] H1 H2. split.
  - intros i Hi. rewrite ex_x0 by done. apply H1. lia.
  - intros i Hi. rewrite ex_f0 by done. apply H1. lia.
  - rewrite ex_fcsr0. apply load_ext. intros x Hx. apply H1. lia.
  - rewrite ex_resv0. apply load_ext. intros x Hx. apply H2. lia.
  - rewrite ex_valid0. apply load_ext. intros x Hx. apply H2. lia.
Qed.

Lemma copy_back_frame m k x :
  apart (resv_addr k) 8 x 1 -> apart (resv_valid k) 8 x 1 -> apart (go_x k) 256 x 1 -> apart (go_f k) 256 x 1 -> apart (go_fcsr k) 4 x 1 ->
  jit_copy_back m k x = m x.
Proof.
  intros H1 H2 H3 H4 H5. assert (agree (jit_copy_back m k) m x 1) as H; [|apply H; lia].
  unfold jit_copy_back. cbv zeta. peel.
Qed.

(** The memory a block runs on. *)
Definition jit_entry (m : mem) (c : cpu) (ret saved : Z) (k : call_args) : mem :=
  (tramp_enter (jit_setup (memcpy m saved (reg_file k) SHADOW_REG_SIZE) k) c ret (sret_of k)).1.

(** The copy of the bytes under the shadow hides none of what Go hands over. *)
Lemma entry_saved m m_in c saved k :
  separate (areas c saved k) -> entry_ok (memcpy m saved (reg_file k) SHADOW_REG_SIZE) m_in k -> entry_ok m m_in k.
Proof.
  intros Hs []. open_areas Hs. set (m0 := memcpy _ _ _ _) in *.
  assert (forall a n, apart saved 536 a n -> agree m0 m a n) as Ha by (intros; unfold m0; peel).
  split; try assumption.
  - intros i Hi. rewrite en_x0 by done. apply (agree_at _ _ _ 256); [apply Ha; sep|lia].
  - intros i Hi. rewrite en_f0 by done. apply (agree_at _ _ _ 256); [apply Ha; sep|lia].
  - rewrite en_fcsr0. apply load_ext, Ha. sep.
  - rewrite en_resv0. apply load_ext, Ha. sep.
  - rewrite en_valid0. apply load_ext, Ha. sep.
Qed.

Lemma bytes_setup m k : bytes m -> bytes (jit_setup m k).
Proof.
  intros Hm. unfold jit_setup, jit_sret. cbv zeta. pose proof (bytes_shadow m k Hm). all_bytes.
Qed.

Lemma bytes_enter m c ret sret : bytes m -> bytes (tramp_enter m c ret sret).1.
Proof. intros Hm. unfold tramp_enter, push. cbn [fst]. all_bytes. Qed.

Lemma entry_spec m c ret saved k :
  bytes m -> cpu_ok c -> args_ok k -> separate (areas c saved k) ->
  let m0 := memcpy m saved (reg_file k) SHADOW_REG_SIZE in let m_in := jit_entry m c ret saved k in
  tramp_enter (jit_setup m0 k) c ret (sret_of k) = (m_in, budget k) /\
  bytes m_in /\ entry_ok m m_in k /\ frame_ok m_in c (sret_of k) /\ agree m_in m0 saved SHADOW_REG_SIZE /\
  forall x, outside (areas c saved k) x -> m_in x = m x.
Proof.
  intros Hm Hc Ha Hs m0 m_in. assert (bytes m0) as Hm0 by (unfold m0; all_bytes).
  pose proof (setup_entry m0 c saved k Hm0 Hs Ha) as He. pose proof Hs as Hs'. open_areas Hs.
  pose proof (enter_frame (jit_setup m0 k) c ret (sret_of k) Hc ltac:(sep)) as Hf.
  rewrite (en_budget _ _ _ He) in Hf. specialize (Hf (ak_budget _ Ha)).
  unfold m_in, jit_entry. fold m0. destruct (tramp_enter _ _ _ _) as [m1 b] eqn:E. destruct Hf as (Hfr & -> & Hag).
  assert (forall a n, apart (reg_file k) 536 a n -> apart (sret_of k - 8) 168 a n -> apart (rsp c - 48) 48 a n -> agree m1 m0 a n) as Hout.
  { intros a n H1 H2 H3. eapply agree_trans; [apply Hag; [sep..|exact H3]|]. unfold jit_setup.
    eapply agree_trans; [by apply sret_frame|by apply shadow_frame]. }
  cbn [fst]. split_and!; [done| | |done| |].
  - change m1 with (m1, budget k).1. rewrite <- E. by apply bytes_enter, bytes_setup.
  - apply (entry_saved _ _ c saved); [done|]. apply (entry_agree _ (jit_setup m0 k)); [done|apply Hag; sep..].
  - apply Hout; sep.
  - intros x Hx. open_areas Hx. rewrite (Hout x 1) by (done || lia). assert (agree m0 m x 1) as Hx; [|apply Hx; lia]. unfold m0. peel.
Qed.

(** C12: whatever the generated code does within its calling convention,
    [jit_sandbox_call] enters it with Go's registers, the reservation and the
    budget in place, hands the registers and results it leaves back to Go,
    charges between zero and the budget, returns with all registers of the C
    caller intact, and restores the guest memory under the shadow register
    file.  Outside the areas it works on, the block finds the memory of the caller
    and the caller the memory the block leaves. *)
Theorem jit_call_correct m c ret saved fn k :
  bytes m -> cpu_ok c -> args_ok k -> separate (areas c saved k) -> jit_conforms c saved fn k ->
  let '(m_out, c_out) := fn (jit_entry m c ret saved k) (jit_args_of k) in
  let '(r, m', c') := jit_sandbox_call m c ret saved fn k in
  entry_ok m (jit_entry m c ret saved k) k /\ exit_ok m_out m' k /\ c' = c /\
  agree m' m (reg_file k) SHADOW_REG_SIZE /\
  (forall x, outside (areas c saved k) x -> jit_entry m c ret saved k x = m x /\ m' x = m_out x) /\
  pc r = load64 m_out (sret_of k) /\ status r = load64 m_out (sret_of k + 8) /\
  fault_addr r = load64 m_out (sret_of k + 16) /\
  ic r = Z.max 0 (budget k - r15 c_out) /\ 0 <= ic r <= budget k.
Proof.
  intros Hm Hc Ha Hs Hj. destruct (entry_spec m c ret saved k Hm Hc Ha Hs) as (Ee & Hbe & Hen & Hfr & Hsv & Hfo).
  pose proof (Hj (jit_entry m c ret saved k) Hbe) as Hjm.
  unfold jit_sandbox_call, jit_trampoline_asm. rewrite Ee. fold (jit_args_of k).
  destruct (fn (jit_entry m c ret saved k) (jit_args_of k)) as [m_out c_out].
  destruct Hjm as (Hbo & Hsp & Hr15 & G1 & G2 & G3). pose proof Hs as Hs'. open_areas Hs'.
  rewrite (leave_frame _ m_out c c_out _ Hfr Hsp ltac:(sep) G1 G2).
  set (m3 := store64 m_out (sret_of k + 24) (r15 c_out)). unfold jit_finish. cbv zeta.
  assert (load64 m3 (sret_of k + 24) = r15 c_out) as -> by (by apply load_store_same).
  pose proof (copy_back_spec m3 c saved k ltac:(by apply bytes_store) Hs) as Hcb.
  unfold in_range in Hr15. pose proof (ak_budget _ Ha) as Hbud. unfold in_range in Hbud.
  cbn [pc status fault_addr ic]. split_and!.
  - done.
  - apply (exit_source _ m3); [|unfold m3; peel..].
    eapply exit_restore; [exact Hs| |exact Hcb]. intros x Hx. unfold memcpy. case_bool; bool_to_prop; [lia|done].
  - done.
  - intros x Hx. replace x with (reg_file k + (x - reg_file k)) by lia. rewrite memcpy_at by lia.
    assert (agree m3 m_out saved 536) as A3 by (unfold m3; peel).
    rewrite copy_back_frame by sep. rewrite A3, G3, Hsv by lia. apply memcpy_at. lia.
  - intros x Hx. split; [by apply Hfo|]. open_areas Hx. rewrite (memcpy_agree _ _ _ _ x 1) by (done || lia).
    rewrite copy_back_frame by done. apply (store_le_agree _ _ _ _ x 1); [sep|lia].
  - apply load_store_apart. sep.
  - apply load_store_apart. sep.
  - apply load_store_apart. sep.
  - case_bool; bool_to_prop; lia.
  - case_bool; bool_to_prop; lia.
  - case_bool; bool_to_prop; lia.
Qed.

(** ** Example *)

(** A block that adds one to [x5], reports pc 0x1234 and uses one instruction
    of the budget. *)
Definition incr_block : jit_code := fun m a =>
  let m := store64 m (a_rsi a + 40) (u64 (load64 m (a_rsi a + 40) + 1)) in
  (store64 m (a_rdi a) 0x1234, mkCpu (a_rsp a + 8) 1 2 3 4 5 (u64 (a_r15 a - 1))).

Definition call_example : call_args :=
  mkCall 0xc000 0xc100 0xc200 0x10000 0xffff 0x11000 0x20000 0 0 0 0 0xc300 0xc308 100.
Definition cpu_example : cpu := mkCpu 0x7f000 11 12 13 14 15 16.
Definition mem_example : mem := fun x => x mod 251.

Lemma incr_conforms : jit_conforms cpu_example 0x7f080 incr_block call_example.
Proof.
  intros m Hm. cbn [incr_block]. unfold incr_block, jit_args_of.
  cbn [a_rsi a_rdi a_rsp a_r15]. split_and!.
  - all_bytes.
  - reflexivity.
  - apply (wrap_range 64). lia.
  - change (sret_of call_example) with 0x1ff60. change (reg_file call_example) with 0x11000. peel.
  - change (sret_of call_example) with 0x1ff60. change (reg_file call_example) with 0x11000.
    change (rsp cpu_example) with 0x7f000. peel.
  - change (sret_of call_example) with 0x1ff60. change (reg_file call_example) with 0x11000. peel.
Qed.

Lemma areas_example : separate (areas cpu_example 0x7f080 call_example).
Proof.
  unfold separate, areas.
  repeat first [apply FOP_nil | apply FOP_cons | apply Forall_nil_2 | apply Forall_cons_2];
    unfold apart, sret_of; cbn; lia.
Qed.

Lemma jit_call_correct_witness :
  let '(r, m', c') := jit_sandbox_call mem_example cpu_example 0 0x7f080 incr_block call_example in
  c' = cpu_example /\ pc r = 0x1234 /\ ic r = 1 /\
  load64 m' (0xc000 + 40) = u64 (load64 mem_example (0xc000 + 40) + 1) /\ load64 m' 0x11028 = load64 mem_example 0x11028.
Proof.
  pose proof (jit_call_correct mem_example cpu_example 0 0x7f080 incr_block call_example) as H.
  assert (bytes mem_example) as Hm by (intros x; unfold mem_example; pose proof (Z.mod_pos_bound x 251); lia).
  specialize (H Hm). specialize (H ltac:(split; unfold in_range; simpl; lia)).
  specialize (H ltac:(split; unfold in_range; simpl; lia)).
  specialize (H areas_example incr_conforms).
  destruct (incr_block _ _) as [m_out c_out] eqn:E.
  destruct (jit_sandbox_call _ _ _ _ _ _) as [[r m'] c'] eqn:E'.
  destruct H as (_ & _ & Hc & _). split; [exact Hc|].
  assert (pc (jit_sandbox_call mem_example cpu_example 0 0x7f080 incr_block call_example).1.1 = 0x1234 /\
    ic (jit_sandbox_call mem_example cpu_example 0 0x7f080 incr_block call_example).1.1 = 1 /\
    load64 (jit_sandbox_call mem_example cpu_example 0 0x7f080 incr_block call_example).1.2 (0xc000 + 40) =
    u64 (load64 mem_example (0xc000 + 40) + 1) /\
    load64 (jit_sandbox_call mem_example cpu_example 0 0x7f080 incr_block call_example).1.2 0x11028 = load64 mem_example 0x11028) as Hx by (split_and!; vm_compute; reflexivity).
  rewrite E' in Hx. exact Hx.
Defined.
